(* ===== verification/_CoqProject ===== *)
-Q . S2P
Prelude.v
Bytes.v
Crc.v
Writers.v
Extent.v
Device.v
SparseDev.v
SafeIO.v
Superblock.v
Refcount.v
Inode.v
FileRead.v
Dir.v
SfDir.v
Delete.v
Lookup.v
OpenFile.v
AgBlocks.v
Zones.v
AllocTree.v
Alloc.v
AllocLeaf.v
AllocSpec.v
FreeSpec.v
FileWrite.v
FileWriteSpec.v
AllocGuard.v
InodeAlloc.v
InodeSpec.v
LeafDir.v
LeafDirSpec.v
LeafTree.v
DirUpdate.v
DirUpdateSpec.v
Namespace.v
Attr.v
AttrSpec.v
TruncateSpec.v
OverwriteSpec.v
Quota.v
Format.v
FormatSpec.v
SuperblockSpec.v
FreshInode.v
QuotaSpec.v
Fs.v
ImageSpec.v
FsSpec.v
FilesSpec.v
