(* ===== verification/Prelude.v ===== *)
(** * Verification of the go-filesystems/xfs driver

    ** The program

    src/ is a Go package that reads, writes and creates XFS images without the kernel.
    The superblock (superblock.go) gives the geometry: the image is cut into allocation
    groups (AGs) of [sb_agblocks] blocks, and block and inode numbers pack an AG number
    with a position in the AG.  Each AG has a header sector for free space (AGF) with
    two B-trees of free runs (bno, by start; cnt, by count) and one for inodes (AGI)
    with the inobt, a B-tree of 64-inode chunks (alloc.go, alloc_btree.go,
    alloc_btree_delete.go); with reflink it has a B-tree of reference counts
    (reflink.go).  An inode (inode.go) holds its data inline, as a list of extent
    records (extent.go, checked by limits.go) or as a B-tree of them (read.go).
    Directories are inline (short form), one data block with a hash index, or data
    blocks with a leaf block or a B-tree of them as index (dir.go, write.go,
    leafdir.go); path lookup walks them and follows symbolic links.  On these stand the
    operations on the tree (write.go, link.go, mkdir.go, delete.go, rename.go), on one
    inode (truncate.go, setattr.go, extended_stat.go) and on the image (format.go,
    label.go, quota*.go).  fs.go wraps all of it in a locked object that updates the
    superblock counters and the quota after each change.

    ** How it is modelled

    A Go function is a Rocq function of the same name.  Its result is an [outcome]:
    a value, an error, a run-time panic (index or slice out of range, division by
    zero), or lack of fuel, which stands for a loop that has not returned.  Integers
    are [Z], kept at their width by the conversions [u8] ... [i64] wherever the code
    could leave it.  Byte slices are lists of bytes, and every access is
    checked against the bounds as Go does.  Code with effects is in the state monad
    [M] over [World]: the device and the package variables of the allocator,
    including the function variable [allocMetaAllocBlock], whose possible closures are
    the type [metaHook].  A function that edits a buffer or an inode in place returns
    the edited value.  Go maps are stdpp's [gmap].

    What lies outside src/ is an interface: the backend ([Device], with the laws
    [DeviceLaws], [DeviceReliable] for the absence of I/O faults, and [Backend] with
    [BackendLaws] for its size and growth), the package safeio ([SafeIO], [SafeIOLaws]: loop guard, visited set, capped allocation)
    and the partition table parser ([GptParser], [GptLaws]).  All have concrete
    instances, used by the witnesses; SparseDev has the one for images
    too large to write out.  The clock and the random UUID are arguments of the functions that
    use them.

    ** The files

    - Prelude: outcomes, the monad, machine integers, tactics, the hint database [xfs].
      Bytes: buffers, encoding/binary, [copy], [clear], and the algebra of reads and
      writes.  Writers: stepping through chains of field stores.  Device, SparseDev,
      SafeIO: the interfaces.  Zones: writes to separate ranges.
    - Crc (crc.go): bitwise CRC32c, [updateCRC], [verifyCRC].
    - Extent (extent.go, limits.go): the record codec and [validateExtents].
    - Superblock (superblock.go, limits.go, fs.go): parsing, [validateGeometry], block
      and AG arithmetic, ceilings.
    - Inode (inode.go): positions, parsing, writing, setters.
    - FileRead (read.go): extent lists, contents, link targets.
    - Dir, SfDir (dir.go, write.go): short-form and block-form directories,
      [addEntryToSFDir], [buildBlockDirBlock].  Delete (delete.go): [removeSFEntry].
      Lookup (dir.go): directory lookup and listing over extents, [pathLookup].
      OpenFile (openfile.go): positional reads of an open file.
    - AgBlocks, AllocTree, Alloc (alloc.go, alloc_btree.go, alloc_btree_delete.go): AG
      headers and blocks; the free-space B-trees with splits, rebalancing, merges and
      root changes; [allocBlocks] and [freeBlocks] with reserve, queue and drain.
      AllocLeaf, AllocSpec, FreeSpec, AllocGuard: their theorems.
    - InodeAlloc, InodeSpec (alloc.go): the inobt, [allocInode], [freeInode], [growInobt].
    - Refcount (reflink.go): reference-count record sets.
    - FileWrite, FileWriteSpec (write.go, reflink.go): overwriting files, extent lists,
      the refcount block, copy-on-write release.
    - LeafDir (leafdir.go): [writeWholeDir], data blocks, leaf block and hash B-tree.
      LeafDirSpec, LeafTree: its data blocks and its B-tree.
    - DirUpdate, DirUpdateSpec (write.go, delete.go, rename.go): adding, removing and
      redirecting the entries of a directory in any form.
    - Namespace (write.go, link.go, mkdir.go, delete.go, rename.go, reflink.go): the
      operations on the tree, [writeFile] to [renameEntry].
    - Attr (truncate.go, setattr.go, extended_stat.go); AttrSpec: attributes;
      TruncateSpec: truncation.  OverwriteSpec (write.go): overwriting gone wrong.
      Quota, QuotaSpec (quota.go, quota_setup.go, quotacheck.go).
    - Format (format.go): layout and contents of a new image.  FormatSpec,
      SuperblockSpec, FreshInode, ImageSpec: its sectors, its inodes, and the image.
    - Fs, FsSpec (fs.go, label.go, partition.go, quota_setup.go, format.go): opening, the
      public operations, labels, growth, [Format].  FilesSpec: the components together,
      from [Format] through [WriteFile] to [ReadFile].

    ** What the theorems show

    The whole (FilesSpec): format an image of any size, write any list of files into its
    root directory, as far as one group and the root inode hold them, and every file
    reads back; [holds] is the invariant of the image that the calls keep.
    Allocation (AllocSpec, FreeSpec): on an AG whose free-space trees are single
    leaves, [allocBlocks] and [freeBlocks] on the image refine best-fit allocation
    from, and release to, a set of free blocks; without a long enough run nothing
    changes.  (With two cnt leaves this is false, [cnt_two_levels_lose_space].)  InodeSpec shows the same for inodes.  Creation (FormatSpec, ImageSpec,
    FsSpec): [Format] writes an image that opens to an empty filesystem and whose groups
    meet the assumptions of those theorems ([agContract]), growth adds such groups
    and keeps the others; the superblock sector and the label read back.  Round trips: file
    data through freshly mapped blocks and extent lists (FileWriteSpec), inodes (Inode),
    extents (Extent), CRCs (Crc), attributes and times (AttrSpec), directory blocks
    (Dir, LeafDirSpec); what a read returns is byte for byte what the records map
    (FileRead), positional reads are windows of it (OpenFile), a shrinking truncate
    keeps the blocks below the new end and frees the others (TruncateSpec).  Directories: a short-form insertion or removal
    changes exactly its entry (SfDir, Delete); adding to and removing from a block-form
    directory refine the operations on a list of entries (DirUpdateSpec); a descent in
    the hash B-tree of a large directory finds the leaf of every name (LeafTree).
    Reference counts (Refcount, FileWriteSpec) are exact as functions from blocks to
    counts, also through the image, and quota accounting charges every owner with the
    sums over its inodes, those of the inode B-trees as the format defines them (QuotaSpec).  Hostile images: superblock parsing, lookup,
    directory scans, file reads and the guarded traversals return or fail on any bytes
    (Superblock, Lookup, Dir, FileRead, AllocGuard); for lookup the backend must answer
    reads at negative offsets with an error, which forged inode numbers reach.  Geometry (Superblock, Inode):
    validation is exact, packings are inverse, slots and blocks do not overlap (where
    inodes fit their block), AG offsets do not wrap.  The theorems of kind "error" state where
    the code departs from its intent, each for all files or images of the shape it names:
    overwriting sparse files and failed reallocations (OverwriteSpec), truncation into a
    hole (TruncateSpec), AGs without a refcount tree (FileWriteSpec), unwritten extents
    (FileRead).  Lemmas and examples beside them do so for two-level cnt trees, inode chunk
    positions, crowded inode slots, forged inode numbers, attribute forks, 8-byte
    short-form entries, leaf arrays, large extent counts and relative links.

    ** Bounds and fuel

    Loops over a list or a counter are structural.  The traversals safeio bounds run on
    [stepsFuel], one more than the guard's 2^20 steps, and the directory scans on
    [scan_fuel], the block length; theorems show neither runs out.  Symbolic links
    use the code's own depth bound.  The unguarded B-tree descents take [tfuel], a
    bound on the depth, and mutually recursive allocations and frees [allocOps n]
    admit [n] nested operations, [ofuel] in their callers; the refinement theorems hold
    for every [tfuel >= 1] and for [n >= 1] (allocation) or [n >= 2] (release), the
    nesting a single-leaf AG needs.  A tree with a cyclic pointer has no sufficient
    [tfuel]: there the code loops.  [deleteDir] takes [dfuel], a bound on the depth of
    the directory tree it removes.

    ** What is not modelled

    The locks of fs.go and openfile.go, which serialise the operations; the os.File
    backend and the host file handling of [Open] and [Format] (calls of the operating
    system); the accessors that only return a field.  Error texts are kept only as far
    as they tell errors apart.  The next theorems of the plan: the other operations of
    Namespace (removal, linking, directories, renaming, overwriting) against the invariant
    of FilesSpec, [writeWholeDir] together with the allocator when the form of a
    directory changes, and free-space trees of several levels. *)
From Stdlib Require Import ZArith Lia String.
From stdpp Require Export base numbers list strings sorting.
#[global] Open Scope Z_scope.

(** ** Errors and outcomes

    Go functions return [(value, error)], may panic (slice index out of range,
    division by zero) and, when a loop has no bound, may not return at all.
    [outcome] keeps the four cases apart.  [fmt.Errorf("...%w", err)] only adds
    text around [err]; [errors.Is] sees through it, so a wrapped error is
    modelled by the error it wraps. *)
Inductive xerr : Type :=
  | ErrIO                        (* ReadAt / WriteAt of the backend failed *)
  | ErrNotFound                  (* dir.go ErrNotFound *)
  | ErrSymlinkLoop               (* dir.go ErrSymlinkLoop *)
  | ErrTooLarge                  (* safeio.ErrTooLarge *)
  | ErrOutOfBounds               (* safeio.ErrOutOfBounds *)
  | ErrCycle                     (* safeio.ErrCycle *)
  | ErrLoopLimit                 (* error of safeio's LoopGuard.Next *)
  | ErrBlockOutOfRange           (* fs.go ErrBlockOutOfRange *)
  | ErrInobtFull                 (* alloc.go errInobtFull *)
  | ErrRefcountFull              (* reflink.go errRefcountFull *)
  | Errorf (msg : string).       (* any other fmt.Errorf *)

#[export] Instance xerr_eq_dec : EqDecision xerr.
Proof. solve_decision. Defined.

Inductive outcome (A : Type) : Type :=
  | Ret (a : A)
  | Fail (e : xerr)
  | Panic
  | NoFuel.
Arguments Ret {A} a.
Arguments Fail {A} e.
Arguments Panic {A}.
Arguments NoFuel {A}.

#[export] Instance outcome_ret : MRet outcome := fun A a => Ret a.
#[export] Instance outcome_bind : MBind outcome := fun A B k m =>
  match m with
  | Ret a => k a
  | Fail e => Fail e
  | Panic => Panic
  | NoFuel => NoFuel
  end.

(** [if !c { panic }] for the run-time checks of Go. *)
Definition guardP (c : bool) : outcome unit := if c then Ret tt else Panic.
(** [if c { return err }]. *)
Definition failif (c : bool) (e : xerr) : outcome unit := if c then Fail e else Ret tt.

(** The stateful layer: a Go function that mutates state [S] (the device and
    the package variables) and returns an outcome.  The state survives an
    error: writes made before an error return stay made. *)
Definition M (S A : Type) : Type := S -> outcome A * S.
#[export] Instance M_ret S : MRet (M S) := fun A a s => (Ret a, s).
#[export] Instance M_bind S : MBind (M S) := fun A B k m s =>
  match m s with
  | (Ret a, s') => k a s'
  | (Fail e, s') => (Fail e, s')
  | (Panic, s') => (Panic, s')
  | (NoFuel, s') => (NoFuel, s')
  end.
Definition lift {S A} (o : outcome A) : M S A := fun s => (o, s).
Definition getS {S} : M S S := fun s => (Ret s, s).
Definition putS {S} (s' : S) : M S unit := fun _ => (Ret tt, s').
Definition modS {S} (f : S -> S) : M S unit := fun s => (Ret tt, f s).
Definition failM {S A} (e : xerr) : M S A := fun s => (Fail e, s).
(** [v, err := m(); if err != nil {handle} else {ok}]: an error is handled, a
    panic or divergence is not. *)
Definition catchM {S A B} (m : M S A) (ok : A -> M S B) (handle : xerr -> M S B) : M S B :=
  fun s => match m s with
           | (Ret a, s') => ok a s'
           | (Fail e, s') => handle e s'
           | (Panic, s') => (Panic, s')
           | (NoFuel, s') => (NoFuel, s')
           end.

(** ** Machine integers *)
Definition u8 (z : Z) : Z := z mod 2 ^ 8.
Definition u16 (z : Z) : Z := z mod 2 ^ 16.
Definition u32 (z : Z) : Z := z mod 2 ^ 32.
Definition u64 (z : Z) : Z := z mod 2 ^ 64.
(** Two's complement reinterpretation: Go's [int32(x)], [int64(x)]. *)
Definition i32 (z : Z) : Z := (z + 2 ^ 31) mod 2 ^ 32 - 2 ^ 31.
Definition i64 (z : Z) : Z := (z + 2 ^ 63) mod 2 ^ 64 - 2 ^ 63.

(** Go's [x << s] and [x >> s] on a uint64: a shift of 64 or more gives 0. *)
Definition shl64 (x s : Z) : Z := u64 (Z.shiftl x s).
Definition shr64 (x s : Z) : Z := Z.shiftr x s.

Definition zlen {A} (l : list A) : Z := Z.of_nat (length l).

Create HintDb xfs.
Create Rewrite HintDb zlen.

(** ** Loops

    [for i := lo; i < lo+n; i++] with a body that can stop the loop. *)
Fixpoint scan {B} (n : nat) (i : Z) (f : Z -> outcome (option B)) : outcome (option B) :=
  match n with
  | O => Ret None
  | S n' => r ← f i;
            match r with
            | Some b => Ret (Some b)
            | None => scan n' (i + 1) f
            end
  end.

(** [for i := lo; i < lo+n; i++ { acc = body(i, acc) }]. *)
Fixpoint for_acc {A} (n : nat) (i : Z) (acc : A) (f : Z -> A -> outcome A) : outcome A :=
  match n with
  | O => Ret acc
  | S n' => acc' ← f i acc; for_acc n' (i + 1) acc' f
  end.

Fixpoint for_accM {S A} (n : nat) (i : Z) (acc : A) (f : Z -> A -> M S A) : M S A :=
  match n with
  | O => mret acc
  | S n' => acc' ← f i acc; for_accM n' (i + 1) acc' f
  end.

(** [for _, x := range l]. *)
Fixpoint range_accM {S X A} (l : list X) (acc : A) (f : X -> A -> M S A) : M S A :=
  match l with
  | [] => mret acc
  | x :: l' => acc' ← f x acc; range_accM l' acc' f
  end.

Fixpoint range_acc {X A} (l : list X) (acc : A) (f : X -> A -> outcome A) : outcome A :=
  match l with
  | [] => Ret acc
  | x :: l' => acc' ← f x acc; range_acc l' acc' f
  end.

(** ** Shared lemmas and automation *)
Lemma zlen_app {A} (l k : list A) : zlen (l ++ k) = zlen l + zlen k.
Proof. unfold zlen. rewrite length_app. lia. Qed.
Lemma zlen_nonneg {A} (l : list A) : 0 <= zlen l.
Proof. unfold zlen. lia. Qed.
Lemma zlen_cons {A} (x : A) l : zlen (x :: l) = 1 + zlen l.
Proof. unfold zlen. simpl. lia. Qed.
Lemma zlen_nil {A} : zlen (@nil A) = 0.
Proof. reflexivity. Qed.
Lemma zlen_map {A B} (f : A -> B) l : zlen (map f l) = zlen l.
Proof. unfold zlen. by rewrite length_map. Qed.
Lemma zlen_replicate {A} n (x : A) : zlen (replicate n x) = Z.of_nat n.
Proof. unfold zlen. by rewrite length_replicate. Qed.
Lemma zlen_take {A} n (l : list A) : zlen (take n l) = Z.min (Z.of_nat n) (zlen l).
Proof. unfold zlen. rewrite length_take. lia. Qed.
Lemma zlen_drop {A} n (l : list A) : zlen (drop n l) = Z.max 0 (zlen l - Z.of_nat n).
Proof. unfold zlen. rewrite length_drop. lia. Qed.

#[export] Hint Rewrite @zlen_app @zlen_cons @zlen_nil @zlen_map @zlen_replicate
  @zlen_take @zlen_drop : zlen.

(** Arithmetic on list lengths. *)
Ltac zl := autorewrite with zlen in *; unfold zlen in *; lia.

(** Step through a bind whose head is a known [Ret]. *)
Ltac ostep := cbn [mbind mret outcome_bind outcome_ret M_bind M_ret lift guardP failif].

Lemma bind_Ret_inv {A B} (m : outcome A) (k : A -> outcome B) b :
  (m ≫= k) = Ret b -> exists a, m = Ret a /\ k a = Ret b.
Proof. destruct m; cbn; try discriminate. eauto. Qed.

(** [post P o]: the call returned a value in [P] or an error; it neither panicked
    nor ran forever. *)
Definition post {A} (P : A -> Prop) (o : outcome A) : Prop :=
  match o with Ret a => P a | Fail _ => True | Panic | NoFuel => False end.
Definition safe {A} (o : outcome A) : Prop := post (fun _ => True) o.
Lemma post_bind {A B} (P : A -> Prop) (Q : B -> Prop) (m : outcome A) (k : A -> outcome B) :
  post P m -> (forall a, m = Ret a -> P a -> post Q (k a)) -> post Q (m ≫= k).
Proof. destruct m; cbn; eauto; tauto. Qed.
Lemma post_mono {A} (P Q : A -> Prop) (m : outcome A) :
  post P m -> (forall a, m = Ret a -> P a -> Q a) -> post Q m.
Proof. destruct m; cbn; eauto. Qed.
(** Step over a bind whose head satisfies the [post] lemma [H]. *)
Tactic Notation "pstep" uconstr(H) "as" simple_intropattern(p1) simple_intropattern(p2) simple_intropattern(p3) :=
  eapply post_bind; [eapply H; try eassumption; try done; try lia|cbv beta; intros p1 p2 p3].
Lemma post_Ret_inv {A} (P : A -> Prop) (m : outcome A) a : post P m -> m = Ret a -> P a.
Proof. by intros H ->. Qed.
Lemma safe_failif c e : safe (failif c e).
Proof. by destruct c. Qed.
Lemma post_failif c e : post (fun _ => c = false) (failif c e).
Proof. by destruct c. Qed.
#[export] Hint Resolve safe_failif : xfs.

Lemma guardP_Ret c u : guardP c = Ret u <-> c = true.
Proof. destruct c, u; split; (done || by intros). Qed.

(** Invert every [m ≫= k = Ret b] among the hypotheses. *)
Ltac obind :=
  repeat match goal with
  | H : (_ ≫= _) = Ret _ |- _ =>
      let a := fresh "a" in let Ha := fresh "Ha" in
      apply bind_Ret_inv in H as (a & Ha & H)
  | H : guardP _ = Ret _ |- _ => apply guardP_Ret in H
  | H : Ret _ = Ret _ |- _ => injection H as H; try subst
  end.

(** Split the boolean side conditions into propositions [lia] reads. *)
Ltac bsplit :=
  repeat match goal with
  | H : andb _ _ = true |- _ => apply andb_true_iff in H as [??]
  | H : andb _ _ = false |- _ => apply andb_false_iff in H
  | H : orb _ _ = true |- _ => apply orb_true_iff in H
  | H : orb _ _ = false |- _ => apply orb_false_iff in H as [??]
  | H : negb _ = true |- _ => apply negb_true_iff in H
  | H : negb _ = false |- _ => apply negb_false_iff in H
  | H : (_ <=? _) = true |- _ => apply Z.leb_le in H
  | H : (_ <=? _) = false |- _ => apply Z.leb_gt in H
  | H : (_ <? _) = true |- _ => apply Z.ltb_lt in H
  | H : (_ <? _) = false |- _ => apply Z.ltb_ge in H
  | H : (_ =? _) = true |- _ => apply Z.eqb_eq in H
  | H : (_ =? _) = false |- _ => apply Z.eqb_neq in H
  end.

Lemma u8_range z : 0 <= u8 z < 2 ^ 8.
Proof. apply Z.mod_pos_bound; lia. Qed.
Lemma u16_range z : 0 <= u16 z < 2 ^ 16.
Proof. apply Z.mod_pos_bound; lia. Qed.
Lemma u32_range z : 0 <= u32 z < 2 ^ 32.
Proof. apply Z.mod_pos_bound; lia. Qed.
Lemma u64_range z : 0 <= u64 z < 2 ^ 64.
Proof. apply Z.mod_pos_bound; lia. Qed.
Lemma u16_small z : 0 <= z < 2 ^ 16 -> u16 z = z.
Proof. apply Z.mod_small. Qed.
Lemma u32_small z : 0 <= z < 2 ^ 32 -> u32 z = z.
Proof. apply Z.mod_small. Qed.
Lemma u64_small z : 0 <= z < 2 ^ 64 -> u64 z = z.
Proof. apply Z.mod_small. Qed.
Lemma i64_small z : - 2 ^ 63 <= z < 2 ^ 63 -> i64 z = z.
Proof. intros H. unfold i64. rewrite Z.mod_small; lia. Qed.
Lemma i32_small z : - 2 ^ 31 <= z < 2 ^ 31 -> i32 z = z.
Proof. intros H. unfold i32. rewrite Z.mod_small; lia. Qed.

#[export] Hint Resolve u8_range u16_range u32_range u64_range zlen_nonneg : xfs.

(** A run of bits: [Z.lor] of disjoint fields is their sum. *)
Lemma lor_shiftl_add a b n :
  0 <= n -> 0 <= b < 2 ^ n -> Z.lor (Z.shiftl a n) b = a * 2 ^ n + b.
Proof.
  intros Hn Hb. pose proof (Z.add_lor_land (Z.shiftl a n) b) as E.
  assert (Z.land (Z.shiftl a n) b = 0) as E0.
  { apply Z.bits_inj'. intros i Hi. rewrite Z.land_spec, Z.bits_0, Z.shiftl_spec by lia.
    destruct (Z.ltb_spec i n).
    - rewrite Z.testbit_neg_r by lia. done.
    - destruct (Z.eq_dec b 0) as [->|]; [by rewrite Z.testbit_0_l, andb_false_r|].
      assert (Z.log2 b < n) by (apply Z.log2_lt_pow2; lia).
      rewrite (Z.bits_above_log2 b i) by lia. apply andb_false_r. }
  rewrite E0, Z.shiftl_mul_pow2 in E by lia. rewrite Z.shiftl_mul_pow2 by lia. lia.
Qed.

Lemma shiftr_add a b n :
  0 <= n -> 0 <= b < 2 ^ n -> Z.shiftr (a * 2 ^ n + b) n = a.
Proof.
  intros. rewrite Z.shiftr_div_pow2 by lia.
  rewrite Z.div_add_l, Z.div_small by lia. lia.
Qed.

Lemma land_ones_mod a n : 0 <= n -> Z.land a (2 ^ n - 1) = a mod 2 ^ n.
Proof. intros. rewrite <- Z.land_ones, Z.ones_equiv by lia. f_equal. Qed.

Lemma mod_add_l a b n : 0 <= b < n -> (a * n + b) mod n = b.
Proof. intros. rewrite Z.add_comm, Z_mod_plus_full. apply Z.mod_small; lia. Qed.

Lemma lxor_range n a c : 0 <= n -> 0 <= a < 2 ^ n -> 0 <= c < 2 ^ n -> 0 <= Z.lxor a c < 2 ^ n.
Proof.
  intros Hn Ha Hc. split; [apply Z.lxor_nonneg; tauto|].
  destruct (Z.eq_dec (Z.lxor a c) 0) as [->|]; [lia|].
  assert (0 <= Z.lxor a c) by (apply Z.lxor_nonneg; tauto).
  apply Z.log2_lt_pow2; [lia|]. pose proof (Z.log2_lxor a c ltac:(lia) ltac:(lia)).
  assert (forall x, 0 <= x < 2 ^ n -> x <> 0 -> Z.log2 x < n) as L by (intros; apply Z.log2_lt_pow2; lia).
  destruct (Z.eq_dec a 0) as [->|]; [rewrite Z.lxor_0_l in *; by apply L|].
  destruct (Z.eq_dec c 0) as [->|]; [rewrite Z.lxor_0_r in *; by apply L|].
  pose proof (L a Ha ltac:(done)). pose proof (L c Hc ltac:(done)). lia.
Qed.

(** ** Running the stateful layer *)
Lemma bindM_Ret {S A B} (m : M S A) (k : A -> M S B) s a s' :
  m s = (Ret a, s') -> (m ≫= k) s = k a s'.
Proof. intros E. unfold mbind, M_bind. by rewrite E. Qed.
Lemma bindM_Fail {S A B} (m : M S A) (k : A -> M S B) s e s' :
  m s = (Fail e, s') -> (m ≫= k) s = (Fail e, s').
Proof. intros E. unfold mbind, M_bind. by rewrite E. Qed.
Lemma bindM_lift {S A B} (o : outcome A) (k : A -> M S B) s a :
  o = Ret a -> (lift o ≫= k) s = k a s.
Proof. by intros ->. Qed.
Lemma bindM_inv {S A B} (m : M S A) (k : A -> M S B) s b s' :
  (m ≫= k) s = (Ret b, s') -> exists a s1, m s = (Ret a, s1) /\ k a s1 = (Ret b, s').
Proof. unfold mbind, M_bind. destruct (m s) as [[a|e| |] s1]; try done. eauto. Qed.
