(* ===== verification/Bytes.v ===== *)
(** * Byte buffers

    A Go [[]byte] is a list of integers in [0, 256).  This file holds the
    big/little-endian accessors of encoding/binary, slicing, [copy] and [clear]
    with Go's run-time bounds checks (an access outside the buffer panics), and
    the algebra of reads and writes the components share: a read of what was
    just written, a read beside a write, the round trips of the encodings. *)
From S2P Require Import Prelude.

Abbreviation bytes := (list Z).
Definition isbyte (b : Z) : Prop := 0 <= b < 256.
Definition isbytes (bs : bytes) : Prop := Forall isbyte bs.
#[export] Instance isbyte_dec b : Decision (isbyte b).
Proof. unfold isbyte. apply _. Defined.
#[export] Instance isbytes_dec bs : Decision (isbytes bs).
Proof. unfold isbytes. apply _. Defined.

(** ** Encodings *)
Definition be_decode (bs : bytes) : Z := fold_left (fun a b => a * 256 + b) bs 0.
Fixpoint be_encode (n : nat) (z : Z) : bytes :=
  match n with
  | O => []
  | S n' => z / 256 ^ Z.of_nat n' mod 256 :: be_encode n' z
  end.
Definition le_decode (bs : bytes) : Z := be_decode (rev bs).
Definition le_encode (n : nat) (z : Z) : bytes := rev (be_encode n z).

(** ** Slices *)
Definition slice (buf : bytes) (off n : Z) : bytes := take (Z.to_nat n) (drop (Z.to_nat off) buf).
Definition splice (buf : bytes) (off : Z) (bs : bytes) : bytes :=
  take (Z.to_nat off) buf ++ bs ++ drop (Z.to_nat off + length bs) buf.
Definition inrange (buf : bytes) (off n : Z) : bool :=
  (0 <=? off) && (0 <=? n) && (off + n <=? zlen buf).

(** [buf[lo:hi]] *)
Definition sub (buf : bytes) (lo hi : Z) : outcome bytes :=
  guardP ((0 <=? lo) && (lo <=? hi) && (hi <=? zlen buf));; Ret (slice buf lo (hi - lo)).
(** [buf[lo:]] *)
Definition from (buf : bytes) (lo : Z) : outcome bytes := sub buf lo (zlen buf).
(** [buf[i]] *)
Definition byte_at (buf : bytes) (i : Z) : outcome Z :=
  guardP (inrange buf i 1);; Ret (be_decode (slice buf i 1)).
(** [buf[i] = v] *)
Definition set_byte (buf : bytes) (i v : Z) : outcome bytes :=
  guardP (inrange buf i 1);; Ret (splice buf i [u8 v]).

(** [binary.BigEndian.UintN(buf[off:])] and [PutUintN(buf[off:], v)]. *)
Definition dec (n : Z) (buf : bytes) (off : Z) : Z := be_decode (slice buf off n).
Definition be_get (n : Z) (buf : bytes) (off : Z) : outcome Z :=
  guardP (inrange buf off n);; Ret (dec n buf off).
Definition be_put (n : Z) (buf : bytes) (off v : Z) : outcome bytes :=
  guardP (inrange buf off n);; Ret (splice buf off (be_encode (Z.to_nat n) v)).
Abbreviation be16 := (be_get 2).
Abbreviation be32 := (be_get 4).
Abbreviation be64 := (be_get 8).
Abbreviation put16 := (be_put 2).
Abbreviation put32 := (be_put 4).
Abbreviation put64 := (be_put 8).
(** [binary.LittleEndian.Uint32(buf[off:])], [PutUint32(buf[off:], v)]. *)
Definition le32 (buf : bytes) (off : Z) : outcome Z :=
  guardP (inrange buf off 4);; Ret (le_decode (slice buf off 4)).
Definition le_put32 (buf : bytes) (off v : Z) : outcome bytes :=
  guardP (inrange buf off 4);; Ret (splice buf off (le_encode 4 v)).

(** [copy(buf[off:], src)]: copies as many bytes as fit. *)
Definition copy_to (buf : bytes) (off : Z) (src : bytes) : outcome bytes :=
  guardP ((0 <=? off) && (off <=? zlen buf));;
  Ret (splice buf off (take (length buf - Z.to_nat off) src)).
(** [clear(buf[lo:hi])] *)
Definition clear_range (buf : bytes) (lo hi : Z) : outcome bytes :=
  guardP ((0 <=? lo) && (lo <=? hi) && (hi <=? zlen buf));;
  Ret (splice buf lo (replicate (Z.to_nat (hi - lo)) 0)).
(** [make([]byte, n)]; the callers pass sizes they have already bounded. *)
Definition make_bytes (n : Z) : bytes := replicate (Z.to_nat n) 0.

(** ** Encoding lemmas *)
Lemma fold_be_acc k a :
  fold_left (fun a b => a * 256 + b) k a = a * 256 ^ zlen k + be_decode k.
Proof.
  unfold be_decode. revert a. induction k as [|b k IH]; intros a; cbn [fold_left].
  - rewrite zlen_nil. lia.
  - rewrite IH, (IH (0 * 256 + b)), zlen_cons, Z.pow_add_r by (auto with xfs; lia). lia.
Qed.
Lemma be_decode_app l k : be_decode (l ++ k) = be_decode l * 256 ^ zlen k + be_decode k.
Proof. unfold be_decode at 1. rewrite fold_left_app. apply fold_be_acc. Qed.
Lemma be_decode_cons b k : be_decode (b :: k) = b * 256 ^ zlen k + be_decode k.
Proof. apply (be_decode_app [b] k). Qed.
Lemma be_encode_length n z : length (be_encode n z) = n.
Proof. induction n; simpl; auto. Qed.
Lemma zlen_be_encode n z : zlen (be_encode n z) = Z.of_nat n.
Proof. unfold zlen. by rewrite be_encode_length. Qed.
#[export] Hint Rewrite zlen_be_encode : zlen.

Lemma isbytes_be_encode n z : isbytes (be_encode n z).
Proof. induction n; constructor; [apply Z.mod_pos_bound; lia|done]. Qed.

Lemma be_decode_encode n z : be_decode (be_encode n z) = z mod 256 ^ Z.of_nat n.
Proof.
  induction n as [|n IH]; [by rewrite Z.mod_1_r|].
  cbn [be_encode]. rewrite be_decode_cons, IH, zlen_be_encode, Nat2Z.inj_succ, Z.pow_succ_r by lia.
  rewrite (Z.mul_comm 256), (Z.rem_mul_r z (256 ^ Z.of_nat n) 256); [lia|lia|lia].
Qed.

Lemma be_decode_range bs : isbytes bs -> 0 <= be_decode bs < 256 ^ zlen bs.
Proof.
  induction 1 as [|b bs Hb H IH]; [done|].
  unfold isbyte in Hb. rewrite be_decode_cons, zlen_cons, Z.pow_add_r by (auto with xfs; lia). nia.
Qed.

Lemma be_encode_decode bs : isbytes bs -> be_encode (length bs) (be_decode bs) = bs.
Proof.
  induction 1 as [|b bs Hb H IH]; [done|].
  pose proof (be_decode_range bs H) as R. unfold isbyte in Hb. unfold zlen in R. simpl.
  rewrite be_decode_cons. unfold zlen. f_equal.
  - rewrite Z.div_add_l, Z.div_small, Z.add_0_r by lia. apply Z.mod_small. lia.
  - assert (forall n q r, (n <= length bs)%nat ->
       be_encode n (q * 256 ^ Z.of_nat (length bs) + r) = be_encode n r) as G;
      [|by rewrite G, IH].
    clear IH. induction n as [|n IHn]; intros q r Hn; [done|]. cbn. rewrite IHn by lia. f_equal.
    replace (Z.of_nat (length bs)) with (Z.of_nat n + 1 + (Z.of_nat (length bs) - Z.of_nat n - 1)) by lia.
    rewrite !Z.pow_add_r by lia.
    replace (q * (256 ^ Z.of_nat n * 256 ^ 1 * 256 ^ (Z.of_nat (length bs) - Z.of_nat n - 1)) + r)
      with (q * 256 ^ (Z.of_nat (length bs) - Z.of_nat n - 1) * 256 * 256 ^ Z.of_nat n + r) by ring.
    rewrite Z.div_add_l by lia. rewrite Z.add_comm, Z_mod_plus_full. done.
Qed.

Lemma le_encode_length n z : length (le_encode n z) = n.
Proof. unfold le_encode. by rewrite length_rev, be_encode_length. Qed.
Lemma le_decode_encode n z : le_decode (le_encode n z) = z mod 256 ^ Z.of_nat n.
Proof. unfold le_decode, le_encode. by rewrite rev_involutive, be_decode_encode. Qed.

(** ** Slices and splices *)
Lemma zlen_slice buf off n :
  0 <= off -> 0 <= n -> off + n <= zlen buf -> zlen (slice buf off n) = n.
Proof. intros. unfold slice. zl. Qed.

Lemma zlen_splice buf off bs :
  0 <= off -> off + zlen bs <= zlen buf -> zlen (splice buf off bs) = zlen buf.
Proof. intros. unfold splice. zl. Qed.

Lemma isbytes_slice buf off n : isbytes buf -> isbytes (slice buf off n).
Proof. intros. by apply Forall_take, Forall_drop. Qed.
Lemma isbytes_splice buf off bs : isbytes buf -> isbytes bs -> isbytes (splice buf off bs).
Proof. intros. apply Forall_app; split; [by apply Forall_take|]. apply Forall_app; split; [done|by apply Forall_drop]. Qed.
Lemma isbytes_replicate n : isbytes (replicate n 0).
Proof. apply Forall_replicate. unfold isbyte. lia. Qed.

Lemma slice_splice_same buf off bs :
  0 <= off -> off + zlen bs <= zlen buf -> slice (splice buf off bs) off (zlen bs) = bs.
Proof.
  intros. unfold slice, splice. rewrite drop_app_ge by (rewrite length_take; zl).
  rewrite length_take, Nat.min_l, Nat.sub_diag, drop_0 by zl.
  unfold zlen. rewrite Nat2Z.id. apply take_app_length.
Qed.

Lemma slice_splice_in buf off bs o n :
  0 <= off -> off + zlen bs <= zlen buf -> off <= o -> 0 <= n -> o + n <= off + zlen bs ->
  slice (splice buf off bs) o n = slice bs (o - off) n.
Proof.
  intros. unfold slice, splice. rewrite drop_app_ge by (rewrite length_take; zl).
  rewrite length_take, Nat.min_l by zl. rewrite drop_app_le by zl.
  rewrite take_app_le by (rewrite length_drop; zl). do 2 f_equal; lia.
Qed.

Lemma slice_splice_before buf off bs o n :
  0 <= o -> 0 <= n -> o + n <= off -> off + zlen bs <= zlen buf ->
  slice (splice buf off bs) o n = slice buf o n.
Proof.
  intros. unfold slice, splice. rewrite drop_app_le by (rewrite length_take; zl).
  rewrite take_app_le by (rewrite length_drop, length_take; zl).
  rewrite skipn_firstn_comm, take_take. f_equal. zl.
Qed.

Lemma slice_splice_after buf off bs o n :
  0 <= off -> 0 <= n -> off + zlen bs <= o -> off + zlen bs <= zlen buf ->
  slice (splice buf off bs) o n = slice buf o n.
Proof.
  intros. unfold slice, splice. rewrite app_assoc, drop_app_ge by (rewrite length_app, length_take; zl).
  rewrite drop_drop, length_app, length_take. do 2 f_equal. zl.
Qed.

(** A read outside the written range does not see the write. *)
Lemma slice_splice_other buf off bs o n :
  0 <= off -> 0 <= o -> 0 <= n -> off + zlen bs <= zlen buf ->
  o + n <= off \/ off + zlen bs <= o ->
  slice (splice buf off bs) o n = slice buf o n.
Proof. intros ? ? ? ? [?|?]; [by apply slice_splice_before|by apply slice_splice_after]. Qed.

Lemma slice_all buf : slice buf 0 (zlen buf) = buf.
Proof. unfold slice, zlen. rewrite Nat2Z.id. simpl. by rewrite firstn_all. Qed.

Lemma slice_slice buf o n o' n' :
  0 <= o -> 0 <= o' -> 0 <= n' -> o' + n' <= n ->
  slice (slice buf o n) o' n' = slice buf (o + o') n'.
Proof.
  intros. unfold slice. rewrite skipn_firstn_comm, take_take, drop_drop. f_equal; [lia|]. f_equal. lia.
Qed.

Lemma slice_app_adj buf o n m :
  0 <= o -> 0 <= n -> 0 <= m -> slice buf o (n + m) = slice buf o n ++ slice buf (o + n) m.
Proof.
  intros. unfold slice. rewrite !Z2Nat.inj_add by lia.
  rewrite <- drop_drop. generalize (drop (Z.to_nat o) buf) as l. intros l.
  revert l. induction (Z.to_nat n) as [|k IH]; intros l; [done|].
  destruct l; simpl; [by rewrite take_nil|by rewrite IH].
Qed.

Lemma splice_splice_same buf off a b :
  0 <= off -> length a = length b -> off + zlen a <= zlen buf ->
  splice (splice buf off a) off b = splice buf off b.
Proof.
  intros Ho Hl Hle. unfold splice.
  assert (length (take (Z.to_nat off) buf) = Z.to_nat off) as Hn by (rewrite length_take; zl).
  assert (take (Z.to_nat off) (take (Z.to_nat off) buf ++ a ++ drop (Z.to_nat off + length a) buf)
          = take (Z.to_nat off) buf) as ->.
  { rewrite <- Hn at 1. apply take_app_length. }
  do 2 f_equal.
  rewrite drop_app_ge by lia. rewrite Hn.
  replace (Z.to_nat off + length b - Z.to_nat off)%nat with (length a) by lia.
  rewrite drop_app_length. by rewrite Hl.
Qed.

Lemma slice0_splice buf off bs len :
  0 <= off -> off + zlen bs <= len -> len <= zlen buf ->
  slice (splice buf off bs) 0 len = splice (slice buf 0 len) off bs.
Proof.
  intros. unfold slice, splice. rewrite !drop_0.
  rewrite take_app_ge by (rewrite length_take; zl).
  rewrite take_app_ge by (rewrite length_take; zl).
  rewrite length_take, Nat.min_l, take_take, Nat.min_l by zl.
  do 2 f_equal. rewrite skipn_firstn_comm. f_equal. zl.
Qed.

(** ** Fields: what a read returns after a write *)
Lemma inrange_spec buf off n :
  inrange buf off n = true <-> 0 <= off /\ 0 <= n /\ off + n <= zlen buf.
Proof. unfold inrange. rewrite !andb_true_iff, !Z.leb_le. tauto. Qed.

Lemma be_get_ok n buf off :
  0 <= off -> 0 <= n -> off + n <= zlen buf -> be_get n buf off = Ret (dec n buf off).
Proof.
  intros. unfold be_get. by rewrite (proj2 (inrange_spec buf off n)).
Qed.
Lemma be_put_ok n buf off v :
  0 <= off -> 0 <= n -> off + n <= zlen buf ->
  be_put n buf off v = Ret (splice buf off (be_encode (Z.to_nat n) v)).
Proof. intros. unfold be_put. by rewrite (proj2 (inrange_spec buf off n)). Qed.
Lemma be_get_inv n buf off v :
  be_get n buf off = Ret v ->
  v = dec n buf off /\ 0 <= off /\ 0 <= n /\ off + n <= zlen buf.
Proof. unfold be_get. intros. obind. apply inrange_spec in Ha. tauto. Qed.
Lemma be_put_inv n buf off v buf' :
  be_put n buf off v = Ret buf' ->
  buf' = splice buf off (be_encode (Z.to_nat n) v) /\ 0 <= off /\ 0 <= n /\ off + n <= zlen buf.
Proof. unfold be_put. intros. obind. apply inrange_spec in Ha. tauto. Qed.

Lemma byte_at_ok buf i : 0 <= i < zlen buf -> byte_at buf i = Ret (dec 1 buf i).
Proof. intros. unfold byte_at. by rewrite (proj2 (inrange_spec buf i 1)) by lia. Qed.
Lemma sub_ok buf lo hi :
  0 <= lo -> lo <= hi -> hi <= zlen buf -> sub buf lo hi = Ret (slice buf lo (hi - lo)).
Proof.
  intros. unfold sub.
  replace ((0 <=? lo) && (lo <=? hi) && (hi <=? zlen buf)) with true by (symmetry; lia). done.
Qed.
Lemma dec_range n buf off :
  isbytes buf -> 0 <= off -> 0 <= n -> off + n <= zlen buf -> 0 <= dec n buf off < 256 ^ n.
Proof.
  intros. unfold dec. pose proof (be_decode_range (slice buf off n)) as R.
  rewrite zlen_slice in R by lia. by apply R, isbytes_slice.
Qed.

Lemma dec_put_same n buf off v :
  0 <= off -> 0 <= n -> off + n <= zlen buf ->
  dec n (splice buf off (be_encode (Z.to_nat n) v)) off = v mod 256 ^ n.
Proof.
  intros. unfold dec.
  replace n with (zlen (be_encode (Z.to_nat n) v)) at 2 by zl.
  rewrite slice_splice_same by zl. rewrite be_decode_encode. f_equal. f_equal. lia.
Qed.
Lemma dec_splice_other n buf off bs o :
  0 <= off -> 0 <= o -> 0 <= n -> off + zlen bs <= zlen buf ->
  o + n <= off \/ off + zlen bs <= o ->
  dec n (splice buf off bs) o = dec n buf o.
Proof. intros. unfold dec. by rewrite slice_splice_other. Qed.
Lemma dec_put_other n k buf off v o :
  0 <= off -> 0 <= o -> 0 <= n -> 0 <= k -> off + k <= zlen buf ->
  o + n <= off \/ off + k <= o ->
  dec n (splice buf off (be_encode (Z.to_nat k) v)) o = dec n buf o.
Proof. intros. apply dec_splice_other; zl. Qed.
Lemma zlen_put n buf off v :
  0 <= off -> 0 <= n -> off + n <= zlen buf ->
  zlen (splice buf off (be_encode (Z.to_nat n) v)) = zlen buf.
Proof. intros. apply zlen_splice; zl. Qed.

Lemma slice_as_encode n buf off :
  isbytes buf -> 0 <= off -> 0 <= n -> off + n <= zlen buf ->
  be_encode (Z.to_nat n) (dec n buf off) = slice buf off n.
Proof.
  intros. unfold dec. rewrite <- (be_encode_decode (slice buf off n)) at 2 by by apply isbytes_slice.
  f_equal. pose proof (zlen_slice buf off n). zl.
Qed.

(** Rewrite a tower of [splice]s seen through [dec] and [zlen], the side
    conditions by [lia]. *)
Ltac fld :=
  repeat first
    [ rewrite dec_put_same by (rewrite ?zlen_put; zl)
    | rewrite dec_put_other by (rewrite ?zlen_put; zl)
    | rewrite zlen_put by (rewrite ?zlen_put; zl) ].

Lemma set_byte_ok buf o v :
  0 <= o < zlen buf -> set_byte buf o v = Ret (splice buf o (be_encode (Z.to_nat 1) v)).
Proof.
  intros. unfold set_byte. rewrite (proj2 (inrange_spec buf o 1)) by lia. ostep. f_equal. f_equal.
  change (Z.to_nat 1) with 1%nat. unfold be_encode. change (256 ^ Z.of_nat 0) with 1.
  by rewrite Z.div_1_r.
Qed.

(** ** Writers

    [wrote b b' lo hi]: [b'] is [b] except for bytes of [lo, hi). *)
Record wrote (b b' : bytes) (lo hi : Z) : Prop := {
  wrote_len : zlen b' = zlen b;
  wrote_bytes : isbytes b -> isbytes b';
  wrote_slice o n : 0 <= o -> 0 <= n -> o + n <= lo \/ hi <= o -> slice b' o n = slice b o n
}.
Lemma wrote_dec b b' lo hi n o :
  wrote b b' lo hi -> 0 <= o -> 0 <= n -> o + n <= lo \/ hi <= o -> dec n b' o = dec n b o.
Proof. intros [_ _ W] ? ? ?. unfold dec. by rewrite W. Qed.
Lemma wrote_refl b lo hi : wrote b b lo hi.
Proof. by split. Qed.
Lemma wrote_weaken b b' lo hi lo' hi' :
  wrote b b' lo hi -> lo' <= lo -> hi <= hi' -> wrote b b' lo' hi'.
Proof. intros [L B W] ? ?. split; [done..|]. intros. apply W; lia. Qed.
Lemma wrote_trans b b1 b2 lo hi :
  wrote b b1 lo hi -> wrote b1 b2 lo hi -> wrote b b2 lo hi.
Proof. intros [L B W] [L' B' W']. split; [lia|auto|]. intros. by rewrite W', W. Qed.

Lemma splice_wrote b off bs :
  0 <= off -> off + zlen bs <= zlen b -> isbytes bs -> wrote b (splice b off bs) off (off + zlen bs).
Proof.
  intros. split; [by apply zlen_splice|intros; by apply isbytes_splice|].
  intros. by apply slice_splice_other.
Qed.
Lemma put_spec n b o v :
  0 <= o -> 0 <= n -> o + n <= zlen b ->
  exists b', be_put n b o v = Ret b' /\ wrote b b' o (o + n) /\ dec n b' o = v mod 256 ^ n.
Proof.
  intros. eexists. rewrite be_put_ok by lia. split_and!; [done| |by apply dec_put_same].
  pose proof (splice_wrote b o (be_encode (Z.to_nat n) v)) as W.
  rewrite zlen_be_encode, Z2Nat.id in W by lia. apply W; [lia..|apply isbytes_be_encode].
Qed.
Lemma set_byte_spec b o v :
  0 <= o < zlen b -> exists b', set_byte b o v = Ret b' /\ wrote b b' o (o + 1) /\ dec 1 b' o = v mod 256.
Proof.
  intros. destruct (put_spec 1 b o v) as (b' & E & W & Ed); [lia..|]. exists b'.
  rewrite set_byte_ok by lia. by rewrite be_put_ok in E by lia.
Qed.
Lemma copy_spec b o bs :
  0 <= o -> o + zlen bs <= zlen b -> isbytes bs ->
  exists b', copy_to b o bs = Ret b' /\ wrote b b' o (o + zlen bs) /\ slice b' o (zlen bs) = bs.
Proof.
  intros. pose proof (zlen_nonneg bs). exists (splice b o bs). unfold copy_to.
  rewrite (proj2 (Z.leb_le 0 o)), (proj2 (Z.leb_le o (zlen b))) by lia. ostep.
  rewrite firstn_all2 by zl.
  split_and!; [done|by apply splice_wrote|by apply slice_splice_same].
Qed.
Lemma clear_spec b lo hi :
  0 <= lo -> lo <= hi -> hi <= zlen b ->
  exists b', clear_range b lo hi = Ret b' /\ wrote b b' lo hi /\ slice b' lo (hi - lo) = make_bytes (hi - lo).
Proof.
  intros. set (z := replicate (Z.to_nat (hi - lo)) 0).
  assert (zlen z = hi - lo) as Lz by (unfold z; zl).
  exists (splice b lo z). unfold clear_range.
  rewrite (proj2 (Z.leb_le 0 lo)), (proj2 (Z.leb_le lo hi)), (proj2 (Z.leb_le hi (zlen b))) by lia. ostep.
  split_and!; [done| |change (make_bytes (hi - lo)) with z; rewrite <- Lz; apply slice_splice_same; lia].
  eapply wrote_weaken; [apply splice_wrote; [lia..|apply isbytes_replicate]|lia..].
Qed.
