(* ===== verification/Crc.v ===== *)
(** * CRC32c checksums (crc.go)

    hash/crc32's Castagnoli checksum, computed bit by bit, and the driver's
    [updateCRC] / [verifyCRC], which store it little-endian inside (or right
    after) the range it covers. *)
From S2P Require Import Prelude Bytes.

(** [crc32.MakeTable(crc32.Castagnoli)]: the reflected polynomial. *)
Definition castagnoli : Z := 0x82F63B78.
Fixpoint crc_bits (n : nat) (c : Z) : Z :=
  match n with
  | O => c
  | S n' => crc_bits n' (if Z.odd c then Z.lxor (Z.shiftr c 1) castagnoli else Z.shiftr c 1)
  end.
Definition crc_byte (c b : Z) : Z := crc_bits 8 (Z.lxor c b).
(** [crc32.Checksum(data, castagnoli)] *)
Definition crc32c (data : bytes) : Z :=
  Z.lxor (fold_left crc_byte data 0xFFFFFFFF) 0xFFFFFFFF.

Definition updateCRC (buf : bytes) (crcOff len : Z) : outcome bytes :=
  buf1 ← le_put32 buf crcOff 0;
  data ← sub buf1 0 len;
  le_put32 buf1 crcOff (crc32c data).

Definition verifyCRC (buf : bytes) (crcOff len : Z) : outcome bool :=
  stored ← le32 buf crcOff;
  data ← sub buf 0 len;
  if crcOff + 4 <=? len then
    tmp ← le_put32 data crcOff 0;
    Ret (stored =? crc32c tmp)
  else Ret (stored =? crc32c data).

(** The check value of the CRC-32C catalogue: CRC("123456789") = 0xE3069283. *)
Example crc32c_check_value :
  crc32c [49; 50; 51; 52; 53; 54; 55; 56; 57] = 0xE3069283.
Proof. vm_compute. reflexivity. Qed.

Lemma crc_bits_range n c : 0 <= c < 2 ^ 32 -> 0 <= crc_bits n c < 2 ^ 32.
Proof.
  revert c. induction n as [|n IH]; intros c Hc; [done|]. cbn [crc_bits]. apply IH.
  assert (0 <= Z.shiftr c 1 < 2 ^ 31) as Hs.
  { rewrite Z.shiftr_div_pow2 by lia. change (2 ^ 1) with 2.
    split; [apply Z.div_pos; lia|apply Z.div_lt_upper_bound; lia]. }
  destruct (Z.odd c); [|lia].
  split; [apply Z.lxor_nonneg; unfold castagnoli; lia|].
  destruct (Z.eq_dec (Z.lxor (Z.shiftr c 1) castagnoli) 0) as [->|Hn]; [lia|].
  apply Z.log2_lt_pow2.
  { assert (0 <= Z.lxor (Z.shiftr c 1) castagnoli); [|lia].
    apply Z.lxor_nonneg; unfold castagnoli; lia. }
  eapply Z.le_lt_trans; [apply Z.log2_lxor; unfold castagnoli; lia|].
  apply Z.max_lub_lt; [|by vm_compute].
  destruct (Z.eq_dec (Z.shiftr c 1) 0) as [->|]; [by vm_compute|].
  apply Z.log2_lt_pow2; lia.
Qed.

Lemma lxor_range32 a b : 0 <= a < 2 ^ 32 -> 0 <= b < 2 ^ 32 -> 0 <= Z.lxor a b < 2 ^ 32.
Proof. apply lxor_range. lia. Qed.

Lemma crc32c_range data : isbytes data -> 0 <= crc32c data < 2 ^ 32.
Proof.
  intros Hd. apply lxor_range32; [|lia].
  assert (forall c, 0 <= c < 2 ^ 32 -> 0 <= fold_left crc_byte data c < 2 ^ 32) as G; [|by apply G].
  induction Hd as [|b bs Hb _ IH]; intros c Hc; [done|]. apply IH.
  apply crc_bits_range, lxor_range32; unfold isbyte in Hb; lia.
Qed.

Lemma le_put32_Ret buf off v :
  0 <= off -> off + 4 <= zlen buf -> le_put32 buf off v = Ret (splice buf off (le_encode 4 v)).
Proof. intros. unfold le_put32. by rewrite (proj2 (inrange_spec buf off 4)). Qed.

(** What [updateCRC] stores: the checksum of the covered range with the CRC
    field zeroed, every other byte unchanged. *)
Lemma updateCRC_Ret buf crcOff len :
  0 <= crcOff -> crcOff + 4 <= zlen buf -> 0 <= len <= zlen buf ->
  updateCRC buf crcOff len =
    Ret (splice buf crcOff (le_encode 4 (crc32c (slice (splice buf crcOff (le_encode 4 0)) 0 len)))).
Proof.
  intros. unfold updateCRC. rewrite le_put32_Ret by lia. ostep.
  assert (zlen (splice buf crcOff (le_encode 4 0)) = zlen buf) as E.
  { apply zlen_splice; [lia|]. unfold zlen at 1. rewrite le_encode_length. lia. }
  unfold sub. rewrite E.
  replace ((0 <=? 0) && (0 <=? len) && (len <=? zlen buf)) with true by (symmetry; lia).
  ostep. rewrite le_put32_Ret by lia. rewrite Z.sub_0_r.
  rewrite splice_splice_same; [done|lia|by rewrite !le_encode_length|].
  unfold zlen at 1. rewrite le_encode_length. lia.
Qed.

Definition crc_layout_ok (buf : bytes) (crcOff len : Z) : Prop :=
  0 <= crcOff /\ crcOff + 4 <= zlen buf /\ 0 <= len <= zlen buf /\
  (crcOff + 4 <= len \/ len <= crcOff).

(** Stamping rewrites the four CRC bytes only, and the result verifies. *)
Lemma verify_update_aux buf crcOff len :
  isbytes buf -> crc_layout_ok buf crcOff len ->
  exists buf', updateCRC buf crcOff len = Ret buf' /\ verifyCRC buf' crcOff len = Ret true /\
    isbytes buf' /\ exists bs, buf' = splice buf crcOff bs /\ zlen bs = 4.
Proof.
  intros Hb (H0 & H1 & H2 & Hc). rewrite updateCRC_Ret by lia.
  set (z := splice buf crcOff (le_encode 4 0)). set (c := crc32c (slice z 0 len)).
  assert (forall v, isbytes (le_encode 4 v)) as Hle by (intros; apply Forall_rev, isbytes_be_encode).
  assert (forall v, zlen (le_encode 4 v) = 4) as L4 by (intros; unfold zlen; by rewrite le_encode_length).
  eexists. split; [done|]. split; [|split; [by apply isbytes_splice|eauto]].
  assert (isbytes z) as Hz by by apply isbytes_splice.
  assert (0 <= c < 2 ^ 32) as Hr by (apply crc32c_range, isbytes_slice; done).
  set (b' := splice buf crcOff (le_encode 4 c)).
  assert (zlen b' = zlen buf) as E by (apply zlen_splice; rewrite ?L4; lia).
  unfold verifyCRC, le32, sub. rewrite (proj2 (inrange_spec b' crcOff 4)) by lia. ostep.
  replace ((0 <=? 0) && (0 <=? len) && (len <=? zlen b')) with true by (symmetry; lia).
  ostep. rewrite Z.sub_0_r.
  assert (le_decode (slice b' crcOff 4) = c) as ->.
  { unfold b'. rewrite <- (L4 c). rewrite slice_splice_same by (rewrite ?L4; lia).
    rewrite le_decode_encode. by apply Z.mod_small. }
  destruct (Z.leb_spec (crcOff + 4) len).
  - rewrite le_put32_Ret by (rewrite ?zlen_slice; lia). ostep. f_equal. apply Z.eqb_eq.
    unfold c. f_equal. unfold z, b'.
    rewrite !slice0_splice by (rewrite ?L4; lia).
    symmetry. apply splice_splice_same; [lia|by rewrite !le_encode_length|].
    rewrite L4, zlen_slice; lia.
  - f_equal. apply Z.eqb_eq. unfold c. f_equal. unfold z, b'.
    rewrite !slice_splice_before by (rewrite ?L4; lia). done.
Qed.

(** A buffer stamped by [updateCRC] passes [verifyCRC], for
    both conventions crc.go documents: the CRC field inside the covered range,
    or at/after its end.  (A field straddling the end is excluded.) *)
Lemma verify_updateCRC (buf : bytes) (crcOff len : Z) :
  isbytes buf -> crc_layout_ok buf crcOff len ->
  (buf' ← updateCRC buf crcOff len; verifyCRC buf' crcOff len) = Ret true.
Proof.
  intros Hb Hl. destruct (verify_update_aux buf crcOff len Hb Hl) as (buf' & Hu & Hv & _).
  rewrite Hu. exact Hv.
Qed.

Lemma verify_updateCRC_witness :
  crc_layout_ok [7; 1; 2; 3; 4; 9] 1 6 /\
  (buf' ← updateCRC [7; 1; 2; 3; 4; 9] 1 6; verifyCRC buf' 1 6) = Ret true.
Proof.
  assert (crc_layout_ok [7; 1; 2; 3; 4; 9] 1 6) as H by (unfold crc_layout_ok, zlen; simpl; lia).
  split; [exact H|]. apply verify_updateCRC; [|exact H].
  by apply (bool_decide_unpack _).
Defined.

(** [updateCRC] as a writer of its four bytes. *)
Lemma updateCRC_spec buf crcOff len :
  isbytes buf -> crc_layout_ok buf crcOff len ->
  exists buf', updateCRC buf crcOff len = Ret buf' /\ verifyCRC buf' crcOff len = Ret true /\
    wrote buf buf' crcOff (crcOff + 4).
Proof.
  intros Hb Hl. destruct (verify_update_aux buf crcOff len Hb Hl) as (buf' & E & V & Hb' & bs & -> & L).
  destruct Hl as (? & ? & ? & _). eexists; split_and!; [done..|].
  split; [apply zlen_splice; lia|done|]. intros. apply slice_splice_other; lia.
Qed.
