(* ===== verification/Writers.v ===== *)
(** * Stepping through buffer writers

    A writer of the code is a chain of [PutUintN], byte stores, [copy] and [clear] on one
    buffer.  [wstep] takes the next store of such a chain, [rdec] and [rslice] read a field
    of the result back through the stores that came after it. *)
From S2P Require Import Prelude Bytes Crc.

Lemma mod_small_pow n v : 0 <= v < 256 ^ n -> v mod 256 ^ n = v.
Proof. apply Z.mod_small. Qed.

(** Take the store at the head of the goal. *)
Ltac wstep :=
  let b' := fresh "b" in let E := fresh "E" in let W := fresh "W" in let V := fresh "V" in
  match goal with
  | |- context [be_put ?n ?b ?o ?v ≫= _] =>
      destruct (put_spec n b o v) as (b' & E & W & V); [lia|lia|lia|]
  | |- context [set_byte ?b ?o ?v ≫= _] =>
      destruct (set_byte_spec b o v) as (b' & E & W & V); [lia|]
  | |- context [copy_to ?b ?o ?bs ≫= _] =>
      destruct (copy_spec b o bs) as (b' & E & W & V); [lia|lia|done|]
  | |- context [clear_range ?b ?lo ?hi ≫= _] =>
      destruct (clear_spec b lo hi) as (b' & E & W & V); [lia|lia|lia|]
  | |- context [guardP ?c ≫= _] =>
      assert (c = true) as E by (bsplit; lia); assert (True) as W by done; assert (True) as V by done
  end;
  rewrite E; ostep; clear E;
  match type of W with True => clear W V | _ => pose proof (wrote_len _ _ _ _ W) end.
(** The same for a store that ends the chain. *)
Ltac wlast :=
  let b' := fresh "b" in let E := fresh "E" in let W := fresh "W" in let V := fresh "V" in
  match goal with
  | |- context [be_put ?n ?b ?o ?v] =>
      destruct (put_spec n b o v) as (b' & E & W & V); [lia|lia|lia|]
  | |- context [set_byte ?b ?o ?v] =>
      destruct (set_byte_spec b o v) as (b' & E & W & V); [lia|]
  | |- context [copy_to ?b ?o ?bs] =>
      destruct (copy_spec b o bs) as (b' & E & W & V); [lia|lia|done|]
  end;
  rewrite E; ostep; clear E; pose proof (wrote_len _ _ _ _ W).
(** Read fields back. *)
Ltac rdec :=
  repeat match goal with
  | V : dec ?n ?b ?o = _ |- context [dec ?n ?b ?o] => rewrite V
  | W : wrote ?b0 ?b ?lo ?hi |- context [dec ?n ?b ?o] => rewrite (wrote_dec b0 b lo hi n o W) by lia
  end.
Ltac rslice :=
  repeat match goal with
  | V : slice ?b ?o ?n = _ |- context [slice ?b ?o ?n] => rewrite V
  | W : wrote ?b0 ?b ?lo ?hi |- context [slice ?b ?o ?n] => rewrite (wrote_slice b0 b lo hi W o n) by lia
  end.
(** The last buffer of a chain holds bytes and has the length of the first. *)
Ltac wbytes := repeat (eapply wrote_bytes; [eassumption|]); done.
(** The chain as one write of a range. *)
Ltac wchain := repeat (eapply wrote_trans; [eapply wrote_weaken; [eassumption|lia|lia]|]); first [apply wrote_refl | eapply wrote_weaken; [eassumption|lia|lia]].
