(* ===== verification/Extent.v ===== *)
(** * Extent records (extent.go) and extent-list validation (limits.go)

    The 16-byte bmbt record codec and [validateExtents], which refuses a fork
    whose records overlap in file offset or in physical blocks. *)
From S2P Require Import Prelude Bytes.

Record extent := mkExtent {
  startOff : Z;      (* file block offset, uint64 *)
  startBlock : Z;    (* packed fsbno, uint64 *)
  count : Z;         (* uint32 *)
  unwritten : bool
}.

Definition decodeExtent (rec : bytes) : outcome extent :=
  r0 ← be64 rec 0;
  r1 ← be64 rec 8;
  Ret {| unwritten := negb (shr64 r0 63 =? 0);
         startOff := Z.land (shr64 r0 9) (2 ^ 54 - 1);
         startBlock := Z.lor (shl64 (Z.land r0 0x1FF) 43) (shr64 r1 21);
         count := u32 (Z.land r1 0x1FFFFF) |}.

Definition encodeExtent (e : extent) : bytes :=
  let flag := if unwritten e then 1 else 0 in
  let r0 := Z.lor (Z.lor (shl64 flag 63) (shl64 (Z.land (startOff e) (2 ^ 54 - 1)) 9))
                  (shr64 (startBlock e) 43) in
  let r1 := Z.lor (shl64 (Z.land (startBlock e) (2 ^ 43 - 1)) 21)
                  (Z.land (count e) 0x1FFFFF) in
  be_encode 8 r0 ++ be_encode 8 r1.

(** The one-pass test of [checkRuns]: every non-empty record starts at or after
    the end of the previous one.  [None] is [have = false]. *)
Fixpoint runs_ordered (start : extent -> Z) (exts : list extent) (prevEnd : option Z) : bool :=
  match exts with
  | [] => true
  | e :: rest =>
      if count e =? 0 then runs_ordered start rest prevEnd
      else
        let s := start e in
        if (match prevEnd with Some p => s <? p | None => false end) then false
        else runs_ordered start rest (Some (u64 (s + count e)))
  end.

Definition by_start (start : extent -> Z) (a b : extent) : Prop := start a <= start b.
#[export] Instance by_start_dec start : RelDecision (by_start start).
Proof. intros a b. unfold by_start. apply _. Defined.

(** [for i := 1; i < len(cp); i++] over the sorted copy. *)
Fixpoint runs_adjacent_ok (start : extent -> Z) (cp : list extent) : outcome unit :=
  match cp with
  | a :: (b :: _) as rest =>
      if start b <? u64 (start a + count a) then Fail ErrOutOfBounds
      else runs_adjacent_ok start rest
  | _ => Ret tt
  end.

(** [sort.Slice] yields some permutation sorted by [start]; the order it gives
    equal keys does not matter here (two non-empty records with one start
    overlap whichever comes first), so a merge sort stands for it. *)
Definition checkRuns (start : extent -> Z) (exts : list extent) : outcome unit :=
  if runs_ordered start exts None then Ret tt
  else
    let cp := filter (fun e => count e <> 0) exts in
    runs_adjacent_ok start (merge_sort (by_start start) cp).

Definition validateExtents (exts : list extent) : outcome unit :=
  if (length exts <? 2)%nat then Ret tt
  else checkRuns startOff exts;; checkRuns startBlock exts.

(** ** The record codec *)
Definition extent_wf (e : extent) : Prop :=
  0 <= startOff e < 2 ^ 54 /\ 0 <= startBlock e < 2 ^ 52 /\ 0 <= count e < 2 ^ 21.
#[export] Instance extent_wf_dec e : Decision (extent_wf e).
Proof. unfold extent_wf. apply _. Defined.

Lemma be_get_app_l n a b off :
  0 <= off -> 0 <= n -> off + n <= zlen a -> be_get n (a ++ b) off = Ret (dec n a off).
Proof.
  intros. rewrite be_get_ok by zl. f_equal. unfold dec, slice.
  rewrite drop_app_le by zl. rewrite take_app_le; [done|]. rewrite length_drop. zl.
Qed.
Lemma be_get_app_r n a b off :
  off = zlen a -> 0 <= n -> n <= zlen b -> be_get n (a ++ b) off = Ret (dec n b 0).
Proof.
  intros ->. intros. rewrite be_get_ok by zl. f_equal. unfold dec, slice.
  unfold zlen. rewrite Nat2Z.id, drop_app_length. done.
Qed.
Lemma dec_all n bs : zlen bs = n -> dec n bs 0 = be_decode bs.
Proof. intros <-. unfold dec. by rewrite slice_all. Qed.

(** The two words of a record as sums of their fields. *)
Lemma encode_words e :
  extent_wf e ->
  encodeExtent e =
    be_encode 8 ((if unwritten e then 2 ^ 63 else 0) + startOff e * 2 ^ 9 + startBlock e / 2 ^ 43)
    ++ be_encode 8 (startBlock e mod 2 ^ 43 * 2 ^ 21 + count e).
Proof.
  intros (Ho & Hb & Hc). unfold encodeExtent, shl64, shr64.
  change 0x1FFFFF with (2 ^ 21 - 1). rewrite !land_ones_mod by lia.
  rewrite (Z.mod_small (startOff e)), (Z.mod_small (count e)) by lia.
  rewrite (Z.shiftr_div_pow2 _ 43) by lia.
  assert (0 <= startBlock e / 2 ^ 43 < 2 ^ 9) as Hh
    by (split; [apply Z.div_pos; lia|apply Z.div_lt_upper_bound; lia]).
  pose proof (Z.mod_pos_bound (startBlock e) (2 ^ 43) ltac:(lia)) as Hm.
  f_equal; f_equal.
  - rewrite (u64_small (Z.shiftl (startOff e) 9)) by (rewrite Z.shiftl_mul_pow2; lia).
    assert (u64 (Z.shiftl (if unwritten e then 1 else 0) 63)
            = Z.shiftl (if unwritten e then 2 ^ 54 else 0) 9) as -> by (destruct (unwritten e); reflexivity).
    rewrite <- Z.shiftl_lor, lor_shiftl_add by lia.
    destruct (unwritten e).
    + change (2 ^ 54) with (Z.shiftl 1 54). rewrite lor_shiftl_add by lia. lia.
    + rewrite Z.lor_0_l. lia.
  - rewrite u64_small by (rewrite Z.shiftl_mul_pow2; lia). apply lor_shiftl_add; lia.
Qed.

Lemma decode_words r0 r1 :
  0 <= r0 < 2 ^ 64 -> 0 <= r1 < 2 ^ 64 ->
  decodeExtent (be_encode 8 r0 ++ be_encode 8 r1) =
  Ret {| unwritten := negb (r0 / 2 ^ 63 =? 0); startOff := (r0 / 2 ^ 9) mod 2 ^ 54;
         startBlock := r0 mod 2 ^ 9 * 2 ^ 43 + r1 / 2 ^ 21; count := r1 mod 2 ^ 21 |}.
Proof.
  intros H0 H1. unfold decodeExtent. rewrite (be_get_app_l 8 _ _ 0) by zl. ostep.
  rewrite be_get_app_r by zl. ostep.
  rewrite !dec_all, !be_decode_encode by zl. change (256 ^ Z.of_nat 8) with (2 ^ 64).
  rewrite !(Z.mod_small _ (2 ^ 64)) by lia.
  unfold shl64, shr64. change 0x1FF with (2 ^ 9 - 1). change 0x1FFFFF with (2 ^ 21 - 1).
  rewrite !land_ones_mod, !Z.shiftr_div_pow2 by lia.
  pose proof (Z.mod_pos_bound r1 (2 ^ 21) ltac:(lia)).
  pose proof (Z.mod_pos_bound r0 (2 ^ 9) ltac:(lia)).
  rewrite u32_small by lia. rewrite u64_small by (rewrite Z.shiftl_mul_pow2; lia).
  rewrite lor_shiftl_add; [done|lia|].
  split; [apply Z.div_pos; lia|apply Z.div_lt_upper_bound; lia].
Qed.

Lemma decodeExtent_encode (e : extent) :
  extent_wf e -> decodeExtent (encodeExtent e) = Ret e.
Proof.
  intros He. rewrite (encode_words e He). destruct He as (Ho & Hb & Hc).
  assert (0 <= startBlock e / 2 ^ 43 < 2 ^ 9) as Hh
    by (split; [apply Z.div_pos; lia|apply Z.div_lt_upper_bound; lia]).
  pose proof (Z.mod_pos_bound (startBlock e) (2 ^ 43) ltac:(lia)) as Hm.
  pose proof (Z.div_mod (startBlock e) (2 ^ 43) ltac:(lia)) as Hd.
  destruct e as [o b c u]; cbn [startOff startBlock count unwritten] in *.
  rewrite decode_words by (destruct u; lia). f_equal. f_equal.
  - destruct u; Z.div_mod_to_equations; lia.
  - rewrite Z.div_add_l, (Z.div_small c) by lia.
    replace ((if u then 2 ^ 63 else 0) + o * 2 ^ 9) with (((if u then 2 ^ 54 else 0) + o) * 2 ^ 9)
      by (destruct u; lia).
    rewrite mod_add_l; lia.
  - by apply mod_add_l.
  - destruct u; [apply negb_true_iff, Z.eqb_neq|apply negb_false_iff, Z.eqb_eq];
      Z.div_mod_to_equations; lia.
Qed.

Definition sample_extent : extent := mkExtent 5 (2 ^ 51 + 77) 1048577 true.
Lemma decodeExtent_total rec :
  isbytes rec -> zlen rec = 16 -> exists e, decodeExtent rec = Ret e /\ extent_wf e /\ encodeExtent e = rec.
Proof.
  intros Hb Hl.
  assert (rec = slice rec 0 8 ++ slice rec 8 8) as E.
  { rewrite <- (slice_all rec) at 1. rewrite Hl. by apply (slice_app_adj rec 0 8 8). }
  assert (forall o, 0 <= o -> o + 8 <= 16 -> exists r, 0 <= r < 2 ^ 64 /\ slice rec o 8 = be_encode 8 r) as G.
  { intros o Ho Ho8. exists (dec 8 rec o). split; [apply dec_range; (done || lia)|].
    symmetry. apply (slice_as_encode 8); (done || lia). }
  destruct (G 0) as (r0 & H0 & E0); [lia..|]. destruct (G 8) as (r1 & H1 & E1); [lia..|].
  rewrite E0, E1 in E. rewrite E, decode_words by done. eexists; split; [done|].
  match goal with |- extent_wf ?e /\ _ => assert (extent_wf e) as W end.
  { unfold extent_wf; cbn [startOff startBlock count]. Z.div_mod_to_equations; lia. }
  split; [done|]. rewrite encode_words by done. cbn [startOff startBlock count unwritten].
  f_equal; f_equal.
  - destruct (Z.eqb_spec (r0 / 2 ^ 63) 0); cbn [negb]; Z.div_mod_to_equations; lia.
  - Z.div_mod_to_equations; lia.
Qed.

(** C28 (round trip).  The extent codec is a bijection between the extents whose fields
    fit the record's 54/52/21 bits and the 16-byte records: decoding an encoded extent
    gives it back, every record decodes to such an extent, and re-encoding that gives
    the same 16 bytes. *)
Theorem extent_codec (e : extent) (rec : bytes) :
  extent_wf e -> isbytes rec -> zlen rec = 16 ->
  decodeExtent (encodeExtent e) = Ret e /\
  exists e', decodeExtent rec = Ret e' /\ extent_wf e' /\ encodeExtent e' = rec.
Proof. intros He Hb L. split; [by apply decodeExtent_encode|by apply decodeExtent_total]. Qed.
Lemma extent_codec_witness :
  decodeExtent (encodeExtent sample_extent) = Ret sample_extent /\
  exists e', decodeExtent (replicate 16 255) = Ret e' /\ extent_wf e' /\ encodeExtent e' = replicate 16 255.
Proof. apply extent_codec; [by apply (bool_decide_unpack _)|by apply (bool_decide_unpack _)|reflexivity]. Defined.

(** ** Extent-list validation *)
Section Runs.
Context (start : extent -> Z).

(** Two records are apart when either is empty or their block ranges do not meet. *)
Definition apart (a b : extent) : Prop :=
  count a = 0 \/ count b = 0 \/
  start a + count a <= start b \/ start b + count b <= start a.
Definition runs_disjoint (l : list extent) : Prop := ForallOrdPairs apart l.
Definition run_wf (e : extent) : Prop := 0 <= start e < 2 ^ 63 /\ 0 <= count e < 2 ^ 32.

Lemma apart_sym a b : apart a b -> apart b a.
Proof. unfold apart. tauto. Qed.

Lemma FOP_perm (R : extent -> extent -> Prop) l k :
  (forall a b, R a b -> R b a) -> l ≡ₚ k -> ForallOrdPairs R l -> ForallOrdPairs R k.
Proof.
  intros Hs. induction 1 as [|x l k Hp IH|x y l|l k m _ IH1 _ IH2]; intros H; auto.
  - inversion H; subst. constructor; [by rewrite <- Hp|auto].
  - inversion H as [|? ? Hy H']; subst. inversion H' as [|? ? Hx H'']; subst.
    apply Forall_cons in Hy as [Hyx Hy]. constructor; [constructor; auto|]. constructor; auto.
Qed.

Lemma runs_disjoint_filter l :
  runs_disjoint (filter (fun e => count e <> 0) l) <-> runs_disjoint l.
Proof.
  unfold runs_disjoint. induction l as [|e l IH]; [done|].
  rewrite filter_cons. destruct (decide (count e <> 0)) as [Hc|Hc].
  - split; intros H; inversion H as [|? ? H1 H2]; subst; constructor; try tauto.
    + rewrite Forall_forall in H1 |- *. intros x Hx.
      destruct (decide (count x <> 0)); [apply H1, list_elem_of_filter; done|].
      unfold apart. right; left. destruct (Z.eq_dec (count x) 0); tauto.
    + rewrite Forall_forall in H1 |- *. intros x [_ Hx]%list_elem_of_filter. by apply H1.
  - rewrite IH. split; [|by inversion 1]. intros H. constructor; [|done].
    apply Forall_forall. intros x _. unfold apart. left. destruct (Z.eq_dec (count e) 0); tauto.
Qed.

(** The one-pass test only accepts disjoint lists. *)
Lemma runs_ordered_sound l p :
  Forall run_wf l -> runs_ordered start l p = true ->
  runs_disjoint l /\
  (forall q, p = Some q -> Forall (fun e => count e = 0 \/ q <= start e) l).
Proof.
  revert p. induction l as [|e l IH]; intros p Hw H; [repeat constructor|].
  apply Forall_cons in Hw as [He Hw]. cbn [runs_ordered] in H.
  destruct (Z.eqb_spec (count e) 0) as [Hz|Hz].
  - destruct (IH p Hw H) as [Hd Hp]. split.
    + constructor; [|done]. apply Forall_forall. intros. by left.
    + intros q Hq. constructor; [by left|by apply Hp].
  - destruct (match p with Some q => start e <? q | None => false end) eqn:Hlt; [done|].
    destruct (IH _ Hw H) as [Hd Hp]. specialize (Hp _ eq_refl).
    unfold run_wf in He. rewrite u64_small in Hp by lia. split.
    + constructor; [|done]. eapply Forall_impl; [exact Hp|]. cbn. unfold apart. lia.
    + intros q ->. bsplit. constructor; [lia|]. eapply Forall_impl; [exact Hp|]. cbn. lia.
Qed.

Definition behind (a b : extent) : Prop := start a + count a <= start b.

Lemma adjacent_ok_iff l :
  Forall (fun e => run_wf e /\ count e <> 0) l ->
  runs_adjacent_ok start l = Ret tt <-> Sorted behind l.
Proof.
  induction l as [|a [|b l] IH]; intros Hw; [split; repeat constructor..|].
  apply Forall_cons in Hw as [[Ha ?] Hw]. specialize (IH Hw). unfold run_wf in Ha.
  cbn [runs_adjacent_ok]. rewrite u64_small by lia.
  destruct (Z.ltb_spec (start b) (start a + count a)).
  - split; [done|]. inversion 1 as [|? ? ? Hh]; subst. inversion Hh; subst. unfold behind in *. lia.
  - rewrite IH. split; [intros; constructor; [done|constructor; unfold behind; lia]|by inversion 1].
Qed.

Lemma adjacent_exact l :
  Forall (fun e => run_wf e /\ count e <> 0) l -> Sorted (by_start start) l ->
  runs_adjacent_ok start l = Ret tt <-> runs_disjoint l.
Proof.
  intros Hw Hs. rewrite adjacent_ok_iff by done. split.
  - intros Hb.
    assert (Forall (fun e => 0 <= count e) l) as Hc.
    { eapply Forall_impl; [exact Hw|]. unfold run_wf. cbn. intros. lia. }
    clear Hw Hs. induction Hb as [|a l Hb IH Hh]; [constructor|].
    apply Forall_cons in Hc as [Ha Hc]. specialize (IH Hc). constructor; [|done].
    clear IH. revert a Ha Hh. induction Hb as [|b l Hb IH Hh]; intros a Ha Hab; [constructor|].
    apply Forall_cons in Hc as [Hb0 Hc]. inversion Hab as [|? ? Hab']; subst. unfold behind in Hab'.
    constructor; [unfold apart; lia|]. apply IH; [done..|].
    destruct Hh as [|c l Hbc]; constructor. unfold behind in *. lia.
  - intros Hd. induction Hs as [|a l Hs IH Hh]; [constructor|].
    apply Forall_cons in Hw as [[Ha0 Ha] Hw]. inversion Hd as [|? ? Ha1 Hd']; subst.
    constructor; [auto|]. destruct Hh as [|b l Hab]; constructor.
    apply Forall_cons in Hw as [[Hb0 Hb] _]. apply Forall_cons in Ha1 as [Hap _].
    unfold apart, behind, by_start, run_wf in *. lia.
Qed.

#[local] Instance by_start_total : Total (by_start start).
Proof. intros a b. unfold by_start. lia. Qed.

Lemma checkRuns_exact l :
  Forall run_wf l -> checkRuns start l = Ret tt <-> runs_disjoint l.
Proof.
  intros Hw. unfold checkRuns. destruct (runs_ordered start l None) eqn:Ho.
  { split; [|done]. intros _. by apply (runs_ordered_sound l None). }
  set (cp := filter (fun e => count e <> 0) l).
  pose proof (merge_sort_Permutation (by_start start) cp) as Hp.
  rewrite adjacent_exact.
  - rewrite <- (runs_disjoint_filter l). fold cp. unfold runs_disjoint.
    split; apply FOP_perm; eauto using apart_sym, Permutation_sym.
  - rewrite Hp. apply Forall_forall. intros x [Hx Hin]%list_elem_of_filter.
    rewrite Forall_forall in Hw. split; [by apply Hw|done].
  - apply Sorted_merge_sort, _.
Qed.
End Runs.

Lemma validateExtents_iff (exts : list extent) :
  Forall extent_wf exts ->
  validateExtents exts = Ret tt <->
  runs_disjoint startOff exts /\ runs_disjoint startBlock exts.
Proof.
  intros Hw. unfold validateExtents.
  assert (Forall (run_wf startOff) exts /\ Forall (run_wf startBlock) exts) as [W1 W2].
  { split; (eapply Forall_impl; [exact Hw|]); intros e (?&?&?); unfold run_wf; lia. }
  destruct (Nat.ltb_spec (length exts) 2).
  { split; [intros _|done]. destruct exts as [|e [|e' l]]; simpl in *; [split; constructor| |lia].
    split; constructor; repeat constructor. }
  rewrite <- (checkRuns_exact _ _ W1), <- (checkRuns_exact _ _ W2).
  destruct (checkRuns startOff exts) as [[]| | |]; ostep; split; naive_solver.
Qed.

(** C29 (functional).  [validateExtents] accepts an extent list exactly when no two
    of its non-empty records overlap, neither in file offsets nor in physical
    blocks: the one-pass fast path and the sort-and-compare slow path together
    decide overlap, with no false refusal and no false acceptance. *)
Theorem validateExtents_exact (exts : list extent) :
  Forall extent_wf exts ->
  validateExtents exts = Ret tt <->
  runs_disjoint startOff exts /\ runs_disjoint startBlock exts.
Proof. apply validateExtents_iff. Qed.

Lemma validateExtents_exact_witness :
  Forall extent_wf [mkExtent 4 100 3 false; mkExtent 0 200 4 false] /\
  runs_disjoint startOff [mkExtent 4 100 3 false; mkExtent 0 200 4 false].
Proof.
  assert (Forall extent_wf [mkExtent 4 100 3 false; mkExtent 0 200 4 false]) as H
    by by apply (bool_decide_unpack _).
  split; [exact H|]. apply (validateExtents_exact _ H). vm_compute. reflexivity.
Defined.

Example validateExtents_refuses :
  validateExtents [mkExtent 4 100 3 false; mkExtent 0 200 5 false] = Fail ErrOutOfBounds.
Proof. vm_compute. reflexivity. Qed.
