(* ===== verification/Device.v ===== *)
(** * Block devices

    The driver reaches the image only through [io.ReaderAt] / [io.WriterAt]
    (fs.go [readerWriterAt], [blockBackend]).  [Device] is that interface,
    [DeviceLaws] what the driver relies on, [DeviceReliable] the absence of
    I/O faults inside the image.  A write that fails may leave any state behind.
    The in-memory image at the end is the instance the concrete runs use. *)
From S2P Require Import Prelude Bytes.

Class Device (D : Type) : Type := {
  (** [r.ReadAt(buf, off)] with [len(buf) = n]: the bytes, or an error when
      fewer than [n] are available. *)
  ReadAt : D -> Z -> Z -> outcome bytes;
  (** [w.WriteAt(bs, off)]. *)
  WriteAt : D -> Z -> bytes -> outcome unit * D
}.

Class DeviceLaws (D : Type) `{Device D} : Prop := {
  ReadAt_len d off n bs : 0 <= n -> ReadAt d off n = Ret bs -> zlen bs = n;
  (** A read at a non-negative offset returns or fails. *)
  ReadAt_safe d off n : 0 <= off -> 0 <= n -> safe (ReadAt d off n);
  ReadAt_isbytes d off n bs : ReadAt d off n = Ret bs -> isbytes bs;
  ReadAt_sub d off n bs k m :
    ReadAt d off n = Ret bs -> 0 <= k -> 0 <= m -> k + m <= n ->
    ReadAt d (off + k) m = Ret (slice bs k m);
  ReadAt_join d off n m bs cs :
    0 <= n -> 0 <= m -> ReadAt d off n = Ret bs -> ReadAt d (off + n) m = Ret cs ->
    ReadAt d off (n + m) = Ret (bs ++ cs);
  ReadAt_write d off bs d' :
    isbytes bs -> WriteAt d off bs = (Ret tt, d') -> ReadAt d' off (zlen bs) = Ret bs;
  ReadAt_write_other d off bs d' o n cs :
    WriteAt d off bs = (Ret tt, d') -> 0 <= n -> o + n <= off \/ off + zlen bs <= o ->
    ReadAt d o n = Ret cs -> ReadAt d' o n = Ret cs
}.

(** No I/O faults: where the image can be read, it can be written, and no
    operation panics. *)
Class DeviceReliable (D : Type) `{Device D} : Prop := {
  WriteAt_ok d off bs cs :
    ReadAt d off (zlen bs) = Ret cs -> exists d', WriteAt d off bs = (Ret tt, d')
}.

(** [readBytes] of crc.go: reads exactly [n] bytes at [off]. *)
Definition readBytes {D} `{Device D} (d : D) (off n : Z) : outcome bytes := ReadAt d off n.

(** ** The in-memory image: a byte array of fixed size. *)
Definition memdev : Type := bytes.
Definition mem_ReadAt (d : memdev) (off n : Z) : outcome bytes :=
  if inrange d off n then Ret (map u8 (slice d off n)) else Fail ErrIO.
Definition mem_WriteAt (d : memdev) (off : Z) (bs : bytes) : outcome unit * memdev :=
  if inrange d off (zlen bs) then (Ret tt, splice d off bs) else (Fail ErrIO, d).
#[export] Instance memdev_device : Device memdev :=
  {| ReadAt := mem_ReadAt; WriteAt := mem_WriteAt |}.

Lemma mem_ReadAt_Ret d off n bs :
  mem_ReadAt d off n = Ret bs <->
  0 <= off /\ 0 <= n /\ off + n <= zlen d /\ bs = map u8 (slice d off n).
Proof.
  unfold mem_ReadAt. destruct (inrange d off n) eqn:E.
  - apply inrange_spec in E. split; [intros [= <-]; tauto|]. by intros (_&_&_&->).
  - split; [done|]. intros (?&?&?&_). rewrite (proj2 (inrange_spec d off n)) in E; (done || lia).
Qed.
Lemma slice_map_u8 d off n : slice (map u8 d) off n = map u8 (slice d off n).
Proof. unfold slice. by rewrite <- firstn_map, <- skipn_map. Qed.
Lemma map_u8_bytes bs : isbytes bs -> map u8 bs = bs.
Proof.
  induction 1 as [|b bs Hb _ IH]; [done|]. simpl. rewrite IH. f_equal. by apply Z.mod_small.
Qed.
Lemma isbytes_map_u8 bs : isbytes (map u8 bs).
Proof. induction bs; constructor; [apply u8_range|done]. Qed.

#[export] Instance memdev_laws : DeviceLaws memdev.
Proof.
  split; cbn [ReadAt WriteAt memdev_device].
  - intros d off n bs Hn (?&?&?&->)%mem_ReadAt_Ret. rewrite zlen_map. by apply zlen_slice.
  - intros d off n _ _. unfold mem_ReadAt. by destruct (inrange d off n).
  - intros d off n bs (?&?&?&->)%mem_ReadAt_Ret. apply isbytes_map_u8.
  - intros d off n bs k m (?&?&?&->)%mem_ReadAt_Ret ? ? ?. apply mem_ReadAt_Ret.
    split_and!; try lia. by rewrite slice_map_u8, slice_slice by lia.
  - intros d off n m bs cs ? ? (?&?&?&->)%mem_ReadAt_Ret (?&?&?&->)%mem_ReadAt_Ret.
    apply mem_ReadAt_Ret. split_and!; try lia. by rewrite slice_app_adj, map_app by lia.
  - intros d off bs d' Hb. unfold mem_WriteAt. destruct (inrange d off (zlen bs)) eqn:E; [|done].
    intros [= <-]. apply inrange_spec in E. apply mem_ReadAt_Ret.
    rewrite zlen_splice, slice_splice_same, map_u8_bytes by (done || lia). split_and!; (done || lia).
  - intros d off bs d' o n cs. unfold mem_WriteAt. destruct (inrange d off (zlen bs)) eqn:E; [|done].
    intros [= <-]. apply inrange_spec in E. intros ? ? (?&?&?&->)%mem_ReadAt_Ret.
    apply mem_ReadAt_Ret. rewrite zlen_splice, slice_splice_other by lia. split_and!; (done || lia).
Qed.

#[export] Instance memdev_reliable : DeviceReliable memdev.
Proof.
  split; cbn [ReadAt WriteAt memdev_device].
  intros d off bs cs (?&?&?&->)%mem_ReadAt_Ret. unfold mem_WriteAt.
  rewrite (proj2 (inrange_spec d off (zlen bs))) by lia. eauto.
Qed.

(** ** The mutable world

    The device plus the package-level variables of the allocator
    (alloc_btree.go, alloc_btree_delete.go).  [allocMetaAllocBlock] is a Go
    function variable; the closures the program ever stores in it are the
    constructors of [metaHook]. *)
Record allocSplitReserve := mkReserve { runStart : Z; rn : Z; rused : Z }.
Inductive metaHook : Type :=
  | HookMetaBlock                              (* allocMetaBlock, the default *)
  | HookReserve (r : allocSplitReserve)        (* reserve.alloc *)
  | HookDrain (prevHook : metaHook).           (* the closure of allocDrainMergedFrees *)

Record World (D : Type) := mkWorld {
  dev : D;
  allocOpDepth : Z;
  allocMergedFreeQueue : list (Z * Z);         (* (ag, rel) *)
  allocDraining : bool;
  allocReserveDepth : Z;
  allocMetaAllocBlock : metaHook
}.
Arguments mkWorld {D}.
Arguments dev {D}.
Arguments allocOpDepth {D}.
Arguments allocMergedFreeQueue {D}.
Arguments allocDraining {D}.
Arguments allocReserveDepth {D}.
Arguments allocMetaAllocBlock {D}.

Definition initWorld {D} (d : D) : World D := mkWorld d 0 [] false 0 HookMetaBlock.
Definition set_dev {D} (d : D) (w : World D) : World D :=
  mkWorld d (allocOpDepth w) (allocMergedFreeQueue w) (allocDraining w) (allocReserveDepth w) (allocMetaAllocBlock w).
Definition set_opDepth {D} (n : Z) (w : World D) : World D :=
  mkWorld (dev w) n (allocMergedFreeQueue w) (allocDraining w) (allocReserveDepth w) (allocMetaAllocBlock w).
Definition set_queue {D} (q : list (Z * Z)) (w : World D) : World D :=
  mkWorld (dev w) (allocOpDepth w) q (allocDraining w) (allocReserveDepth w) (allocMetaAllocBlock w).
Definition set_draining {D} (b : bool) (w : World D) : World D :=
  mkWorld (dev w) (allocOpDepth w) (allocMergedFreeQueue w) b (allocReserveDepth w) (allocMetaAllocBlock w).
Definition set_reserveDepth {D} (n : Z) (w : World D) : World D :=
  mkWorld (dev w) (allocOpDepth w) (allocMergedFreeQueue w) (allocDraining w) n (allocMetaAllocBlock w).
Definition set_hook {D} (h : metaHook) (w : World D) : World D :=
  mkWorld (dev w) (allocOpDepth w) (allocMergedFreeQueue w) (allocDraining w) (allocReserveDepth w) h.

(** Reading from and writing to the device of the world. *)
Definition readD {D A} (f : D -> outcome A) : M (World D) A := fun w => (f (dev w), w).
Definition writeAt {D} `{Device D} (bs : bytes) (off : Z) : M (World D) unit := fun w =>
  let '(o, d') := WriteAt (dev w) off bs in (o, set_dev d' w).
