(* ===== verification/SparseDev.v ===== *)
(** * Sparse images

    An image given by a size and a function from offsets to bytes: the instance of [Device]
    for images too large to write out as a list. *)
From S2P Require Import Prelude Bytes Device.

Record sparsedev := mkSparse { spsize : Z; spbyte : Z -> Z }.
Definition spBytes (d : sparsedev) (off n : Z) : bytes := map (fun k => u8 (spbyte d (off + Z.of_nat k))) (seq 0 (Z.to_nat n)).
Definition spRange (d : sparsedev) (off n : Z) : bool := (0 <=? off) && (0 <=? n) && (off + n <=? spsize d).
Definition sp_ReadAt (d : sparsedev) (off n : Z) : outcome bytes := if spRange d off n then Ret (spBytes d off n) else Fail ErrIO.
Definition sp_WriteAt (d : sparsedev) (off : Z) (bs : bytes) : outcome unit * sparsedev :=
  if spRange d off (zlen bs) then
    (Ret tt, mkSparse (spsize d) (fun x => if (off <=? x) && (x <? off + zlen bs) then List.nth (Z.to_nat (x - off)) bs 0 else spbyte d x))
  else (Fail ErrIO, d).
#[export] Instance sparsedev_device : Device sparsedev := {| ReadAt := sp_ReadAt; WriteAt := sp_WriteAt |}.

Lemma spRange_spec d off n : spRange d off n = true <-> 0 <= off /\ 0 <= n /\ off + n <= spsize d.
Proof. unfold spRange. rewrite !andb_true_iff, !Z.leb_le. tauto. Qed.
Lemma sp_ReadAt_Ret d off n bs : sp_ReadAt d off n = Ret bs <-> 0 <= off /\ 0 <= n /\ off + n <= spsize d /\ bs = spBytes d off n.
Proof.
  unfold sp_ReadAt. destruct (spRange d off n) eqn:E.
  - apply spRange_spec in E. split; [intros [= <-]; tauto|]. by intros (_ & _ & _ & ->).
  - split; [done|]. intros (? & ? & ? & _). rewrite (proj2 (spRange_spec d off n)) in E; (done || lia).
Qed.
Lemma zlen_spBytes d off n : 0 <= n -> zlen (spBytes d off n) = n.
Proof. intros. unfold zlen, spBytes. rewrite length_map, length_seq. lia. Qed.
(** Two byte lists read at the same places are the same. *)
Lemma spBytes_ext d d' off off' n :
  (forall k, 0 <= k < n -> u8 (spbyte d (off + k)) = u8 (spbyte d' (off' + k))) -> spBytes d off n = spBytes d' off' n.
Proof. intros H. apply map_ext_in. intros k [_ Hk]%in_seq. apply H. lia. Qed.
Lemma spBytes_app d off n m : 0 <= n -> 0 <= m -> spBytes d off (n + m) = spBytes d off n ++ spBytes d (off + n) m.
Proof.
  intros Hn Hm. unfold spBytes. rewrite Z2Nat.inj_add, seq_app, map_app by lia. f_equal.
  replace (seq (0 + Z.to_nat n) (Z.to_nat m)) with (Nat.add (Z.to_nat n) <$> seq 0 (Z.to_nat m)) by (rewrite fmap_add_seq; f_equal; lia).
  change (map ?f ?l) with (f <$> l). rewrite <- list_fmap_compose. apply list_fmap_ext. intros i x _. unfold compose. do 2 f_equal. lia.
Qed.
Lemma slice_spBytes d off n k m : 0 <= k -> 0 <= m -> k + m <= n -> slice (spBytes d off n) k m = spBytes d (off + k) m.
Proof.
  intros Hk Hm Hle. replace n with (k + (m + (n - k - m))) by lia. rewrite !spBytes_app by lia. unfold slice.
  pose proof (zlen_spBytes d off k Hk). pose proof (zlen_spBytes d (off + k) m Hm).
  rewrite drop_app_ge by zl. replace (Z.to_nat k - length (spBytes d off k))%nat with 0%nat by zl. rewrite drop_0, take_app_le by zl. apply take_ge. zl.
Qed.
Lemma spBytes_stored d off bs : isbytes bs -> spBytes (mkSparse (spsize d) (fun x => if (off <=? x) && (x <? off + zlen bs) then List.nth (Z.to_nat (x - off)) bs 0 else spbyte d x)) off (zlen bs) = bs.
Proof.
  intros Hb. apply list_eq. intros i. unfold spBytes. change (map ?f ?l) with (f <$> l). rewrite list_lookup_fmap. replace (Z.to_nat (zlen bs)) with (length bs) by zl.
  destruct (decide (i < length bs)%nat) as [Hi|Hi].
  - rewrite lookup_seq_lt by done. cbn [fmap option_fmap option_map spbyte Nat.add].
    rewrite (proj2 (Z.leb_le _ _)), (proj2 (Z.ltb_lt _ _)) by (unfold zlen; lia). cbn [andb]. replace (Z.to_nat (off + Z.of_nat i - off)) with i by lia.
    destruct (lookup_lt_is_Some_2 bs i Hi) as [x Ex]. rewrite Ex. f_equal. rewrite (nth_lookup_Some _ _ _ _ Ex).
    apply Z.mod_small. by apply (Forall_lookup_1 _ _ _ _ Hb Ex).
  - rewrite lookup_seq_ge, (lookup_ge_None_2 bs) by lia. done.
Qed.

#[export] Instance sparsedev_laws : DeviceLaws sparsedev.
Proof.
  split; cbn [ReadAt WriteAt sparsedev_device].
  - intros d off n bs Hn (? & ? & ? & ->)%sp_ReadAt_Ret. by apply zlen_spBytes.
  - intros d off n _ _. unfold sp_ReadAt. by destruct (spRange d off n).
  - intros d off n bs (? & ? & ? & ->)%sp_ReadAt_Ret. apply List.Forall_forall. intros x (k & <- & _)%in_map_iff. apply u8_range.
  - intros d off n bs k m (? & ? & ? & ->)%sp_ReadAt_Ret ? ? ?. apply sp_ReadAt_Ret. split_and!; try lia. by apply slice_spBytes.
  - intros d off n m bs cs ? ? (? & ? & ? & ->)%sp_ReadAt_Ret (? & ? & ? & ->)%sp_ReadAt_Ret. apply sp_ReadAt_Ret. split_and!; try lia. by rewrite spBytes_app.
  - intros d off bs d' Hb. unfold sp_WriteAt. destruct (spRange d off (zlen bs)) eqn:E; [|done]. intros [= <-]. apply spRange_spec in E.
    apply sp_ReadAt_Ret. split_and!; try (cbn [spsize]; lia). by rewrite spBytes_stored.
  - intros d off bs d' o n cs. unfold sp_WriteAt. destruct (spRange d off (zlen bs)) eqn:E; [|done]. intros [= <-]. apply spRange_spec in E.
    intros ? Ho (? & ? & ? & ->)%sp_ReadAt_Ret. apply sp_ReadAt_Ret. split_and!; try (cbn [spsize]; lia).
    apply spBytes_ext. intros k Hk. cbn [spbyte]. destruct (Z.leb_spec off (o + k)), (Z.ltb_spec (o + k) (off + zlen bs)); cbn [andb]; (done || lia).
Qed.
#[export] Instance sparsedev_reliable : DeviceReliable sparsedev.
Proof.
  split; cbn [ReadAt WriteAt sparsedev_device]. intros d off bs cs (? & ? & ? & _)%sp_ReadAt_Ret. unfold sp_WriteAt.
  rewrite (proj2 (spRange_spec d off (zlen bs))) by lia. eauto.
Qed.
(** An all-zero image. *)
Definition blankdev (size : Z) : sparsedev := mkSparse size (fun _ => 0).
