(* ===== verification/SafeIO.v ===== *)
(** * The safeio helpers

    github.com/go-volumes/safeio is outside the repository: the driver uses its
    loop guard, its visited set and its capped allocation.  [SafeIO] is their
    interface, [SafeIOLaws] what the driver relies on, and the instance at the end
    a concrete implementation that satisfies the laws. *)
From S2P Require Import Prelude Bytes.

Class SafeIO : Type := {
  LoopGuard : Type;
  NewLoopGuard : Z -> LoopGuard;
  Next : LoopGuard -> outcome LoopGuard;
  VisitSet : Type;
  emptyVisit : VisitSet;                        (* the zero value *)
  VisitCheck : VisitSet -> Z -> outcome VisitSet;    (* Check *)
  MakeBytes : Z -> Z -> outcome bytes
}.

Class SafeIOLaws (S : SafeIO) : Type := {
  (** Steps a guard still admits. *)
  budget : LoopGuard -> Z;
  budget_new n : budget (NewLoopGuard n) = Z.max 0 n;
  Next_step g : 0 < budget g -> exists g', Next g = Ret g' /\ budget g' = budget g - 1;
  Next_stop g : budget g <= 0 -> Next g = Fail ErrLoopLimit;
  (** Values a set has seen. *)
  visited : VisitSet -> Z -> Prop;
  visited_empty k : ~ visited emptyVisit k;
  Check_fresh v k : ~ visited v k ->
    exists v', VisitCheck v k = Ret v' /\ forall j, visited v' j <-> j = k \/ visited v j;
  Check_seen v k : visited v k -> VisitCheck v k = Fail ErrCycle;
  visited_dec v k : {visited v k} + {~ visited v k};
  MakeBytes_ok n max : 0 <= n <= max -> MakeBytes n max = Ret (make_bytes n);
  MakeBytes_refuse n max : n < 0 \/ max < n -> MakeBytes n max = Fail ErrTooLarge
}.

Section Laws.
Context {S : SafeIO} {SL : SafeIOLaws S}.

Lemma Next_cases g :
  (exists g', 0 < budget g /\ Next g = Ret g' /\ budget g' = budget g - 1) \/ Next g = Fail ErrLoopLimit.
Proof.
  destruct (Z.lt_ge_cases 0 (budget g)); [left|right; by apply Next_stop].
  destruct (Next_step g) as (g' & ? & ?); eauto.
Qed.
Lemma Check_safe v k : safe (VisitCheck v k).
Proof.
  destruct (visited_dec v k) as [H|H]; [by rewrite Check_seen|].
  by destruct (Check_fresh v k H) as (v' & -> & _).
Qed.
Lemma MakeBytes_safe n max : safe (MakeBytes n max).
Proof.
  destruct (Z.le_gt_cases 0 n); [destruct (Z.le_gt_cases n max)|];
    rewrite ?MakeBytes_ok, ?MakeBytes_refuse by lia; done.
Qed.
Lemma MakeBytes_Ret n max bs :
  MakeBytes n max = Ret bs -> 0 <= n <= max /\ bs = make_bytes n.
Proof.
  intros H. destruct (Z.le_gt_cases 0 n); [destruct (Z.le_gt_cases n max)|];
    try (rewrite MakeBytes_refuse in H by lia; done).
  rewrite MakeBytes_ok in H by lia. by injection H as <-.
Qed.
End Laws.

(** ** A concrete implementation *)
#[export] Instance safeio_std : SafeIO := {|
  LoopGuard := Z;
  NewLoopGuard n := n;
  Next g := if g <=? 0 then Fail ErrLoopLimit else Ret (g - 1);
  VisitSet := list Z;
  emptyVisit := [];
  VisitCheck v k := if bool_decide (k ∈ v) then Fail ErrCycle else Ret (k :: v);
  MakeBytes n max := if (n <? 0) || (max <? n) then Fail ErrTooLarge else Ret (make_bytes n)
|}.
#[export] Instance safeio_std_laws : SafeIOLaws safeio_std.
Proof.
  refine (Build_SafeIOLaws safeio_std (fun g : Z => Z.max 0 g) _ _ _ (fun (v : list Z) k => k ∈ v) _ _ _ _ _ _);
    cbn [LoopGuard NewLoopGuard Next VisitSet emptyVisit VisitCheck MakeBytes safeio_std].
  - done.
  - intros g H. exists (g - 1). rewrite (proj2 (Z.leb_gt g 0)) by lia. split; [done|lia].
  - intros g H. by rewrite (proj2 (Z.leb_le g 0)) by lia.
  - intros k. apply not_elem_of_nil.
  - intros v k H. exists (k :: v). rewrite bool_decide_false by done. split; [done|]. intros j. rewrite elem_of_cons. tauto.
  - intros v k H. by rewrite bool_decide_true.
  - intros v k. apply (decide (k ∈ v)).
  - intros n max H. rewrite (proj2 (Z.ltb_ge n 0)), (proj2 (Z.ltb_ge max n)) by lia. done.
  - intros n max H. destruct (Z.ltb_spec n 0), (Z.ltb_spec max n); (done || lia).
Defined.
