(* ===== verification/Superblock.v ===== *)
(** * Superblock and geometry (superblock.go, limits.go, fs.go)

    Parsing and validation of the superblock, the packed block-number (fsbno)
    arithmetic, allocation-group offsets and lengths, and the translation of a
    block number to a byte offset in the image. *)
From S2P Require Import Prelude Bytes Device.

Record superblock := mkSB {
  blockSize : Z;  sectorSize : Z;  agBlocks : Z;  agCount : Z;  dBlocks : Z;
  rootIno : Z;    inodeSize : Z;   inopBlock : Z; inopBLog : Z; agBlkLog : Z;
  dirBlkLog : Z;  hasCRC : bool;   hasFType : bool; hasReflink : bool;
  features2 : Z;  quotaFlags : Z;  uQuotino : Z;  gQuotino : Z; pQuotino : Z;
  uuid : bytes;   label : bytes;   maxRead : Z
}.

(** Superblock field offsets. *)
Definition sbOffMagic := 0.
Definition sbOffBlockSize := 4.
Definition sbOffDBlocks := 8.
Definition sbOffSectSize := 102.
Definition sbOffRootIno := 56.
Definition sbOffIcount := 128.
Definition sbOffIfree := 136.
Definition sbOffFdblocks := 144.
Definition sbOffAgBlocks := 84.
Definition sbOffAgCount := 88.
Definition sbOffVersionNum := 100.
Definition sbOffInodeSize := 104.
Definition sbOffInopBlock := 106.
Definition sbOffInopBLog := 123.
Definition sbOffAgBlkLog := 124.
Definition sbOffDirBlkLog := 192.
Definition sbOffUQuotino := 160.
Definition sbOffGQuotino := 168.
Definition sbOffQFlags := 176.
Definition sbOffFeatures2 := 200.
Definition sbOffFeatRoCompat := 212.
Definition sbOffFeatIncompat := 216.
Definition sbOffCRC := 224.
Definition sbOffPQuotino := 232.
Definition sbCRCLen := 512.
Definition magicSB := 0x58465342.
Definition xfsSBVersionBits := 0x000F.
Definition xfsSBVersion5 := 5.
Definition xfsSBFeatFType := 1.
Definition xfsSBv4FeatFType := 0x200.
Definition xfsSBFeatRoReflink := 4.

(** math/bits: population count and bit length. *)
Fixpoint popcount (n : nat) (z : Z) : Z :=
  match n with
  | O => 0
  | S n' => Z.b2z (Z.odd z) + popcount n' (Z.shiftr z 1)
  end.
Definition onesCount (z : Z) : Z := popcount 64 z.
Definition bitsLen (z : Z) : Z := if z =? 0 then 0 else Z.log2 z + 1.

Definition minBlockSize := 512.
Definition maxBlockSize := 65536.
Definition minInodeSize := 256.
Definition maxInodeSize := 2048.
Definition inodeCoreSize := 176.

Definition validateGeometry (sb : superblock) : outcome unit :=
  if (agBlocks sb =? 0) || (agCount sb =? 0) then Fail (Errorf "invalid geometry")
  else if (blockSize sb <? minBlockSize) || (maxBlockSize <? blockSize sb)
          || negb (onesCount (blockSize sb) =? 1) then Fail (Errorf "invalid block size")
  else if blockSize sb <? sectorSize sb then Fail (Errorf "block size smaller than sector size")
  else if (inodeSize sb <? minInodeSize) || (maxInodeSize <? inodeSize sb)
          || negb (onesCount (inodeSize sb) =? 1) || (inodeSize sb <? inodeCoreSize)
       then Fail (Errorf "invalid inode size")
  else if (inopBlock sb =? 0) || negb (onesCount (inopBlock sb) =? 1)
       then Fail (Errorf "invalid inodes-per-block")
  else if (16 <=? inopBLog sb) || negb (u16 (Z.shiftl 1 (inopBLog sb)) =? inopBlock sb)
       then Fail (Errorf "inopblog inconsistent with inopblock")
  else if negb (agBlkLog sb =? u8 (bitsLen (agBlocks sb - 1)))
       then Fail (Errorf "agblklog inconsistent with agblocks")
  else if 64 <=? agBlkLog sb + inopBLog sb then Fail (Errorf "agblklog + inopblog shift overflows")
  else if 32 <=? dirBlkLog sb then Fail (Errorf "dirblklog too large")
  else Ret tt.

(** [strings.TrimRight(label, "\x00 \t\n\r")] *)
Definition label_pad (b : Z) : bool := existsb (Z.eqb b) [0; 32; 9; 10; 13].
Fixpoint drop_while (p : Z -> bool) (l : bytes) : bytes :=
  match l with
  | [] => []
  | b :: l' => if p b then drop_while p l' else l
  end.
Definition trimRight (p : Z -> bool) (l : bytes) : bytes := rev (drop_while p (rev l)).

(** The part of [readSuperblock] after the 512-byte read. *)
Definition parseSuperblock (buf : bytes) : outcome superblock :=
  magic ← be32 buf sbOffMagic;
  failif (negb (magic =? magicSB)) (Errorf "bad superblock magic");;
  versionNum ← be16 buf sbOffVersionNum;
  let version := Z.land versionNum xfsSBVersionBits in
  let crc := version =? xfsSBVersion5 in
  featIncompat ← be32 buf sbOffFeatIncompat;
  featRo ← be32 buf sbOffFeatRoCompat;
  feat2 ← be32 buf sbOffFeatures2;
  let ftype := if crc then negb (Z.land featIncompat xfsSBFeatFType =? 0)
               else negb (Z.land feat2 xfsSBv4FeatFType =? 0) in
  let reflink := if crc then negb (Z.land featRo xfsSBFeatRoReflink =? 0) else false in
  sect ← be16 buf sbOffSectSize;
  let sect := if sect =? 0 then 512 else sect in
  bs ← be32 buf sbOffBlockSize;
  agb ← be32 buf sbOffAgBlocks;
  agc ← be32 buf sbOffAgCount;
  db ← be64 buf sbOffDBlocks;
  ri ← be64 buf sbOffRootIno;
  isz ← be16 buf sbOffInodeSize;
  ipb ← be16 buf sbOffInopBlock;
  ipl ← byte_at buf sbOffInopBLog;
  abl ← byte_at buf sbOffAgBlkLog;
  dbl ← byte_at buf sbOffDirBlkLog;
  qf ← be16 buf sbOffQFlags;
  uq ← be64 buf sbOffUQuotino;
  gq ← be64 buf sbOffGQuotino;
  pq ← be64 buf sbOffPQuotino;
  uu ← sub buf 32 48;
  lbl ← sub buf 108 120;
  let sb := {| blockSize := bs; sectorSize := sect; agBlocks := agb; agCount := agc;
               dBlocks := db; rootIno := ri; inodeSize := isz; inopBlock := ipb;
               inopBLog := ipl; agBlkLog := abl; dirBlkLog := dbl; hasCRC := crc;
               hasFType := ftype; hasReflink := reflink; features2 := feat2;
               quotaFlags := if crc then qf else 0; uQuotino := if crc then uq else 0;
               gQuotino := if crc then gq else 0; pQuotino := if crc then pq else 0;
               uuid := uu; label := trimRight label_pad lbl; maxRead := 0 |} in
  validateGeometry sb;;
  Ret sb.

Definition readSuperblock {D} `{Device D} (r : D) (partOff : Z) : outcome superblock :=
  buf ← readBytes r partOff 512;
  parseSuperblock buf.

(** ** Geometry *)
Definition agByteOffset (sb : superblock) (ag : Z) : Z :=
  i64 (i64 (ag * agBlocks sb) * blockSize sb).

Definition agLength (sb : superblock) (ag : Z) : Z :=
  if dBlocks sb =? 0 then agBlocks sb
  else
    let full := dBlocks sb / agBlocks sb in
    if ag <? full then agBlocks sb
    else u32 (dBlocks sb - u64 (full * agBlocks sb)).

(** [(uint64(1) << agBlkLog) - 1] *)
Definition agMask (sb : superblock) : Z := u64 (shl64 1 (agBlkLog sb) - 1).

Definition fsbToPhysBlock (sb : superblock) (fsbno : Z) : Z :=
  let agno := shr64 fsbno (agBlkLog sb) in
  let agbno := Z.land fsbno (agMask sb) in
  u64 (u64 (agno * agBlocks sb) + agbno).

Definition fsbToAgAgbno (sb : superblock) (fsbno : Z) : Z * Z :=
  (u32 (shr64 fsbno (agBlkLog sb)), u32 (Z.land fsbno (agMask sb))).

(** alloc.go *)
Definition agAbsBlock (sb : superblock) (ag agRel : Z) : Z :=
  Z.lor (shl64 ag (agBlkLog sb)) agRel.

Definition sectSize (sb : superblock) : Z := if sectorSize sb =? 0 then 512 else sectorSize sb.
Definition agFByteOffset (sb : superblock) (partOff ag : Z) : Z :=
  i64 (i64 (partOff + agByteOffset sb ag) + sectSize sb).
Definition agIByteOffset (sb : superblock) (partOff ag : Z) : Z :=
  i64 (i64 (partOff + agByteOffset sb ag) + 2 * sectSize sb).
Definition agFLByteOffset (sb : superblock) (partOff ag : Z) : Z :=
  i64 (i64 (partOff + agByteOffset sb ag) + 3 * sectSize sb).
Definition dirFSBlocks (sb : superblock) : Z := u32 (Z.shiftl 1 (dirBlkLog sb)).

(** fs.go: the byte offset of a block, refusing one that overflows int64. *)
Definition blockByteOffset (partOff : Z) (sb : superblock) (fsbno : Z) : outcome Z :=
  let bs := blockSize sb in
  let phys := fsbToPhysBlock sb fsbno in
  if (bs <=? 0) || (u64 (Z.quot (i64 (2 ^ 63 - 1 - partOff)) bs) <? phys) then Fail ErrBlockOutOfRange
  else Ret (i64 (partOff + i64 (phys * bs))).

(** limits.go *)
Definition DefaultMaxReadSize := 2 ^ 30.
Definition maxReadLimit (sb : superblock) : Z :=
  if 0 <? maxRead sb then maxRead sb else DefaultMaxReadSize.

Definition declaredBytes (sb : superblock) : option Z :=
  if (dBlocks sb =? 0) || (blockSize sb =? 0) then None
  else if (2 ^ 63 - 1) / blockSize sb <? dBlocks sb then Some (2 ^ 63 - 1)
  else Some (i64 (i64 (dBlocks sb) * blockSize sb)).

Definition checkGeometryFitsDevice (sb : superblock) (devBytes : Z) : outcome unit :=
  if (devBytes <=? 0) || (agCount sb =? 0) then Ret tt
  else
    guardP (negb (blockSize sb =? 0));;
    let lastAG := u64 (u32 (agCount sb - 1) * agBlocks sb) in
    failif (devBytes / blockSize sb <? lastAG) ErrOutOfBounds.

(** ** What validation establishes *)

(** The ranges of the Go field types. *)
Record sb_width (sb : superblock) : Prop := {
  w_bs : 0 <= blockSize sb < 2 ^ 32;   w_sect : 0 <= sectorSize sb < 2 ^ 32;
  w_agb : 0 <= agBlocks sb < 2 ^ 32;   w_agc : 0 <= agCount sb < 2 ^ 32;
  w_db : 0 <= dBlocks sb < 2 ^ 64;     w_ri : 0 <= rootIno sb < 2 ^ 64;
  w_isz : 0 <= inodeSize sb < 2 ^ 16;  w_ipb : 0 <= inopBlock sb < 2 ^ 16;
  w_ipl : 0 <= inopBLog sb < 2 ^ 8;    w_abl : 0 <= agBlkLog sb < 2 ^ 8;
  w_dbl : 0 <= dirBlkLog sb < 2 ^ 8;   w_uuid : zlen (uuid sb) = 16 /\ isbytes (uuid sb)
}.

(** The geometry contract the rest of the driver relies on. *)
Record geometry_ok (sb : superblock) : Prop := {
  g_agb : 0 < agBlocks sb;
  g_agc : 0 < agCount sb;
  g_bs : exists k, 9 <= k <= 16 /\ blockSize sb = 2 ^ k;
  g_sect : sectorSize sb <= blockSize sb;
  g_isz : exists k, 8 <= k <= 11 /\ inodeSize sb = 2 ^ k;
  g_ip : inopBLog sb < 16 /\ inopBlock sb = 2 ^ inopBLog sb;
  g_abl : agBlkLog sb <= 32 /\ agBlocks sb <= 2 ^ agBlkLog sb /\ 2 ^ agBlkLog sb < 2 * agBlocks sb;
  g_dbl : dirBlkLog sb < 32
}.

Lemma popcount_0 n z : 0 <= z < 2 ^ Z.of_nat n -> popcount n z = 0 <-> z = 0.
Proof.
  revert z. induction n as [|n IH]; intros z Hz; [simpl in *; lia|].
  cbn [popcount]. rewrite Nat2Z.inj_succ, Z.pow_succ_r in Hz by lia.
  assert (0 <= Z.shiftr z 1 < 2 ^ Z.of_nat n) as Hs.
  { rewrite Z.shiftr_div_pow2 by lia. change (2 ^ 1) with 2. Z.div_mod_to_equations; lia. }
  specialize (IH _ Hs).
  assert (0 <= popcount n (Z.shiftr z 1)).
  { clear. revert z. generalize 1. induction n; intros k z; cbn [popcount]; [lia|].
    rewrite Z.shiftr_shiftr by lia. specialize (IHn (k + 1) z). destruct (Z.odd _); simpl; lia. }
  pose proof (Zdiv2_odd_eqn z) as E. rewrite Z.div2_spec in E.
  destruct (Z.odd z); simpl; lia.
Qed.

Lemma popcount_1 n z :
  0 <= z < 2 ^ Z.of_nat n -> popcount n z = 1 <-> exists k, 0 <= k < Z.of_nat n /\ z = 2 ^ k.
Proof.
  revert z. induction n as [|n IH]; intros z Hz.
  { simpl. split; [lia|]. intros (k & ? & _). lia. }
  cbn [popcount]. rewrite Nat2Z.inj_succ, Z.pow_succ_r in Hz by lia.
  assert (0 <= Z.shiftr z 1 < 2 ^ Z.of_nat n) as Hs.
  { rewrite Z.shiftr_div_pow2 by lia. change (2 ^ 1) with 2. Z.div_mod_to_equations; lia. }
  specialize (IH _ Hs). pose proof (popcount_0 _ _ Hs) as H0.
  pose proof (Zdiv2_odd_eqn z) as E. rewrite Z.div2_spec in E.
  destruct (Z.odd z) eqn:Ho; cbn [Z.b2z].
  - split.
    + intros H. exists 0. split; [lia|]. simpl. lia.
    + intros (k & Hk & ->). destruct (Z.eq_dec k 0) as [->|]; [simpl in *; lia|].
      rewrite Z.odd_pow in Ho by lia. done.
  - split.
    + intros H. destruct (proj1 IH) as (k & Hk & E'); [lia|]. exists (k + 1).
      split; [lia|]. rewrite Z.pow_add_r by lia. lia.
    + intros (k & Hk & ->). destruct (Z.eq_dec k 0) as [->|]; [done|].
      rewrite (proj2 IH); [lia|]. exists (k - 1). split; [lia|].
      replace k with (k - 1 + 1) at 1 by lia. rewrite Z.pow_add_r by lia.
      rewrite Z.shiftr_div_pow2 by lia. by rewrite Z.div_mul by lia.
Qed.

Lemma onesCount_1 z w :
  0 <= w <= 64 -> 0 <= z < 2 ^ w -> (onesCount z =? 1) = true <-> exists k, 0 <= k < w /\ z = 2 ^ k.
Proof.
  intros Hw Hz. rewrite Z.eqb_eq. unfold onesCount.
  assert (2 ^ w <= 2 ^ 64) by (apply Z.pow_le_mono_r; lia).
  rewrite popcount_1 by lia. split; intros (k & Hk & ->); exists k; (split; [|done]); [|lia].
  split; [lia|]. apply (Z.pow_lt_mono_r_iff 2); lia.
Qed.

Lemma pow2_between k lo hi : 0 <= k -> 0 <= lo -> 2 ^ lo <= 2 ^ k <= 2 ^ hi -> 0 <= hi -> lo <= k <= hi.
Proof. intros. split; apply (Z.pow_le_mono_r_iff 2); lia. Qed.

(** [agBlkLog] is the least [n] with [agBlocks <= 2^n]. *)
Lemma bitsLen_ceil_log2 a n :
  0 < a < 2 ^ 32 ->
  n = u8 (bitsLen (a - 1)) <-> (0 <= n <= 32 /\ a <= 2 ^ n /\ 2 ^ n < 2 * a).
Proof.
  intros Ha. unfold bitsLen.
  assert (forall m, 0 <= m <= 32 -> a <= 2 ^ m -> 2 ^ m < 2 * a ->
          0 <= n <= 32 /\ a <= 2 ^ n /\ 2 ^ n < 2 * a -> n = m) as U.
  { intros m Hm H1 H2 (Hn & H3 & H4).
    assert (n < m + 1) by (apply (Z.pow_lt_mono_r_iff 2); [lia..|]; rewrite Z.pow_add_r by lia; lia).
    assert (m < n + 1) by (apply (Z.pow_lt_mono_r_iff 2); [lia..|]; rewrite Z.pow_add_r by lia; lia). lia. }
  destruct (Z.eqb_spec (a - 1) 0) as [E|E].
  - assert (a = 1) as -> by lia. change (u8 0) with 0. split; [intros ->; simpl; lia|]. apply U; simpl; lia.
  - pose proof (Z.log2_spec (a - 1) ltac:(lia)) as [L1 L2]. rewrite Z.pow_succ_r in L2 by apply Z.log2_nonneg.
    pose proof (Z.log2_nonneg (a - 1)).
    assert (Z.log2 (a - 1) < 32) by (apply Z.log2_lt_pow2; lia).
    assert (u8 (Z.log2 (a - 1) + 1) = Z.log2 (a - 1) + 1) as -> by (apply Z.mod_small; lia).
    assert (a <= 2 ^ (Z.log2 (a - 1) + 1) /\ 2 ^ (Z.log2 (a - 1) + 1) < 2 * a) as [? ?]
      by (rewrite Z.pow_add_r by lia; lia).
    split; [intros ->; lia|]. apply U; lia.
Qed.

Lemma inop_consistent sb :
  sb_width sb ->
  (16 <=? inopBLog sb) = false -> (u16 (Z.shiftl 1 (inopBLog sb)) =? inopBlock sb) = true <->
  inopBlock sb = 2 ^ inopBLog sb.
Proof.
  intros W H. bsplit. destruct (w_ipl _ W).
  rewrite Z.shiftl_1_l, Z.eqb_eq.
  rewrite u16_small; [split; congruence|].
  split; [apply Z.pow_nonneg; lia|apply Z.pow_lt_mono_r; lia].
Qed.

Lemma if_fail_iff (c : bool) e (k : outcome unit) :
  (if c then Fail e else k) = Ret tt <-> c = false /\ k = Ret tt.
Proof. destruct c; split; [done|by intros [? _]|done|by intros [_ ?]]. Qed.

Lemma pow2_field z w lo hi :
  0 <= w <= 64 -> 0 <= z < 2 ^ w -> 0 <= lo -> hi < w -> lo <= hi ->
  (2 ^ lo <= z /\ z <= 2 ^ hi /\ (onesCount z =? 1) = true) <->
  exists k, lo <= k <= hi /\ z = 2 ^ k.
Proof.
  intros Hw Hz Hlo Hhi ?. rewrite (onesCount_1 z w) by done. split.
  - intros (H1 & H2 & k & Hk & ->). exists k. split; [|done]. apply pow2_between; lia.
  - intros (k & Hk & ->). split_and!; [apply Z.pow_le_mono_r; lia..|]. exists k. lia.
Qed.

Lemma validateGeometry_iff sb :
  sb_width sb -> validateGeometry sb = Ret tt <-> geometry_ok sb.
Proof.
  intros W. pose proof W as [? ? ? ? ? ? ? ? ? ? ? _].
  unfold validateGeometry, minBlockSize, maxBlockSize, minInodeSize, maxInodeSize, inodeCoreSize.
  rewrite !if_fail_iff, !orb_false_iff, !negb_false_iff, !Z.eqb_neq, !Z.ltb_ge, !Z.leb_gt.
  pose proof (pow2_field (blockSize sb) 32 9 16) as PB.
  pose proof (pow2_field (inodeSize sb) 16 8 11) as PI.
  change (2 ^ 9) with 512 in PB. change (2 ^ 16) with 65536 in PB at 1.
  change (2 ^ 8) with 256 in PI. change (2 ^ 11) with 2048 in PI.
  assert (0 < agBlocks sb -> agBlkLog sb = u8 (bitsLen (agBlocks sb - 1)) <->
          (0 <= agBlkLog sb <= 32 /\ agBlocks sb <= 2 ^ agBlkLog sb /\ 2 ^ agBlkLog sb < 2 * agBlocks sb)) as PA
    by (intros; apply bitsLen_ceil_log2; lia).
  split.
  - intros ([? ?] & [[? ?] ?] & ? & [[[? ?] ?] ?] & [? ?] & [? Hip] & Habl & ? & ? & _).
    rewrite (inop_consistent sb W) in Hip by (apply Z.leb_gt; lia).
    apply Z.eqb_eq in Habl. apply PA in Habl; [|lia].
    constructor; try lia; [apply PB; lia|apply PI; lia].
  - intros [? ? GB ? GI [Hl Hip] Habl ?].
    apply PB in GB; [|lia..]. apply PI in GI; [|lia..].
    assert ((onesCount (inopBlock sb) =? 1) = true) as Hone.
    { apply (onesCount_1 _ 16); [lia..|]. exists (inopBLog sb). lia. }
    assert (0 < 2 ^ inopBLog sb) by (apply Z.pow_pos_nonneg; lia).
    rewrite (inop_consistent sb W) by (apply Z.leb_gt; lia).
    rewrite (Z.eqb_eq (agBlkLog sb)), PA by lia. split_and!; try tauto; try lia.
Qed.

(** C33 (functional).  [validateGeometry] accepts a superblock exactly when its
    geometry meets the contract: power-of-two block (512..64K) and inode
    (256..2K) sizes, sectors no larger than blocks, inopblock = 2^inopblog,
    agblklog the least power of two covering agblocks, a non-empty set of AGs; it
    reports every other superblock as an error. *)
Theorem validateGeometry_exact (sb : superblock) :
  sb_width sb ->
  (validateGeometry sb = Ret tt <-> geometry_ok sb) /\ (~ geometry_ok sb <-> exists e, validateGeometry sb = Fail e).
Proof.
  intros W. pose proof (validateGeometry_iff sb W) as I. split; [done|]. rewrite <- I.
  assert (validateGeometry sb = Ret tt \/ exists e, validateGeometry sb = Fail e) as [H|[e H]]
    by (unfold validateGeometry; repeat case_match; eauto); rewrite H.
  - split; [done|]. by intros [e ?].
  - split; [by exists e|]. by intros _ ?.
Qed.

(** A geometry like the ones mkfs.xfs makes: agblocks not a power of two. *)
Definition sample_sb : superblock :=
  {| blockSize := 4096; sectorSize := 512; agBlocks := 6000; agCount := 4; dBlocks := 23000;
     rootIno := 128; inodeSize := 512; inopBlock := 8; inopBLog := 3; agBlkLog := 13;
     dirBlkLog := 0; hasCRC := true; hasFType := true; hasReflink := false; features2 := 0;
     quotaFlags := 0; uQuotino := 0; gQuotino := 0; pQuotino := 0;
     uuid := replicate 16 0; label := []; maxRead := 0 |}.
Lemma sample_sb_width : sb_width sample_sb.
Proof. constructor; cbn; try lia. split; [done|by apply (bool_decide_unpack _)]. Qed.
Lemma sample_sb_geometry : geometry_ok sample_sb.
Proof. apply validateGeometry_iff; [apply sample_sb_width|]. vm_compute. done. Qed.

Lemma validateGeometry_exact_witness :
  sb_width sample_sb /\ geometry_ok sample_sb.
Proof.
  split; [exact sample_sb_width|].
  apply (proj1 (validateGeometry_exact sample_sb sample_sb_width)). vm_compute. reflexivity.
Defined.

(** ** Packed block numbers *)
Section Packing.
Context (sb : superblock) (W : sb_width sb) (G : geometry_ok sb).

Lemma log_range : 0 <= agBlkLog sb <= 32.
Proof. destruct (w_abl _ W), (g_abl _ G). lia. Qed.
Lemma pow_log_range : 0 < 2 ^ agBlkLog sb <= 2 ^ 32.
Proof.
  pose proof log_range. split; [apply Z.pow_pos_nonneg; lia|apply Z.pow_le_mono_r; lia].
Qed.

Lemma agMask_eq : agMask sb = 2 ^ agBlkLog sb - 1.
Proof.
  pose proof pow_log_range. unfold agMask, shl64. rewrite Z.shiftl_1_l, (u64_small (2 ^ _)) by lia.
  apply u64_small. lia.
Qed.

Lemma agAbsBlock_eq ag rel :
  0 <= ag < 2 ^ 32 -> 0 <= rel < 2 ^ agBlkLog sb ->
  agAbsBlock sb ag rel = ag * 2 ^ agBlkLog sb + rel.
Proof.
  intros. pose proof log_range. pose proof pow_log_range.
  unfold agAbsBlock, shl64. rewrite u64_small by (rewrite Z.shiftl_mul_pow2; nia).
  apply lor_shiftl_add; lia.
Qed.

Lemma fsb_split f :
  0 <= f ->
  Z.land f (agMask sb) = f mod 2 ^ agBlkLog sb /\ shr64 f (agBlkLog sb) = f / 2 ^ agBlkLog sb.
Proof.
  intros. pose proof log_range. rewrite agMask_eq, land_ones_mod by lia.
  unfold shr64. by rewrite Z.shiftr_div_pow2 by lia.
Qed.

Lemma fsbToAgAgbno_agAbsBlock ag rel :
  0 <= ag < 2 ^ 32 -> 0 <= rel < 2 ^ agBlkLog sb ->
  fsbToAgAgbno sb (agAbsBlock sb ag rel) = (ag, rel).
Proof.
  intros. pose proof pow_log_range. rewrite agAbsBlock_eq by lia.
  unfold fsbToAgAgbno. destruct (fsb_split (ag * 2 ^ agBlkLog sb + rel)) as [-> ->]; [nia|].
  rewrite mod_add_l, Z.div_add_l, Z.div_small, Z.add_0_r, !u32_small by lia. done.
Qed.

Lemma agAbsBlock_fsbToAgAgbno f :
  0 <= f < 2 ^ (32 + agBlkLog sb) ->
  let '(ag, rel) := fsbToAgAgbno sb f in
  agAbsBlock sb ag rel = f /\ 0 <= ag < 2 ^ 32 /\ 0 <= rel < 2 ^ agBlkLog sb.
Proof.
  intros Hf. pose proof log_range. pose proof pow_log_range. unfold fsbToAgAgbno.
  destruct (fsb_split f) as [-> ->]; [lia|]. rewrite Z.pow_add_r in Hf by lia.
  pose proof (Z.mod_pos_bound f (2 ^ agBlkLog sb) ltac:(lia)).
  assert (0 <= f / 2 ^ agBlkLog sb < 2 ^ 32)
    by (split; [apply Z.div_pos; lia|apply Z.div_lt_upper_bound; lia]).
  rewrite !u32_small by lia. split; [|lia]. rewrite agAbsBlock_eq by lia.
  pose proof (Z.div_mod f (2 ^ agBlkLog sb)). lia.
Qed.

Lemma fsbToPhysBlock_agAbsBlock ag rel :
  0 <= ag < 2 ^ 32 -> 0 <= rel < 2 ^ agBlkLog sb ->
  fsbToPhysBlock sb (agAbsBlock sb ag rel) = ag * agBlocks sb + rel.
Proof.
  intros. pose proof pow_log_range. pose proof (w_agb _ W). rewrite agAbsBlock_eq by lia.
  unfold fsbToPhysBlock. destruct (fsb_split (ag * 2 ^ agBlkLog sb + rel)) as [-> ->]; [nia|].
  rewrite mod_add_l, Z.div_add_l, Z.div_small, Z.add_0_r by lia.
  rewrite (u64_small (ag * agBlocks sb)) by nia. apply u64_small. nia.
Qed.

Lemma fsbToPhysBlock_inj a r a' r' :
  0 <= a < 2 ^ 32 -> 0 <= a' < 2 ^ 32 -> 0 <= r < agBlocks sb -> 0 <= r' < agBlocks sb ->
  fsbToPhysBlock sb (agAbsBlock sb a r) = fsbToPhysBlock sb (agAbsBlock sb a' r') ->
  a = a' /\ r = r'.
Proof.
  intros. destruct (g_abl _ G) as (_ & ? & _). rewrite !fsbToPhysBlock_agAbsBlock in * by lia.
  assert (a = a') by nia. subst. lia.
Qed.
End Packing.

(** [agAbsBlock] and [fsbToAgAgbno] are mutually inverse: every
    (AG, AG-relative block) pair with the block inside 2^agblklog survives packing
    and unpacking, and every packed number is the packing of its decoding, whether
    or not agblocks is a power of two. *)
Lemma packed_fsbno_roundtrip (sb : superblock) :
  sb_width sb -> geometry_ok sb ->
  (forall ag rel, 0 <= ag < 2 ^ 32 -> 0 <= rel < 2 ^ agBlkLog sb ->
     fsbToAgAgbno sb (agAbsBlock sb ag rel) = (ag, rel)) /\
  (forall f, 0 <= f < 2 ^ (32 + agBlkLog sb) ->
     agAbsBlock sb (fsbToAgAgbno sb f).1 (fsbToAgAgbno sb f).2 = f).
Proof.
  intros W G. split; [by apply fsbToAgAgbno_agAbsBlock|].
  intros f Hf. pose proof (agAbsBlock_fsbToAgAgbno sb W G f Hf) as H.
  destruct (fsbToAgAgbno sb f). tauto.
Qed.
Lemma packed_fsbno_roundtrip_witness :
  fsbToAgAgbno sample_sb (agAbsBlock sample_sb 3 5999) = (3, 5999).
Proof.
  apply (packed_fsbno_roundtrip sample_sb sample_sb_width sample_sb_geometry); cbn; lia.
Defined.

(** The byte address of a block is computed from the flat index
    agno*agblocks + agbno, and distinct blocks of the filesystem (agbno below
    agblocks) never share one, so writing one block cannot land in another. *)
Lemma fsbToPhysBlock_flat (sb : superblock) :
  sb_width sb -> geometry_ok sb ->
  (forall ag rel, 0 <= ag < 2 ^ 32 -> 0 <= rel < 2 ^ agBlkLog sb ->
     fsbToPhysBlock sb (agAbsBlock sb ag rel) = ag * agBlocks sb + rel) /\
  (forall a r a' r', 0 <= a < 2 ^ 32 -> 0 <= a' < 2 ^ 32 ->
     0 <= r < agBlocks sb -> 0 <= r' < agBlocks sb ->
     fsbToPhysBlock sb (agAbsBlock sb a r) = fsbToPhysBlock sb (agAbsBlock sb a' r') ->
     a = a' /\ r = r').
Proof.
  intros W G. split; [by apply fsbToPhysBlock_agAbsBlock|by apply fsbToPhysBlock_inj].
Qed.
Lemma fsbToPhysBlock_flat_witness :
  fsbToPhysBlock sample_sb (agAbsBlock sample_sb 3 5999) = 23999.
Proof.
  apply (fsbToPhysBlock_flat sample_sb sample_sb_width sample_sb_geometry); cbn; lia.
Defined.

(** ** Allocation groups and the device *)
Fixpoint sum_agLength (sb : superblock) (n : nat) : Z :=
  match n with
  | O => 0
  | S n' => sum_agLength sb n' + agLength sb (Z.of_nat n')
  end.

Lemma agLength_full sb ag :
  0 < agBlocks sb -> 0 <= dBlocks sb -> 0 <= ag -> (ag + 1) * agBlocks sb <= dBlocks sb ->
  agLength sb ag = agBlocks sb.
Proof.
  intros Ha Hd Hag Hle. unfold agLength. destruct (dBlocks sb =? 0); [done|].
  destruct (Z.ltb_spec ag (dBlocks sb / agBlocks sb)) as [|Hge]; [done|].
  exfalso. pose proof (Z.div_le_lower_bound (dBlocks sb) (agBlocks sb) (ag + 1)). lia.
Qed.

Lemma sum_agLength_full sb n :
  0 < agBlocks sb -> 0 <= dBlocks sb -> Z.of_nat n * agBlocks sb <= dBlocks sb ->
  sum_agLength sb n = Z.of_nat n * agBlocks sb.
Proof.
  intros Ha Hd. induction n as [|n IH]; intros Hn; [done|]. cbn [sum_agLength].
  rewrite IH, agLength_full by lia. lia.
Qed.

(** The AG lengths tile the data device: when agcount is the
    number of AGs sb_dblocks needs, the lengths add up to sb_dblocks, the last AG
    taking the (possibly partial) remainder. *)
Lemma agLength_tiles (sb : superblock) :
  sb_width sb -> geometry_ok sb ->
  (agCount sb - 1) * agBlocks sb < dBlocks sb <= agCount sb * agBlocks sb ->
  sum_agLength sb (Z.to_nat (agCount sb)) = dBlocks sb.
Proof.
  intros W G Hd. pose proof (g_agb _ G). pose proof (g_agc _ G).
  destruct (w_agb _ W), (w_db _ W).
  destruct (Z.to_nat (agCount sb)) as [|n] eqn:E; [lia|]. cbn [sum_agLength].
  assert (Z.of_nat n = agCount sb - 1) as En by lia. rewrite sum_agLength_full by lia. rewrite En.
  destruct (Z.eq_dec (dBlocks sb) (agCount sb * agBlocks sb)) as [Eq|Ne].
  { rewrite agLength_full by lia. lia. }
  unfold agLength. rewrite (proj2 (Z.eqb_neq (dBlocks sb) 0)) by nia.
  assert (dBlocks sb / agBlocks sb = agCount sb - 1) as ->
    by (symmetry; apply (Z.div_unique _ _ _ (dBlocks sb - (agCount sb - 1) * agBlocks sb)); lia).
  rewrite Z.ltb_irrefl, (u64_small (_ * _)), u32_small by nia. lia.
Qed.

Lemma ag_offset_exact sb ag :
  sb_width sb -> 0 <= ag -> ag * agBlocks sb * blockSize sb < 2 ^ 63 -> 0 < blockSize sb ->
  agByteOffset sb ag = ag * agBlocks sb * blockSize sb.
Proof.
  intros W ? ? ?. destruct (w_agb _ W). unfold agByteOffset.
  rewrite (i64_small (ag * agBlocks sb)) by nia. apply i64_small. nia.
Qed.

(** C35 (bounds).  A superblock [checkGeometryFitsDevice] accepts for a device of
    [devBytes] bytes has every AG start at or before the end of the device (an AG may start
    exactly at the end: the check is strict only beyond it), and none of the int64 AG
    offset computations wraps. *)
Theorem geometry_fits_device (sb : superblock) (devBytes ag : Z) :
  sb_width sb -> geometry_ok sb -> 0 < devBytes < 2 ^ 63 ->
  checkGeometryFitsDevice sb devBytes = Ret tt -> 0 <= ag < agCount sb ->
  agByteOffset sb ag = ag * agBlocks sb * blockSize sb /\ 0 <= agByteOffset sb ag <= devBytes.
Proof.
  intros W G Hdev Hc Hag. destruct (w_agc _ W), (w_agb _ W). pose proof (g_agc _ G).
  destruct (g_bs _ G) as (k & Hk & Ebs).
  assert (0 < blockSize sb) by (rewrite Ebs; apply Z.pow_pos_nonneg; lia).
  unfold checkGeometryFitsDevice in Hc.
  rewrite (proj2 (Z.leb_gt devBytes 0)), (proj2 (Z.eqb_neq (agCount sb) 0)),
    (proj2 (Z.eqb_neq (blockSize sb) 0)) in Hc by lia.
  ostep. cbn [orb negb guardP mbind outcome_bind] in Hc.
  rewrite u32_small, u64_small in Hc by nia. unfold failif in Hc.
  destruct (Z.ltb_spec (devBytes / blockSize sb) ((agCount sb - 1) * agBlocks sb)); [done|].
  pose proof (Z.mul_div_le devBytes (blockSize sb) ltac:(lia)).
  assert (ag * agBlocks sb <= devBytes / blockSize sb) by nia.
  assert (ag * agBlocks sb * blockSize sb <= devBytes) by nia.
  rewrite ag_offset_exact by (done || lia). split; [done|]. nia.
Qed.
Lemma geometry_fits_device_witness :
  agByteOffset sample_sb 3 = 3 * 6000 * 4096 /\ 0 <= agByteOffset sample_sb 3 <= 94208000.
Proof.
  apply (geometry_fits_device sample_sb 94208000 3 sample_sb_width sample_sb_geometry);
    [cbn; lia|vm_compute; reflexivity|cbn; lia].
Defined.

Lemma blockByteOffset_Ret partOff sb f :
  sb_width sb -> geometry_ok sb -> 0 <= partOff < 2 ^ 63 ->
  blockByteOffset partOff sb f =
    (if partOff + fsbToPhysBlock sb f * blockSize sb <? 2 ^ 63
     then Ret (partOff + fsbToPhysBlock sb f * blockSize sb)
     else Fail ErrBlockOutOfRange).
Proof.
  intros W G Hp. destruct (g_bs _ G) as (k & Hk & Ebs).
  assert (0 < blockSize sb) by (rewrite Ebs; apply Z.pow_pos_nonneg; lia).
  destruct (w_bs _ W). unfold blockByteOffset.
  assert (0 <= fsbToPhysBlock sb f) by apply u64_range.
  set (phys := fsbToPhysBlock sb f) in *. set (bs := blockSize sb) in *.
  rewrite (proj2 (Z.leb_gt bs 0)) by lia. cbn [orb].
  rewrite i64_small, Z.quot_div_nonneg by lia.
  assert (0 <= (2 ^ 63 - 1 - partOff) / bs < 2 ^ 64).
  { split; [apply Z.div_pos; lia|apply Z.div_lt_upper_bound; nia]. }
  rewrite u64_small by lia.
  destruct (Z.ltb_spec ((2 ^ 63 - 1 - partOff) / bs) phys) as [Hlt|Hge].
  - rewrite (proj2 (Z.ltb_ge _ _)); [done|].
    pose proof (Z.mul_succ_div_gt (2 ^ 63 - 1 - partOff) bs ltac:(lia)). nia.
  - pose proof (Z.mul_div_le (2 ^ 63 - 1 - partOff) bs ltac:(lia)).
    assert (phys * bs <= 2 ^ 63 - 1 - partOff) by nia.
    rewrite (proj2 (Z.ltb_lt _ _)) by lia. rewrite (i64_small (phys * bs)) by nia.
    rewrite i64_small by nia. done.
Qed.

(** ** Parsing hostile superblocks *)
Definition decodeSB (buf : bytes) : superblock :=
  let crc := Z.land (dec 2 buf 100) xfsSBVersionBits =? xfsSBVersion5 in
  let sect := dec 2 buf 102 in
  {| blockSize := dec 4 buf 4; sectorSize := if sect =? 0 then 512 else sect;
     agBlocks := dec 4 buf 84; agCount := dec 4 buf 88; dBlocks := dec 8 buf 8;
     rootIno := dec 8 buf 56; inodeSize := dec 2 buf 104; inopBlock := dec 2 buf 106;
     inopBLog := dec 1 buf 123; agBlkLog := dec 1 buf 124; dirBlkLog := dec 1 buf 192;
     hasCRC := crc;
     hasFType := if crc then negb (Z.land (dec 4 buf 216) xfsSBFeatFType =? 0)
                 else negb (Z.land (dec 4 buf 200) xfsSBv4FeatFType =? 0);
     hasReflink := if crc then negb (Z.land (dec 4 buf 212) xfsSBFeatRoReflink =? 0) else false;
     features2 := dec 4 buf 200;
     quotaFlags := if crc then dec 2 buf 176 else 0; uQuotino := if crc then dec 8 buf 160 else 0;
     gQuotino := if crc then dec 8 buf 168 else 0; pQuotino := if crc then dec 8 buf 232 else 0;
     uuid := slice buf 32 16; label := trimRight label_pad (slice buf 108 12); maxRead := 0 |}.

Lemma parseSuperblock_eq buf :
  zlen buf = 512 ->
  parseSuperblock buf =
    if dec 4 buf 0 =? magicSB then (validateGeometry (decodeSB buf);; Ret (decodeSB buf))
    else Fail (Errorf "bad superblock magic").
Proof.
  intros L. unfold parseSuperblock, sbOffMagic. rewrite (be_get_ok 4 buf 0) by lia. ostep.
  destruct (dec 4 buf 0 =? magicSB); cbn [negb]; ostep; [|done].
  unfold sbOffVersionNum, sbOffFeatIncompat, sbOffFeatRoCompat, sbOffFeatures2, sbOffSectSize,
    sbOffBlockSize, sbOffAgBlocks, sbOffAgCount, sbOffDBlocks, sbOffRootIno, sbOffInodeSize,
    sbOffInopBlock, sbOffInopBLog, sbOffAgBlkLog, sbOffDirBlkLog, sbOffQFlags, sbOffUQuotino,
    sbOffGQuotino, sbOffPQuotino.
  repeat (rewrite be_get_ok by lia). ostep. rewrite !byte_at_ok by lia. ostep.
  rewrite !sub_ok by lia. ostep. reflexivity.
Qed.

Lemma decodeSB_width buf : isbytes buf -> zlen buf = 512 -> sb_width (decodeSB buf).
Proof.
  intros Hb L. assert (forall n o, 0 <= o -> 0 <= n -> o + n <= 512 -> 0 <= dec n buf o < 256 ^ n) as R
    by (intros; apply dec_range; (done || lia)).
  constructor; unfold decodeSB;
    cbn [blockSize sectorSize agBlocks agCount dBlocks rootIno inodeSize inopBlock inopBLog agBlkLog dirBlkLog uuid];
    try (apply R; lia).
  - pose proof (R 2 102). case_match; lia.
  - split; [apply zlen_slice; lia|by apply isbytes_slice].
Qed.

(** C34 (safety).  On any 512 bytes whatever, superblock parsing returns or refuses,
    without a panic; what it returns has in-range fields and a geometry that meets
    the contract, so no later shift, slice or division by geometry can misbehave. *)
Theorem parseSuperblock_safe (buf : bytes) :
  isbytes buf -> zlen buf = 512 ->
  (exists e, parseSuperblock buf = Fail e) \/
  (exists sb, parseSuperblock buf = Ret sb /\ sb_width sb /\ geometry_ok sb).
Proof.
  intros Hb L. rewrite (parseSuperblock_eq buf L). destruct (_ =? _); [|eauto].
  destruct (validateGeometry (decodeSB buf)) as [[]|e| |] eqn:E; ostep; [right|eauto| |].
  - pose proof (decodeSB_width buf Hb L) as W. exists (decodeSB buf).
    split_and!; [done..|]. by apply validateGeometry_iff.
  - unfold validateGeometry in E. repeat case_match; done.
  - unfold validateGeometry in E. repeat case_match; done.
Qed.
Lemma parseSuperblock_safe_witness :
  (exists e, parseSuperblock (make_bytes 512) = Fail e) \/
  (exists sb, parseSuperblock (make_bytes 512) = Ret sb /\ sb_width sb /\ geometry_ok sb).
Proof. apply parseSuperblock_safe; [by apply (bool_decide_unpack _)|reflexivity]. Defined.
