(* ===== verification/Refcount.v ===== *)
(** * Reference counts of shared extents (reflink.go)

    The record-set operations of the per-AG refcount B-tree: a block in no
    record is singly owned (or free), a block in a record carries the number of
    inodes that share it.  [rc] reads a record set as a function from blocks to
    counts; the theorems say what increment, decrement and merge do to that
    function and that they keep the records canonical. *)
From S2P Require Import Prelude Bytes.

Record refcRec := mkRec { rstart : Z; rcount : Z; refcount : Z }.
#[export] Instance refcRec_eq_dec : EqDecision refcRec.
Proof. solve_decision. Defined.

Definition by_rstart (a b : refcRec) : Prop := rstart a <= rstart b.
#[export] Instance by_rstart_dec : RelDecision by_rstart.
Proof. intros a b. unfold by_rstart. apply _. Defined.
#[export] Instance by_rstart_total : Total by_rstart.
Proof. intros a b. unfold by_rstart. lia. Qed.

(** The coalescing loop of [refcMerge]: [last] is [out[n-1]]. *)
Fixpoint coalesce (last : refcRec) (l : list refcRec) : list refcRec :=
  match l with
  | [] => [last]
  | r :: l' =>
      if (u32 (rstart last + rcount last) =? rstart r) && (refcount last =? refcount r)
      then coalesce (mkRec (rstart last) (u32 (rcount last + rcount r)) (refcount last)) l'
      else last :: coalesce r l'
  end.
Definition keepRec (r : refcRec) : bool := negb ((rcount r =? 0) || (refcount r <? 2)).
Definition refcMerge (recs : list refcRec) : list refcRec :=
  match merge_sort by_rstart (filter (fun r => keepRec r = true) recs) with
  | [] => []
  | r :: l => coalesce r l
  end.

Definition max32 (a b : Z) : Z := if b <? a then a else b.
Definition min32 (a b : Z) : Z := if a <? b then a else b.

(** The first loop of [refcClipInside]. *)
Fixpoint clipLoop (recs : list refcRec) (s e : Z) : list refcRec * list refcRec :=
  match recs with
  | [] => ([], [])
  | r :: rest =>
      let '(outside, inside) := clipLoop rest s e in
      let rEnd := u32 (rstart r + rcount r) in
      if (rEnd <=? s) || (e <=? rstart r) then (r :: outside, inside)
      else
        let left := if rstart r <? s then [mkRec (rstart r) (u32 (s - rstart r)) (refcount r)] else [] in
        let right := if e <? rEnd then [mkRec e (u32 (rEnd - e)) (refcount r)] else [] in
        let cs := max32 (rstart r) s in
        let ce := min32 rEnd e in
        (left ++ right ++ outside, mkRec cs (u32 (ce - cs)) (refcount r) :: inside)
  end.
(** The gap-filling loop. *)
Fixpoint fillGaps (pos : Z) (inside : list refcRec) (e : Z) : list refcRec :=
  match inside with
  | [] => if pos <? e then [mkRec pos (u32 (e - pos)) 0] else []
  | seg :: rest =>
      (if pos <? rstart seg then [mkRec pos (u32 (rstart seg - pos)) 0] else [])
      ++ seg :: fillGaps (u32 (rstart seg + rcount seg)) rest e
  end.
Definition refcClipInside (recs : list refcRec) (s e : Z) : list refcRec * list refcRec :=
  let '(outside, inside) := clipLoop recs s e in
  (outside, fillGaps s (merge_sort by_rstart inside) e).

Definition bumpRec (r : refcRec) : refcRec :=
  let base := if refcount r =? 0 then 1 else refcount r in
  mkRec (rstart r) (rcount r) (u32 (base + 1)).
Definition refcIncrRange (recs : list refcRec) (s cnt : Z) : list refcRec :=
  let e := u32 (s + cnt) in
  let '(outside, inside) := refcClipInside recs s e in
  refcMerge (outside ++ map bumpRec inside).

Definition refcDecrRange (recs : list refcRec) (s cnt : Z) : list refcRec * list refcRec :=
  let e := u32 (s + cnt) in
  let '(outside, inside) := refcClipInside recs s e in
  let dec := filter (fun r => refcount r <> 0) inside in
  let free := filter (fun r => refcount r = 0) inside in
  (refcMerge (outside ++ map (fun r => mkRec (rstart r) (rcount r) (u32 (refcount r - 1))) dec),
   map (fun r => mkRec (rstart r) (rcount r) 0) free).

(** ** Record sets as functions *)
Definition covers (r : refcRec) (b : Z) : bool := (rstart r <=? b) && (b <? rstart r + rcount r).
(** Sum of [f refcount] over the records that cover [b]. *)
Fixpoint acc (f : Z -> Z) (l : list refcRec) (b : Z) : Z :=
  match l with
  | [] => 0
  | r :: l' => (if covers r b then f (refcount r) else 0) + acc f l' b
  end.
Definition cov (l : list refcRec) (b : Z) : Z := acc (fun _ => 1) l b.
(** The stored reference count of block [b]; 0 when no record covers it. *)
Definition rc (l : list refcRec) (b : Z) : Z := acc (fun x => x) l b.

(** A record inside the AG with a count below [K] (which bounds the uint32). *)
Definition rec_wf (K : Z) (r : refcRec) : Prop :=
  0 <= rstart r /\ 0 < rcount r /\ rstart r + rcount r < 2 ^ 32 /\ 0 <= refcount r < K.
#[export] Instance rec_wf_dec K r : Decision (rec_wf K r).
Proof. unfold rec_wf. apply _. Defined.
(** No block in two records. *)
Definition disjointRecs (l : list refcRec) : Prop := forall b, cov l b <= 1.

Definition behindR (a b : refcRec) : Prop := rstart a + rcount a <= rstart b.
Definition unmergeable (a b : refcRec) : Prop :=
  behindR a b /\ (rstart a + rcount a = rstart b -> refcount a <> refcount b).
(** The form the refcount B-tree keeps on disk: sorted, disjoint, every count at
    least 2, and no two neighbours that could be one record. *)
Definition canonical (K : Z) (l : list refcRec) : Prop :=
  Sorted unmergeable l /\ Forall (fun r => rec_wf K r /\ 2 <= refcount r) l.

Lemma acc_app f l k b : acc f (l ++ k) b = acc f l b + acc f k b.
Proof. induction l; simpl; lia. Qed.
#[export] Instance acc_perm f : Proper ((≡ₚ) ==> (=) ==> (=)) (acc f).
Proof. intros l k Hp b ? <-. induction Hp; simpl; lia. Qed.
Lemma cov_nonneg l b : 0 <= cov l b.
Proof. unfold cov. induction l; simpl; [lia|]. case_match; lia. Qed.
Lemma acc_cov0 f l b : cov l b = 0 -> acc f l b = 0.
Proof.
  induction l as [|r l IH]; [done|]. unfold cov. simpl. fold (cov l b).
  pose proof (cov_nonneg l b). case_match; intros; [lia|]. rewrite IH; lia.
Qed.
(** Where one record covers [b], a sum over covering records is a single term. *)
Lemma acc_cov1 f l b : cov l b = 1 -> acc f l b = f (rc l b).
Proof.
  induction l as [|r l IH]; [done|]. unfold cov, rc. simpl. fold (cov l b) (rc l b).
  pose proof (cov_nonneg l b). case_match; intros.
  - rewrite acc_cov0 by lia. unfold rc. rewrite acc_cov0 by lia. rewrite !Z.add_0_r. done.
  - rewrite IH by lia. done.
Qed.
Lemma acc_map f g l b :
  (forall r, rstart (g r) = rstart r /\ rcount (g r) = rcount r) ->
  acc f (map g l) b = fold_right (fun r s => (if covers r b then f (refcount (g r)) else 0) + s) 0 l.
Proof.
  intros Hg. induction l as [|r l IH]; [done|]. simpl. rewrite IH. f_equal.
  unfold covers. destruct (Hg r) as [-> ->]. done.
Qed.
Lemma acc_map_rc f h l b :
  acc f (map (fun r => mkRec (rstart r) (rcount r) (h (refcount r))) l) b = acc (fun x => f (h x)) l b.
Proof. induction l as [|r l IH]; [done|]. simpl. by rewrite IH. Qed.
Lemma acc_filter f (P : refcRec -> Prop) `{forall r, Decision (P r)} l b :
  acc f (filter P l) b =
  fold_right (fun r s => (if covers r b && bool_decide (P r) then f (refcount r) else 0) + s) 0 l.
Proof.
  induction l as [|r l IH]; [done|]. rewrite filter_cons. case_decide as D; simpl; rewrite IH.
  - rewrite bool_decide_true, andb_true_r by done. done.
  - rewrite bool_decide_false, andb_false_r by done. done.
Qed.

(** ** Merging *)
Definition span_wf (r : refcRec) : Prop :=
  0 <= rstart r /\ 0 < rcount r /\ rstart r + rcount r < 2 ^ 32.

Lemma covers_join a b x :
  span_wf a -> span_wf b -> rstart a + rcount a = rstart b ->
  covers (mkRec (rstart a) (rcount a + rcount b) (refcount a)) x = covers a x || covers b x /\
  covers a x && covers b x = false.
Proof.
  intros (?&?&?) (?&?&?) E. unfold covers; simpl. split.
  - apply eq_true_iff_eq. rewrite orb_true_iff, !andb_true_iff, !Z.leb_le, !Z.ltb_lt. lia.
  - apply not_true_iff_false. rewrite !andb_true_iff, !Z.leb_le, !Z.ltb_lt. lia.
Qed.

Lemma acc_coalesce f last l b :
  Forall span_wf (last :: l) -> acc f (coalesce last l) b = acc f (last :: l) b.
Proof.
  revert last. induction l as [|r l IH]; intros last Hw; [done|].
  apply Forall_cons in Hw as [H1 Hw]. pose proof Hw as Hw'. apply Forall_cons in Hw' as [H2 Hl].
  cbn [coalesce]. pose proof H1 as (?&?&?). pose proof H2 as (?&?&?). rewrite u32_small by lia.
  destruct (Z.eqb_spec (rstart last + rcount last) (rstart r)) as [E|]; cbn [andb].
  - destruct (Z.eqb_spec (refcount last) (refcount r)) as [E'|].
    + rewrite u32_small by lia. rewrite IH.
      * cbn [acc]. destruct (covers_join last r b H1 H2 E) as [-> Hx]. cbn [refcount].
        destruct (covers last b), (covers r b); simpl in *; try done; rewrite ?E'; lia.
      * constructor; [unfold span_wf; simpl; lia|done].
    + cbn [acc]. by rewrite IH.
  - cbn [acc]. by rewrite IH.
Qed.

Lemma coalesce_head last l :
  exists c tl, coalesce last l = mkRec (rstart last) c (refcount last) :: tl.
Proof.
  revert last. induction l as [|r l IH]; intros [s c k]; [by eexists _, _|]. simpl. case_match.
  - apply (IH (mkRec s (u32 (c + rcount r)) k)).
  - by eexists _, _.
Qed.

Lemma coalesce_canonical K last l :
  Sorted behindR (last :: l) -> Forall (fun r => rec_wf K r /\ 2 <= refcount r) (last :: l) ->
  canonical K (coalesce last l).
Proof.
  revert last. induction l as [|r l IH]; intros last Hs Hw.
  { split; [repeat constructor|done]. }
  apply Forall_cons in Hw as [[(?&?&?&?) ?] Hw]. pose proof Hw as Hw'. apply Forall_cons in Hw' as [[(?&?&?&?) ?] Hl].
  inversion Hs as [|? ? Hs' Hh]; subst. inversion Hh as [|? ? Hb]; subst. unfold behindR in Hb.
  cbn [coalesce]. rewrite !u32_small by lia.
  destruct (Z.eqb_spec (rstart last + rcount last) (rstart r)) as [E|E]; cbn [andb].
  1: destruct (Z.eqb_spec (refcount last) (refcount r)) as [E'|E'].
  - apply IH.
    + inversion Hs' as [|? ? Hs'' Hh']; subst. constructor; [done|].
      destruct Hh' as [|? ? Hb']; constructor. unfold behindR in *; simpl. lia.
    + constructor; [unfold rec_wf; simpl; lia|done].
  - destruct (IH r Hs' Hw) as [C1 C2]. destruct (coalesce_head r l) as (c & tl & Ec). split.
    + constructor; [done|]. rewrite Ec. constructor. split; [unfold behindR; simpl; lia|done].
    + constructor; [|done]. unfold rec_wf. lia.
  - destruct (IH r Hs' Hw) as [C1 C2]. destruct (coalesce_head r l) as (c & tl & Ec). split.
    + constructor; [done|]. rewrite Ec. constructor. split; [unfold behindR; simpl; lia|done].
    + constructor; [|done]. unfold rec_wf. lia.
Qed.

Lemma cov_two a b l : 0 < rcount a -> 0 < rcount b -> rstart a <= rstart b ->
  cov (a :: b :: l) (rstart b) <= 1 -> behindR a b.
Proof.
  intros Ha Hb Hle H. unfold behindR. unfold cov in H. cbn [acc] in H.
  pose proof (cov_nonneg l (rstart b)). unfold cov in *.
  unfold covers in H.
  rewrite (proj2 (Z.leb_le (rstart a) (rstart b))), Z.leb_refl, (proj2 (Z.ltb_lt (rstart b) (rstart b + rcount b))) in H by lia.
  cbn [andb] in H. destruct (Z.ltb_spec (rstart b) (rstart a + rcount a)); lia.
Qed.

Lemma sorted_behind l :
  Sorted by_rstart l -> Forall (fun r => 0 < rcount r) l -> disjointRecs l -> Sorted behindR l.
Proof.
  induction 1 as [|a l Hs IH Hh]; intros Hw Hd; [constructor|].
  apply Forall_cons in Hw as [Ha Hw].
  assert (disjointRecs l) as Hd'.
  { intros b. specialize (Hd b). unfold cov in *. cbn [acc] in Hd. case_match; lia. }
  constructor; [auto|]. destruct Hh as [|b l Hab]; constructor.
  apply Forall_cons in Hw as [Hb _]. apply (cov_two a b l); auto.
Qed.

Lemma acc_sub_filter f (P : refcRec -> Prop) `{forall r, Decision (P r)} l b :
  (forall x, 0 <= f x) -> acc f (filter P l) b <= acc f l b.
Proof.
  intros Hf. induction l as [|r l IH]; [done|]. rewrite filter_cons. case_decide; simpl; [lia|].
  case_match; [pose proof (Hf (refcount r))|]; lia.
Qed.

(** [refcMerge] keeps exactly the counts of 2 and more, in canonical form. *)
Lemma refcMerge_spec K l :
  Forall (rec_wf K) l -> disjointRecs l ->
  canonical K (refcMerge l) /\
  forall f b, acc f (refcMerge l) b = acc (fun x => if x <? 2 then 0 else f x) l b.
Proof.
  intros Hw Hd. unfold refcMerge. set (k := filter (fun r => keepRec r = true) l).
  pose proof (merge_sort_Permutation by_rstart k) as Hp.
  assert (Sorted by_rstart (merge_sort by_rstart k)) as Hs by (apply Sorted_merge_sort, _).
  assert (Forall (fun r => rec_wf K r /\ 2 <= refcount r) k) as Hk.
  { apply Forall_forall. intros r [Hr Hin]%list_elem_of_filter. rewrite Forall_forall in Hw.
    split; [auto|]. unfold keepRec in Hr. bsplit. lia. }
  assert (forall f b, acc f k b = acc (fun x => if x <? 2 then 0 else f x) l b) as Hacc.
  { intros f b. unfold k. rewrite acc_filter. clear k Hp Hs Hk Hd.
    induction Hw as [|r l (?&?&?&?) _ IH]; [done|]. cbn [acc fold_right]. rewrite IH. f_equal.
    unfold keepRec. rewrite (proj2 (Z.eqb_neq (rcount r) 0)) by lia. cbn [orb].
    destruct (refcount r <? 2); cbn [negb];
      [rewrite bool_decide_false by done|rewrite bool_decide_true by done];
      rewrite ?andb_true_r, ?andb_false_r; destruct (covers r b); done. }
  assert (disjointRecs k) as Hdk.
  { intros b. etrans; [|apply (Hd b)]. apply acc_sub_filter. intros; lia. }
  clearbody k. rewrite <- Hp in Hk.
  assert (forall f b, acc f (merge_sort by_rstart k) b = acc (fun x => if x <? 2 then 0 else f x) l b)
    as Hm by (intros f b; by rewrite Hp).
  assert (disjointRecs (merge_sort by_rstart k)) as Hdm by (intros b; unfold cov; rewrite Hp; apply Hdk).
  setoid_rewrite <- Hm. destruct (merge_sort by_rstart k) as [|r m].
  { split; [repeat constructor|done]. }
  split.
  - apply coalesce_canonical; [|done]. apply sorted_behind; [done| |done].
    eapply Forall_impl; [exact Hk|]. cbn. intros x [(?&?&?&?) ?]. done.
  - intros f b. apply acc_coalesce. eapply Forall_impl; [exact Hk|].
    cbn. intros x [(?&?&?&?) ?]. done.
Qed.

(** ** Clipping *)
Definition inr (s e b : Z) : bool := (s <=? b) && (b <? e).

Lemma acc_opt f (c : bool) r b : acc f (if c then [r] else []) b = if c && covers r b then f (refcount r) else 0.
Proof. destruct c; simpl; [|done]. case_match; lia. Qed.

Lemma clipLoop_spec K recs s e :
  Forall (rec_wf K) recs -> 0 <= s -> s < e -> e < 2 ^ 32 ->
  (forall f b, acc f (clipLoop recs s e).1 b = if inr s e b then 0 else acc f recs b) /\
  (forall f b, acc f (clipLoop recs s e).2 b = if inr s e b then acc f recs b else 0) /\
  Forall (rec_wf K) (clipLoop recs s e).1 /\
  Forall (fun r => rec_wf K r /\ s <= rstart r /\ rstart r + rcount r <= e) (clipLoop recs s e).2.
Proof.
  intros Hw Hs He He'. induction Hw as [|r l Hr _ IH].
  { split_and!; try constructor; intros; simpl; by case_match. }
  cbn [clipLoop]. destruct (clipLoop l s e) as [o i]. cbn [fst snd] in IH.
  destruct IH as (IHo & IHi & IHw & IHb). destruct r as [rs rn k].
  pose proof Hr as (?&?&?&?). cbn [rstart rcount refcount] in *.
  rewrite !(u32_small (rs + rn)) by lia.
  destruct ((rs + rn <=? s) || (e <=? rs)) eqn:Eo; cbn [fst snd].
  - assert (forall b, covers (mkRec rs rn k) b && inr s e b = false) as Hc
      by (intros b; unfold covers, inr; cbn [rstart rcount]; lia).
    split_and!; auto; intros f b; cbn [acc]; rewrite ?IHo, ?IHi; cbn [refcount];
      specialize (Hc b); destruct (covers _ b), (inr s e b); (done || lia).
  - assert (max32 rs s = Z.max rs s) as -> by (unfold max32; case_match; bsplit; lia).
    assert (min32 (rs + rn) e = Z.min (rs + rn) e) as -> by (unfold min32; case_match; bsplit; lia).
    bsplit. set (mid := mkRec _ _ _ :: i). set (lft := mkRec rs _ k). set (rgt := mkRec e _ k).
    assert (forall b, (rs <? s) && covers lft b = covers (mkRec rs rn k) b && (b <? s)) as HL.
    { intros b. unfold covers; cbn [rstart rcount lft]. destruct (Z.ltb_spec rs s); [|lia].
      rewrite u32_small; lia. }
    assert (forall b, (e <? rs + rn) && covers rgt b = covers (mkRec rs rn k) b && (e <=? b)) as HR.
    { intros b. unfold covers; cbn [rstart rcount rgt]. destruct (Z.ltb_spec e (rs + rn)); [|lia].
      rewrite u32_small; lia. }
    split_and!.
    + intros f b. rewrite !acc_app, IHo, !acc_opt, HL, HR. cbn [acc refcount lft rgt].
      unfold inr. destruct (covers _ b), (Z.ltb_spec b s), (Z.leb_spec e b), (Z.leb_spec s b), (Z.ltb_spec b e);
        cbn [andb]; lia.
    + intros f b. unfold mid. cbn [acc]. rewrite IHi. unfold covers, inr; cbn [rstart rcount refcount].
      rewrite u32_small by lia.
      replace ((Z.max rs s <=? b) && (b <? Z.max rs s + (Z.min (rs + rn) e - Z.max rs s)))
        with (((rs <=? b) && (b <? rs + rn)) && ((s <=? b) && (b <? e))) by lia.
      destruct ((rs <=? b) && (b <? rs + rn)), ((s <=? b) && (b <? e)); cbn [andb]; lia.
    + apply Forall_app; split; [|apply Forall_app; split; [|done]].
      * unfold lft. destruct (Z.ltb_spec rs s); [|constructor]. rewrite u32_small by lia.
        repeat constructor; cbn [rstart rcount refcount]; lia.
      * unfold rgt. destruct (Z.ltb_spec e (rs + rn)); [|constructor]. rewrite u32_small by lia.
        repeat constructor; cbn [rstart rcount refcount]; lia.
    + unfold mid. constructor; [|done]. rewrite u32_small by lia.
      unfold rec_wf; cbn [rstart rcount refcount]. lia.
Qed.

Lemma sorted_behind_all r l :
  Sorted behindR (r :: l) -> Forall (fun x => 0 < rcount x) l -> Forall (behindR r) l.
Proof.
  intros Hs Hw. inversion Hs as [|? ? Hl Hh]; subst. clear Hs. revert r Hh.
  induction Hl as [|x l Hl IH Hx]; intros r Hh; [constructor|].
  apply Forall_cons in Hw as [? Hw]. inversion Hh as [|? ? Hrx]; subst. constructor; [done|].
  eapply Forall_impl; [by apply (IH Hw x)|]. unfold behindR in *. cbn. intros. lia.
Qed.

Lemma fillGaps_spec K l pos e :
  0 < K ->
  Sorted behindR l ->
  Forall (fun r => rec_wf K r /\ pos <= rstart r /\ rstart r + rcount r <= e) l ->
  0 <= pos <= e -> e < 2 ^ 32 ->
  Forall (rec_wf K) (fillGaps pos l e) /\
  (forall f b, acc f (fillGaps pos l e) b =
     (if inr pos e b && (cov l b =? 0) then f 0 else 0) + acc f l b).
Proof.
  intros HK Hs. revert pos. induction Hs as [|r l Hs IH Hh]; intros pos Hw Hp He.
  { cbn [fillGaps]. destruct (Z.ltb_spec pos e); rewrite ?u32_small by lia.
    - split; [repeat constructor; simpl; lia|]. intros f b. unfold inr, cov; cbn [acc].
      unfold covers; cbn [rstart rcount refcount]. replace (pos + (e - pos)) with e by lia.
      rewrite andb_true_r. lia.
    - split; [constructor|]. intros f b. unfold inr, cov; cbn.
      destruct (Z.leb_spec pos b), (Z.ltb_spec b e); cbn; lia. }
  apply Forall_cons in Hw as [(Hr & ? & ?) Hw]. pose proof Hr as (?&?&?&?).
  cbn [fillGaps]. rewrite (u32_small (rstart r + rcount r)), (u32_small (rstart r - pos)) by lia.
  assert (Forall (fun x => rec_wf K x /\ rstart r + rcount r <= rstart x /\ rstart x + rcount x <= e) l) as Hw'.
  { assert (Forall (fun x => 0 < rcount x) l) as Hpos
      by (eapply Forall_impl; [exact Hw|]; cbn; by intros x [(?&?&_) _]).
    assert (Sorted behindR (r :: l)) as Hrl by by constructor.
    pose proof (sorted_behind_all r l Hrl Hpos) as Hb. unfold behindR in Hb.
    rewrite Forall_forall in Hw, Hb |- *. intros x Hx.
    destruct (Hw x Hx) as (? & _ & ?). split_and!; auto. }
  destruct (IH (rstart r + rcount r) Hw' ltac:(lia) He) as [IH1 IH2]. split.
  - apply Forall_app; split; [|by constructor]. case_match; repeat constructor; bsplit; simpl; lia.
  - intros f b. rewrite acc_app. cbn [acc]. rewrite IH2. unfold cov; cbn [acc]. fold (cov l b).
    pose proof (cov_nonneg l b) as Hc.
    assert (b < rstart r + rcount r -> cov l b = 0) as Hz.
    { intros Hb. clear -Hw' Hb. unfold cov. induction Hw' as [|x l (_&?&_) _ IHl]; [done|]. cbn [acc].
      rewrite IHl. unfold covers. rewrite (proj2 (Z.leb_gt _ _)) by lia. done. }
    rewrite acc_opt. cbn [refcount].
    assert ((pos <? rstart r) && covers (mkRec pos (rstart r - pos) 0) b
            = (pos <=? b) && (b <? rstart r)) as -> by (unfold covers; cbn [rstart rcount]; lia).
    unfold covers, inr. destruct (Z.ltb_spec b (rstart r + rcount r)) as [Hb|Hb].
    + rewrite (Hz Hb). destruct (Z.leb_spec pos b), (Z.ltb_spec b (rstart r)), (Z.leb_spec (rstart r) b),
        (Z.ltb_spec b e), (Z.leb_spec (rstart r + rcount r) b); cbn; try lia;
        try change (0 + 0 =? 0) with true; try change (1 + 0 =? 0) with false; cbv iota; lia.
    + destruct (Z.leb_spec pos b), (Z.ltb_spec b (rstart r)), (Z.leb_spec (rstart r + rcount r) b); try lia.
      rewrite !andb_false_r. cbn [andb]. rewrite (Z.add_0_l (cov l b)). lia.
Qed.

Lemma clipInside_spec K recs s e :
  0 < K -> Forall (rec_wf K) recs -> disjointRecs recs -> 0 <= s -> s < e -> e < 2 ^ 32 ->
  let o := (refcClipInside recs s e).1 in
  let i := (refcClipInside recs s e).2 in
  Forall (rec_wf K) o /\ Forall (rec_wf K) i /\
  (forall f b, acc f o b = if inr s e b then 0 else acc f recs b) /\
  (forall f b, acc f i b = if inr s e b then f (rc recs b) else 0).
Proof.
  intros HK Hw Hd Hs He He'. unfold refcClipInside.
  destruct (clipLoop_spec K recs s e Hw Hs He He') as (Ho & Hi & Hwo & Hwi).
  destruct (clipLoop recs s e) as [o i]. cbn [fst snd] in *.
  pose proof (merge_sort_Permutation by_rstart i) as Hp. rewrite <- Hp in Hwi.
  assert (disjointRecs (merge_sort by_rstart i)) as Hdi.
  { intros b. unfold cov. rewrite Hp, Hi. specialize (Hd b). unfold cov in Hd. case_match; lia. }
  destruct (fillGaps_spec K (merge_sort by_rstart i) s e) as [Hf1 Hf2]; try done; try lia.
  { apply sorted_behind; [apply Sorted_merge_sort, _| |done].
    eapply Forall_impl; [exact Hwi|]. cbn. by intros x [(?&?&_) _]. }
  split_and!; try done. intros f b. rewrite Hf2. unfold cov. rewrite Hp, !Hi. fold (cov recs b).
  destruct (inr s e b); [|cbn; lia]. cbn [andb]. specialize (Hd b). pose proof (cov_nonneg recs b).
  destruct (Z.eqb_spec (cov recs b) 0) as [E|E].
  - unfold rc. rewrite !acc_cov0 by done. lia.
  - rewrite acc_cov1 by lia. lia.
Qed.

Lemma canonical_wf K l : canonical K l -> Forall (rec_wf K) l.
Proof. intros [_ H]. eapply Forall_impl; [exact H|]. cbn. tauto. Qed.
Lemma canonical_behind K l : canonical K l -> Sorted behindR l.
Proof.
  intros [H _]. induction H as [|a l ? ? Hh]; [constructor|]. constructor; [done|].
  destruct Hh as [|? ? [? _]]; by constructor.
Qed.
Lemma canonical_disjoint K l : canonical K l -> disjointRecs l.
Proof.
  intros H. pose proof (canonical_behind K l H) as Hs. pose proof (canonical_wf K l H) as Hw. clear H.
  induction Hs as [|a l Hs IH Hh]; intros b; [unfold cov; simpl; lia|].
  apply Forall_cons in Hw as [_ Hw]. specialize (IH Hw b).
  assert (Forall (behindR a) l) as Ha.
  { apply sorted_behind_all; [by constructor|]. eapply Forall_impl; [exact Hw|]. by intros x (?&?&_). }
  unfold cov; cbn [acc]. fold (cov l b). destruct (covers a b) eqn:Ec; [|lia].
  assert (cov l b = 0) as ->; [|lia]. unfold covers in Ec. bsplit. clear -Ha H0. unfold cov.
  induction Ha as [|x l Hx _ IHl]; [done|]. cbn [acc]. rewrite IHl. unfold covers, behindR in *.
  rewrite (proj2 (Z.leb_gt _ _)) by lia. done.
Qed.
Lemma rc_range K l b : canonical K l -> rc l b = 0 \/ 2 <= rc l b < K.
Proof.
  intros H. pose proof (canonical_disjoint K l H b) as Hd. pose proof (cov_nonneg l b).
  destruct (Z.eq_dec (cov l b) 0) as [E|E]; [left; by apply acc_cov0|right].
  assert (cov l b = 1) as E1 by lia. destruct H as [_ Hw]. clear Hd E H0.
  induction Hw as [|r l [(?&?&?&?) ?] _ IH]; [done|]. unfold cov, rc in *; cbn [acc] in *.
  pose proof (cov_nonneg l b). unfold cov in *. destruct (covers r b).
  - rewrite (acc_cov0 (fun x => x)) by (unfold cov; lia). lia.
  - rewrite Z.add_0_l in *. by apply IH.
Qed.

(** What sharing and releasing do to one block's count. *)
Definition incr_count (x : Z) : Z := if x =? 0 then 2 else x + 1.
Definition decr_count (x : Z) : Z := if x <=? 2 then 0 else x - 1.

Lemma refcIncrRange_rc K recs s cnt :
  canonical K recs -> 2 <= K -> K < 2 ^ 32 -> 0 <= s -> 0 < cnt -> s + cnt < 2 ^ 32 ->
  canonical (K + 1) (refcIncrRange recs s cnt) /\
  forall b, rc (refcIncrRange recs s cnt) b =
            if inr s (s + cnt) b then incr_count (rc recs b) else rc recs b.
Proof.
  intros Hc HK HK' Hs Hn He. unfold refcIncrRange. rewrite u32_small by lia.
  destruct (clipInside_spec K recs s (s + cnt)) as (Wo & Wi & Ao & Ai);
    [lia|by eapply canonical_wf|by eapply canonical_disjoint|lia..|].
  destruct (refcClipInside recs s (s + cnt)) as [o i]. cbn [fst snd] in *.
  assert (forall f b, acc f (map bumpRec i) b = if inr s (s + cnt) b then f (incr_count (rc recs b)) else 0) as Ab.
  { intros f b. unfold bumpRec.
    rewrite (acc_map_rc f (fun x => u32 ((if x =? 0 then 1 else x) + 1))), Ai.
    destruct (inr _ _ b); [|done]. unfold incr_count. pose proof (rc_range K recs b Hc).
    destruct (Z.eqb_spec (rc recs b) 0); [done|]. by rewrite u32_small by lia. }
  destruct (refcMerge_spec (K + 1) (o ++ map bumpRec i)) as [Hcan Hacc].
  - apply Forall_app; split; [eapply Forall_impl; [exact Wo|]; unfold rec_wf; cbn; lia|].
    apply Forall_map. eapply Forall_impl; [exact Wi|]. unfold rec_wf, bumpRec; cbn. intros r ?.
    case_match; bsplit; rewrite u32_small; lia.
  - intros b. unfold cov. rewrite acc_app, Ao, Ab. destruct (inr _ _ b); [lia|].
    pose proof (canonical_disjoint K recs Hc b) as Hd. unfold cov in Hd. lia.
  - split; [done|]. intros b. unfold rc at 1. rewrite Hacc, acc_app, Ao, Ab.
    pose proof (rc_range K recs b Hc) as Hr. destruct (inr _ _ b).
    + unfold incr_count. destruct (Z.eqb_spec (rc recs b) 0); [done|].
      rewrite (proj2 (Z.ltb_ge _ _)); lia.
    + rewrite Z.add_0_r. pose proof (canonical_disjoint K recs Hc b). pose proof (cov_nonneg recs b).
      destruct (Z.eq_dec (cov recs b) 0) as [E|E]; [unfold rc; by rewrite !acc_cov0|].
      rewrite acc_cov1 by lia. destruct (Z.ltb_spec (rc recs b) 2); [lia|done].
Qed.

Lemma acc_filter_rc f (g : Z -> bool) (P : refcRec -> Prop) `{forall r, Decision (P r)} l b :
  (forall r, P r <-> g (refcount r) = true) ->
  acc f (filter P l) b = acc (fun x => if g x then f x else 0) l b.
Proof.
  intros Hg. induction l as [|r l IH]; [done|]. rewrite filter_cons.
  destruct (decide (P r)) as [HP|HP]; cbn [acc]; rewrite IH.
  - by rewrite (proj1 (Hg r) HP).
  - destruct (g (refcount r)) eqn:E; [by apply Hg in E|]. case_match; lia.
Qed.

Lemma refcDecrRange_rc K recs s cnt :
  canonical K recs -> 2 <= K -> K <= 2 ^ 32 -> 0 <= s -> 0 < cnt -> s + cnt < 2 ^ 32 ->
  canonical K (refcDecrRange recs s cnt).1 /\
  (forall b, rc (refcDecrRange recs s cnt).1 b =
             if inr s (s + cnt) b then decr_count (rc recs b) else rc recs b) /\
  (forall b, cov (refcDecrRange recs s cnt).2 b =
             if inr s (s + cnt) b && (rc recs b =? 0) then 1 else 0) /\
  Forall (fun r => 0 <= rstart r /\ 0 < rcount r) (refcDecrRange recs s cnt).2.
Proof.
  intros Hc HK HK' Hs Hn He. unfold refcDecrRange. rewrite u32_small by lia.
  destruct (clipInside_spec K recs s (s + cnt)) as (Wo & Wi & Ao & Ai);
    [lia|by eapply canonical_wf|by eapply canonical_disjoint|lia..|].
  destruct (refcClipInside recs s (s + cnt)) as [o i]. cbn [fst snd] in *.
  set (d := map _ _).
  assert (forall f b, acc f d b = if inr s (s + cnt) b
            then (if rc recs b =? 0 then 0 else f (rc recs b - 1)) else 0) as Ad.
  { intros f b. unfold d. rewrite (acc_map_rc f (fun x => u32 (x - 1))).
    rewrite (acc_filter_rc _ (fun x => negb (x =? 0))), Ai
      by (intros; by rewrite negb_true_iff, Z.eqb_neq).
    destruct (inr _ _ b); [|done]. pose proof (rc_range K recs b Hc).
    destruct (Z.eqb_spec (rc recs b) 0); cbn [negb]; [done|]. by rewrite u32_small by lia. }
  destruct (refcMerge_spec K (o ++ d)) as [Hcan Hacc].
  - apply Forall_app; split; [done|]. apply Forall_map, Forall_forall.
    intros r [Hr Hin]%list_elem_of_filter. rewrite Forall_forall in Wi. specialize (Wi r Hin).
    unfold rec_wf in *; cbn. rewrite u32_small; lia.
  - intros b. unfold cov. rewrite acc_app, Ao, Ad. destruct (inr _ _ b); [case_match; lia|].
    pose proof (canonical_disjoint K recs Hc b) as Hd. unfold cov in Hd. lia.
  - split_and!; [done| | |].
    + intros b. unfold rc at 1. rewrite Hacc, acc_app, Ao, Ad.
      pose proof (rc_range K recs b Hc) as Hr. destruct (inr _ _ b).
      * unfold decr_count. destruct (Z.eqb_spec (rc recs b) 0), (Z.ltb_spec (rc recs b - 1) 2),
          (Z.leb_spec (rc recs b) 2); lia.
      * rewrite Z.add_0_r. pose proof (canonical_disjoint K recs Hc b). pose proof (cov_nonneg recs b).
        destruct (Z.eq_dec (cov recs b) 0) as [E|E]; [unfold rc; by rewrite !acc_cov0|].
        rewrite acc_cov1 by lia. destruct (Z.ltb_spec (rc recs b) 2); [lia|done].
    + intros b. unfold cov. rewrite (acc_map_rc _ (fun _ => 0)).
      rewrite (acc_filter_rc _ (fun x => x =? 0)), Ai by (intros; by rewrite Z.eqb_eq).
      destruct (inr _ _ b); done.
    + apply Forall_map, Forall_forall. intros r [Hr Hin]%list_elem_of_filter.
      rewrite Forall_forall in Wi. specialize (Wi r Hin). unfold rec_wf in Wi. cbn. lia.
Qed.

(** A canonical set is determined by its counts. *)
Lemma canonical_head_min K r l b :
  canonical K (r :: l) -> b < rstart r -> rc (r :: l) b = 0.
Proof.
  intros H Hb. apply acc_cov0. pose proof (canonical_behind K _ H) as Hs.
  pose proof (canonical_wf K _ H) as Hw. apply Forall_cons in Hw as [(?&?&_) Hw].
  assert (Forall (behindR r) l) as Ha.
  { apply sorted_behind_all; [done|]. eapply Forall_impl; [exact Hw|]. by intros x (?&?&_). }
  unfold cov; cbn [acc]. unfold covers. rewrite (proj2 (Z.leb_gt (rstart r) b)) by lia. cbn [andb].
  clear -Ha Hb H1. induction Ha as [|x l Hx _ IHl]; [done|]. cbn [acc]. unfold behindR in Hx.
  unfold covers at 1. rewrite (proj2 (Z.leb_gt (rstart x) b)) by lia. cbn [andb]. lia.
Qed.
Lemma canonical_at_head K r l b :
  canonical K (r :: l) -> covers r b = true -> rc (r :: l) b = refcount r.
Proof.
  intros H Hb. pose proof (canonical_disjoint K _ H b) as Hd. unfold cov in Hd; cbn [acc] in Hd.
  rewrite Hb in Hd. pose proof (cov_nonneg l b). unfold rc; cbn [acc]. rewrite Hb.
  rewrite acc_cov0; [lia|]. unfold cov in *. lia.
Qed.
Lemma canonical_tail K r l : canonical K (r :: l) -> canonical K l.
Proof. intros [Hs Hw]. apply Forall_cons in Hw as [_ Hw]. inversion Hs; subst. done. Qed.
Lemma canonical_headK K r l : canonical K (r :: l) -> rec_wf K r /\ 2 <= refcount r.
Proof. intros [_ Hw]. by apply Forall_cons in Hw as [? _]. Qed.
Lemma covers_start K r : rec_wf K r -> covers r (rstart r) = true.
Proof. intros (?&?&_). unfold covers. lia. Qed.

(** Right after a record the count differs: records are maximal. *)
Lemma canonical_end K r l :
  canonical K (r :: l) -> rc (r :: l) (rstart r + rcount r) <> refcount r.
Proof.
  intros H. destruct (canonical_headK K r l H) as [Hr H2].
  assert (rc (r :: l) (rstart r + rcount r) = rc l (rstart r + rcount r)) as ->.
  { unfold rc; cbn [acc]. unfold covers. rewrite Z.ltb_irrefl, andb_false_r. lia. }
  destruct l as [|x l]; [unfold rc; simpl; lia|].
  destruct H as [Hs Hw]. inversion Hs as [|? ? Hs' Hh]; subst. inversion Hh as [|? ? [Hb Hu]]; subst.
  apply Forall_cons in Hw as [_ Hw]. assert (canonical K (x :: l)) as Hx by by split.
  unfold behindR in Hb. destruct (Z.eq_dec (rstart r + rcount r) (rstart x)) as [E|E].
  - rewrite E, (canonical_at_head K) by (done || by eapply covers_start, canonical_headK). intros E'. by apply Hu.
  - rewrite (canonical_head_min K) by (done || lia). lia.
Qed.

Lemma canonical_start_le K K' r l r' k :
  canonical K (r :: l) -> canonical K' (r' :: k) -> (forall b, rc (r :: l) b = rc (r' :: k) b) ->
  rstart r' <= rstart r.
Proof.
  intros H H' E. destruct (canonical_headK K r l H) as [Hr ?].
  destruct (Z.lt_ge_cases (rstart r) (rstart r')) as [Hlt|]; [|done].
  specialize (E (rstart r)). rewrite (canonical_at_head K), (canonical_head_min K') in E
    by (done || by eapply covers_start). lia.
Qed.
Lemma canonical_count_le K K' r l r' k :
  canonical K (r :: l) -> canonical K' (r' :: k) -> (forall b, rc (r :: l) b = rc (r' :: k) b) ->
  rstart r = rstart r' -> refcount r = refcount r' -> rcount r' <= rcount r.
Proof.
  intros H H' E Es Er. destruct (Z.lt_ge_cases (rcount r) (rcount r')) as [Hlt|]; [|done].
  destruct (canonical_headK K r l H) as [(?&?&_) _].
  exfalso. apply (canonical_end K r l H). rewrite E, (canonical_at_head K'); [done..|].
  unfold covers. lia.
Qed.

Lemma canonical_unique K K' l k :
  canonical K l -> canonical K' k -> (forall b, rc l b = rc k b) -> l = k.
Proof.
  revert k. induction l as [|r l IH]; intros k H H' E.
  - destruct k as [|r' k]; [done|]. destruct (canonical_headK K' r' k H') as [Hr ?].
    specialize (E (rstart r')). rewrite (canonical_at_head K' r') in E by (done || by eapply covers_start).
    unfold rc in E; simpl in E. lia.
  - destruct k as [|r' k].
    { destruct (canonical_headK K r l H) as [Hr ?].
      specialize (E (rstart r)). rewrite (canonical_at_head K r) in E by (done || by eapply covers_start).
      unfold rc in E; simpl in E. lia. }
    assert (forall b, rc (r' :: k) b = rc (r :: l) b) as E' by (intros; by rewrite E).
    assert (rstart r = rstart r') as Es.
    { pose proof (canonical_start_le K K' r l r' k H H' E). pose proof (canonical_start_le K' K r' k r l H' H E'). lia. }
    assert (refcount r = refcount r') as Er.
    { destruct (canonical_headK K r l H), (canonical_headK K' r' k H').
      rewrite <- (canonical_at_head K r l (rstart r) H), E, Es by by eapply covers_start.
      apply (canonical_at_head K'); [done|by eapply covers_start]. }
    assert (rcount r = rcount r') as Ec.
    { pose proof (canonical_count_le K K' r l r' k H H' E Es Er).
      pose proof (canonical_count_le K' K r' k r l H' H E' (eq_sym Es) (eq_sym Er)). lia. }
    assert (r = r') as <- by (destruct r, r'; simpl in *; congruence). f_equal.
    apply IH; [by eapply canonical_tail|by eapply canonical_tail|].
    intros b. specialize (E b). unfold rc in *; cbn [acc] in E. lia.
Qed.

(** A sample record set: blocks 10..13 shared by 2 inodes, 14..15 by 3. *)
Definition sample_recs : list refcRec := [mkRec 10 4 2; mkRec 14 2 3].
Lemma sample_recs_canonical : canonical 4 sample_recs.
Proof.
  split; [|by apply (bool_decide_unpack _)].
  repeat constructor; unfold behindR; simpl; lia.
Qed.

(** C25 (functional).  Releasing an extent: [refcDecrRange] lowers the count of every
    block of [s, s+cnt) by one (a count of 2 leaving the tree), leaves the other
    blocks alone, keeps the records canonical, and returns for freeing exactly the
    blocks of the range no record covered, each once. *)
Theorem refcDecrRange_correct (K : Z) (recs : list refcRec) (s cnt : Z) :
  canonical K recs -> 2 <= K -> K <= 2 ^ 32 -> 0 <= s -> 0 < cnt -> s + cnt < 2 ^ 32 ->
  canonical K (refcDecrRange recs s cnt).1 /\
  (forall b, rc (refcDecrRange recs s cnt).1 b =
             if inr s (s + cnt) b then decr_count (rc recs b) else rc recs b) /\
  (forall b, cov (refcDecrRange recs s cnt).2 b =
             if inr s (s + cnt) b && (rc recs b =? 0) then 1 else 0).
Proof. intros. destruct (refcDecrRange_rc K recs s cnt) as (?&?&?&_); done. Qed.
Lemma refcDecrRange_correct_witness :
  cov (refcDecrRange sample_recs 8 5).2 9 = if inr 8 (8 + 5) 9 && (rc sample_recs 9 =? 0) then 1 else 0.
Proof. apply (refcDecrRange_correct 4 sample_recs 8 5 sample_recs_canonical); lia. Defined.

(** Sharing an extent and releasing it again gives back the very
    same record set and frees nothing. *)
Lemma refc_incr_decr (K : Z) (recs : list refcRec) (s cnt : Z) :
  canonical K recs -> 2 <= K -> K < 2 ^ 32 -> 0 <= s -> 0 < cnt -> s + cnt < 2 ^ 32 ->
  refcDecrRange (refcIncrRange recs s cnt) s cnt = (recs, []).
Proof.
  intros Hc HK HK' Hs Hn He. destruct (refcIncrRange_rc K recs s cnt) as [Hc1 R1]; try done.
  destruct (refcDecrRange_rc (K + 1) (refcIncrRange recs s cnt) s cnt) as (Hc2 & R2 & F & Wf); try done; try lia.
  destruct (refcDecrRange (refcIncrRange recs s cnt) s cnt) as [out free]. cbn [fst snd] in *. f_equal.
  - apply (canonical_unique (K + 1) K); [done..|]. intros b. rewrite R2, R1.
    destruct (inr _ _ b); [|done]. unfold incr_count, decr_count.
    pose proof (rc_range K recs b Hc). destruct (Z.eqb_spec (rc recs b) 0) as [->|]; [done|].
    destruct (Z.leb_spec (rc recs b + 1) 2); lia.
  - destruct free as [|r l]; [done|]. exfalso. apply Forall_cons in Wf as [[? ?] _].
    specialize (F (rstart r)). rewrite R1 in F. pose proof (cov_nonneg l (rstart r)).
    unfold cov in *; cbn [acc] in F. assert (covers r (rstart r) = true) as E by (unfold covers; lia).
    rewrite E in F. destruct (inr _ _ (rstart r)); [|simpl in F; lia].
    pose proof (rc_range K recs (rstart r) Hc). unfold incr_count in F.
    destruct (Z.eqb_spec (rc recs (rstart r)) 0); [simpl in F; lia|].
    rewrite (proj2 (Z.eqb_neq _ _)) in F by lia. simpl in F. lia.
Qed.
Lemma refc_incr_decr_witness :
  refcDecrRange (refcIncrRange sample_recs 12 30) 12 30 = (sample_recs, []).
Proof. apply (refc_incr_decr 4 sample_recs 12 30 sample_recs_canonical); lia. Defined.
