(* ===== verification/Inode.v ===== *)
(** * Inodes (inode.go)

    Inode numbers and their byte positions, the v3 inode buffer with its fields,
    reading, writing and initialising inodes.  A Go [inode] caches some fields of
    its raw buffer; [inode_sync] says cache and buffer agree. *)
From S2P Require Import Prelude Bytes Crc Device Superblock.

Record inode := mkInode {
  inum : Z;      (* num *)
  imode : Z;     (* mode, uint16 *)
  iformat : Z;   (* di_format *)
  isize : Z;     (* size, uint64 *)
  inBlocks : Z;  (* nBlocks, uint64 *)
  inExts : Z;    (* nExts, uint32 *)
  iforkOff : Z;  (* forkOff *)
  iraw : bytes   (* raw *)
}.

Definition isRegular (i : inode) : bool := Z.land (imode i) 0xF000 =? 0x8000.
Definition isDir (i : inode) : bool := Z.land (imode i) 0xF000 =? 0x4000.
Definition isSymlink (i : inode) : bool := Z.land (imode i) 0xF000 =? 0xA000.
Definition dataFork (i : inode) : outcome bytes := from (iraw i) inodeCoreSize.

Definition magicInode := 0x494E.
Definition inodeFmtLocal := 1.
Definition inodeFmtExtents := 2.
Definition inodeFmtBtree := 3.

Definition inoOffMagic := 0.
Definition inoOffMode := 2.
Definition inoOffVersion := 4.
Definition inoOffFormat := 5.
Definition inoOffNLink := 16.
Definition inoOffATime := 32.
Definition inoOffMTime := 40.
Definition inoOffCTime := 48.
Definition inoOffSize := 56.
Definition inoOffNBlocks := 64.
Definition inoOffNExtents := 76.
Definition inoOffForkOff := 82.
Definition inoOffAFormat := 83.
Definition inoOffNextUnlinked := 96.
Definition inoOffCRC := 100.
Definition inoOffFlags2 := 120.
Definition inoOffCRTime := 144.
Definition inoOffIno := 152.
Definition inoOffUUID := 160.
Definition inoOffBigNExtents := 24.
Definition xfsDiflag2Reflink := 0x02.
Definition xfsDiflag2Nrext64 := 0x10.
Definition xfsDiflag2Bigtime := 0x08.
Definition xfsBigtimeEpochOffset := 2147483648.

(** A point in time as [time.Unix(sec, nsec)] receives it. *)
Definition decodeInodeTime (raw : bytes) (off : Z) (bigtime : bool) : outcome (Z * Z) :=
  if bigtime then
    total ← be64 raw off;
    Ret (i64 (total / 1000000000) - xfsBigtimeEpochOffset, total mod 1000000000)
  else
    s ← be32 raw off;
    n ← be32 raw (off + 4);
    Ret (i32 s, i32 n).

Definition inodeHasBigtime (raw : bytes) : outcome bool :=
  v ← byte_at raw inoOffVersion;
  if 3 <=? v then
    f ← be64 raw inoOffFlags2;
    Ret (negb (Z.land f xfsDiflag2Bigtime =? 0))
  else Ret false.

(** ** Inode numbers *)
Definition inoShift (sb : superblock) : Z := agBlkLog sb + inopBLog sb.
Definition inodeByteOff (sb : superblock) (partOff ino : Z) : Z :=
  let ag := shr64 ino (inoShift sb) in
  let agRel := Z.land ino (u64 (shl64 1 (inoShift sb) - 1)) in
  let agBlock := shr64 agRel (inopBLog sb) in
  let blkOff := Z.land agRel (u64 (shl64 1 (inopBLog sb) - 1)) in
  i64 (i64 (i64 (partOff + i64 (i64 (i64 ag * agBlocks sb) * blockSize sb))
            + i64 (i64 agBlock * blockSize sb))
       + i64 (i64 blkOff * inodeSize sb)).
Definition inoAG (sb : superblock) (ino : Z) : Z := u32 (shr64 ino (inoShift sb)).
Definition inoAGRel (sb : superblock) (ino : Z) : Z :=
  u32 (Z.land ino (u64 (shl64 1 (inoShift sb) - 1))).
Definition inoFromAGRel (sb : superblock) (ag agRel : Z) : Z :=
  Z.lor (shl64 ag (inoShift sb)) agRel.

(** ** Reading and writing *)
Definition parseInode (ino : Z) (buf : bytes) : outcome inode :=
  magic ← be16 buf inoOffMagic;
  failif (negb (magic =? magicInode)) (Errorf "inode bad magic");;
  mode ← be16 buf inoOffMode;
  format ← byte_at buf inoOffFormat;
  size ← be64 buf inoOffSize;
  nBlocks ← be64 buf inoOffNBlocks;
  nExts ← be32 buf inoOffNExtents;
  forkOff ← byte_at buf inoOffForkOff;
  v ← byte_at buf inoOffVersion;
  nExts' ← (if 3 <=? v then
              f ← be64 buf inoOffFlags2;
              if negb (Z.land f xfsDiflag2Nrext64 =? 0)
              then big ← be64 buf inoOffBigNExtents; Ret (u32 big)
              else Ret nExts
            else Ret nExts);
  Ret (mkInode ino mode format size nBlocks nExts' forkOff buf).

Definition readInode {D} `{Device D} (r : D) (partOff : Z) (sb : superblock) (ino : Z) : outcome inode :=
  buf ← readBytes r (inodeByteOff sb partOff ino) (inodeSize sb);
  parseInode ino buf.

(** The in-memory buffer's CRC bytes are also updated by the Go code; every later
    write recomputes them, so the model only writes the stamped copy. *)
Definition writeInode {D} `{Device D} (partOff : Z) (sb : superblock) (i : inode) : M (World D) unit :=
  raw ← lift (if hasCRC sb then updateCRC (iraw i) inoOffCRC (inodeSize sb) else Ret (iraw i));
  writeAt raw (inodeByteOff sb partOff (inum i)).

(** ** Field setters *)
Definition set_raw (i : inode) (raw : bytes) : inode :=
  mkInode (inum i) (imode i) (iformat i) (isize i) (inBlocks i) (inExts i) (iforkOff i) raw.
Definition zeroInode (i : inode) : outcome inode :=
  raw ← put16 (iraw i) inoOffMode 0; Ret (set_raw i raw).
Definition setInodeSize (i : inode) (sz : Z) : outcome inode :=
  raw ← put64 (iraw i) inoOffSize sz;
  Ret (mkInode (inum i) (imode i) (iformat i) sz (inBlocks i) (inExts i) (iforkOff i) raw).
Definition setInodeNBlocks (i : inode) (n : Z) : outcome inode :=
  raw ← put64 (iraw i) inoOffNBlocks n;
  Ret (mkInode (inum i) (imode i) (iformat i) (isize i) n (inExts i) (iforkOff i) raw).
Definition setInodeNExtents (i : inode) (n : Z) : outcome inode :=
  raw ← put32 (iraw i) inoOffNExtents n;
  Ret (mkInode (inum i) (imode i) (iformat i) (isize i) (inBlocks i) n (iforkOff i) raw).
Definition setInodeFormat (i : inode) (fmt : Z) : outcome inode :=
  raw ← set_byte (iraw i) inoOffFormat fmt;
  Ret (mkInode (inum i) (imode i) fmt (isize i) (inBlocks i) (inExts i) (iforkOff i) raw).

(** [initInodeV3]; [now] is the clock reading, as (seconds, nanoseconds). *)
Definition stampLegacy (now : Z * Z) (buf : bytes) (off : Z) : outcome bytes :=
  b ← put32 buf off (u32 now.1); put32 b (off + 4) (u32 now.2).
Definition initInodeV3 (now : Z * Z) (buf : bytes) (ino mode nlink : Z) (uu : bytes) : outcome bytes :=
  b ← clear_range buf 0 (zlen buf);
  b ← put16 b inoOffMagic magicInode;
  b ← put16 b inoOffMode mode;
  b ← set_byte b inoOffVersion 3;
  b ← set_byte b inoOffFormat inodeFmtLocal;
  b ← put32 b inoOffNLink nlink;
  b ← stampLegacy now b inoOffATime;
  b ← stampLegacy now b inoOffMTime;
  b ← stampLegacy now b inoOffCTime;
  b ← stampLegacy now b inoOffCRTime;
  b ← put64 b inoOffIno ino;
  b ← put32 b inoOffNextUnlinked 0xFFFFFFFF;
  b ← set_byte b inoOffAFormat inodeFmtExtents;
  guardP (inoOffUUID + 16 <=? zlen b);;
  copy_to b inoOffUUID (take 16 uu).

(** ** Inode number arithmetic *)
Section Numbers.
Context (sb : superblock) (W : sb_width sb) (G : geometry_ok sb) (S32 : inoShift sb <= 32).

Lemma ipl_range : 0 <= inopBLog sb < 16.
Proof. pose proof (w_ipl _ W). pose proof (g_ip _ G). lia. Qed.
Lemma shift_range : 0 <= inoShift sb <= 32.
Proof. pose proof (log_range sb W G). pose proof ipl_range. unfold inoShift in *. lia. Qed.
Lemma mask_eq n : 0 <= n <= 32 -> u64 (shl64 1 n - 1) = 2 ^ n - 1.
Proof.
  intros. assert (0 < 2 ^ n <= 2 ^ 32) by (split; [apply Z.pow_pos_nonneg|apply Z.pow_le_mono_r]; lia).
  unfold shl64. rewrite Z.shiftl_1_l, (u64_small (2 ^ n)) by lia. apply u64_small. lia.
Qed.
Lemma pow_shift_range : 0 < 2 ^ inoShift sb <= 2 ^ 32.
Proof. pose proof shift_range. split; [apply Z.pow_pos_nonneg|apply Z.pow_le_mono_r]; lia. Qed.

Lemma inoFromAGRel_eq ag rel :
  0 <= ag < 2 ^ 32 -> 0 <= rel < 2 ^ inoShift sb ->
  inoFromAGRel sb ag rel = ag * 2 ^ inoShift sb + rel.
Proof.
  intros. pose proof shift_range. pose proof pow_shift_range. unfold inoFromAGRel, shl64.
  rewrite u64_small by (rewrite Z.shiftl_mul_pow2; nia). apply lor_shiftl_add; lia.
Qed.

Lemma ino_split ino :
  0 <= ino -> shr64 ino (inoShift sb) = ino / 2 ^ inoShift sb /\
  Z.land ino (u64 (shl64 1 (inoShift sb) - 1)) = ino mod 2 ^ inoShift sb.
Proof.
  intros. pose proof shift_range. rewrite mask_eq, land_ones_mod by lia.
  unfold shr64. by rewrite Z.shiftr_div_pow2 by lia.
Qed.

Lemma ino_decode ag rel :
  0 <= ag < 2 ^ 32 -> 0 <= rel < 2 ^ inoShift sb ->
  inoAG sb (inoFromAGRel sb ag rel) = ag /\ inoAGRel sb (inoFromAGRel sb ag rel) = rel.
Proof.
  intros. pose proof pow_shift_range. rewrite inoFromAGRel_eq by lia. unfold inoAG, inoAGRel.
  destruct (ino_split (ag * 2 ^ inoShift sb + rel)) as [-> ->]; [nia|].
  rewrite Z.div_add_l, Z.div_small, mod_add_l, Z.add_0_r, !u32_small by lia. done.
Qed.

Lemma ino_encode ino :
  0 <= ino < 2 ^ (32 + inoShift sb) -> inoFromAGRel sb (inoAG sb ino) (inoAGRel sb ino) = ino.
Proof.
  intros Hi. pose proof shift_range. pose proof pow_shift_range.
  rewrite Z.pow_add_r in Hi by lia. unfold inoAG, inoAGRel.
  destruct (ino_split ino) as [-> ->]; [lia|].
  pose proof (Z.mod_pos_bound ino (2 ^ inoShift sb) ltac:(lia)).
  assert (0 <= ino / 2 ^ inoShift sb < 2 ^ 32)
    by (split; [apply Z.div_pos; lia|apply Z.div_lt_upper_bound; lia]).
  rewrite !u32_small by lia. rewrite inoFromAGRel_eq by lia.
  pose proof (Z.div_mod ino (2 ^ inoShift sb)). lia.
Qed.

(** The position of slot [slot] of block [blk] of AG [ag]. *)
Lemma inodeByteOff_eq partOff ag blk slot :
  0 <= partOff -> 0 <= ag < 2 ^ 32 -> 0 <= blk < 2 ^ agBlkLog sb -> 0 <= slot < inopBlock sb ->
  partOff + (ag * agBlocks sb + blk) * blockSize sb + slot * inodeSize sb < 2 ^ 63 ->
  inodeByteOff sb partOff (inoFromAGRel sb ag (blk * inopBlock sb + slot)) =
  partOff + (ag * agBlocks sb + blk) * blockSize sb + slot * inodeSize sb.
Proof.
  intros Hp Ha Hb Hs Hlt. pose proof shift_range. pose proof pow_shift_range. pose proof ipl_range.
  pose proof (log_range sb W G). destruct (g_ip _ G) as [_ Eip].
  destruct (w_agb _ W), (w_bs _ W), (w_isz _ W).
  assert (2 ^ inoShift sb = 2 ^ agBlkLog sb * inopBlock sb) as ES
    by (unfold inoShift; rewrite Z.pow_add_r by lia; lia).
  assert (0 <= blk * inopBlock sb + slot < 2 ^ inoShift sb) as Hrel by nia.
  unfold inodeByteOff. rewrite inoFromAGRel_eq by lia.
  destruct (ino_split (ag * 2 ^ inoShift sb + (blk * inopBlock sb + slot))) as [-> ->]; [nia|].
  rewrite Z.div_add_l, (Z.div_small (blk * _ + _)), mod_add_l, Z.add_0_r, mask_eq, land_ones_mod by lia.
  unfold shr64. rewrite Z.shiftr_div_pow2, <- Eip, Z.div_add_l, (Z.div_small slot), mod_add_l, Z.add_0_r by lia.
  pose proof (g_agb _ G).
  assert (2 ^ agBlkLog sb <= 2 ^ 32) by (apply Z.pow_le_mono_r; lia).
  assert (0 <= ag * agBlocks sb) by nia.
  assert (0 <= ag * agBlocks sb * blockSize sb) by nia.
  assert (0 <= blk * blockSize sb) by nia. assert (0 <= slot * inodeSize sb) by nia.
  assert (0 < blockSize sb) by (destruct (g_bs _ G) as (k & ? & ->); apply Z.pow_pos_nonneg; lia).
  assert (slot < 2 ^ 16) by (pose proof (w_ipb _ W); lia).
  rewrite (i64_small ag), (i64_small blk), (i64_small slot) by lia.
  assert (ag * agBlocks sb <= ag * agBlocks sb * blockSize sb) by nia.
  replace ((ag * agBlocks sb + blk) * blockSize sb)
    with (ag * agBlocks sb * blockSize sb + blk * blockSize sb) in * by ring.
  rewrite (i64_small (ag * agBlocks sb)) by lia.
  set (A := ag * agBlocks sb * blockSize sb) in *. set (B := blk * blockSize sb) in *.
  set (C := slot * inodeSize sb) in *. clearbody A B C.
  rewrite (i64_small A), (i64_small B), (i64_small C), (i64_small (partOff + A)),
    (i64_small (partOff + A + B)), (i64_small (partOff + A + B + C)) by lia. lia.
Qed.
End Numbers.

(** C32 (safety).  On a geometry whose AG-relative inode numbers fit 32 bits ([inoShift] at most
    32), whose inodes fit their block ([inopBlock * inodeSize <= blockSize]) and whose groups end
    below byte 2^63, two
    different inode slots of the filesystem occupy disjoint byte ranges of the image, so
    writing one inode never touches another.  [validateGeometry] checks none of
    these: see [inode_slots_overlap]. *)
Theorem inode_slots_disjoint (sb : superblock) (partOff ag blk slot ag' blk' slot' : Z) :
  sb_width sb -> geometry_ok sb -> inoShift sb <= 32 ->
  inopBlock sb * inodeSize sb <= blockSize sb ->
  0 <= partOff -> 0 <= ag < agCount sb -> 0 <= ag' < agCount sb ->
  0 <= blk < agBlocks sb -> 0 <= blk' < agBlocks sb ->
  0 <= slot < inopBlock sb -> 0 <= slot' < inopBlock sb ->
  partOff + agCount sb * agBlocks sb * blockSize sb < 2 ^ 63 ->
  (ag, blk, slot) <> (ag', blk', slot') ->
  let off := inodeByteOff sb partOff (inoFromAGRel sb ag (blk * inopBlock sb + slot)) in
  let off' := inodeByteOff sb partOff (inoFromAGRel sb ag' (blk' * inopBlock sb + slot')) in
  off + inodeSize sb <= off' \/ off' + inodeSize sb <= off.
Proof.
  intros W G S32 Hfit Hp Ha Ha' Hb Hb' Hs Hs' Hlt Hne.
  destruct (w_agc _ W), (g_abl _ G) as (_ & Hlog & _), (w_isz _ W).
  assert (0 < blockSize sb) by (destruct (g_bs _ G) as (k & ? & ->); apply Z.pow_pos_nonneg; lia).
  assert (forall a b s, 0 <= a < agCount sb -> 0 <= b < agBlocks sb -> 0 <= s < inopBlock sb ->
    inodeByteOff sb partOff (inoFromAGRel sb a (b * inopBlock sb + s)) =
    partOff + (a * agBlocks sb + b) * blockSize sb + s * inodeSize sb) as E.
  { intros a b s ? ? ?. apply inodeByteOff_eq; try done; try lia.
    assert (a * agBlocks sb + b + 1 <= agCount sb * agBlocks sb) by nia.
    assert ((s + 1) * inodeSize sb <= blockSize sb) by nia. nia. }
  cbv zeta. rewrite !E by lia.
  assert (forall s, 0 <= s < inopBlock sb -> (s + 1) * inodeSize sb <= blockSize sb) as Hin
    by (intros; nia).
  pose proof (Hin slot Hs). pose proof (Hin slot' Hs').
  set (x := ag * agBlocks sb + blk). set (x' := ag' * agBlocks sb + blk').
  destruct (Z.lt_trichotomy x x') as [Hx|[Hx|Hx]].
  - left. assert ((x + 1) * blockSize sb <= x' * blockSize sb) by nia. nia.
  - assert (ag = ag') by (unfold x, x' in Hx; nia). subst ag'.
    assert (blk = blk') by (unfold x, x' in Hx; lia). subst blk'.
    destruct (Z.lt_trichotomy slot slot') as [|[->|]]; [left; nia|done|right; nia].
  - right. assert ((x' + 1) * blockSize sb <= x * blockSize sb) by nia. nia.
Qed.
Lemma inode_slots_disjoint_witness :
  inodeByteOff sample_sb 0 (inoFromAGRel sample_sb 1 (2 * inopBlock sample_sb + 3)) + inodeSize sample_sb <=
  inodeByteOff sample_sb 0 (inoFromAGRel sample_sb 1 (2 * inopBlock sample_sb + 4)) \/
  inodeByteOff sample_sb 0 (inoFromAGRel sample_sb 1 (2 * inopBlock sample_sb + 4)) + inodeSize sample_sb <=
  inodeByteOff sample_sb 0 (inoFromAGRel sample_sb 1 (2 * inopBlock sample_sb + 3)).
Proof.
  apply (inode_slots_disjoint sample_sb 0 1 2 3 1 2 4 sample_sb_width sample_sb_geometry);
    try (unfold inoShift; cbn; lia). congruence.
Defined.

(** [validateGeometry] compares neither the inodes per block with the block size nor the inode
    number width with 32 bits: with 16 inodes of 512 bytes to a 4096-byte block, accepted,
    slot 8 of one block is slot 0 of the next. *)
Definition crowded_sb : superblock :=
  {| blockSize := 4096; sectorSize := 512; agBlocks := 6000; agCount := 4; dBlocks := 23000;
     rootIno := 128; inodeSize := 512; inopBlock := 16; inopBLog := 4; agBlkLog := 13;
     dirBlkLog := 0; hasCRC := true; hasFType := true; hasReflink := false; features2 := 0;
     quotaFlags := 0; uQuotino := 0; gQuotino := 0; pQuotino := 0;
     uuid := replicate 16 0; label := []; maxRead := 0 |}.
Example inode_slots_overlap :
  validateGeometry crowded_sb = Ret tt /\
  inodeByteOff crowded_sb 0 (inoFromAGRel crowded_sb 1 (2 * 16 + 8)) = inodeByteOff crowded_sb 0 (inoFromAGRel crowded_sb 1 (3 * 16)).
Proof. vm_compute. done. Qed.

(** ** The inode buffer *)
Definition nrext64 (buf : bytes) : bool :=
  (3 <=? dec 1 buf 4) && negb (Z.land (dec 8 buf 120) xfsDiflag2Nrext64 =? 0).
Definition decodeInode (ino : Z) (buf : bytes) : inode :=
  mkInode ino (dec 2 buf 2) (dec 1 buf 5) (dec 8 buf 56) (dec 8 buf 64)
    (if nrext64 buf then u32 (dec 8 buf 24) else dec 4 buf 76) (dec 1 buf 82) buf.

Lemma parseInode_eq ino buf :
  inodeCoreSize <= zlen buf ->
  parseInode ino buf =
    if dec 2 buf 0 =? magicInode then Ret (decodeInode ino buf) else Fail (Errorf "inode bad magic").
Proof.
  unfold inodeCoreSize. intros L. unfold parseInode, inoOffMagic. rewrite (be_get_ok 2 buf 0) by lia. ostep.
  destruct (dec 2 buf 0 =? magicInode); cbn [negb]; ostep; [|done].
  unfold inoOffMode, inoOffFormat, inoOffSize, inoOffNBlocks, inoOffNExtents, inoOffForkOff,
    inoOffVersion, inoOffFlags2, inoOffBigNExtents.
  repeat (rewrite be_get_ok by lia). ostep. rewrite !byte_at_ok by lia. ostep.
  unfold decodeInode, nrext64. destruct (3 <=? dec 1 buf 4); cbn [andb]; ostep; [|done].
  by destruct (Z.land _ _ =? 0).
Qed.

(** Two buffers that agree outside the CRC field decode alike. *)
Lemma decodeInode_crc ino buf bs :
  inodeCoreSize <= zlen buf -> zlen bs = 4 ->
  decodeInode ino (splice buf inoOffCRC bs) = set_raw (decodeInode ino buf) (splice buf inoOffCRC bs) /\
  dec 2 (splice buf inoOffCRC bs) 0 = dec 2 buf 0.
Proof.
  unfold inodeCoreSize, inoOffCRC. intros L Hb.
  assert (forall n o, 0 <= n -> 0 <= o -> o + n <= 100 \/ 104 <= o ->
          dec n (splice buf 100 bs) o = dec n buf o) as E by (intros; apply dec_splice_other; lia).
  split; [|apply E; lia]. unfold decodeInode, nrext64, set_raw. rewrite !E by lia. done.
Qed.

(** Written, then read. *)
Lemma writeInode_read {D} {Dev : Device D} {DL : DeviceLaws D} {DR : DeviceReliable D}
    (partOff : Z) (sb : superblock) (i : inode) (w : World D) (old : bytes) :
  hasCRC sb = true -> inodeCoreSize <= inodeSize sb -> zlen (iraw i) = inodeSize sb ->
  isbytes (iraw i) -> parseInode (inum i) (iraw i) = Ret i ->
  ReadAt (dev w) (inodeByteOff sb partOff (inum i)) (inodeSize sb) = Ret old ->
  exists d' raw', writeInode partOff sb i w = (Ret tt, set_dev d' w) /\
    readInode d' partOff sb (inum i) = Ret (set_raw i raw') /\
    verifyCRC raw' inoOffCRC (inodeSize sb) = Ret true /\
    (forall o n, 0 <= o -> 0 <= n -> o + n <= inoOffCRC \/ inoOffCRC + 4 <= o ->
       slice raw' o n = slice (iraw i) o n) /\
    (forall o n cs, 0 <= n -> o + n <= inodeByteOff sb partOff (inum i) \/ inodeByteOff sb partOff (inum i) + inodeSize sb <= o ->
       ReadAt (dev w) o n = Ret cs -> ReadAt d' o n = Ret cs).
Proof.
  intros Hcrc Hsz L Hb Hp Hold. unfold inodeCoreSize in Hsz.
  unfold writeInode. rewrite Hcrc.
  assert (crc_layout_ok (iraw i) inoOffCRC (inodeSize sb)) as Hl
    by (unfold crc_layout_ok, inoOffCRC; lia).
  pose proof (verify_update_aux (iraw i) inoOffCRC (inodeSize sb) Hb Hl) as (raw' & Hu & Hv & Hbr & bs & Er & Hbs).
  rewrite (bindM_lift _ _ _ _ Hu).
  assert (zlen raw' = inodeSize sb) as Lr
    by (subst raw'; rewrite zlen_splice; unfold inoOffCRC; lia).
  destruct (WriteAt_ok (dev w) (inodeByteOff sb partOff (inum i)) raw' old) as [d' Hw]; [by rewrite Lr|].
  exists d', raw'. unfold writeAt. rewrite Hw. split_and!; [done| |done| |].
  - unfold readInode, readBytes. pose proof (ReadAt_write _ _ _ _ Hbr Hw) as Hr. rewrite Lr in Hr.
    rewrite Hr. ostep. rewrite parseInode_eq in Hp |- * by (unfold inodeCoreSize; lia).
    destruct (decodeInode_crc (inum i) (iraw i) bs) as [Ed Em]; [unfold inodeCoreSize; lia|done|].
    subst raw'. rewrite Em. destruct (_ =? _); [|done]. injection Hp as Hp. rewrite Ed, Hp. done.
  - intros o n ? ? Ho. subst raw'. apply slice_splice_other; unfold inoOffCRC in *; lia.
  - intros o n cs Hn Ho. eapply ReadAt_write_other; [exact Hw|done|]. by rewrite Lr.
Qed.

(** C27 (round trip).  On a device without I/O faults, reading an inode back after
    [writeInode] gives the inode that was written, in a buffer whose CRC verifies
    and which differs from the in-memory one in the CRC field only. *)
Theorem write_readInode {D} {Dev : Device D} {DL : DeviceLaws D} {DR : DeviceReliable D}
    (partOff : Z) (sb : superblock) (i : inode) (w : World D) (old : bytes) :
  hasCRC sb = true -> inodeCoreSize <= inodeSize sb -> zlen (iraw i) = inodeSize sb ->
  isbytes (iraw i) -> parseInode (inum i) (iraw i) = Ret i ->
  ReadAt (dev w) (inodeByteOff sb partOff (inum i)) (inodeSize sb) = Ret old ->
  exists d' raw', writeInode partOff sb i w = (Ret tt, set_dev d' w) /\
    readInode d' partOff sb (inum i) = Ret (set_raw i raw') /\
    verifyCRC raw' inoOffCRC (inodeSize sb) = Ret true /\
    (forall o n, 0 <= o -> 0 <= n -> o + n <= inoOffCRC \/ inoOffCRC + 4 <= o ->
       slice raw' o n = slice (iraw i) o n).
Proof.
  intros Hcrc Hsz L Hb Hp Hold. destruct (writeInode_read partOff sb i w old Hcrc Hsz L Hb Hp Hold) as (d' & raw' & Ew & Er & Ev & Es & _). by exists d', raw'.
Qed.

Definition raw_of (o : outcome bytes) : bytes := match o with Ret b => b | _ => [] end.
Definition sample_raw : bytes :=
  Eval vm_compute in raw_of (initInodeV3 (1700000000, 5) (make_bytes 512) 0 0x81A4 1 (replicate 16 0)).
Definition sample_inode : inode := decodeInode 0 sample_raw.

Lemma write_readInode_witness :
  exists d' raw', writeInode 0 sample_sb sample_inode (initWorld (make_bytes 512 : memdev)) = (Ret tt, set_dev d' (initWorld (make_bytes 512 : memdev))) /\
    readInode d' 0 sample_sb (inum sample_inode) = Ret (set_raw sample_inode raw') /\
    verifyCRC raw' inoOffCRC (inodeSize sample_sb) = Ret true /\
    (forall o n, 0 <= o -> 0 <= n -> o + n <= inoOffCRC \/ inoOffCRC + 4 <= o ->
       slice raw' o n = slice (iraw sample_inode) o n).
Proof.
  apply (write_readInode 0 sample_sb sample_inode (initWorld (make_bytes 512 : memdev)) (make_bytes 512));
    [reflexivity|discriminate|reflexivity|by apply (bool_decide_unpack _)|vm_compute; reflexivity|vm_compute; reflexivity].
Defined.

(** ** Setters keep cache and buffer in step *)
Definition inode_sync (i : inode) : Prop :=
  inodeCoreSize <= zlen (iraw i) /\ parseInode (inum i) (iraw i) = Ret i.

Lemma inode_sync_iff i :
  inode_sync i <-> inodeCoreSize <= zlen (iraw i) /\ dec 2 (iraw i) 0 = magicInode /\ i = decodeInode (inum i) (iraw i).
Proof.
  unfold inode_sync. split; intros (L & H).
  - rewrite parseInode_eq in H by done. destruct (Z.eqb_spec (dec 2 (iraw i) 0) magicInode); [|done].
    injection H as H. by rewrite H.
  - destruct H as [Hm Hi]. split; [done|]. rewrite parseInode_eq by done.
    by rewrite Hm, Z.eqb_refl, <- Hi.
Qed.

Lemma sync_intro j :
  inodeCoreSize <= zlen (iraw j) -> dec 2 (iraw j) 0 = magicInode ->
  j = decodeInode (inum j) (iraw j) -> inode_sync j.
Proof. intros. by apply inode_sync_iff. Qed.

(** Writing a field of the core, or the fork, of a synchronised inode. *)
Section Setters.
Context (i : inode) (Hs : inode_sync i).

Lemma sync_wrote raw lo hi :
  wrote (iraw i) raw lo hi -> 2 <= lo ->
  inodeCoreSize <= zlen raw /\ dec 2 raw 0 = magicInode /\
  (forall k p, 0 <= k -> 0 <= p -> p + k <= lo \/ hi <= p -> dec k raw p = dec k (iraw i) p).
Proof.
  apply inode_sync_iff in Hs as (L & Hm & _). intros W H2.
  assert (forall k p, 0 <= k -> 0 <= p -> p + k <= lo \/ hi <= p -> dec k raw p = dec k (iraw i) p) as E
    by (intros; by eapply wrote_dec).
  rewrite (wrote_len _ _ _ _ W). split_and!; [done| |done]. rewrite E by lia. done.
Qed.

Lemma fork_sync raw hi : wrote (iraw i) raw inodeCoreSize hi -> inode_sync (set_raw i raw).
Proof.
  unfold inodeCoreSize. intros W. destruct (sync_wrote raw 176 hi W ltac:(lia)) as (L & M & E).
  apply inode_sync_iff in Hs as (_ & _ & Hi).
  apply sync_intro; [done..|]. cbn [iraw inum set_raw]. unfold decodeInode, nrext64. rewrite !E by lia.
  rewrite Hi at 1. done.
Qed.

Ltac setter o n Hv :=
  let W := fresh "W" in
  pose proof Hs as (L & _ & Hi)%inode_sync_iff; unfold inodeCoreSize in L;
  destruct (put_spec n (iraw i) o) with (v := Hv) as (raw & -> & W & E0); [lia..|];
  ostep; eexists; split_and!; [reflexivity|done| |exact W];
  destruct (sync_wrote raw o (o + n) W ltac:(lia)) as (L' & M & E);
  apply sync_intro; [done..|]; cbn [iraw inum]; unfold decodeInode, nrext64; rewrite E0, !E by lia;
  rewrite Z.mod_small by lia.

Lemma setInodeSize_sync sz :
  0 <= sz < 2 ^ 64 -> exists j, setInodeSize i sz = Ret j /\ isize j = sz /\ inode_sync j /\ wrote (iraw i) (iraw j) 56 64.
Proof. intros Hv. unfold setInodeSize, inoOffSize. setter 56 8 sz. rewrite Hi at 1 2 3 4 5 6. done. Qed.
Lemma setInodeNBlocks_sync n :
  0 <= n < 2 ^ 64 -> exists j, setInodeNBlocks i n = Ret j /\ inBlocks j = n /\ inode_sync j /\ wrote (iraw i) (iraw j) 64 72.
Proof. intros Hv. unfold setInodeNBlocks, inoOffNBlocks. setter 64 8 n. rewrite Hi at 1 2 3 4 5 6. done. Qed.
Lemma setInodeNExtents_sync n :
  nrext64 (iraw i) = false -> 0 <= n < 2 ^ 32 ->
  exists j, setInodeNExtents i n = Ret j /\ inExts j = n /\ inode_sync j /\ wrote (iraw i) (iraw j) 76 80.
Proof.
  intros Hn Hv. unfold setInodeNExtents, inoOffNExtents. unfold nrext64 in Hn. setter 76 4 n.
  rewrite Hn. rewrite Hi at 1 2 3 4 5 6. done.
Qed.
Lemma setInodeFormat_sync f :
  0 <= f < 2 ^ 8 -> exists j, setInodeFormat i f = Ret j /\ iformat j = f /\ inode_sync j /\ wrote (iraw i) (iraw j) 5 6.
Proof.
  intros Hv. unfold setInodeFormat, inoOffFormat.
  pose proof Hs as (L & _ & _)%inode_sync_iff. unfold inodeCoreSize in L.
  rewrite set_byte_ok, <- (be_put_ok 1) by lia. clear L. setter 5 1 f. rewrite Hi at 1 2 3 4 5 6. done.
Qed.
End Setters.

(** The field setters keep an inode's cached fields and its raw
    buffer in step: re-reading the buffer gives the updated inode (for inodes
    that keep their extent count in the legacy di_nextents field), and each
    writes its own field of the buffer only. *)
Lemma setters_keep_sync (i : inode) :
  inode_sync i -> nrext64 (iraw i) = false ->
  (forall sz, 0 <= sz < 2 ^ 64 -> exists j, setInodeSize i sz = Ret j /\ isize j = sz /\ inode_sync j /\ wrote (iraw i) (iraw j) 56 64) /\
  (forall n, 0 <= n < 2 ^ 64 -> exists j, setInodeNBlocks i n = Ret j /\ inBlocks j = n /\ inode_sync j /\ wrote (iraw i) (iraw j) 64 72) /\
  (forall n, 0 <= n < 2 ^ 32 -> exists j, setInodeNExtents i n = Ret j /\ inExts j = n /\ inode_sync j /\ wrote (iraw i) (iraw j) 76 80) /\
  (forall f, 0 <= f < 2 ^ 8 -> exists j, setInodeFormat i f = Ret j /\ iformat j = f /\ inode_sync j /\ wrote (iraw i) (iraw j) 5 6).
Proof.
  intros Hs Hn. split_and!; intros.
  - by apply setInodeSize_sync.
  - by apply setInodeNBlocks_sync.
  - by apply setInodeNExtents_sync.
  - by apply setInodeFormat_sync.
Qed.
Lemma sample_inode_sync : inode_sync sample_inode.
Proof. split; [discriminate|vm_compute; reflexivity]. Qed.
Lemma setters_keep_sync_witness :
  exists j, setInodeNExtents sample_inode 7 = Ret j /\ inExts j = 7 /\ inode_sync j /\ wrote (iraw sample_inode) (iraw j) 76 80.
Proof.
  apply (setters_keep_sync sample_inode sample_inode_sync eq_refl). lia.
Defined.

(** On an inode with NREXT64 (large extent counts, set by current mkfs),
    [setInodeNExtents] stores the count in the legacy field only: the returned
    inode carries the new count, yet its buffer still decodes to the old one, so
    the count that reaches the disk is stale. *)
Lemma setInodeNExtents_nrext64_stale (i : inode) (n : Z) :
  inode_sync i -> nrext64 (iraw i) = true -> 0 <= n < 2 ^ 32 ->
  exists j k, setInodeNExtents i n = Ret j /\ inExts j = n /\
    parseInode (inum i) (iraw j) = Ret k /\ inExts k = inExts i.
Proof.
  intros Hs Hn Hv. pose proof Hs as (L & Hm & Hi)%inode_sync_iff. unfold inodeCoreSize in *.
  unfold setInodeNExtents, inoOffNExtents.
  destruct (put_spec 4 (iraw i) 76 n) as (raw & -> & W & _); [lia..|]. ostep.
  destruct (sync_wrote i Hs raw 76 80 W ltac:(lia)) as (P1 & P2 & P4). unfold inodeCoreSize in P1.
  eexists; eexists; split_and!; [done..| |]; cbn [iraw].
  { rewrite parseInode_eq by (unfold inodeCoreSize; lia). by rewrite P2, Z.eqb_refl. }
  cbn [inExts decodeInode]. rewrite Hi. cbn [inExts decodeInode].
  unfold nrext64 in *. rewrite !P4 by lia. rewrite !Hn. done.
Qed.
Definition sample_nrext64 : inode :=
  Eval vm_compute in decodeInode 0 (raw_of (put64 (iraw sample_inode) inoOffFlags2 xfsDiflag2Nrext64)).
Lemma setInodeNExtents_nrext64_stale_witness :
  exists j k, setInodeNExtents sample_nrext64 1 = Ret j /\ inExts j = 1 /\
    parseInode (inum sample_nrext64) (iraw j) = Ret k /\ inExts k = inExts sample_nrext64.
Proof.
  apply setInodeNExtents_nrext64_stale; [split; [discriminate|vm_compute; reflexivity]|reflexivity|lia].
Defined.
