(* ===== verification/FileRead.v ===== *)
(** * Reading files and symbolic links (read.go, limits.go, fs.go)

    The extent list of an inode (inline records or a bmbt B-tree), the ceiling on
    what a read may allocate, file contents and symlink targets.  All inputs come
    from the image, so the theorems hold for arbitrary block contents. *)
From S2P Require Import Prelude Bytes Extent Device Superblock SafeIO Inode.

(** ** Raw blocks (fs.go) *)
Definition readRawBlock {D} `{Device D} (f : D) (partOff : Z) (sb : superblock) (blockNum : Z) : outcome bytes :=
  off ← blockByteOffset partOff sb blockNum;
  ReadAt f off (blockSize sb).

Definition writeRawBlock {D} `{Device D} (partOff : Z) (sb : superblock) (blockNum : Z) (data : bytes) : M (World D) unit :=
  writeAt data (i64 (partOff + i64 (i64 (fsbToPhysBlock sb blockNum) * blockSize sb))).

(** ** Allocation ceilings *)
Definition inodeMaxBytes (sb : superblock) (i : inode) : Z :=
  let cap := 2 ^ 48 in
  let blocks := if cap <? inBlocks i then cap else inBlocks i in
  i64 (i64 (i64 blocks + 1) * blockSize sb).

Definition fileCeiling (sb : superblock) (i : inode) : Z :=
  let max := inodeMaxBytes sb i in
  let max := match declaredBytes sb with
             | Some d => if d <? max then d else max
             | None => max
             end in
  let lim := maxReadLimit sb in
  if lim <? max then lim else max.

(** ** Extent lists *)
(** [for i := ...; decodeExtent(data[i*16:])], [n] records from index [i]. *)
Fixpoint decodeRecs (data : bytes) (n : nat) (i : Z) : outcome (list extent) :=
  match n with
  | O => Ret []
  | S n' =>
      rec ← from data (i * 16);
      e ← decodeExtent rec;
      rest ← decodeRecs data n' (i + 1);
      Ret (e :: rest)
  end.

Definition inlineExtents (i : inode) : outcome (list extent) :=
  fork ← dataFork i;
  let nExts := inExts i in
  if zlen fork <? nExts * 16 then Fail (Errorf "data fork too small")
  else
    exts ← decodeRecs fork (Z.to_nat nExts) 0;
    validateExtents exts;;
    Ret exts.

Definition btreeLeafExtents (data : bytes) (n : Z) : outcome (list extent) :=
  let fit := zlen data / 16 in
  let n := if fit <? n then fit else n in
  decodeRecs data (Z.to_nat n) 0.

Definition btreeHdrSize (hasCRC : bool) : Z := if hasCRC then 56 else 16.

Definition maxLeaves := 65536.

Section Reader.
Context {SIO : SafeIO} {D : Type} {Dev : Device D}.
Variables (r : D) (partOff : Z) (sb : superblock).

(** [for lvl := level - 1; lvl > 0; lvl--]: follow the leftmost pointers. *)
Fixpoint btreeDescend (lvl : nat) (g : LoopGuard) (seen : VisitSet) (ptr : Z) : outcome Z :=
  match lvl with
  | O => Ret ptr
  | S lvl' =>
      let hdrSize := btreeHdrSize (hasCRC sb) in
      g ← Next g;
      seen ← VisitCheck seen ptr;
      blk ← readRawBlock r partOff sb ptr;
      failif (zlen blk <? hdrSize + 8) (Errorf "btree block too small");;
      nr ← be16 blk 6;
      let ptrStart := hdrSize + nr * 16 in
      failif ((ptrStart <? 0) || (zlen blk <? ptrStart + 8)) (Errorf "btree block too small");;
      ptr ← be64 blk ptrStart;
      btreeDescend lvl' g seen ptr
  end.

(** The leaf loop; [fuel] bounds the model, the guard bounds the program. *)
Fixpoint btreeWalk (fuel : nat) (g : LoopGuard) (seen : VisitSet) (ptr : Z) (exts : list extent) : outcome (list extent) :=
  match fuel with
  | O => NoFuel
  | S fuel' =>
      let hdrSize := btreeHdrSize (hasCRC sb) in
      g ← Next g;
      seen ← VisitCheck seen ptr;
      blk ← readRawBlock r partOff sb ptr;
      failif (zlen blk <? hdrSize + 8) (Errorf "btree leaf block too small");;
      nr ← be16 blk 6;
      data ← from blk hdrSize;
      leaf ← btreeLeafExtents data nr;
      let exts := exts ++ leaf in
      rsib ← be32 blk 12;
      if rsib =? 0xFFFFFFFF then Ret exts
      else btreeWalk fuel' g seen rsib exts
  end.

Definition btreeExtentsUnchecked (i : inode) : outcome (list extent) :=
  fork ← dataFork i;
  if zlen fork <? 4 then Fail (Errorf "btree fork too short")
  else
    level ← be16 fork 0;
    numrecs ← be16 fork 2;
    if level =? 0 then
      data ← from fork 4; btreeLeafExtents data numrecs
    else
      let ptrOff := 4 + numrecs * 16 in
      if zlen fork <? ptrOff + numrecs * 8 then Fail (Errorf "btree root too small")
      else
        ptr ← be64 fork ptrOff;
        ptr ← btreeDescend (Z.to_nat (level - 1)) (NewLoopGuard level) emptyVisit ptr;
        btreeWalk (Z.to_nat (maxLeaves + 1)) (NewLoopGuard maxLeaves) emptyVisit ptr [].

Definition btreeExtents (i : inode) : outcome (list extent) :=
  exts ← btreeExtentsUnchecked i;
  validateExtents exts;;
  Ret exts.

(** ** File contents *)
Fixpoint readRuns (exts : list extent) (size : Z) (out : bytes) : outcome bytes :=
  match exts with
  | [] => Ret out
  | e :: rest =>
      let byteStart := u64 (startOff e * blockSize sb) in
      if size <=? byteStart then readRuns rest size out
      else
        let byteEnd := u64 (byteStart + u64 (count e * blockSize sb)) in
        let byteEnd := if size <? byteEnd then size else byteEnd in
        physOff ← blockByteOffset partOff sb (startBlock e);
        let n := i64 (u64 (byteEnd - byteStart)) in
        guardP (inrange out byteStart n);;
        bs ← ReadAt r physOff n;
        readRuns rest size (splice out byteStart bs)
  end.

Definition readExtents (exts : list extent) (size : Z) (i : inode) : outcome bytes :=
  out ← MakeBytes (i64 size) (fileCeiling sb i);
  readRuns exts size out.

(** [make([]byte, in.size); copy(out, in.dataFork())] after the length check. *)
Definition inlineData (i : inode) : outcome bytes :=
  fork ← dataFork i;
  if zlen fork <? isize i then Fail (Errorf "inline size exceeds fork space")
  else Ret (slice fork 0 (isize i)).

Definition readFileData (i : inode) : outcome bytes :=
  if iformat i =? inodeFmtLocal then inlineData i
  else if iformat i =? inodeFmtExtents then
    exts ← inlineExtents i; readExtents exts (isize i) i
  else if iformat i =? inodeFmtBtree then
    exts ← btreeExtents i; readExtents exts (isize i) i
  else Fail (Errorf "unsupported fork format").

(** ** Symbolic links *)
Definition xfsSymlinkHdrSize := 56.
Definition xfsSymlinkMagic : bytes := [0x58; 0x53; 0x4C; 0x4D].

(** [for b := 0; b < e.count && remaining > 0; b++]. *)
Fixpoint symlinkRun (n : nat) (e : extent) (b : Z) (st : bytes * Z) : outcome (bytes * Z) :=
  match n with
  | O => Ret st
  | S n' =>
      let '(out, remaining) := st in
      if remaining <=? 0 then Ret st
      else
        blk ← readRawBlock r partOff sb (u64 (startBlock e + b));
        let hdr := if (4 <=? zlen blk) && bool_decide (slice blk 0 4 = xfsSymlinkMagic)
                   then xfsSymlinkHdrSize else 0 in
        if zlen blk <=? hdr then symlinkRun n' e (b + 1) st
        else
          let payload := slice blk hdr (zlen blk - hdr) in
          let payload := if remaining <? zlen payload then slice payload 0 remaining else payload in
          symlinkRun n' e (b + 1) (out ++ payload, remaining - zlen payload)
  end.

Definition readSymlinkTarget (i : inode) : outcome bytes :=
  if iformat i =? inodeFmtLocal then inlineData i
  else
    exts ← (if iformat i =? inodeFmtExtents then inlineExtents i
            else if iformat i =? inodeFmtBtree then btreeExtents i
            else Fail (Errorf "unsupported fork format"));
    buf ← MakeBytes (i64 (isize i)) (fileCeiling sb i);
    st ← range_acc exts ([], i64 (isize i)) (fun e st => symlinkRun (Z.to_nat (count e)) e 0 st);
    Ret st.1.
End Reader.

(** ** Extent decoding never fails on bytes that are there *)
Lemma decodeExtent_prefix rec :
  isbytes rec -> 16 <= zlen rec -> exists e, decodeExtent rec = Ret e /\ extent_wf e.
Proof.
  intros Hb L. destruct (decodeExtent_total (slice rec 0 16)) as (e & He & W & _);
    [by apply isbytes_slice|apply zlen_slice; lia|].
  exists e. split; [|done]. rewrite <- He. unfold decodeExtent.
  assert (zlen (slice rec 0 16) = 16) as L' by (apply zlen_slice; lia).
  rewrite (be_get_ok 8 rec 0), (be_get_ok 8 (slice rec 0 16) 0) by lia. ostep.
  rewrite (be_get_ok 8 rec 8), (be_get_ok 8 (slice rec 0 16) 8) by lia.
  unfold dec. rewrite !slice_slice by lia. done.
Qed.

Lemma decodeRecs_ok data n i :
  isbytes data -> 0 <= i -> (i + Z.of_nat n) * 16 <= zlen data ->
  exists l, decodeRecs data n i = Ret l /\ zlen l = Z.of_nat n /\ Forall extent_wf l.
Proof.
  intros Hb. revert i. induction n as [|n IH]; intros i Hi L; cbn [decodeRecs].
  { exists []. repeat constructor. }
  unfold from. rewrite sub_ok by lia. ostep.
  destruct (decodeExtent_prefix (slice data (i * 16) (zlen data - i * 16))) as (e & -> & W);
    [by apply isbytes_slice|rewrite zlen_slice; lia|]. ostep.
  destruct (IH (i + 1)) as (l & -> & Hl & Wl); [lia..|]. ostep.
  exists (e :: l). split_and!; [done| |by constructor]. rewrite zlen_cons. lia.
Qed.

Lemma btreeLeafExtents_ok data n :
  isbytes data -> exists l, btreeLeafExtents data n = Ret l /\ Forall extent_wf l.
Proof.
  intros Hb. unfold btreeLeafExtents. pose proof (zlen_nonneg data).
  assert (0 <= zlen data / 16) by (apply Z.div_pos; lia).
  pose proof (Z.mul_div_le (zlen data) 16).
  destruct (decodeRecs_ok data (Z.to_nat (if zlen data / 16 <? n then zlen data / 16 else n)) 0)
    as (l & -> & _ & W); [done|lia| |eauto].
  destruct (Z.ltb_spec (zlen data / 16) n); lia.
Qed.

Lemma validateExtents_post l : Forall extent_wf l -> post (fun _ => runs_disjoint startOff l) (validateExtents l).
Proof.
  intros W. assert (Forall (run_wf startOff) l) as W1.
  { eapply Forall_impl; [exact W|]. intros e (?&?&?); unfold run_wf; lia. }
  assert (forall st, safe (checkRuns st l)) as A.
  { assert (forall st k, safe (runs_adjacent_ok st k)) as A.
    { intros st k. induction k as [|a [|b k] IH]; try done. cbn [runs_adjacent_ok].
      destruct (_ <? _); [done|exact IH]. }
    intros st. unfold checkRuns. case_match; (done || apply A). }
  unfold validateExtents. destruct (Nat.ltb_spec (length l) 2).
  { destruct l as [|e [|e' l]]; simpl in *; [constructor| |lia]. repeat constructor. }
  eapply post_bind; [apply (A startOff)|intros [] H1 _].
  eapply post_mono; [apply (A startBlock)|intros [] _ _]. by apply (checkRuns_exact startOff).
Qed.

(** ** Hostile images: reads return or fail, and allocate within the ceiling *)
Definition inode_wf (sb : superblock) (i : inode) : Prop :=
  isbytes (iraw i) /\ zlen (iraw i) = inodeSize sb /\ inode_sync i.

Section Safety.
Context {SIO : SafeIO} {SL : SafeIOLaws SIO} {D : Type} {Dev : Device D} {DL : DeviceLaws D}.
Context (r : D) (partOff : Z) (sb : superblock) (W : sb_width sb) (G : geometry_ok sb)
        (Hp : 0 <= partOff < 2 ^ 63).

Lemma bs_range : 512 <= blockSize sb <= 65536.
Proof.
  destruct (g_bs _ G) as (k & Hk & ->). split.
  - change 512 with (2 ^ 9). apply Z.pow_le_mono_r; lia.
  - change 65536 with (2 ^ 16). apply Z.pow_le_mono_r; lia.
Qed.
Lemma inodeSize_range : 256 <= inodeSize sb.
Proof.
  destruct (g_isz _ G) as (k & Hk & ->). change 256 with (2 ^ 8). apply Z.pow_le_mono_r; lia.
Qed.

Lemma blockByteOffset_post b : post (fun o => 0 <= o) (blockByteOffset partOff sb b).
Proof.
  rewrite (blockByteOffset_Ret partOff sb b W G Hp). pose proof bs_range.
  assert (0 <= fsbToPhysBlock sb b) by apply u64_range.
  destruct (_ <? _); [cbn; nia|done].
Qed.

Lemma readRawBlock_post b :
  post (fun blk => zlen blk = blockSize sb /\ isbytes blk) (readRawBlock r partOff sb b).
Proof.
  unfold readRawBlock. pose proof bs_range.
  pstep blockByteOffset_post as o _ Ho.
  eapply post_mono; [apply ReadAt_safe; lia|intros blk Hr _].
  split; [eapply ReadAt_len; [|exact Hr]; lia|by eapply ReadAt_isbytes].
Qed.

Lemma btreeDescend_safe lvl g seen ptr : safe (btreeDescend r partOff sb lvl g seen ptr).
Proof.
  revert g seen ptr. induction lvl as [|lvl IH]; intros g seen ptr; cbn [btreeDescend]; [done|].
  destruct (Next_cases g) as [(g' & _ & -> & _)| ->]; ostep; [|done].
  pstep Check_safe as seen' _ _.
  pstep readRawBlock_post as blk _ [L Hb]. pose proof bs_range.
  pstep post_failif as _ _ _.
  rewrite be_get_ok by lia. ostep.
  assert (0 <= dec 2 blk 6) by (apply dec_range; (done || lia)).
  assert (16 <= btreeHdrSize (hasCRC sb)) by (unfold btreeHdrSize; case_match; lia).
  pstep post_failif as [] _ Hc. bsplit.
  rewrite be_get_ok by lia. ostep. apply IH.
Qed.

Lemma btreeWalk_post fuel g seen ptr exts :
  0 <= budget g < Z.of_nat fuel -> Forall extent_wf exts ->
  post (Forall extent_wf) (btreeWalk r partOff sb fuel g seen ptr exts).
Proof.
  revert g seen ptr exts. induction fuel as [|fuel IH]; intros g seen ptr exts Hf We; cbn [btreeWalk]; [lia|].
  destruct (Next_cases g) as [(g' & Hg & -> & Hg')| ->]; ostep; [|done].
  pstep Check_safe as seen' _ _.
  pstep readRawBlock_post as blk _ [L Hb]. pose proof bs_range.
  pstep post_failif as _ _ _.
  rewrite !be_get_ok by lia. ostep.
  assert (0 <= btreeHdrSize (hasCRC sb) <= 56) by (unfold btreeHdrSize; case_match; lia).
  unfold from. rewrite sub_ok by lia. ostep.
  edestruct btreeLeafExtents_ok as (l & El & Wl); [|rewrite El]; [by apply isbytes_slice|]. ostep.
  assert (Forall extent_wf (exts ++ l)) by (by apply Forall_app).
  case_match; [done|]. apply IH; [lia|done].
Qed.

(** An inode buffer: fork and cached fields. *)
Section OneInode.
Context (i : inode) (Hi : inode_wf sb i).

Lemma dataFork_ok : exists fork, dataFork i = Ret fork /\ isbytes fork /\ zlen fork = inodeSize sb - 176.
Proof.
  destruct Hi as (Hb & L & _). pose proof inodeSize_range.
  unfold dataFork, from, inodeCoreSize. rewrite sub_ok by lia. eexists; split_and!; [done|by apply isbytes_slice|].
  rewrite zlen_slice; lia.
Qed.
Lemma inode_fields : 0 <= isize i < 2 ^ 64 /\ 0 <= inBlocks i < 2 ^ 64 /\ 0 <= inExts i < 2 ^ 32.
Proof.
  destruct Hi as (Hb & L & (Lc & _ & ->)%inode_sync_iff). pose proof inodeSize_range.
  unfold inodeCoreSize in *. cbn [decodeInode isize inBlocks inExts].
  split; [|split]; [apply dec_range; (done || lia)..|]. case_match; [apply u32_range|apply dec_range; (done || lia)].
Qed.

Lemma inlineExtents_post :
  post (fun l => Forall extent_wf l /\ runs_disjoint startOff l) (inlineExtents i).
Proof.
  destruct dataFork_ok as (fork & Hf & Hb & L). unfold inlineExtents. rewrite Hf. ostep.
  destruct (Z.ltb_spec (zlen fork) (inExts i * 16)); [done|]. pose proof inode_fields.
  destruct (decodeRecs_ok fork (Z.to_nat (inExts i)) 0) as (l & -> & _ & Wl); [done|lia..|]. ostep.
  eapply post_bind; [by apply validateExtents_post|]. cbv beta. done.
Qed.

Lemma btreeExtents_post :
  post (fun l => Forall extent_wf l /\ runs_disjoint startOff l) (btreeExtents r partOff sb i).
Proof.
  destruct dataFork_ok as (fork & Hf & Hb & L). pose proof inodeSize_range. unfold btreeExtents.
  assert (post (Forall extent_wf) (btreeExtentsUnchecked r partOff sb i)) as P.
  { unfold btreeExtentsUnchecked. rewrite Hf. ostep. destruct (Z.ltb_spec (zlen fork) 4); [done|].
    rewrite !be_get_ok by lia. ostep. destruct (Z.eqb_spec (dec 2 fork 0) 0).
    { unfold from. rewrite sub_ok by lia. ostep.
      edestruct btreeLeafExtents_ok as (l & El & Wl); [|rewrite El]; [by apply isbytes_slice|done]. }
    destruct (Z.ltb_spec (zlen fork) (4 + dec 2 fork 2 * 16 + dec 2 fork 2 * 8)); [done|].
    assert (0 <= dec 2 fork 2) by (apply dec_range; (done || lia)).
    rewrite be_get_ok by lia. ostep.
    pstep btreeDescend_safe as ptr _ _.
    apply btreeWalk_post; [|constructor]. rewrite budget_new. unfold maxLeaves. lia. }
  eapply post_bind; [exact P|intros l _ Wl]. eapply post_bind; [by apply validateExtents_post|]. cbv beta. done.
Qed.
End OneInode.

(** ** The copy loop *)
(** What one record contributes: file bytes [run_start, run_end). *)
Definition run_start (e : extent) : Z := u64 (startOff e * blockSize sb).
Definition run_end (size : Z) (e : extent) : Z := Z.min size (run_start e + count e * blockSize sb).

Lemma readRuns_cons e rest size out :
  extent_wf e -> 0 <= size < 2 ^ 63 -> zlen out = size ->
  readRuns r partOff sb (e :: rest) size out =
  if size <=? run_start e then readRuns r partOff sb rest size out
  else (physOff ← blockByteOffset partOff sb (startBlock e);
        bs ← ReadAt r physOff (run_end size e - run_start e);
        readRuns r partOff sb rest size (splice out (run_start e) bs)).
Proof.
  intros (_ & _ & Hc) Hs L. pose proof bs_range. cbn [readRuns]. fold (run_start e).
  destruct (Z.leb_spec size (run_start e)) as [|Hlt]; [done|].
  assert (0 <= run_start e) by apply u64_range.
  assert (0 <= count e * blockSize sb < 2 ^ 40) by nia.
  assert ((let byteEnd := u64 (run_start e + u64 (count e * blockSize sb)) in
           if size <? byteEnd then size else byteEnd) = run_end size e) as E.
  { cbv zeta. rewrite (u64_small (count e * blockSize sb)) by lia. rewrite u64_small by lia.
    unfold run_end. destruct (Z.ltb_spec size (run_start e + count e * blockSize sb)); lia. }
  cbv zeta in E |- *. rewrite E.
  assert (run_start e <= run_end size e <= size) by (unfold run_end; lia).
  rewrite u64_small, i64_small by lia. destruct (blockByteOffset _ _ _) as [o| | |]; ostep; try done.
  rewrite (proj2 (inrange_spec _ _ _)) by lia. done.
Qed.

Lemma ReadAt_post d off n :
  0 <= off -> 0 <= n -> post (fun bs => zlen bs = n /\ isbytes bs) (ReadAt d off n).
Proof.
  intros. eapply post_mono; [by apply ReadAt_safe|]. intros bs Hr _.
  split; [by eapply ReadAt_len|by eapply ReadAt_isbytes].
Qed.

Lemma run_bounds size e :
  extent_wf e -> run_start e < size -> 0 <= run_start e /\ run_start e <= run_end size e <= size.
Proof.
  intros (_ & _ & Hc) Hlt. pose proof bs_range. assert (0 <= run_start e) by apply u64_range.
  unfold run_end. nia.
Qed.

Lemma readRuns_post exts size out :
  Forall extent_wf exts -> 0 <= size < 2 ^ 63 -> zlen out = size ->
  post (fun out' => zlen out' = size) (readRuns r partOff sb exts size out).
Proof.
  intros We Hs. revert out. induction We as [|e rest He We IH]; intros out L; [done|].
  rewrite readRuns_cons by done. destruct (Z.leb_spec size (run_start e)); [by apply IH|].
  destruct (run_bounds size e He) as [? ?]; [done|].
  pstep blockByteOffset_post as o _ Ho. pstep ReadAt_post as bs _ [Lb _].
  apply IH. rewrite zlen_splice; lia.
Qed.

Lemma readExtents_post exts i :
  Forall extent_wf exts -> 0 <= isize i < 2 ^ 64 ->
  post (fun out => zlen out = isize i /\ zlen out <= fileCeiling sb i) (readExtents r partOff sb exts (isize i) i).
Proof.
  intros We Hs. unfold readExtents. pstep MakeBytes_safe as out Hm _.
  apply MakeBytes_Ret in Hm as [Hm ->].
  assert (isize i < 2 ^ 63) by (unfold i64 in Hm; Z.div_mod_to_equations; lia).
  rewrite i64_small in * by lia.
  eapply post_mono; [apply readRuns_post; [done|lia|]|cbv beta; intros; lia].
  unfold make_bytes. rewrite zlen_replicate. lia.
Qed.

Lemma symlinkRun_post n e b out rem :
  0 <= rem -> post (fun st => zlen st.1 + st.2 = zlen out + rem /\ 0 <= st.2)
                   (symlinkRun r partOff sb n e b (out, rem)).
Proof.
  revert b out rem. induction n as [|n IH]; intros b out rem Hr; cbn [symlinkRun]; [done|].
  destruct (Z.leb_spec rem 0); [done|]. pstep readRawBlock_post as blk _ [L Hb].
  match goal with |- context [zlen blk <=? ?h] => set (hdr := h) end.
  assert (0 <= hdr) by (unfold hdr, xfsSymlinkHdrSize; case_match; lia).
  destruct (Z.leb_spec (zlen blk) hdr); [by apply IH|].
  assert (zlen (slice blk hdr (zlen blk - hdr)) = zlen blk - hdr) as Lp by (apply zlen_slice; lia).
  match goal with |- context [out ++ ?p] => set (payload := p) end.
  assert (0 <= zlen payload <= rem).
  { unfold payload. rewrite Lp. destruct (Z.ltb_spec rem (zlen blk - hdr)); [rewrite zlen_slice; lia|lia]. }
  eapply post_mono; [apply IH; lia|cbv beta; intros st _ [E ?]]. rewrite zlen_app in E. lia.
Qed.

Lemma symlinkLoop_post exts out rem :
  0 <= rem -> post (fun st => zlen st.1 + st.2 = zlen out + rem /\ 0 <= st.2)
    (range_acc exts (out, rem) (fun e st => symlinkRun r partOff sb (Z.to_nat (count e)) e 0 st)).
Proof.
  revert out rem. induction exts as [|e exts IH]; intros out rem Hr; cbn [range_acc]; [done|].
  pstep symlinkRun_post as [out' rem'] _ [E Hr']. cbn [fst snd] in *.
  eapply post_mono; [by apply IH|cbv beta; intros st _ [E' ?]]. lia.
Qed.

Lemma inlineData_post i :
  inode_wf sb i -> post (fun out => zlen out = isize i /\ isize i <= inodeSize sb) (inlineData i).
Proof.
  intros Hi. destruct (dataFork_ok i Hi) as (fork & Hf & Hb & L). unfold inlineData. rewrite Hf. ostep.
  pose proof (inode_fields i Hi). destruct (Z.ltb_spec (zlen fork) (isize i)); [done|].
  cbn. rewrite zlen_slice; lia.
Qed.
End Safety.

Lemma readFileData_post {SIO : SafeIO} {SL : SafeIOLaws SIO} {D} {Dev : Device D} {DL : DeviceLaws D}
    (r : D) (partOff : Z) (sb : superblock) (i : inode) :
  sb_width sb -> geometry_ok sb -> 0 <= partOff < 2 ^ 63 -> inode_wf sb i ->
  post (fun out => zlen out = isize i /\ (isize i <= inodeSize sb \/ isize i <= fileCeiling sb i))
       (readFileData r partOff sb i).
Proof.
  intros W G Hp Hi. pose proof (inode_fields sb G i Hi) as (Hs & _). unfold readFileData.
  repeat case_match; [| | |done].
  - eapply post_mono; [by eapply inlineData_post|]. cbv beta; intros; lia.
  - pstep inlineExtents_post as exts _ [We _]. eapply post_mono; [by apply readExtents_post|]. cbv beta; intros; lia.
  - pstep btreeExtents_post as exts _ [We _]. eapply post_mono; [by apply readExtents_post|]. cbv beta; intros; lia.
Qed.

Lemma readSymlinkTarget_post {SIO : SafeIO} {SL : SafeIOLaws SIO} {D} {Dev : Device D} {DL : DeviceLaws D}
    (r : D) (partOff : Z) (sb : superblock) (i : inode) :
  sb_width sb -> geometry_ok sb -> 0 <= partOff < 2 ^ 63 -> inode_wf sb i ->
  post (fun out => zlen out <= isize i) (readSymlinkTarget r partOff sb i).
Proof.
  intros W G Hp Hi. pose proof (inode_fields sb G i Hi) as (Hs & _). unfold readSymlinkTarget.
  case_match; [eapply post_mono; [by eapply inlineData_post|]; cbv beta; intros; lia|].
  eapply (post_bind (fun l => Forall extent_wf l /\ runs_disjoint startOff l)).
  { repeat case_match; [by eapply inlineExtents_post|by apply btreeExtents_post|done]. }
  intros exts _ [We _]. pstep MakeBytes_safe as buf Hm _. apply MakeBytes_Ret in Hm as [Hm _].
  assert (isize i < 2 ^ 63) by (unfold i64 in Hm; Z.div_mod_to_equations; lia).
  rewrite i64_small in * by lia.
  pstep symlinkLoop_post as st _ [E Hst]. rewrite zlen_nil in E. cbn. lia.
Qed.


(** ** Contents *)
Section Contents.
Context {SIO : SafeIO} {SL : SafeIOLaws SIO} {D : Type} {Dev : Device D} {DL : DeviceLaws D}.
Context (r : D) (partOff : Z) (sb : superblock) (W : sb_width sb) (G : geometry_ok sb)
        (Hp : 0 <= partOff < 2 ^ 63).

Definition nowrap (e : extent) : Prop := startOff e * blockSize sb < 2 ^ 64.
(** [out] holds, where record [e] maps it, the bytes of the mapped blocks. *)
Definition holds_run (size : Z) (out : bytes) (e : extent) : Prop :=
  count e <> 0 -> run_start sb e < size -> exists o,
    blockByteOffset partOff sb (startBlock e) = Ret o /\
    ReadAt r o (run_end sb size e - run_start sb e) = Ret (slice out (run_start sb e) (run_end sb size e - run_start sb e)).
(** File range [o, o+n) misses the bytes of record [e]. *)
Definition misses (size o n : Z) (e : extent) : Prop :=
  count e = 0 \/ size <= run_start sb e \/ o + n <= run_start sb e \/ run_end sb size e <= o.

Lemma apart_misses size e e' :
  extent_wf e -> extent_wf e' -> nowrap e -> nowrap e' -> apart startOff e e' ->
  count e <> 0 -> misses size (run_start sb e) (run_end sb size e - run_start sb e) e'.
Proof.
  intros (?&?&?) (?&?&?) N N' A Hc. pose proof (bs_range sb G). unfold nowrap in *.
  unfold misses, run_end, run_start. rewrite !u64_small by nia.
  destruct A as [?|[?|[A|A]]]; [done|by left| |].
  - assert (startOff e * blockSize sb + count e * blockSize sb <= startOff e' * blockSize sb) by nia. lia.
  - assert (startOff e' * blockSize sb + count e' * blockSize sb <= startOff e * blockSize sb) by nia. lia.
Qed.

Lemma readRuns_frame exts size out out' o n :
  Forall extent_wf exts -> 0 <= size < 2 ^ 63 -> zlen out = size ->
  readRuns r partOff sb exts size out = Ret out' ->
  0 <= o -> 0 <= n -> o + n <= size -> Forall (misses size o n) exts -> slice out' o n = slice out o n.
Proof.
  intros We Hs L H Ho Hn Hon. revert out L H.
  induction We as [|e rest He We IH]; intros out L H Hm; [by injection H as <-|].
  rewrite readRuns_cons in H by done. apply Forall_cons in Hm as [Me Hm].
  destruct (Z.leb_spec size (run_start sb e)); [by apply IH|].
  obind. destruct (run_bounds sb G size e He) as [? ?]; [done|].
  assert (zlen a0 = run_end sb size e - run_start sb e) as Lb by (eapply ReadAt_len; [|exact Ha0]; lia).
  assert (zlen (splice out (run_start sb e) a0) = size) as L' by (rewrite zlen_splice; lia).
  rewrite (IH _ L' H Hm).
  destruct Me as [Hc|[?|Me]]; [|lia|apply slice_splice_other; lia].
  assert (a0 = []) as ->.
  { destruct a0; [done|]. exfalso. unfold run_end in Lb. rewrite Hc in Lb. rewrite zlen_cons in Lb.
    pose proof (zlen_nonneg a0). lia. }
  unfold splice. cbn [length app]. by rewrite Nat.add_0_r, take_drop.
Qed.

Lemma readRuns_content exts size out out' :
  Forall extent_wf exts -> Forall nowrap exts -> runs_disjoint startOff exts ->
  0 <= size < 2 ^ 63 -> zlen out = size -> readRuns r partOff sb exts size out = Ret out' ->
  Forall (holds_run size out') exts.
Proof.
  intros We Wn Hd Hs. revert out. induction Hd as [|e rest Ha Hd IH]; intros out L H; [done|].
  apply Forall_cons in We as [He We], Wn as [Ne Wn]. rewrite readRuns_cons in H by done.
  destruct (Z.leb_spec size (run_start sb e)).
  { constructor; [intros ? ?; lia|by eapply IH]. }
  obind. destruct (run_bounds sb G size e He) as [? ?]; [done|].
  assert (zlen a0 = run_end sb size e - run_start sb e) as Lb by (eapply ReadAt_len; [|exact Ha1]; lia).
  assert (zlen (splice out (run_start sb e) a0) = size) as L' by (rewrite zlen_splice; lia).
  constructor; [|by eapply IH]. intros Hc _. exists a. split; [done|]. rewrite Ha1. f_equal.
  rewrite (readRuns_frame rest size _ out') by (first [done|lia|
    rewrite Forall_forall in Ha, We, Wn |- *; intros x Hx; apply apart_misses; auto]).
  rewrite <- Lb. symmetry. apply slice_splice_same; lia.
Qed.

Lemma readExtents_content i exts out :
  Forall extent_wf exts -> Forall nowrap exts -> runs_disjoint startOff exts -> 0 <= isize i < 2 ^ 64 ->
  readExtents r partOff sb exts (isize i) i = Ret out ->
  isize i < 2 ^ 63 /\ zlen out = isize i /\
  Forall (holds_run (isize i) out) exts /\
  (forall o n, 0 <= o -> 0 <= n -> o + n <= isize i -> Forall (misses (isize i) o n) exts ->
     slice out o n = make_bytes n).
Proof.
  intros We Hn Hd Hs H. unfold readExtents in H. obind.
  apply MakeBytes_Ret in Ha as [Hm ->].
  assert (isize i < 2 ^ 63) by (unfold i64 in Hm; Z.div_mod_to_equations; lia).
  rewrite i64_small in * by lia.
  assert (zlen (make_bytes (isize i)) = isize i) as L by (unfold make_bytes; rewrite zlen_replicate; lia).
  split; [done|]. split; [|split; [eapply readRuns_content; try eassumption; lia|]].
  - eapply (post_Ret_inv (fun out => zlen out = isize i)); [|exact H]. apply readRuns_post; (done || lia).
  - intros o n ? ? ? Hmiss. rewrite (readRuns_frame exts (isize i) (make_bytes (isize i)) out) by (done || lia).
    unfold make_bytes, slice. rewrite drop_replicate, take_replicate. f_equal. lia.
Qed.
End Contents.

(** The contents of an extent-mapped file, by records: the bytes of the mapped blocks, zeros
    elsewhere.  The unwritten flag plays no part. *)
Lemma readFileData_records {SIO : SafeIO} {SL : SafeIOLaws SIO} {D} {Dev : Device D} {DL : DeviceLaws D}
    (r : D) (partOff : Z) (sb : superblock) (i : inode) (exts : list extent) (out : bytes) :
  sb_width sb -> geometry_ok sb -> 0 <= partOff < 2 ^ 63 -> inode_wf sb i ->
  iformat i = inodeFmtExtents -> inlineExtents i = Ret exts -> Forall (nowrap sb) exts ->
  readFileData r partOff sb i = Ret out ->
  Forall (holds_run r partOff sb (isize i) out) exts /\
  (forall o n, 0 <= o -> 0 <= n -> o + n <= isize i -> Forall (misses sb (isize i) o n) exts ->
     slice out o n = make_bytes n).
Proof.
  intros W G Hp Hi Hf He Hn H. unfold readFileData in H. rewrite Hf, He in H. cbn in H.
  destruct (post_Ret_inv _ _ _ (inlineExtents_post sb G i Hi) He) as [We Hd].
  pose proof (inode_fields sb G i Hi) as (Hs & _).
  by destruct (readExtents_content r partOff sb W G Hp i exts out We Hn Hd Hs H) as (_ & _ & H1 & H2).
Qed.

(** C6 (functional).  The contents of a file in extents format, all of whose extents start
    below file byte 2^64 ([nowrap]): every byte a written extent maps is the byte of the
    image at the mapped block, up to the end of the file, and every byte no record maps (a
    hole) reads as zero.  Bytes of unwritten extents are the subject of
    [unwritten_read_as_stored]. *)
Theorem readFileData_content {SIO : SafeIO} {SL : SafeIOLaws SIO} {D} {Dev : Device D} {DL : DeviceLaws D}
    (r : D) (partOff : Z) (sb : superblock) (i : inode) (exts : list extent) (out : bytes) :
  sb_width sb -> geometry_ok sb -> 0 <= partOff < 2 ^ 63 -> inode_wf sb i ->
  iformat i = inodeFmtExtents -> inlineExtents i = Ret exts -> Forall (nowrap sb) exts ->
  readFileData r partOff sb i = Ret out ->
  Forall (fun e => unwritten e = false -> holds_run r partOff sb (isize i) out e) exts /\
  (forall o n, 0 <= o -> 0 <= n -> o + n <= isize i -> Forall (misses sb (isize i) o n) exts ->
     slice out o n = make_bytes n).
Proof.
  intros W G Hp Hi Hf He Hn H. destruct (readFileData_records r partOff sb i exts out W G Hp Hi Hf He Hn H) as [H1 H2].
  split; [|done]. eapply Forall_impl; [exact H1|]. by intros e He' _.
Qed.

(** C40 (error).  Unwritten (preallocated) extents are not read as zeros, as openfile.go:20
    and the README have it: where a file in extents format (all extents starting below file byte
    2^64) can be read, the part of an unwritten
    extent below the end of the file reads as whatever the image has in its blocks. *)
Theorem unwritten_read_as_stored {SIO : SafeIO} {SL : SafeIOLaws SIO} {D} {Dev : Device D} {DL : DeviceLaws D}
    (r : D) (partOff : Z) (sb : superblock) (i : inode) (exts : list extent) (e : extent) (out : bytes) :
  sb_width sb -> geometry_ok sb -> 0 <= partOff < 2 ^ 63 -> inode_wf sb i ->
  iformat i = inodeFmtExtents -> inlineExtents i = Ret exts -> Forall (nowrap sb) exts ->
  readFileData r partOff sb i = Ret out ->
  In e exts -> unwritten e = true -> count e <> 0 -> run_start sb e < isize i ->
  exists o, blockByteOffset partOff sb (startBlock e) = Ret o /\
    ReadAt r o (run_end sb (isize i) e - run_start sb e) = Ret (slice out (run_start sb e) (run_end sb (isize i) e - run_start sb e)).
Proof.
  intros W G Hp Hi Hf He Hn H Hin _. destruct (readFileData_records r partOff sb i exts out W G Hp Hi Hf He Hn H) as [H1 _].
  rewrite List.Forall_forall in H1. exact (H1 e Hin).
Qed.

(** A 9000-byte file with one mapped block between two holes, on a five-block image. *)
Definition sample_file : inode :=
  Eval vm_compute in decodeInode 0 (raw_of (
    b ← set_byte sample_raw inoOffFormat inodeFmtExtents;
    b ← put64 b inoOffSize 9000; b ← put64 b inoOffNBlocks 2; b ← put32 b inoOffNExtents 1;
    copy_to b inodeCoreSize (encodeExtent (mkExtent 1 2 1 false)))).
Definition sample_image : memdev := make_bytes 8192 ++ replicate 4096 7 ++ make_bytes 8192.
Definition sample_out : bytes := replicate 4096 0 ++ replicate 4096 7 ++ replicate 808 0.
Lemma sample_file_wf : inode_wf sample_sb sample_file.
Proof.
  split; [by apply (bool_decide_unpack _)|split; [reflexivity|]].
  split; [discriminate|vm_compute; reflexivity].
Qed.
Lemma sample_read : readFileData sample_image 0 sample_sb sample_file = Ret sample_out.
Proof. vm_compute. reflexivity. Qed.

(** The same file with its block unwritten. *)
Definition prealloc_file : inode :=
  Eval vm_compute in decodeInode 0 (raw_of (copy_to (iraw sample_file) inodeCoreSize (encodeExtent (mkExtent 1 2 1 true)))).
Lemma prealloc_file_wf : inode_wf sample_sb prealloc_file.
Proof.
  split; [by apply (bool_decide_unpack _)|split; [reflexivity|]].
  split; [discriminate|vm_compute; reflexivity].
Qed.
Lemma unwritten_read_as_stored_witness :
  exists o, blockByteOffset 0 sample_sb 2 = Ret o /\ ReadAt sample_image o 4096 = Ret (slice sample_out 4096 4096).
Proof.
  apply (unwritten_read_as_stored sample_image 0 sample_sb prealloc_file [mkExtent 1 2 1 true] (mkExtent 1 2 1 true) sample_out
    sample_sb_width sample_sb_geometry ltac:(lia) prealloc_file_wf eq_refl ltac:(vm_compute; reflexivity)).
  - constructor; [unfold nowrap; cbn; lia|constructor].
  - vm_compute. reflexivity.
  - left. reflexivity.
  - reflexivity.
  - discriminate.
  - vm_compute. reflexivity.
Defined.
Lemma readFileData_content_witness :
  Forall (nowrap sample_sb) [mkExtent 1 2 1 false] /\ slice sample_out 0 4096 = make_bytes 4096.
Proof.
  assert (Forall (nowrap sample_sb) [mkExtent 1 2 1 false]) as Hn by (constructor; [unfold nowrap; cbn; lia|constructor]).
  split; [exact Hn|].
  apply (readFileData_content sample_image 0 sample_sb sample_file [mkExtent 1 2 1 false] sample_out
    sample_sb_width sample_sb_geometry ltac:(lia) sample_file_wf eq_refl
    ltac:(vm_compute; reflexivity) Hn sample_read); try lia; [discriminate|].
  constructor; [|constructor]. right; right; left. vm_compute. discriminate.
Defined.
