(* ===== verification/Dir.v ===== *)
(** * Directory formats (dir.go, write.go)

    Short-form directories (entries inline in the inode fork), directory data
    blocks (scan, search, entry and free-slot writing) and the single-block form
    [buildBlockDirBlock] lays out.  Names are byte strings.  The scans advance by
    lengths read from the block, so they run on fuel [scan_fuel]; the theorems show
    it never runs out. *)
From S2P Require Import Prelude Bytes Crc Extent Device Superblock SafeIO Inode FileRead.

Record DirEntry := mkDirEntry { deInode : Z; deName : bytes; deFileType : Z }.
Record dirEnt := mkDirEnt { ename : bytes; eino : Z; eftype : Z }.

Definition dir3DataHdrSize := 64.
Definition dir2DataHdrSize := 16.
Definition dirFreeTag := 0xFFFF.
Definition dirLeafByteOffset := 2 ^ 35.
Definition magicDir3Block := 0x58444233.
Definition magicDir2Block := 0x58443242.
Definition fmtDaddrPerBlock := 8.
Definition dot : bytes := [0x2e].
Definition dotdot : bytes := [0x2e; 0x2e].

Definition dirDataHdrSize (hasCRC : bool) : Z := if hasCRC then dir3DataHdrSize else dir2DataHdrSize.

(** [x &^ 7] *)
Definition andnot7 (x : Z) : Z := Z.ldiff x 7.
Definition dirEntrySize (namelen : Z) (hasFType : bool) : Z :=
  let base := 8 + 1 + namelen + 2 in
  let base := if hasFType then base + 1 else base in
  andnot7 (base + 7).
Definition dir2DataEntSize (namelen : Z) (hasFType : bool) : Z :=
  let sz := 8 + 1 + namelen + 2 in
  let sz := if hasFType then sz + 1 else sz in
  andnot7 (sz + 7).

(** ** Short form *)
Definition sfInoSize (i8count : Z) : Z := if 0 <? i8count then 8 else 4.

(** The entry loop of [sfLookup], from entry offset [off], [count] entries left. *)
Fixpoint sfLookupLoop (count : nat) (fork : bytes) (name : bytes) (hasFType : bool) (i8count off : Z) : outcome Z :=
  match count with
  | O => Fail ErrNotFound
  | S count' =>
      if zlen fork <=? off + 3 then Fail ErrNotFound
      else
        namelen ← byte_at fork off;
        let off := off + 3 in
        if zlen fork <? off + namelen then Fail ErrNotFound
        else
          n ← sub fork off (off + namelen);
          let off := off + namelen in
          let off := if hasFType then off + 1 else off in
          let inoSize := sfInoSize i8count in
          if zlen fork <? off + inoSize then Fail ErrNotFound
          else
            ino ← (if inoSize =? 8 then be64 fork off else be32 fork off);
            let off := off + inoSize in
            if bool_decide (n = name) then Ret ino
            else sfLookupLoop count' fork name hasFType i8count off
  end.

Definition sfLookup (fork name : bytes) (hasFType : bool) : outcome Z :=
  if zlen fork <? 6 then Fail ErrNotFound
  else
    count ← byte_at fork 0;
    i8count ← byte_at fork 1;
    let parentSize := if 0 <? i8count then 8 else 4 in
    sfLookupLoop (Z.to_nat count) fork name hasFType i8count (2 + parentSize).

Fixpoint sfReadLoop (count : nat) (fork : bytes) (hasFType : bool) (i8count off : Z) : outcome (list DirEntry) :=
  match count with
  | O => Ret []
  | S count' =>
      if zlen fork <=? off + 3 then Ret []
      else
        namelen ← byte_at fork off;
        let off := off + 3 in
        if zlen fork <? off + namelen then Ret []
        else
          n ← sub fork off (off + namelen);
          let off := off + namelen in
          if hasFType && (zlen fork <=? off) then Ret []
          else
            ft ← (if hasFType then byte_at fork off else Ret 0);
            let off := if hasFType then off + 1 else off in
            let inoSize := sfInoSize i8count in
            if zlen fork <? off + inoSize then Ret []
            else
              ino ← (if inoSize =? 8 then be64 fork off else be32 fork off);
              rest ← sfReadLoop count' fork hasFType i8count (off + inoSize);
              Ret (mkDirEntry ino n ft :: rest)
  end.

Definition sfReadDir (fork : bytes) (hasFType : bool) : outcome (list DirEntry) :=
  if zlen fork <? 6 then Ret []
  else
    count ← byte_at fork 0;
    i8count ← byte_at fork 1;
    let parentSize := if 0 <? i8count then 8 else 4 in
    sfReadLoop (Z.to_nat count) fork hasFType i8count (2 + parentSize).

(** The size loop of [addEntryToSFDir]: the end of the last entry and the dir2
    data offset of the next one; [None] is [return false]. *)
Fixpoint sfSizeLoop (count : nat) (fork : bytes) (hasFType : bool) (i8count pos dataOff : Z) : outcome (option (Z * Z)) :=
  match count with
  | O => Ret (Some (pos, dataOff))
  | S count' =>
      if zlen fork <=? pos then Ret None
      else
        nl ← byte_at fork pos;
        let pos := pos + (3 + nl) in
        let pos := if hasFType then pos + 1 else pos in
        let pos := pos + sfInoSize i8count in
        sfSizeLoop count' fork hasFType i8count pos (dataOff + dir2DataEntSize nl hasFType)
  end.

(** [None] is [return false]; [Some] carries the updated inode. *)
Definition addEntryToSFDir (i : inode) (childIno : Z) (name : bytes) (ftype : Z) (sb : superblock) : outcome (option inode) :=
  fork ← dataFork i;
  if zlen fork <? 2 then Ret None
  else
    count ← byte_at fork 0;
    i8count ← byte_at fork 1;
    let parentSize := if 0 <? i8count then 8 else 4 in
    let inoSize := if 0xFFFFFFFF <? childIno then 8 else 4 in
    let extra := 1 + 2 + zlen name + inoSize in
    let extra := if hasFType sb then extra + 1 else extra in
    let dataOff := dirDataHdrSize (hasCRC sb) + dir2DataEntSize 1 (hasFType sb) + dir2DataEntSize 2 (hasFType sb) in
    st ← sfSizeLoop (Z.to_nat count) fork (hasFType sb) i8count (2 + parentSize) dataOff;
    match st with
    | None => Ret None
    | Some (sfSize, dataOff) =>
        let forkCap := if iforkOff i =? 0 then inodeSize sb - inodeCoreSize else iforkOff i * 8 in
        if forkCap <? sfSize + extra then Ret None
        else if inoSize =? 8 then Ret None
        else
          let e := inodeCoreSize + sfSize in
          raw ← set_byte (iraw i) e (u8 (zlen name));
          raw ← put16 raw (e + 1) (u16 dataOff);
          raw ← copy_to raw (e + 3) name;
          let p := 3 + zlen name in
          raw ← (if hasFType sb then set_byte raw (e + p) ftype else Ret raw);
          let p := if hasFType sb then p + 1 else p in
          raw ← put32 raw (e + p) (u32 childIno);
          raw ← set_byte raw inodeCoreSize (u8 (count + 1));
          i' ← setInodeSize (set_raw i raw) (sfSize + extra);
          Ret (Some i')
    end.

(** ** Data blocks *)
Definition scan_fuel (blk : bytes) : nat := S (length blk).

Fixpoint searchLoop (fuel : nat) (blk name : bytes) (hasFType : bool) (off : Z) : outcome (option Z) :=
  match fuel with
  | O => NoFuel
  | S fuel' =>
      if zlen blk <=? off + 8 then Ret None
      else
        freetag ← be16 blk off;
        if freetag =? dirFreeTag then
          length ← be16 blk (off + 2);
          if length <? 8 then Ret None
          else searchLoop fuel' blk name hasFType (off + length)
        else if zlen blk <? off + 10 then Ret None
        else
          ino ← be64 blk off;
          if ino =? 0 then searchLoop fuel' blk name hasFType (off + 8)
          else
            namelen ← byte_at blk (off + 8);
            let nameEnd := off + 9 + namelen in
            if zlen blk <? nameEnd then Ret None
            else
              n ← sub blk (off + 9) nameEnd;
              if bool_decide (n = name) then Ret (Some ino)
              else searchLoop fuel' blk name hasFType (off + dirEntrySize namelen hasFType)
  end.

Definition searchDirBlock (blk name : bytes) (hasFType hasCRC : bool) : outcome (option Z) :=
  let hdrSize := dirDataHdrSize hasCRC in
  if zlen blk <=? hdrSize then Ret None
  else searchLoop (scan_fuel blk) blk name hasFType hdrSize.

Fixpoint parseLoop (fuel : nat) (blk : bytes) (hasFType : bool) (off : Z) : outcome (list DirEntry) :=
  match fuel with
  | O => NoFuel
  | S fuel' =>
      if zlen blk <? off + 10 then Ret []
      else
        freetag ← be16 blk off;
        if freetag =? dirFreeTag then
          length ← be16 blk (off + 2);
          if length <? 8 then Ret []
          else parseLoop fuel' blk hasFType (off + length)
        else
          ino ← be64 blk off;
          if ino =? 0 then parseLoop fuel' blk hasFType (off + 8)
          else
            namelen ← byte_at blk (off + 8);
            if namelen =? 0 then Ret []
            else
              let nameEnd := off + 9 + namelen in
              if zlen blk <? nameEnd then Ret []
              else
                n ← sub blk (off + 9) nameEnd;
                if hasFType && (zlen blk <=? nameEnd) then Ret []
                else
                  ft ← (if hasFType then byte_at blk nameEnd else Ret 0);
                  rest ← parseLoop fuel' blk hasFType (off + dirEntrySize namelen hasFType);
                  Ret (if bool_decide (n = dot) || bool_decide (n = dotdot) then rest
                       else mkDirEntry ino n ft :: rest)
  end.

Definition parseDirBlock (blk : bytes) (hasFType hasCRC : bool) : outcome (list DirEntry) :=
  let hdrSize := dirDataHdrSize hasCRC in
  if zlen blk <=? hdrSize then Ret []
  else parseLoop (scan_fuel blk) blk hasFType hdrSize.

Fixpoint parentLoop (fuel : nat) (blk : bytes) (hasFType : bool) (off : Z) : outcome Z :=
  match fuel with
  | O => NoFuel
  | S fuel' =>
      if zlen blk <? off + 10 then Ret 0
      else
        freetag ← be16 blk off;
        if freetag =? dirFreeTag then
          length ← be16 blk (off + 2);
          if length <? 8 then Ret 0
          else parentLoop fuel' blk hasFType (off + length)
        else
          ino ← be64 blk off;
          if ino =? 0 then parentLoop fuel' blk hasFType (off + 8)
          else
            namelen ← byte_at blk (off + 8);
            if namelen =? 0 then Ret 0
            else if (off + 9 + namelen <=? zlen blk) && bool_decide (slice blk (off + 9) namelen = dotdot)
            then Ret ino
            else parentLoop fuel' blk hasFType (off + dirEntrySize namelen hasFType)
  end.

Definition blockDirParent (blk : bytes) (hasFType hasCRC : bool) : outcome Z :=
  parentLoop (scan_fuel blk) blk hasFType (dirDataHdrSize hasCRC).

(** [findFreeSlot]; -1 when there is no slot. *)
Fixpoint freeSlotLoop (fuel : nat) (blk : bytes) (need : Z) (hasFType : bool) (off : Z) : outcome Z :=
  match fuel with
  | O => NoFuel
  | S fuel' =>
      if zlen blk <? off + 4 then Ret (-1)
      else
        freetag ← be16 blk off;
        if freetag =? dirFreeTag then
          length ← be16 blk (off + 2);
          if length <? 8 then Ret (-1)
          else if need <=? length then Ret off
          else freeSlotLoop fuel' blk need hasFType (off + length)
        else
          ino ← be64 blk off;
          if ino =? 0 then freeSlotLoop fuel' blk need hasFType (off + 8)
          else if zlen blk <? off + 9 then Ret (-1)
          else
            namelen ← byte_at blk (off + 8);
            if namelen =? 0 then Ret (-1)
            else freeSlotLoop fuel' blk need hasFType (off + dirEntrySize namelen hasFType)
  end.
Definition findFreeSlot (blk : bytes) (need : Z) (hasFType hasCRC : bool) : outcome Z :=
  freeSlotLoop (scan_fuel blk) blk need hasFType (dirDataHdrSize hasCRC).

Definition writeDirEntry (blk : bytes) (offset ino : Z) (name : bytes) (ftype : Z) (hasFType : bool) : outcome (bytes * Z) :=
  b ← put64 blk offset ino;
  let namelen := zlen name in
  b ← set_byte b (offset + 8) (u8 namelen);
  b ← copy_to b (offset + 9) name;
  b ← (if hasFType then set_byte b (offset + 9 + namelen) ftype else Ret b);
  let sz := dirEntrySize namelen hasFType in
  b ← put16 b (offset + sz - 2) (u16 offset);
  Ret (b, sz).

Definition markSlotFree (blk : bytes) (offset length : Z) : outcome bytes :=
  b ← clear_range blk offset (offset + length);
  b ← put16 b offset dirFreeTag;
  b ← put16 b (offset + 2) (u16 length);
  put16 b (offset + length - 2) (u16 offset).

(** ** The name hash *)
Definition rotl32 (x k : Z) : Z := Z.lor (u32 (Z.shiftl x k)) (Z.shiftr x (32 - k)).
Fixpoint hashLoop (name : bytes) (hash : Z) : Z :=
  match name with
  | a :: b :: c :: d :: rest =>
      hashLoop rest (Z.lxor (Z.lxor (Z.lxor (Z.lxor (u32 (Z.shiftl a 21)) (u32 (Z.shiftl b 14)))
                                            (u32 (Z.shiftl c 7))) d) (rotl32 hash 28))
  | [a; b; c] => Z.lxor (Z.lxor (Z.lxor (u32 (Z.shiftl a 14)) (u32 (Z.shiftl b 7))) c) (rotl32 hash 21)
  | [a; b] => Z.lxor (Z.lxor (u32 (Z.shiftl a 7)) b) (rotl32 hash 14)
  | [a] => Z.lxor a (rotl32 hash 7)
  | [] => hash
  end.
Definition xfsDirHash (name : bytes) : Z := hashLoop name 0.

(** ** The single-block form *)
Definition leafEnt : Type := Z * Z.   (* hash, addr *)
Definition leaf_le (a b : leafEnt) : Prop := a.1 < b.1 \/ (a.1 = b.1 /\ a.2 <= b.2).
#[export] Instance leaf_le_dec : RelDecision leaf_le.
Proof. intros a b. unfold leaf_le. apply _. Defined.

(** The entry loop of [buildBlockDirBlock]: block, leaf entries and end of data. *)
Fixpoint layEntries (sb : superblock) (leafStart : Z) (all : list dirEnt) (blk : bytes) (leaves : list leafEnt) (off : Z) : outcome (bytes * list leafEnt * Z) :=
  match all with
  | [] => Ret (blk, leaves, off)
  | e :: rest =>
      let sz := dirEntrySize (zlen (ename e)) (hasFType sb) in
      if leafStart <? off + sz then Fail (Errorf "overflowed block form")
      else
        r ← writeDirEntry blk off (eino e) (ename e) (eftype e) (hasFType sb);
        layEntries sb leafStart rest r.1 (leaves ++ [(xfsDirHash (ename e), Z.shiftr (u32 off) 3)]) (off + sz)
  end.

Fixpoint putLeaves (leaves : list leafEnt) (p : Z) (blk : bytes) : outcome bytes :=
  match leaves with
  | [] => Ret blk
  | le :: rest =>
      b ← put32 blk p le.1;
      b ← put32 b (p + 4) le.2;
      putLeaves rest (p + 8) b
  end.

(** The free region between entries and leaf array. *)
Definition putFreeRegion (hasCRC : bool) (blk : bytes) (endData leafStart : Z) : outcome bytes :=
  if endData <? leafStart then
    let freeLen := leafStart - endData in
    b ← put16 blk endData 0xFFFF;
    b ← put16 b (endData + 2) (u16 freeLen);
    b ← put16 b (endData + freeLen - 2) (u16 endData);
    let bfOff := if hasCRC then 48 else 4 in
    b ← put16 b bfOff (u16 endData);
    put16 b (bfOff + 2) (u16 freeLen)
  else Ret blk.

Definition putDirHeader (sb : superblock) (blk : bytes) (absBlock ownerIno : Z) : outcome bytes :=
  if hasCRC sb then
    b ← put32 blk 0 magicDir3Block;
    b ← put64 b 8 (u64 (fsbToPhysBlock sb absBlock * fmtDaddrPerBlock));
    guardP (40 <=? zlen b);;
    b ← copy_to b 24 (take 16 (uuid sb));
    put64 b 40 ownerIno
  else put32 blk 0 magicDir2Block.

Definition buildBlockDirBlock (sb : superblock) (blk : bytes) (absBlock ownerIno parentIno : Z) (entries : list dirEnt) : outcome bytes :=
  b ← clear_range blk 0 (zlen blk);
  let blkSize := zlen blk in
  let hdrSize := dirDataHdrSize (hasCRC sb) in
  b ← putDirHeader sb b absBlock ownerIno;
  let all := mkDirEnt dot ownerIno 2 :: mkDirEnt dotdot parentIno 2 :: entries in
  let count := zlen all in
  let tailOff := blkSize - 8 in
  let leafStart := tailOff - count * 8 in
  r ← layEntries sb leafStart all b [] hdrSize;
  let '(b, leaves, endData) := r in
  b ← putFreeRegion (hasCRC sb) b endData leafStart;
  b ← putLeaves (merge_sort leaf_le leaves) leafStart b;
  b ← put32 b tailOff (u32 count);
  b ← put32 b (tailOff + 4) 0;
  if hasCRC sb then updateCRC b 4 blkSize else Ret b.

(** ** Entry sizes *)
Lemma andnot7_eq x : andnot7 x = x - x mod 8.
Proof.
  unfold andnot7. change 7 with (Z.ones 3). rewrite Z.ldiff_ones_r by lia.
  rewrite Z.shiftl_mul_pow2, Z.shiftr_div_pow2 by lia. change (2 ^ 3) with 8.
  pose proof (Z.div_mod x 8). lia.
Qed.
Lemma dirEntrySize_range (n : Z) (h : bool) :
  let base := n + 11 + (if h then 1 else 0) in
  base <= dirEntrySize n h <= base + 7 /\ dirEntrySize n h mod 8 = 0.
Proof.
  cbv zeta. unfold dirEntrySize. rewrite andnot7_eq. destruct h; Z.div_mod_to_equations; lia.
Qed.

(** ** Scans of arbitrary blocks *)
Section Scans.
Context (blk : bytes) (Hb : isbytes blk).

Lemma dec_nonneg n o : 0 <= o -> 0 <= n -> o + n <= zlen blk -> 0 <= dec n blk o.
Proof. intros. by apply dec_range. Qed.

Lemma parseLoop_safe fuel h off :
  0 <= off -> zlen blk - off < Z.of_nat fuel -> 0 < Z.of_nat fuel -> safe (parseLoop fuel blk h off).
Proof.
  revert off. induction fuel as [|fuel IH]; intros off Ho Hf Hf0; [lia|]. cbn [parseLoop].
  destruct (Z.ltb_spec (zlen blk) (off + 10)); [done|].
  rewrite (be_get_ok 2 blk off) by lia. ostep. destruct (dec 2 blk off =? dirFreeTag).
  { rewrite (be_get_ok 2 blk (off + 2)) by lia. ostep.
    destruct (Z.ltb_spec (dec 2 blk (off + 2)) 8); [done|]. apply IH; lia. }
  rewrite (be_get_ok 8 blk off) by lia. ostep. destruct (dec 8 blk off =? 0); [apply IH; lia|].
  rewrite (byte_at_ok blk (off + 8)) by lia. ostep.
  pose proof (dec_nonneg 1 (off + 8) ltac:(lia) ltac:(lia) ltac:(lia)).
  destruct (dec 1 blk (off + 8) =? 0); [done|]. destruct (Z.ltb_spec (zlen blk) (off + 9 + dec 1 blk (off + 8))); [done|].
  rewrite sub_ok by lia. ostep.
  pose proof (dirEntrySize_range (dec 1 blk (off + 8)) h) as [R _].
  assert (safe (parseLoop fuel blk h (off + dirEntrySize (dec 1 blk (off + 8)) h))) as Hs
    by (apply IH; destruct h; lia).
  destruct h; cbn [andb].
  - destruct (Z.leb_spec (zlen blk) (off + 9 + dec 1 blk (off + 8))); [done|].
    rewrite byte_at_ok by lia. ostep. eapply post_bind; [exact Hs|done].
  - ostep. eapply post_bind; [exact Hs|done].
Qed.

Lemma searchLoop_safe fuel name h off :
  0 <= off -> zlen blk - off < Z.of_nat fuel -> 0 < Z.of_nat fuel -> safe (searchLoop fuel blk name h off).
Proof.
  revert off. induction fuel as [|fuel IH]; intros off Ho Hf Hf0; [lia|]. cbn [searchLoop].
  destruct (Z.leb_spec (zlen blk) (off + 8)); [done|].
  rewrite (be_get_ok 2 blk off) by lia. ostep. destruct (dec 2 blk off =? dirFreeTag).
  { rewrite (be_get_ok 2 blk (off + 2)) by lia. ostep.
    destruct (Z.ltb_spec (dec 2 blk (off + 2)) 8); [done|]. apply IH; lia. }
  destruct (Z.ltb_spec (zlen blk) (off + 10)); [done|].
  rewrite (be_get_ok 8 blk off) by lia. ostep. destruct (dec 8 blk off =? 0); [apply IH; lia|].
  rewrite (byte_at_ok blk (off + 8)) by lia. ostep.
  pose proof (dec_nonneg 1 (off + 8) ltac:(lia) ltac:(lia) ltac:(lia)).
  destruct (Z.ltb_spec (zlen blk) (off + 9 + dec 1 blk (off + 8))); [done|].
  rewrite sub_ok by lia. ostep. case_bool_decide; [done|].
  pose proof (dirEntrySize_range (dec 1 blk (off + 8)) h) as [R _].
  apply IH; destruct h; lia.
Qed.

Lemma parentLoop_safe fuel h off :
  0 <= off -> zlen blk - off < Z.of_nat fuel -> 0 < Z.of_nat fuel -> safe (parentLoop fuel blk h off).
Proof.
  revert off. induction fuel as [|fuel IH]; intros off Ho Hf Hf0; [lia|]. cbn [parentLoop].
  destruct (Z.ltb_spec (zlen blk) (off + 10)); [done|].
  rewrite (be_get_ok 2 blk off) by lia. ostep. destruct (dec 2 blk off =? dirFreeTag).
  { rewrite (be_get_ok 2 blk (off + 2)) by lia. ostep.
    destruct (Z.ltb_spec (dec 2 blk (off + 2)) 8); [done|]. apply IH; lia. }
  rewrite (be_get_ok 8 blk off) by lia. ostep. destruct (dec 8 blk off =? 0); [apply IH; lia|].
  rewrite (byte_at_ok blk (off + 8)) by lia. ostep.
  pose proof (dec_nonneg 1 (off + 8) ltac:(lia) ltac:(lia) ltac:(lia)).
  destruct (dec 1 blk (off + 8) =? 0); [done|]. case_match; [done|].
  pose proof (dirEntrySize_range (dec 1 blk (off + 8)) h) as [R _].
  apply IH; destruct h; lia.
Qed.
End Scans.

Lemma scan_fuel_enough blk off :
  0 <= off -> zlen blk - off < Z.of_nat (scan_fuel blk) /\ 0 < Z.of_nat (scan_fuel blk).
Proof. unfold scan_fuel, zlen. lia. Qed.
Lemma hdr_cases c : (dirDataHdrSize c = 16 \/ dirDataHdrSize c = 64) /\ 0 <= dirDataHdrSize c <= 64.
Proof. unfold dirDataHdrSize, dir3DataHdrSize, dir2DataHdrSize. destruct c; lia. Qed.
Lemma parseDirBlock_safe blk h c : isbytes blk -> safe (parseDirBlock blk h c).
Proof.
  intros Hb. destruct (hdr_cases c) as [_ ?]. unfold parseDirBlock. case_match; [done|].
  apply parseLoop_safe; try done; try apply scan_fuel_enough; lia.
Qed.
Lemma searchDirBlock_safe blk name h c : isbytes blk -> safe (searchDirBlock blk name h c).
Proof.
  intros Hb. destruct (hdr_cases c) as [_ ?]. unfold searchDirBlock. case_match; [done|].
  apply searchLoop_safe; try done; try apply scan_fuel_enough; lia.
Qed.

(** Scanning any directory block whatever (forged lengths, inode
    numbers and name lengths included) returns: listing, name search and the
    parent query neither panic nor loop. *)
Lemma dirBlock_scans_safe (blk name : bytes) (hasFType hasCRC : bool) :
  isbytes blk ->
  safe (parseDirBlock blk hasFType hasCRC) /\ safe (searchDirBlock blk name hasFType hasCRC) /\
  safe (blockDirParent blk hasFType hasCRC).
Proof.
  intros Hb. split_and!; [by apply parseDirBlock_safe|by apply searchDirBlock_safe|].
  destruct (hdr_cases hasCRC) as [_ ?].
  apply parentLoop_safe; try done; try apply scan_fuel_enough; lia.
Qed.
Lemma dirBlock_scans_safe_witness :
  safe (parseDirBlock (replicate 512 255) true true) /\
  safe (searchDirBlock (replicate 512 255) dot true true) /\
  safe (blockDirParent (replicate 512 255) true true).
Proof. apply dirBlock_scans_safe. by apply (bool_decide_unpack _). Defined.

(** ** Laid-out entries *)
Definition ent_ok (e : dirEnt) : Prop :=
  isbytes (ename e) /\ 1 <= zlen (ename e) <= 255 /\ 0 < eino e < 2 ^ 64 /\
  eino e / 2 ^ 48 <> 0xFFFF /\ 0 <= eftype e < 256.
#[export] Instance ent_ok_dec e : Decision (ent_ok e).
Proof. unfold ent_ok. apply _. Defined.
Definition entry_at (b : bytes) (h : bool) (off : Z) (e : dirEnt) : Prop :=
  dec 8 b off = eino e /\ dec 1 b (off + 8) = zlen (ename e) /\
  slice b (off + 9) (zlen (ename e)) = ename e /\
  (h = true -> dec 1 b (off + 9 + zlen (ename e)) = eftype e).
Definition esize (h : bool) (e : dirEnt) : Z := dirEntrySize (zlen (ename e)) h.
Fixpoint dirBytes (h : bool) (all : list dirEnt) : Z :=
  match all with [] => 0 | e :: rest => esize h e + dirBytes h rest end.
Fixpoint entries_at (b : bytes) (h : bool) (off : Z) (all : list dirEnt) : Prop :=
  match all with
  | [] => True
  | e :: rest => entry_at b h off e /\ entries_at b h (off + esize h e) rest
  end.
Fixpoint leavesOf (h : bool) (off : Z) (all : list dirEnt) : list leafEnt :=
  match all with
  | [] => []
  | e :: rest => (xfsDirHash (ename e), Z.shiftr (u32 off) 3) :: leavesOf h (off + esize h e) rest
  end.

Lemma dec_app n m b o :
  0 <= o -> 0 <= n -> 0 <= m -> o + n + m <= zlen b -> dec (n + m) b o = dec n b o * 256 ^ m + dec m b (o + n).
Proof.
  intros. unfold dec. rewrite slice_app_adj by lia. rewrite be_decode_app, zlen_slice by lia. done.
Qed.

Lemma esize_range h e : ent_ok e -> zlen (ename e) + 11 + Z.b2z h <= esize h e <= 280 /\ 16 <= esize h e /\ esize h e mod 8 = 0.
Proof.
  intros (_ & ? & _). unfold esize. destruct (dirEntrySize_range (zlen (ename e)) h) as [R M].
  destruct h; cbn [Z.b2z] in *; Z.div_mod_to_equations; lia.
Qed.
Lemma dirBytes_range h all : Forall ent_ok all -> 16 * zlen all <= dirBytes h all /\ dirBytes h all mod 8 = 0.
Proof.
  induction 1 as [|e rest He _ IH]; [done|]. cbn [dirBytes]. rewrite zlen_cons.
  pose proof (esize_range h e He). Z.div_mod_to_equations; lia.
Qed.

Lemma writeDirEntry_spec blk off e h :
  isbytes blk -> ent_ok e -> 0 <= off -> off + esize h e <= zlen blk ->
  exists b, writeDirEntry blk off (eino e) (ename e) (eftype e) h = Ret (b, esize h e) /\
    wrote blk b off (off + esize h e) /\ entry_at b h off e.
Proof.
  intros Hb He Ho Hle. destruct (esize_range h e He) as (R & _ & _).
  assert (0 <= Z.b2z h <= 1) by (destruct h; cbn; lia).
  destruct He as (Hn & Hl & Hi & _ & Hft). unfold writeDirEntry. fold (esize h e).
  destruct (put_spec 8 blk off (eino e)) as (b1 & -> & W1 & E1); [lia..|]. ostep. pose proof (wrote_len _ _ _ _ W1).
  destruct (set_byte_spec b1 (off + 8) (u8 (zlen (ename e)))) as (b2 & -> & W2 & E2); [lia..|]. ostep. pose proof (wrote_len _ _ _ _ W2).
  destruct (copy_spec b2 (off + 9) (ename e)) as (b3 & -> & W3 & E3); [lia|lia|done|]. ostep.
  pose proof (wrote_len _ _ _ _ W3).
  assert (exists b4, (if h then set_byte b3 (off + 9 + zlen (ename e)) (eftype e) else Ret b3) = Ret b4 /\
    wrote b3 b4 (off + 9 + zlen (ename e)) (off + esize h e - 2) /\
    (h = true -> dec 1 b4 (off + 9 + zlen (ename e)) = eftype e)) as (b4 & -> & W4 & E4).
  { destruct h; cbn [Z.b2z] in R; [|exists b3; split_and!; [done|apply wrote_refl|done]].
    destruct (set_byte_spec b3 (off + 9 + zlen (ename e)) (eftype e)) as (b4 & -> & W4 & E4); [lia|].
    exists b4. split_and!; [done|eapply wrote_weaken; [exact W4|lia..]|]. intros _. rewrite E4. by apply Z.mod_small. }
  ostep. pose proof (wrote_len _ _ _ _ W4).
  destruct (put_spec 2 b4 (off + esize h e - 2) (u16 off)) as (b5 & -> & W5 & _); [lia..|]. ostep.
  exists b5. assert (off + 9 + zlen (ename e) + Z.b2z h <= off + esize h e - 2) by lia.
  split_and!; [done| |].
  - do 4 (eapply wrote_trans; [eapply wrote_weaken; [eassumption|lia..]|]).
    eapply wrote_weaken; [eassumption|lia..].
  - unfold entry_at.
    rewrite (wrote_dec _ _ _ _ 8 off W5), (wrote_dec _ _ _ _ 8 off W4), (wrote_dec _ _ _ _ 8 off W3),
      (wrote_dec _ _ _ _ 8 off W2), E1 by lia.
    rewrite (wrote_dec _ _ _ _ 1 (off + 8) W5), (wrote_dec _ _ _ _ 1 (off + 8) W4),
      (wrote_dec _ _ _ _ 1 (off + 8) W3), E2 by lia.
    rewrite (wrote_slice _ _ _ _ W5), (wrote_slice _ _ _ _ W4), E3 by lia.
    split_and!; [apply Z.mod_small; lia| |done|].
    + unfold u8. change (2 ^ 8) with 256. rewrite Zmod_mod. apply Z.mod_small. lia.
    + intros ->. cbn in *. rewrite (wrote_dec _ _ _ _ 1 _ W5) by lia. by apply E4.
Qed.

Lemma entries_at_slices h b b' off l lo hi :
  Forall ent_ok l -> (forall o n, lo <= o -> 0 <= n -> o + n <= hi -> slice b' o n = slice b o n) ->
  lo <= off -> 0 <= off -> off + dirBytes h l <= hi -> entries_at b h off l -> entries_at b' h off l.
Proof.
  intros Ha F. revert off. induction Ha as [|e rest He Ha IH]; intros off Hlo Ho Hd E; [done|].
  cbn [entries_at dirBytes] in *. destruct E as [(E1 & E2 & E3 & E4) E].
  pose proof (esize_range h e He) as (R & _ & _). pose proof (dirBytes_range h rest Ha).
  assert (0 <= Z.b2z h <= 1) by (destruct h; cbn; lia). pose proof (zlen_nonneg rest).
  pose proof (zlen_nonneg (ename e)).
  split; [|apply IH; [lia|lia|lia|done]]. unfold entry_at, dec in *. by rewrite !F by lia.
Qed.
Lemma layEntries_spec sb leafStart all blk leaves off :
  Forall ent_ok all -> isbytes blk -> 0 <= off -> leafStart <= zlen blk ->
  off + dirBytes (hasFType sb) all <= leafStart ->
  exists b, layEntries sb leafStart all blk leaves off =
      Ret (b, leaves ++ leavesOf (hasFType sb) off all, off + dirBytes (hasFType sb) all) /\
    wrote blk b off (off + dirBytes (hasFType sb) all) /\ entries_at b (hasFType sb) off all.
Proof.
  intros Ha. revert blk leaves off. set (h := hasFType sb).
  induction Ha as [|e rest He Ha IH]; intros blk leaves off Hb Ho Hl Hle; cbn [layEntries dirBytes leavesOf].
  { exists blk. rewrite app_nil_r, Z.add_0_r. split_and!; [done|apply wrote_refl|done]. }
  cbn [dirBytes] in Hle. fold h. fold (esize h e). pose proof (dirBytes_range h rest Ha). pose proof (zlen_nonneg rest).
  pose proof (esize_range h e He).
  rewrite (proj2 (Z.ltb_ge _ _)) by lia.
  destruct (writeDirEntry_spec blk off e h Hb He) as (b1 & -> & W1 & E1); [lia..|]. ostep. cbn [fst].
  pose proof (wrote_len _ _ _ _ W1).
  destruct (IH b1 (leaves ++ [(xfsDirHash (ename e), Z.shiftr (u32 off) 3)]) (off + esize h e))
    as (b2 & -> & W2 & E2); [by eapply wrote_bytes|lia..|].
  exists b2. split_and!.
  - rewrite <- app_assoc. cbn [app]. do 2 f_equal. lia.
  - eapply wrote_trans; (eapply wrote_weaken; [eassumption|lia..]).
  - split; [|done]. assert (entries_at b2 h off [e]) as [? _]; [|done].
    eapply (entries_at_slices h b1 b2 off [e] 0 (off + esize h e)); [by constructor| |lia|lia|cbn [dirBytes]; lia|by split].
    intros. apply (wrote_slice _ _ _ _ W2); lia.
Qed.

(** ** Scanning laid-out entries *)
Definition toDirEntry (h : bool) (e : dirEnt) : DirEntry :=
  mkDirEntry (eino e) (ename e) (if h then eftype e else 0).
Definition is_dots (n : bytes) : bool := bool_decide (n = dot) || bool_decide (n = dotdot).
Definition listing (h : bool) (all : list dirEnt) : list DirEntry :=
  map (toDirEntry h) (base.filter (fun e => is_dots (ename e) = false) all).
Fixpoint firstMatch (name : bytes) (all : list dirEnt) : option Z :=
  match all with
  | [] => None
  | e :: rest => if bool_decide (ename e = name) then Some (eino e) else firstMatch name rest
  end.

Lemma filter_all (P : dirEnt -> Prop) `{!forall e, Decision (P e)} l : Forall P l -> base.filter P l = l.
Proof. induction 1 as [|e l He _ IH]; [done|]. rewrite filter_cons, decide_True by done. by rewrite IH. Qed.

Section Laid.
Context (b : bytes) (h : bool).

Lemma dec8_tag off :
  isbytes b -> 0 <= off -> off + 8 <= zlen b -> dec 8 b off / 2 ^ 48 = dec 2 b off.
Proof.
  intros Hb Ho Hle. rewrite (dec_app 2 6) by lia. change (256 ^ 6) with (2 ^ 48).
  pose proof (dec_range 6 b (off + 2) Hb ltac:(lia) ltac:(lia) ltac:(lia)).
  rewrite Z.div_add_l, Z.div_small by lia. lia.
Qed.
Lemma entry_tests off e :
  isbytes b -> ent_ok e -> entry_at b h off e -> 0 <= off -> off + 8 <= zlen b ->
  (dec 2 b off =? dirFreeTag) = false /\ (dec 8 b off =? 0) = false.
Proof.
  intros Hb (_ & _ & Hi & Hf & _) (E1 & _) Ho Hle. rewrite <- dec8_tag, E1 by done.
  unfold dirFreeTag. lia.
Qed.

Section Laid1.
Context (Hb : isbytes b).

Lemma parseLoop_entries all fuel off :
  Forall ent_ok all -> entries_at b h off all -> 0 <= off -> off + dirBytes h all <= zlen b ->
  parseLoop (length all + fuel) b h off =
    (rest ← parseLoop fuel b h (off + dirBytes h all); Ret (listing h all ++ rest)).
Proof.
  intros Ha. revert off. induction Ha as [|e all He Ha IH]; intros off E Ho Hle; cbn [length Nat.add dirBytes].
  { rewrite Z.add_0_r. cbn. by destruct (parseLoop fuel b h off). }
  cbn [entries_at dirBytes] in E, Hle. destruct E as [Ee E]. pose proof (dirBytes_range h all Ha).
  pose proof (esize_range h e He) as (R & R16 & _). pose proof (zlen_nonneg all).
  assert (0 <= Z.b2z h <= 1) by (destruct h; cbn; lia).
  destruct (entry_tests off e Hb He Ee) as [T0 T1]; [lia..|].
  destruct Ee as (E1 & E2 & E3 & E4). destruct He as (_ & Hl & _).
  cbn [parseLoop]. rewrite (proj2 (Z.ltb_ge _ _)) by lia.
  rewrite (be_get_ok 2 b off) by lia. ostep. rewrite T0.
  rewrite (be_get_ok 8 b off) by lia. ostep. rewrite T1.
  rewrite (byte_at_ok b (off + 8)) by lia. ostep. rewrite E2.
  rewrite (proj2 (Z.eqb_neq (zlen (ename e)) 0)) by lia.
  rewrite (proj2 (Z.ltb_ge (zlen b) _)) by lia. rewrite sub_ok by lia. ostep.
  replace (off + 9 + zlen (ename e) - (off + 9)) with (zlen (ename e)) by lia. rewrite E3.
  fold (esize h e). rewrite IH by (done || lia). rewrite Z.add_assoc.
  assert (h && (zlen b <=? off + 9 + zlen (ename e)) = false) as ->.
  { destruct h; [|done]. cbn in *. lia. }
  assert ((if h then byte_at b (off + 9 + zlen (ename e)) else Ret 0) = Ret (if h then eftype e else 0)) as ->.
  { destruct h; [|done]. cbn in *. rewrite byte_at_ok, E4 by (done || lia). done. }
  ostep. destruct (parseLoop fuel b h _) as [rest| | |]; ostep; try done. f_equal.
  unfold listing. rewrite filter_cons. fold (is_dots (ename e)).
  destruct (is_dots (ename e)) eqn:Ed; destruct (decide _) as [Hd|Hd]; try done.
  by rewrite E1.
Qed.

Lemma searchLoop_entries all fuel name off :
  Forall ent_ok all -> entries_at b h off all -> 0 <= off -> off + dirBytes h all <= zlen b ->
  searchLoop (length all + fuel) b name h off =
    match firstMatch name all with
    | Some ino => Ret (Some ino)
    | None => searchLoop fuel b name h (off + dirBytes h all)
    end.
Proof.
  intros Ha. revert off. induction Ha as [|e all He Ha IH]; intros off E Ho Hle; cbn [length Nat.add dirBytes firstMatch].
  { by rewrite Z.add_0_r. }
  cbn [entries_at dirBytes] in E, Hle. destruct E as [Ee E]. pose proof (dirBytes_range h all Ha).
  pose proof (esize_range h e He) as (R & R16 & _). pose proof (zlen_nonneg all).
  assert (0 <= Z.b2z h <= 1) by (destruct h; cbn; lia).
  destruct (entry_tests off e Hb He Ee) as [T0 T1]; [lia..|].
  destruct Ee as (E1 & E2 & E3 & E4). destruct He as (_ & Hl & _).
  cbn [searchLoop]. rewrite (proj2 (Z.leb_gt _ _)) by lia.
  rewrite (be_get_ok 2 b off) by lia. ostep. rewrite T0. rewrite (proj2 (Z.ltb_ge _ _)) by lia.
  rewrite (be_get_ok 8 b off) by lia. ostep. rewrite T1.
  rewrite (byte_at_ok b (off + 8)) by lia. ostep. rewrite E2.
  rewrite (proj2 (Z.ltb_ge (zlen b) _)) by lia. rewrite sub_ok by lia. ostep.
  replace (off + 9 + zlen (ename e) - (off + 9)) with (zlen (ename e)) by lia. rewrite E3.
  case_bool_decide; [by rewrite E1|].
  fold (esize h e). rewrite IH by (done || lia). by rewrite Z.add_assoc.
Qed.

Lemma parentLoop_entries all fuel off :
  Forall ent_ok all -> entries_at b h off all -> 0 <= off -> off + dirBytes h all <= zlen b ->
  parentLoop (length all + fuel) b h off =
    match firstMatch dotdot all with
    | Some ino => Ret ino
    | None => parentLoop fuel b h (off + dirBytes h all)
    end.
Proof.
  intros Ha. revert off. induction Ha as [|e all He Ha IH]; intros off E Ho Hle; cbn [length Nat.add dirBytes firstMatch].
  { by rewrite Z.add_0_r. }
  cbn [entries_at dirBytes] in E, Hle. destruct E as [Ee E]. pose proof (dirBytes_range h all Ha).
  pose proof (esize_range h e He) as (R & R16 & _). pose proof (zlen_nonneg all).
  assert (0 <= Z.b2z h <= 1) by (destruct h; cbn; lia).
  destruct (entry_tests off e Hb He Ee) as [T0 T1]; [lia..|].
  destruct Ee as (E1 & E2 & E3 & E4). destruct He as (_ & Hl & _).
  cbn [parentLoop]. rewrite (proj2 (Z.ltb_ge _ _)) by lia.
  rewrite (be_get_ok 2 b off) by lia. ostep. rewrite T0.
  rewrite (be_get_ok 8 b off) by lia. ostep. rewrite T1.
  rewrite (byte_at_ok b (off + 8)) by lia. ostep. rewrite E2.
  rewrite (proj2 (Z.eqb_neq (zlen (ename e)) 0)), (proj2 (Z.leb_le _ (zlen b))), E3 by lia. cbn [andb].
  case_bool_decide; [by rewrite E1|].
  fold (esize h e). rewrite IH by (done || lia). by rewrite Z.add_assoc.
Qed.
End Laid1.
End Laid.

(** ** Name hashes and the leaf array *)
Lemma rotl32_range x k : 0 <= x < 2 ^ 32 -> 0 <= k < 32 -> 0 <= rotl32 x k < 2 ^ 32.
Proof.
  intros Hx Hk. unfold rotl32.
  assert (0 <= Z.shiftr x (32 - k) < 2 ^ 32) as Hs.
  { rewrite Z.shiftr_div_pow2 by lia. assert (0 < 2 ^ (32 - k)) by (apply Z.pow_pos_nonneg; lia).
    split; [apply Z.div_pos; lia|apply Z.div_lt_upper_bound; nia]. }
  pose proof (u32_range (Z.shiftl x k)). set (a := u32 _) in *. set (c := Z.shiftr _ _) in *.
  assert (0 <= Z.lor a c) by (apply Z.lor_nonneg; lia). split; [done|].
  destruct (Z.eq_dec (Z.lor a c) 0) as [->|]; [lia|]. apply Z.log2_lt_pow2; [lia|].
  rewrite Z.log2_lor by lia. apply Z.max_lub_lt.
  - destruct (Z.eq_dec a 0) as [->|]; [cbn; lia|apply Z.log2_lt_pow2; lia].
  - destruct (Z.eq_dec c 0) as [->|]; [cbn; lia|apply Z.log2_lt_pow2; lia].
Qed.
Lemma byte_u32 a : isbyte a -> 0 <= a < 2 ^ 32.
Proof. unfold isbyte. lia. Qed.
#[local] Hint Resolve lxor_range rotl32_range u32_range byte_u32 : xfs.
Lemma hashLoop_range n name hash :
  (length name <= n)%nat -> isbytes name -> 0 <= hash < 2 ^ 32 -> 0 <= hashLoop name hash < 2 ^ 32.
Proof.
  revert name hash. induction n as [|n IH]; intros name hash Hl Hb Hh; [destruct name; [done|simpl in Hl; lia]|].
  destruct name as [|a [|b [|c [|d rest]]]]; cbn [hashLoop].
  - done.
  - apply Forall_cons in Hb as [? _].
    apply lxor_range; [lia|auto with xfs|apply rotl32_range; lia].
  - apply Forall_cons in Hb as [? [? _]%Forall_cons].
    repeat (apply lxor_range; [lia| |]); auto with xfs; apply rotl32_range; lia.
  - apply Forall_cons in Hb as [? [? [? _]%Forall_cons]%Forall_cons].
    repeat (apply lxor_range; [lia| |]); auto with xfs; apply rotl32_range; lia.
  - apply Forall_cons in Hb as [? [? [? [? Hb]%Forall_cons]%Forall_cons]%Forall_cons].
    apply IH; [simpl in Hl; lia|done|].
    repeat (apply lxor_range; [lia| |]); auto with xfs; apply rotl32_range; lia.
Qed.
Lemma xfsDirHash_range name : isbytes name -> 0 <= xfsDirHash name < 2 ^ 32.
Proof. intros. by apply (hashLoop_range (length name)). Qed.

Definition leaf_ok (l : leafEnt) : Prop := 0 <= l.1 < 2 ^ 32 /\ 0 < l.2 < 2 ^ 32.
Lemma leavesOf_ok h off all :
  Forall ent_ok all -> 8 <= off -> off + dirBytes h all < 2 ^ 32 -> Forall leaf_ok (leavesOf h off all).
Proof.
  intros Ha. revert off. induction Ha as [|e all He Ha IH]; intros off Ho Hle; cbn [leavesOf dirBytes] in *; [done|].
  pose proof (esize_range h e He). pose proof (dirBytes_range h all Ha). pose proof (zlen_nonneg all).
  constructor; [|apply IH; lia]. split; cbn [fst snd]; [apply xfsDirHash_range, He|].
  rewrite u32_small, Z.shiftr_div_pow2 by lia. change (2 ^ 3) with 8. Z.div_mod_to_equations; lia.
Qed.
Lemma leavesOf_length h off all : zlen (leavesOf h off all) = zlen all.
Proof. revert off. induction all; intros off; cbn [leavesOf]; rewrite ?zlen_cons; [done|by rewrite IHall]. Qed.

Fixpoint leaves_at (b : bytes) (p : Z) (leaves : list leafEnt) : Prop :=
  match leaves with
  | [] => True
  | l :: rest => dec 4 b p = l.1 /\ dec 4 b (p + 4) = l.2 /\ leaves_at b (p + 8) rest
  end.
Lemma putLeaves_spec leaves p blk :
  Forall leaf_ok leaves -> 0 <= p -> p + 8 * zlen leaves <= zlen blk ->
  exists b, putLeaves leaves p blk = Ret b /\ wrote blk b p (p + 8 * zlen leaves) /\ leaves_at b p leaves.
Proof.
  intros Hl. revert p blk. induction Hl as [|l leaves Hok Hl IH]; intros p blk Hp Hle; cbn [putLeaves].
  { exists blk. split_and!; [done|apply wrote_refl|done]. }
  rewrite zlen_cons in *. pose proof (zlen_nonneg leaves). destruct Hok as [O1 O2].
  destruct (put_spec 4 blk p l.1) as (b1 & -> & W1 & E1); [lia..|]. ostep. pose proof (wrote_len _ _ _ _ W1).
  destruct (put_spec 4 b1 (p + 4) l.2) as (b2 & -> & W2 & E2); [lia..|]. ostep. pose proof (wrote_len _ _ _ _ W2).
  destruct (IH (p + 8) b2) as (b3 & -> & W3 & E3); [lia..|]. exists b3. split_and!; [done| |].
  - do 2 (eapply wrote_trans; [eapply wrote_weaken; [eassumption|lia..]|]). eapply wrote_weaken; [eassumption|lia..].
  - split_and!; [..|done].
    + rewrite (wrote_dec _ _ _ _ _ _ W3), (wrote_dec _ _ _ _ _ _ W2), E1 by lia. by apply Z.mod_small.
    + rewrite (wrote_dec _ _ _ _ _ _ W3), E2 by lia. apply Z.mod_small; lia.
Qed.

#[export] Instance leaf_le_trans : Transitive leaf_le.
Proof. unfold leaf_le. intros x y z. lia. Qed.
#[export] Instance leaf_le_total : Total leaf_le.
Proof. unfold leaf_le. intros x y. lia. Qed.

(** "." and ".." hash to 0x2e and 0x172e, so the first two sorted hashes are small. *)
Lemma sorted_head2 a1 a2 (rest : list leafEnt) :
  exists l0 l1 tl, merge_sort leaf_le ((0x2e, a1) :: (0x172e, a2) :: rest) = l0 :: l1 :: tl /\
    l0.1 <= 0x172e /\ l1.1 <= 0x172e.
Proof.
  set (l := (0x2e, a1) :: (0x172e, a2) :: rest).
  pose proof (merge_sort_Permutation leaf_le l) as P.
  pose proof (StronglySorted_merge_sort leaf_le l) as St. set (m := merge_sort leaf_le l) in *.
  assert ((0x2e, a1) ∈ m /\ (0x172e, a2) ∈ m) as [I1 I2].
  { rewrite P. unfold l. rewrite !elem_of_cons. auto. }
  destruct m as [|l0 [|l1 tl]]; [apply Permutation_length in P; done|apply Permutation_length in P; done|].
  exists l0, l1, tl. split; [done|]. apply StronglySorted_inv in St as [St F0].
  apply StronglySorted_inv in St as [St F1].
  assert (l1.1 <= 0x172e).
  { apply elem_of_cons in I1 as [I1|I1].
    - apply elem_of_cons in I2 as [I2|I2]; [by rewrite <- I1 in I2|].
      apply elem_of_cons in I2 as [<-|I2]; [done|].
      rewrite Forall_forall in F1. specialize (F1 _ I2). unfold leaf_le in F1. cbn [fst snd] in F1. lia.
    - apply elem_of_cons in I1 as [<-|I1]; [cbn; lia|].
      rewrite Forall_forall in F1. specialize (F1 _ I1). unfold leaf_le in F1. cbn [fst snd] in F1. lia. }
  split; [|done]. apply Forall_cons in F0 as [F0 _]. unfold leaf_le in F0. lia.
Qed.

(** ** The block form *)
(** [all] of [buildBlockDirBlock]. *)
Definition allEntries (owner parent : Z) (entries : list dirEnt) : list dirEnt :=
  mkDirEnt dot owner 2 :: mkDirEnt dotdot parent 2 :: entries.
Lemma all_pos owner parent entries : 2 <= zlen (allEntries owner parent entries).
Proof. unfold allEntries. rewrite !zlen_cons. pose proof (zlen_nonneg entries). lia. Qed.

Section BlockForm.
Context (sb : superblock) (Wsb : sb_width sb) (blk : bytes) (Hbk : isbytes blk)
        (absBlock owner parent : Z) (entries : list dirEnt).
Let h := hasFType sb.
Let hdr := dirDataHdrSize (hasCRC sb).
Let all := allEntries owner parent entries.
Let leafStart := zlen blk - 8 - zlen all * 8.
Context (Hlen : 512 <= zlen blk <= 65536) (Hal : zlen blk mod 8 = 0) (Hok : Forall ent_ok all).

(** What [writeWholeDir] calls [fitsOneBlock]. *)
Definition fitsBlock : Prop := dirDataHdrSize (hasCRC sb) + dirBytes (hasFType sb) (allEntries owner parent entries) + zlen (allEntries owner parent entries) * 8 + 8 <= zlen blk.

Lemma putDirHeader_spec b :
  zlen b = zlen blk -> isbytes b -> exists b', putDirHeader sb b absBlock owner = Ret b' /\ wrote b b' 0 hdr.
Proof.
  intros L Hb. unfold putDirHeader, hdr. destruct (hasCRC sb); cbn [dirDataHdrSize].
  2: { unfold dir2DataHdrSize. destruct (put_spec 4 b 0 magicDir2Block) as (b1 & -> & W1 & _); [lia..|].
       exists b1. split; [done|]. eapply wrote_weaken; [exact W1|lia..]. }
  unfold dir3DataHdrSize. destruct (w_uuid _ Wsb) as [Lu Bu].
  destruct (put_spec 4 b 0 magicDir3Block) as (b1 & -> & W1 & _); [lia..|]. ostep. pose proof (wrote_len _ _ _ _ W1).
  destruct (put_spec 8 b1 8 (u64 (fsbToPhysBlock sb absBlock * fmtDaddrPerBlock))) as (b2 & -> & W2 & _); [lia..|]. ostep.
  pose proof (wrote_len _ _ _ _ W2). rewrite (proj2 (Z.leb_le 40 (zlen b2))) by lia. ostep.
  assert (take 16 (uuid sb) = uuid sb) as -> by (apply firstn_all2; zl).
  destruct (copy_spec b2 24 (uuid sb)) as (b3 & -> & W3 & _); [lia|lia|done|]. ostep. pose proof (wrote_len _ _ _ _ W3).
  destruct (put_spec 8 b3 40 owner) as (b4 & -> & W4 & _); [lia..|]. exists b4. split; [done|].
  do 3 (eapply wrote_trans; [eapply wrote_weaken; [eassumption|lia..]|]). eapply wrote_weaken; [eassumption|lia..].
Qed.

Lemma putFreeRegion_spec b endData :
  zlen b = zlen blk -> hdr <= endData -> endData <= leafStart -> leafStart <= zlen blk ->
  (leafStart - endData) mod 8 = 0 ->
  exists b', putFreeRegion (hasCRC sb) b endData leafStart = Ret b' /\ zlen b' = zlen b /\
    (isbytes b -> isbytes b') /\
    (forall o n, hdr <= o -> 0 <= n -> o + n <= endData -> slice b' o n = slice b o n) /\
    (endData < leafStart -> dec 2 b' endData = dirFreeTag /\ dec 2 b' (endData + 2) = leafStart - endData).
Proof.
  intros L He Hle Hl Hm. unfold putFreeRegion.
  destruct (Z.ltb_spec endData leafStart) as [Hlt|]; [|exists b; split_and!; (done || lia)].
  assert (8 <= leafStart - endData) by (Z.div_mod_to_equations; lia).
  assert (hdr = 16 \/ hdr = 64) as Hh by (unfold hdr; destruct (hasCRC sb); cbn; auto).
  assert ((if hasCRC sb then 48 else 4) + 4 <= hdr /\ 0 <= (if hasCRC sb then 48 else 4)) as Hbf
    by (unfold hdr, dirDataHdrSize, dir3DataHdrSize, dir2DataHdrSize; destruct (hasCRC sb); lia).
  set (bf := if hasCRC sb then 48 else 4) in *. clearbody bf.
  destruct (put_spec 2 b endData 0xFFFF) as (b1 & -> & W1 & E1); [lia..|]. ostep. pose proof (wrote_len _ _ _ _ W1).
  destruct (put_spec 2 b1 (endData + 2) (u16 (leafStart - endData))) as (b2 & -> & W2 & E2); [lia..|]. ostep. pose proof (wrote_len _ _ _ _ W2).
  destruct (put_spec 2 b2 (endData + (leafStart - endData) - 2) (u16 endData)) as (b3 & -> & W3 & _); [lia..|]. ostep. pose proof (wrote_len _ _ _ _ W3).
  destruct (put_spec 2 b3 bf (u16 endData)) as (b4 & -> & W4 & _); [lia..|]. ostep. pose proof (wrote_len _ _ _ _ W4).
  destruct (put_spec 2 b4 (bf + 2) (u16 (leafStart - endData))) as (b5 & -> & W5 & _); [lia..|]. pose proof (wrote_len _ _ _ _ W5).
  exists b5. split_and!; [done|lia|intros; repeat (eapply wrote_bytes; [eassumption|]); done| |].
  - intros o n ? ? ?. rewrite (wrote_slice _ _ _ _ W5), (wrote_slice _ _ _ _ W4), (wrote_slice _ _ _ _ W3),
      (wrote_slice _ _ _ _ W2), (wrote_slice _ _ _ _ W1) by lia. done.
  - intros _. rewrite !(wrote_dec _ _ _ _ _ _ W5), !(wrote_dec _ _ _ _ _ _ W4), !(wrote_dec _ _ _ _ _ _ W3) by lia.
    rewrite (wrote_dec _ _ _ _ _ endData W2), E1, E2 by lia. split; [done|].
    rewrite u16_small by lia. apply Z.mod_small. lia.
Qed.
(** Where the parts of the finished block are. *)
Record block_layout (b : bytes) : Prop := {
  bl_len : zlen b = zlen blk;
  bl_bytes : isbytes b;
  bl_entries : entries_at b h hdr all;
  bl_free : hdr + dirBytes h all < leafStart ->
    dec 2 b (hdr + dirBytes h all) = dirFreeTag /\
    dec 2 b (hdr + dirBytes h all + 2) = leafStart - (hdr + dirBytes h all);
  bl_leaves : leaves_at b leafStart (merge_sort leaf_le (leavesOf h hdr all));
  bl_crc : hasCRC sb = true -> verifyCRC b 4 (zlen blk) = Ret true
}.

Lemma finish_spec b :
  zlen b = zlen blk -> isbytes b ->
  exists b', (b ← put32 b (zlen blk - 8) (u32 (zlen all)); b ← put32 b (zlen blk - 8 + 4) 0;
              if hasCRC sb then updateCRC b 4 (zlen blk) else Ret b) = Ret b' /\
    zlen b' = zlen b /\ isbytes b' /\ (hasCRC sb = true -> verifyCRC b' 4 (zlen blk) = Ret true) /\
    (forall o n, hdr <= o -> 0 <= n -> o + n <= zlen blk - 8 -> slice b' o n = slice b o n).
Proof.
  intros L Hb. pose proof (hdr_cases (hasCRC sb) : (hdr = 16 \/ hdr = 64) /\ 0 <= hdr <= 64).
  destruct (put_spec 4 b (zlen blk - 8) (u32 (zlen all))) as (b1 & -> & W1 & _); [lia..|]. ostep. pose proof (wrote_len _ _ _ _ W1).
  destruct (put_spec 4 b1 (zlen blk - 8 + 4) 0) as (b2 & -> & W2 & _); [lia..|]. ostep. pose proof (wrote_len _ _ _ _ W2).
  assert (isbytes b2) as Hb2 by (do 2 (eapply wrote_bytes; [eassumption|]); done).
  destruct (hasCRC sb) eqn:Ec.
  - destruct (updateCRC_spec b2 4 (zlen blk) Hb2) as (b3 & -> & V & W3); [unfold crc_layout_ok; lia|].
    pose proof (wrote_len _ _ _ _ W3). exists b3. split_and!; [done|lia|by eapply wrote_bytes|done|].
    intros. rewrite (wrote_slice _ _ _ _ W3), (wrote_slice _ _ _ _ W2), (wrote_slice _ _ _ _ W1) by lia. done.
  - exists b2. split_and!; [done|lia|done|done|].
    intros. rewrite (wrote_slice _ _ _ _ W2), (wrote_slice _ _ _ _ W1) by lia. done.
Qed.

Lemma leaves_at_slices b b' p l lo hi :
  (forall o n, lo <= o -> 0 <= n -> o + n <= hi -> slice b' o n = slice b o n) ->
  lo <= p -> p + 8 * zlen l <= hi -> leaves_at b p l -> leaves_at b' p l.
Proof.
  intros F. revert p. induction l as [|x l IH]; intros p Hlo Hd E; [done|]. rewrite zlen_cons in Hd.
  pose proof (zlen_nonneg l). cbn [leaves_at] in *. unfold dec in *. destruct E as (E1 & E2 & E).
  rewrite !F by lia. split_and!; [done..|]. apply IH; (done || lia).
Qed.

Lemma build_layout :
  fitsBlock -> exists b, buildBlockDirBlock sb blk absBlock owner parent entries = Ret b /\ block_layout b.
Proof.
  unfold fitsBlock. fold all h hdr. intros Hfit. pose proof (hdr_cases (hasCRC sb) : (hdr = 16 \/ hdr = 64) /\ 0 <= hdr <= 64) as [Hh ?]. pose proof (all_pos owner parent entries : 2 <= zlen all).
  pose proof (dirBytes_range h all Hok) as [Hd1 Hd8].
  assert (hdr mod 8 = 0) by (destruct Hh as [->| ->]; done).
  unfold buildBlockDirBlock. fold (allEntries owner parent entries). fold all hdr. fold leafStart.
  destruct (clear_spec blk 0 (zlen blk)) as (b0 & -> & W0 & _); [lia..|]. ostep. pose proof (wrote_len _ _ _ _ W0).
  destruct (putDirHeader_spec b0) as (b1 & -> & W1); [done|by eapply wrote_bytes|]. ostep. pose proof (wrote_len _ _ _ _ W1).
  assert (isbytes b1) as Hb1 by (do 2 (eapply wrote_bytes; [eassumption|]); done).
  destruct (layEntries_spec sb leafStart all b1 [] hdr Hok Hb1) as (b2 & -> & W2 & E2);
    [lia|unfold leafStart; lia|fold h; unfold leafStart; lia|]. ostep. fold h in W2, E2 |- *.
  rewrite app_nil_l. cbn [mbind outcome_bind]. pose proof (wrote_len _ _ _ _ W2).
  destruct (putFreeRegion_spec b2 (hdr + dirBytes h all)) as (b3 & -> & L3 & B3 & F3 & T3);
    [lia|lia|unfold leafStart; lia|unfold leafStart; lia|unfold leafStart; Z.div_mod_to_equations; lia|]. ostep.
  assert (Forall leaf_ok (merge_sort leaf_le (leavesOf h hdr all))) as Hlv.
  { rewrite merge_sort_Permutation. apply leavesOf_ok; [done|lia|lia]. }
  assert (zlen (merge_sort leaf_le (leavesOf h hdr all)) = zlen all) as Llv.
  { unfold zlen at 1. rewrite merge_sort_Permutation. fold (zlen (leavesOf h hdr all)). apply leavesOf_length. }
  destruct (putLeaves_spec (merge_sort leaf_le (leavesOf h hdr all)) leafStart b3 Hlv) as (b4 & -> & W4 & E4);
    [unfold leafStart; lia|rewrite Llv; unfold leafStart; lia|]. ostep. pose proof (wrote_len _ _ _ _ W4) as L4.
  rewrite Llv in W4.
  destruct (finish_spec b4) as (b5 & E5 & L5 & B5 & V5 & F5);
    [lia|eapply wrote_bytes; [exact W4|]; apply B3; by eapply wrote_bytes|].
  exists b5. split; [exact E5|].
  assert (forall o n, hdr <= o -> 0 <= n -> o + n <= leafStart -> slice b5 o n = slice b3 o n) as F35.
  { intros. rewrite F5 by (unfold leafStart in *; lia). apply (wrote_slice _ _ _ _ W4); unfold leafStart in *; lia. }
  constructor; [lia|done| | | |done].
  - eapply (entries_at_slices h b2); [done| |exact (Z.le_refl hdr)|lia|apply Z.le_refl|done].
    intros. rewrite F35 by (unfold leafStart; lia). by apply F3.
  - intros Hlt. destruct (T3 Hlt) as [T31 T32].
    assert (8 <= leafStart - (hdr + dirBytes h all)) by (unfold leafStart in *; Z.div_mod_to_equations; lia).
    unfold dec in *. rewrite !F35 by lia. done.
  - eapply (leaves_at_slices b4); [intros; apply F5; [|done|]; [|eassumption]| | |exact E4].
    + eapply Z.le_trans; [|eassumption]. instantiate (1 := leafStart). unfold leafStart. lia.
    + lia.
    + rewrite Llv. unfold leafStart. lia.
Qed.
(** The listing stops at the leaf array: the two smallest hashes have a zero top byte. *)
Lemma leaf_stops b fuel :
  fitsBlock -> block_layout b -> parseLoop (S fuel) b h leafStart = Ret [].
Proof.
  unfold fitsBlock. fold all h hdr. intros Hfit Lb. destruct Lb as [L Hb _ _ Lv _].
  pose proof (hdr_cases (hasCRC sb) : (hdr = 16 \/ hdr = 64) /\ 0 <= hdr <= 64) as [Hh ?]. pose proof (all_pos owner parent entries : 2 <= zlen all). pose proof (dirBytes_range h all Hok).
  assert (leafStart + 16 + 8 <= zlen b) by (unfold leafStart; lia).
  assert (0 <= leafStart) by (unfold leafStart; lia).
  assert (Forall leaf_ok (merge_sort leaf_le (leavesOf h hdr all))) as Hlv.
  { rewrite merge_sort_Permutation. apply leavesOf_ok; [done|lia|lia]. }
  unfold all, allEntries in Lv, Hlv. cbn [leavesOf ename] in Lv, Hlv.
  change (xfsDirHash dot) with 0x2e in Lv, Hlv. change (xfsDirHash dotdot) with 0x172e in Lv, Hlv.
  match type of Lv with context [merge_sort leaf_le ((_, ?a) :: (_, ?c) :: ?r)] =>
    destruct (sorted_head2 a c r) as (l0 & l1 & tl & Em & Hl0 & Hl1) end.
  rewrite Em in Lv, Hlv. cbn [leaves_at] in Lv. destruct Lv as (V1 & V2 & V3 & _).
  apply Forall_cons in Hlv as [O0 [O1 _]%Forall_cons]. destruct O0 as [O01 O02], O1 as [O11 _].
  assert (dec 8 b leafStart = l0.1 * 2 ^ 32 + l0.2) as E8.
  { rewrite (dec_app 4 4) by lia. rewrite V1, V2. done. }
  assert (dec 1 b (leafStart + 8) = 0) as E1.
  { pose proof (dec_app 1 3 b (leafStart + 8)) as Ea. change (1 + 3) with 4 in Ea.
    rewrite V3 in Ea by lia. pose proof (dec_range 3 b (leafStart + 8 + 1) Hb ltac:(lia) ltac:(lia) ltac:(lia)).
    pose proof (dec_range 1 b (leafStart + 8) Hb ltac:(lia) ltac:(lia) ltac:(lia)). lia. }
  cbn [parseLoop]. rewrite (proj2 (Z.ltb_ge _ _)) by lia. rewrite (be_get_ok 2 b leafStart) by lia. ostep.
  rewrite <- dec8_tag, E8 by (done || lia).
  assert ((l0.1 * 2 ^ 32 + l0.2) / 2 ^ 48 = 0) as -> by (apply Z.div_small; lia). cbn [Z.eqb dirFreeTag].
  rewrite (be_get_ok 8 b leafStart) by lia. ostep. rewrite E8, (proj2 (Z.eqb_neq _ 0)) by lia.
  rewrite byte_at_ok, E1 by lia. done.
Qed.

Lemma parse_stops b fuel :
  fitsBlock -> block_layout b -> (2 <= fuel)%nat -> parseLoop fuel b h (hdr + dirBytes h all) = Ret [].
Proof.
  intros Hfit Lb Hf. destruct fuel as [|[|fuel]]; [lia..|].
  pose proof (hdr_cases (hasCRC sb) : (hdr = 16 \/ hdr = 64) /\ 0 <= hdr <= 64) as [Hh ?]. pose proof (all_pos owner parent entries : 2 <= zlen all). pose proof (dirBytes_range h all Hok) as [? ?].
  assert (hdr mod 8 = 0) by (destruct Hh as [->| ->]; done).
  pose proof Hfit as Hfit'. unfold fitsBlock in Hfit'. fold all h hdr in Hfit'.
  destruct (Z.eq_dec (hdr + dirBytes h all) leafStart) as [->|]; [by apply leaf_stops|].
  assert (hdr + dirBytes h all < leafStart) as Hlt by (unfold leafStart in *; lia).
  destruct (bl_free b Lb Hlt) as [T1 T2]. pose proof (bl_len b Lb).
  assert (8 <= leafStart - (hdr + dirBytes h all)) by (unfold leafStart in *; Z.div_mod_to_equations; lia).
  cbn [parseLoop]. rewrite (proj2 (Z.ltb_ge _ _)) by (unfold leafStart in *; lia).
  rewrite !be_get_ok by (unfold leafStart in *; lia). ostep. rewrite T1, T2, Z.eqb_refl. ostep.
  rewrite (proj2 (Z.ltb_ge (leafStart - _) 8)) by lia.
  replace (hdr + dirBytes h all + (leafStart - (hdr + dirBytes h all))) with leafStart by lia.
  by apply leaf_stops.
Qed.

Lemma scan_fuel_split b :
  fitsBlock -> block_layout b ->
  scan_fuel b = (length all + (scan_fuel b - length all))%nat /\ (2 <= scan_fuel b - length all)%nat.
Proof.
  unfold fitsBlock. fold all h hdr. intros Hfit Lb. pose proof (bl_len b Lb). pose proof (hdr_cases (hasCRC sb) : (hdr = 16 \/ hdr = 64) /\ 0 <= hdr <= 64).
  pose proof (dirBytes_range h all Hok). pose proof (all_pos owner parent entries : 2 <= zlen all). unfold scan_fuel, zlen in *. lia.
Qed.

Lemma listing_all :
  Forall (fun e => is_dots (ename e) = false) entries -> listing h all = map (toDirEntry h) entries.
Proof.
  intros Hd. unfold listing, all, allEntries. rewrite !filter_cons. cbn [ename].
  rewrite filter_all; [done|exact Hd].
Qed.

Lemma layEntries_overflow l b leaves off ls :
  Forall ent_ok l -> isbytes b -> 0 <= off -> ls <= zlen b -> off <= ls \/ l <> [] -> ls < off + dirBytes h l ->
  layEntries sb ls l b leaves off = Fail (Errorf "overflowed block form").
Proof.
  intros Ha. revert b leaves off. induction Ha as [|e rest He Ha IH]; intros b leaves off Hb Ho Hl Hol Hgt;
    cbn [layEntries dirBytes] in *; [destruct Hol; [lia|done]|].
  fold h. fold (esize h e). pose proof (esize_range h e He).
  destruct (Z.ltb_spec ls (off + esize h e)); [done|].
  destruct (writeDirEntry_spec b off e h Hb He) as (b1 & -> & W1 & E1); [lia..|]. ostep. cbn [fst].
  pose proof (wrote_len _ _ _ _ W1). apply IH; [by eapply wrote_bytes|lia..].
Qed.

Lemma build_overflow :
  ~ fitsBlock -> buildBlockDirBlock sb blk absBlock owner parent entries = Fail (Errorf "overflowed block form").
Proof.
  unfold fitsBlock. fold all h hdr. intros Hfit. pose proof (hdr_cases (hasCRC sb) : (hdr = 16 \/ hdr = 64) /\ 0 <= hdr <= 64) as [Hh ?]. pose proof (all_pos owner parent entries : 2 <= zlen all).
  unfold buildBlockDirBlock. fold (allEntries owner parent entries). fold all hdr. fold leafStart.
  destruct (clear_spec blk 0 (zlen blk)) as (b0 & -> & W0 & _); [lia..|]. ostep. pose proof (wrote_len _ _ _ _ W0).
  destruct (putDirHeader_spec b0) as (b1 & -> & W1); [done|by eapply wrote_bytes|]. ostep. pose proof (wrote_len _ _ _ _ W1).
  assert (isbytes b1) as Hb1 by (do 2 (eapply wrote_bytes; [eassumption|]); done).
  rewrite layEntries_overflow; [done|done|done|lia|unfold leafStart; lia|by right|unfold leafStart; lia].
Qed.
End BlockForm.

(** A block that fits, read back. *)
Lemma build_reads (sb : superblock) (blk : bytes) (absBlock owner parent : Z) (entries : list dirEnt) :
  sb_width sb -> isbytes blk -> 512 <= zlen blk <= 65536 -> zlen blk mod 8 = 0 ->
  Forall ent_ok (allEntries owner parent entries) ->
  Forall (fun e => is_dots (ename e) = false) entries ->
  fitsBlock sb blk owner parent entries ->
  exists b, buildBlockDirBlock sb blk absBlock owner parent entries = Ret b /\ zlen b = zlen blk /\ isbytes b /\
    parseDirBlock b (hasFType sb) (hasCRC sb) = Ret (map (toDirEntry (hasFType sb)) entries) /\
    blockDirParent b (hasFType sb) (hasCRC sb) = Ret parent /\
    (forall name ino, firstMatch name (allEntries owner parent entries) = Some ino ->
       searchDirBlock b name (hasFType sb) (hasCRC sb) = Ret (Some ino)) /\
    (exists ls, leaves_at b (zlen blk - 8 - zlen (allEntries owner parent entries) * 8) ls /\ Sorted leaf_le ls /\
       ls ≡ₚ leavesOf (hasFType sb) (dirDataHdrSize (hasCRC sb)) (allEntries owner parent entries)) /\
    (hasCRC sb = true -> verifyCRC b 4 (zlen blk) = Ret true).
Proof.
  intros W Hb Hlen Hal Hok Hd Hfit.
  destruct (build_layout sb W blk Hb absBlock owner parent entries Hlen Hal Hok Hfit) as (b & E & Lb).
  exists b. split; [exact E|]. destruct (scan_fuel_split sb blk owner parent entries Hlen Hok b Hfit Lb) as [Fs F2].
  pose proof (bl_len _ _ _ _ _ _ Lb) as L. pose proof (bl_bytes _ _ _ _ _ _ Lb) as Bb.
  pose proof (bl_entries _ _ _ _ _ _ Lb) as Eb. pose proof (hdr_cases (hasCRC sb)) as [Hh ?].
  pose proof Hfit as Hf. unfold fitsBlock in Hf. pose proof (all_pos owner parent entries).
  split_and!; [done|done| | | | |by eapply bl_crc].
  - unfold parseDirBlock. rewrite (proj2 (Z.leb_gt _ _)) by lia. rewrite Fs.
    rewrite parseLoop_entries by (done || lia).
    rewrite (parse_stops sb blk owner parent entries Hlen Hal Hok b) by done. ostep.
    by rewrite app_nil_r, listing_all.
  - unfold blockDirParent. rewrite Fs, parentLoop_entries by (done || lia). done.
  - intros name ino Hm. unfold searchDirBlock. rewrite (proj2 (Z.leb_gt _ _)) by lia.
    rewrite Fs, searchLoop_entries by (done || lia). by rewrite Hm.
  - eexists. split; [exact (bl_leaves _ _ _ _ _ _ Lb)|]. split; [apply Sorted_merge_sort, _|apply merge_sort_Permutation].
Qed.

(** C12 (round trip).  The block form: exactly when header, entries, leaf array and tail
    fit, [buildBlockDirBlock] produces a block (otherwise it refuses).  Listing that
    block gives back the entries in order, its parent query the parent inode, a
    search for any name laid down the first entry of that name; its leaf array holds
    the (hash, address) pair of every entry, sorted; and its CRC verifies. *)
Theorem blockDir_roundtrip (sb : superblock) (blk : bytes) (absBlock owner parent : Z) (entries : list dirEnt) :
  sb_width sb -> isbytes blk -> 512 <= zlen blk <= 65536 -> zlen blk mod 8 = 0 ->
  Forall ent_ok (allEntries owner parent entries) ->
  Forall (fun e => is_dots (ename e) = false) entries ->
  (~ fitsBlock sb blk owner parent entries ->
     buildBlockDirBlock sb blk absBlock owner parent entries = Fail (Errorf "overflowed block form")) /\
  (fitsBlock sb blk owner parent entries ->
  exists b, buildBlockDirBlock sb blk absBlock owner parent entries = Ret b /\ zlen b = zlen blk /\
    parseDirBlock b (hasFType sb) (hasCRC sb) = Ret (map (toDirEntry (hasFType sb)) entries) /\
    blockDirParent b (hasFType sb) (hasCRC sb) = Ret parent /\
    (forall name ino, firstMatch name (allEntries owner parent entries) = Some ino ->
       searchDirBlock b name (hasFType sb) (hasCRC sb) = Ret (Some ino)) /\
    (exists ls, leaves_at b (zlen blk - 8 - zlen (allEntries owner parent entries) * 8) ls /\ Sorted leaf_le ls /\
       ls ≡ₚ leavesOf (hasFType sb) (dirDataHdrSize (hasCRC sb)) (allEntries owner parent entries)) /\
    (hasCRC sb = true -> verifyCRC b 4 (zlen blk) = Ret true)).
Proof.
  intros W Hb Hlen Hal Hok Hd. split; [by apply build_overflow|]. intros Hfit.
  destruct (build_reads sb blk absBlock owner parent entries W Hb Hlen Hal Hok Hd Hfit) as (b & ? & ? & _ & ?). by exists b.
Qed.

(** "ab" and "ugbmomovutmf", inodes 131 and 132. *)
Definition sample_entries : list dirEnt :=
  [mkDirEnt [97; 98] 131 1; mkDirEnt [117; 103; 98; 109; 111; 109; 111; 118; 117; 116; 109; 102] 132 1].
Lemma sample_entries_ok : Forall ent_ok (allEntries 128 128 sample_entries).
Proof. by apply (bool_decide_unpack _). Qed.
Lemma blockDir_roundtrip_witness :
  fitsBlock sample_sb (make_bytes 512) 128 128 sample_entries /\
  exists b, buildBlockDirBlock sample_sb (make_bytes 512) 7 128 128 sample_entries = Ret b /\
    parseDirBlock b (hasFType sample_sb) (hasCRC sample_sb) = Ret (map (toDirEntry (hasFType sample_sb)) sample_entries).
Proof.
  assert (fitsBlock sample_sb (make_bytes 512) 128 128 sample_entries) as Hf by (vm_compute; discriminate).
  split; [exact Hf|].
  destruct (blockDir_roundtrip sample_sb (make_bytes 512) 7 128 128 sample_entries sample_sb_width
    ltac:(by apply (bool_decide_unpack _)) ltac:(vm_compute; split; discriminate) eq_refl sample_entries_ok
    ltac:(repeat constructor)) as [_ H].
  destruct (H Hf) as (b & E & _ & P & _). exists b. split; [exact E|exact P].
Defined.

(** Name search runs on into the leaf array (the [isBlock] argument is
    ignored), where a name hash can read as an entry: in this well-formed
    two-entry directory the absent name "l8h" is reported found, with a bogus
    inode number no entry has. *)
Lemma searchDirBlock_false_match :
  exists b ino, buildBlockDirBlock sample_sb (make_bytes 512) 7 128 128 sample_entries = Ret b /\
    firstMatch [108; 56; 104] (allEntries 128 128 sample_entries) = None /\
    searchDirBlock b [108; 56; 104] (hasFType sample_sb) (hasCRC sample_sb) = Ret (Some ino) /\
    ~ In ino (map eino (allEntries 128 128 sample_entries)).
Proof.
  eexists; eexists. split_and!; [vm_compute; reflexivity|reflexivity|vm_compute; reflexivity|].
  cbn. intros H. repeat destruct H as [H|H]; done.
Qed.
