(* ===== verification/SfDir.v ===== *)
(** * Short-form directories: what insertion, listing and lookup do (dir.go)

    [sf_dir sb b base ts l]: the fork that starts at [base] in buffer [b] is a short-form
    directory with 4-byte inode numbers holding the entries [l] with the tags [ts].  A
    tag should be the entry's offset in the equivalent dir2 data block ([sfTags]).
    [addEntryToSFDir] and [removeSFEntry] (delete.go) maintain the entries. *)
From S2P Require Import Prelude Bytes Crc Extent Device Superblock SafeIO Inode FileRead Dir.

Definition sfSize (h : bool) (e : dirEnt) : Z := 7 + zlen (ename e) + Z.b2z h.
Fixpoint sfBytes (h : bool) (l : list dirEnt) : Z :=
  match l with [] => 0 | e :: rest => sfSize h e + sfBytes h rest end.
Fixpoint sfData (h : bool) (l : list dirEnt) : Z :=
  match l with [] => 0 | e :: rest => dir2DataEntSize (zlen (ename e)) h + sfData h rest end.
(** The tags of entries laid out one after the other from [dOff]. *)
Fixpoint sfTags (h : bool) (dOff : Z) (l : list dirEnt) : list Z :=
  match l with [] => [] | e :: rest => dOff :: sfTags h (dOff + dir2DataEntSize (zlen (ename e)) h) rest end.
Fixpoint sf_at (b : bytes) (h : bool) (off : Z) (ts : list Z) (l : list dirEnt) : Prop :=
  match l, ts with
  | [], [] => True
  | e :: rest, t :: ts =>
      dec 1 b off = zlen (ename e) /\ dec 2 b (off + 1) = t /\
      slice b (off + 3) (zlen (ename e)) = ename e /\
      (h = true -> dec 1 b (off + 3 + zlen (ename e)) = eftype e) /\
      dec 4 b (off + 3 + zlen (ename e) + Z.b2z h) = eino e /\
      sf_at b h (off + sfSize h e) ts rest
  | _, _ => False
  end.
Definition sf_ent (e : dirEnt) : Prop :=
  isbytes (ename e) /\ 1 <= zlen (ename e) <= 255 /\ 0 <= eino e < 2 ^ 32 /\ 0 <= eftype e < 256.
#[export] Instance sf_ent_dec e : Decision (sf_ent e).
Proof. unfold sf_ent. apply _. Defined.
Definition sfDataStart (sb : superblock) : Z :=
  dirDataHdrSize (hasCRC sb) + dir2DataEntSize 1 (hasFType sb) + dir2DataEntSize 2 (hasFType sb).
Record sf_dir (sb : superblock) (b : bytes) (base : Z) (ts : list Z) (l : list dirEnt) : Prop := {
  sf_count : dec 1 b base = zlen l;
  sf_i8 : dec 1 b (base + 1) = 0;
  sf_ents : Forall sf_ent l;
  sf_room : base + 6 + sfBytes (hasFType sb) l <= zlen b;
  sf_laid : sf_at b (hasFType sb) (base + 6) ts l
}.

Lemma sfBytes_app h l k : sfBytes h (l ++ k) = sfBytes h l + sfBytes h k.
Proof. induction l; cbn [app sfBytes]; lia. Qed.
Lemma sfBytes_range h l : Forall sf_ent l -> 8 * zlen l <= sfBytes h l /\ 0 <= sfData h l <= 3 * sfBytes h l.
Proof.
  induction 1 as [|e l (_ & Hn & _) _ IH]; [done|]. cbn [sfBytes sfData]. rewrite zlen_cons.
  destruct (dirEntrySize_range (zlen (ename e)) h) as [R _].
  change (dir2DataEntSize (zlen (ename e)) h) with (dirEntrySize (zlen (ename e)) h).
  unfold sfSize. destruct h; cbn [Z.b2z] in *; lia.
Qed.

(** [b'] shows the same entries at [off] as [b] at [off + k]. *)
Lemma sf_at_shift k b b' h off ts l :
  Forall sf_ent l -> 0 <= off ->
  (forall o n, off <= o -> 0 <= n -> o + n <= off + sfBytes h l -> slice b' o n = slice b (k + o) n) ->
  sf_at b h (k + off) ts l -> sf_at b' h off ts l.
Proof.
  intros Hl. revert off ts. induction Hl as [|e l He Hl IH]; intros off [|t ts] Ho F E; [done..|].
  cbn [sf_at sfBytes] in *. destruct E as (E1 & E2 & E3 & E4 & E5 & E).
  pose proof (sfBytes_range h l Hl). pose proof (zlen_nonneg l). destruct He as (_ & Hn & _).
  assert (0 <= Z.b2z h <= 1) by (destruct h; cbn; lia). unfold sfSize in *. rewrite <- !Z.add_assoc in *.
  split_and!; [unfold dec in *; by rewrite F by lia..|by rewrite F by lia| |unfold dec in *; by rewrite F by lia|].
  - intros ->. cbn in *. unfold dec in *. rewrite F by lia. auto.
  - apply IH; [lia| |done]. intros. apply F; lia.
Qed.

Lemma sf_at_len b h off ts l : sf_at b h off ts l -> length ts = length l.
Proof.
  revert off ts. induction l as [|e l IH]; intros off [|t ts]; cbn [sf_at]; [done..|].
  intros (_ & _ & _ & _ & _ & E). cbn. f_equal. by eapply IH.
Qed.
Lemma sf_at_app b h off ts us l k :
  length ts = length l ->
  sf_at b h off (ts ++ us) (l ++ k) <-> sf_at b h off ts l /\ sf_at b h (off + sfBytes h l) us k.
Proof.
  revert off ts. induction l as [|e l IH]; intros off [|t ts] L; cbn in L; try lia; cbn [app sf_at sfBytes].
  - rewrite Z.add_0_r. tauto.
  - rewrite IH, !Z.add_assoc by lia. tauto.
Qed.

(** ** The loops over a laid-out fork *)
Section Loops.
Context (b : bytes) (h : bool).

Lemma sfReadLoop_at l off ts :
  Forall sf_ent l -> 0 <= off -> off + sfBytes h l <= zlen b -> sf_at b h off ts l ->
  sfReadLoop (length l) b h 0 off = Ret (map (toDirEntry h) l).
Proof.
  intros Hl. revert off ts. induction Hl as [|e l He Hl IH]; intros off [|t ts] Ho Hle E; [done..|].
  cbn [sf_at sfBytes length sfReadLoop map] in *. destruct E as (E1 & _ & E3 & E4 & E5 & E).
  pose proof (sfBytes_range h l Hl). pose proof (zlen_nonneg l). destruct He as (_ & Hn & _).
  assert (0 <= Z.b2z h <= 1) by (destruct h; cbn; lia). unfold sfSize in *.
  rewrite (proj2 (Z.leb_gt _ _)) by lia. rewrite (byte_at_ok b off) by lia. ostep. rewrite E1.
  rewrite (proj2 (Z.ltb_ge _ _)) by lia. rewrite sub_ok by lia. ostep.
  replace (off + 3 + zlen (ename e) - (off + 3)) with (zlen (ename e)) by lia. rewrite E3.
  unfold sfInoSize. cbn [Z.ltb Z.compare Z.eqb].
  destruct h; cbn [Z.b2z andb] in *.
  - rewrite (proj2 (Z.leb_gt _ _)) by lia. rewrite byte_at_ok, E4 by (done || lia). ostep.
    rewrite (proj2 (Z.ltb_ge _ _)) by lia. rewrite (be_get_ok 4) by lia. ostep. rewrite E5.
    replace (off + 3 + zlen (ename e) + 1 + 4) with (off + (7 + zlen (ename e) + 1)) by lia.
    rewrite (fun a c => IH _ _ a c E) by lia. done.
  - ostep. rewrite Z.add_0_r in *.
    rewrite (proj2 (Z.ltb_ge _ _)) by lia. rewrite (be_get_ok 4) by lia. ostep. rewrite E5.
    replace (off + 3 + zlen (ename e) + 4) with (off + (7 + zlen (ename e))) by lia.
    rewrite (fun a c => IH _ _ a c E) by lia. done.
Qed.

Lemma sfLookupLoop_at name l off ts :
  Forall sf_ent l -> 0 <= off -> off + sfBytes h l <= zlen b -> sf_at b h off ts l ->
  sfLookupLoop (length l) b name h 0 off =
    match firstMatch name l with Some ino => Ret ino | None => Fail ErrNotFound end.
Proof.
  intros Hl. revert off ts. induction Hl as [|e l He Hl IH]; intros off [|t ts] Ho Hle E; [done..|].
  cbn [sf_at sfBytes length sfLookupLoop firstMatch] in *. destruct E as (E1 & _ & E3 & E4 & E5 & E).
  pose proof (sfBytes_range h l Hl). pose proof (zlen_nonneg l). destruct He as (_ & Hn & _).
  assert (0 <= Z.b2z h <= 1) by (destruct h; cbn; lia). unfold sfSize in *.
  rewrite (proj2 (Z.leb_gt _ _)) by lia. rewrite (byte_at_ok b off) by lia. ostep. rewrite E1.
  rewrite (proj2 (Z.ltb_ge _ _)) by lia. rewrite sub_ok by lia. ostep.
  replace (off + 3 + zlen (ename e) - (off + 3)) with (zlen (ename e)) by lia. rewrite E3.
  unfold sfInoSize. cbn [Z.ltb Z.compare Z.eqb].
  assert ((if h then off + 3 + zlen (ename e) + 1 else off + 3 + zlen (ename e)) =
          off + 3 + zlen (ename e) + Z.b2z h) as -> by (destruct h; cbn [Z.b2z]; lia).
  rewrite (proj2 (Z.ltb_ge _ _)) by lia. rewrite (be_get_ok 4) by lia. ostep. rewrite E5.
  case_bool_decide; [done|].
  replace (off + 3 + zlen (ename e) + Z.b2z h + 4) with (off + (7 + zlen (ename e) + Z.b2z h)) by lia.
  apply (fun a c => IH _ _ a c E); lia.
Qed.

Lemma sfSizeLoop_at l off ts d :
  Forall sf_ent l -> 0 <= off -> off + sfBytes h l <= zlen b -> sf_at b h off ts l ->
  sfSizeLoop (length l) b h 0 off d = Ret (Some (off + sfBytes h l, d + sfData h l)).
Proof.
  intros Hl. revert off ts d. induction Hl as [|e l He Hl IH]; intros off [|t ts] d Ho Hle E;
    cbn [sf_at sfBytes sfData length sfSizeLoop] in *; [by rewrite !Z.add_0_r|done..|].
  destruct E as (E1 & _ & _ & _ & _ & E).
  pose proof (sfBytes_range h l Hl). pose proof (zlen_nonneg l). destruct He as (_ & Hn & _).
  assert (0 <= Z.b2z h <= 1) by (destruct h; cbn; lia). unfold sfSize in *.
  rewrite (proj2 (Z.leb_gt _ _)) by lia. rewrite (byte_at_ok b off) by lia. ostep. rewrite E1.
  unfold sfInoSize. cbn [Z.ltb Z.compare].
  assert ((if h then off + (3 + zlen (ename e)) + 1 else off + (3 + zlen (ename e))) + 4 =
          off + (7 + zlen (ename e) + Z.b2z h)) as -> by (destruct h; cbn [Z.b2z]; lia).
  rewrite (fun a c => IH _ _ _ a c E) by lia. do 3 f_equal; lia.
Qed.
End Loops.

(** ** Listing and lookup *)
Section Fork.
Context (sb : superblock) (i : inode) (fork : bytes) (ts : list Z) (l : list dirEnt).
Context (Hf : dataFork i = Ret fork) (Hd : sf_dir sb (iraw i) inodeCoreSize ts l).

Lemma fork_sub : fork = slice (iraw i) inodeCoreSize (zlen (iraw i) - inodeCoreSize) /\ zlen fork = zlen (iraw i) - inodeCoreSize.
Proof.
  pose proof (sfBytes_range (hasFType sb) l (sf_ents _ _ _ _ _ Hd)). pose proof (sf_room _ _ _ _ _ Hd).
  pose proof (zlen_nonneg l). unfold dataFork, from, inodeCoreSize in *. rewrite sub_ok in Hf by lia.
  injection Hf as <-. split; [done|]. rewrite zlen_slice; lia.
Qed.

Lemma fork_dir : sf_dir sb fork 0 ts l.
Proof.
  destruct fork_sub as [Ef Lf]. destruct Hd as [C I8 En R A]. unfold inodeCoreSize in *.
  pose proof (sfBytes_range (hasFType sb) l En). pose proof (zlen_nonneg l).
  assert (forall o n, 0 <= o -> 0 <= n -> o + n <= zlen fork -> slice fork o n = slice (iraw i) (176 + o) n) as F.
  { intros. rewrite Ef. apply slice_slice; lia. }
  constructor; [unfold dec in *; by rewrite F by lia|unfold dec in *; by rewrite F by lia|done|lia|].
  eapply (sf_at_shift 176); [done|lia| |exact A]. intros. apply F; lia.
Qed.

Lemma fork_header :
  6 <= zlen fork /\ byte_at fork 0 = Ret (zlen l) /\ byte_at fork 1 = Ret 0 /\ Z.to_nat (zlen l) = length l.
Proof.
  destruct fork_dir as [C I8 En R _]. pose proof (sfBytes_range (hasFType sb) l En). pose proof (zlen_nonneg l).
  rewrite !byte_at_ok by lia. change (0 + 1) with 1 in I8. rewrite C, I8.
  split_and!; [lia|done|done|unfold zlen; lia].
Qed.

Lemma sfReadDir_at : sfReadDir fork (hasFType sb) = Ret (map (toDirEntry (hasFType sb)) l).
Proof.
  destruct fork_header as (H6 & E0 & E1 & En). destruct fork_dir as [_ _ Hl R A].
  unfold sfReadDir. rewrite (proj2 (Z.ltb_ge _ _)), E0, E1 by lia. ostep. rewrite En. cbn [Z.ltb Z.compare].
  eapply sfReadLoop_at; [done|lia|exact R|exact A].
Qed.
Lemma sfLookup_at name :
  sfLookup fork name (hasFType sb) = match firstMatch name l with Some ino => Ret ino | None => Fail ErrNotFound end.
Proof.
  destruct fork_header as (H6 & E0 & E1 & En). destruct fork_dir as [_ _ Hl R A].
  unfold sfLookup. rewrite (proj2 (Z.ltb_ge _ _)), E0, E1 by lia. ostep. rewrite En. cbn [Z.ltb Z.compare].
  eapply sfLookupLoop_at; [done|lia|exact R|exact A].
Qed.
End Fork.

(** ** Insertion *)
Definition sfCap (sb : superblock) (i : inode) : Z :=
  if iforkOff i =? 0 then inodeSize sb - inodeCoreSize else iforkOff i * 8.

Section Insert.
Context (sb : superblock) (G : geometry_ok sb) (i : inode) (Hi : inode_wf sb i) (ts : list Z) (l : list dirEnt) (e : dirEnt).
Context (Hd : sf_dir sb (iraw i) inodeCoreSize ts l) (He : sf_ent e) (Hc : sfCap sb i <= inodeSize sb - inodeCoreSize).
Let h := hasFType sb.
Let need := 6 + sfBytes h l + sfSize h e.

Lemma isz_small : 256 <= inodeSize sb <= 2048.
Proof.
  destruct (g_isz _ G) as (k & Hk & ->). split.
  - change 256 with (2 ^ 8). apply Z.pow_le_mono_r; lia.
  - change 2048 with (2 ^ 11). apply Z.pow_le_mono_r; lia.
Qed.

(** The bytes [addEntryToSFDir] writes, as one writer of the inode buffer. *)
Lemma insert_writes :
  need <= sfCap sb i ->
  let p := inodeCoreSize + (6 + sfBytes h l) in
  exists raw, (raw ← set_byte (iraw i) p (u8 (zlen (ename e)));
    raw ← put16 raw (p + 1) (u16 (sfDataStart sb + sfData h l));
    raw ← copy_to raw (p + 3) (ename e);
    raw ← (if h then set_byte raw (p + (3 + zlen (ename e))) (eftype e) else Ret raw);
    raw ← put32 raw (p + (if h then 3 + zlen (ename e) + 1 else 3 + zlen (ename e))) (u32 (eino e));
    set_byte raw inodeCoreSize (u8 (zlen l + 1))) = Ret raw /\
    wrote (iraw i) raw inodeCoreSize (p + sfSize h e) /\
    (forall o n, inodeCoreSize + 1 <= o -> 0 <= n -> o + n <= p -> slice raw o n = slice (iraw i) o n) /\
    dec 1 raw inodeCoreSize = zlen l + 1 /\ sf_at raw h p [sfDataStart sb + sfData h l] [e].
Proof.
  destruct Hi as (Hb & L & _). pose proof isz_small. destruct He as (Bn & Hn & Hino & Hft).
  pose proof (sfBytes_range h l (sf_ents _ _ _ _ _ Hd)) as [B1 B2]. pose proof (zlen_nonneg l).
  assert (0 <= Z.b2z h <= 1) by (destruct h; cbn; lia).
  unfold need, sfSize, inodeCoreSize in *. intros Hfit. cbv zeta. set (p := 176 + (6 + sfBytes h l)).
  destruct (set_byte_spec (iraw i) p (u8 (zlen (ename e)))) as (b1 & -> & W1 & E1); [lia|]. ostep. pose proof (wrote_len _ _ _ _ W1).
  destruct (put_spec 2 b1 (p + 1) (u16 (sfDataStart sb + sfData h l))) as (b2 & -> & W2 & E2); [lia..|]. ostep. pose proof (wrote_len _ _ _ _ W2).
  destruct (copy_spec b2 (p + 3) (ename e)) as (b3 & -> & W3 & E3); [lia|lia|done|]. ostep. pose proof (wrote_len _ _ _ _ W3).
  assert (exists b4, (if h then set_byte b3 (p + (3 + zlen (ename e))) (eftype e) else Ret b3) = Ret b4 /\
    wrote b3 b4 (p + 3 + zlen (ename e)) (p + 3 + zlen (ename e) + Z.b2z h) /\
    (h = true -> dec 1 b4 (p + 3 + zlen (ename e)) = eftype e)) as (b4 & -> & W4 & E4).
  { destruct h; cbn [Z.b2z] in *; [|exists b3; split_and!; [done|apply wrote_refl|done]].
    rewrite Z.add_assoc.
    destruct (set_byte_spec b3 (p + 3 + zlen (ename e)) (eftype e)) as (b4 & -> & W4 & E4); [lia|].
    exists b4. split_and!; [done|done|]. intros _. rewrite E4. by apply Z.mod_small. }
  ostep. pose proof (wrote_len _ _ _ _ W4).
  assert (p + (if h then 3 + zlen (ename e) + 1 else 3 + zlen (ename e)) = p + 3 + zlen (ename e) + Z.b2z h) as ->
    by (destruct h; cbn [Z.b2z]; lia).
  destruct (put_spec 4 b4 (p + 3 + zlen (ename e) + Z.b2z h) (u32 (eino e))) as (b5 & -> & W5 & E5); [lia..|]. ostep. pose proof (wrote_len _ _ _ _ W5).
  destruct (set_byte_spec b5 176 (u8 (zlen l + 1))) as (b6 & -> & W6 & E6); [lia|].
  exists b6. split_and!; [done| | | |].
  - do 5 (eapply wrote_trans; [eapply wrote_weaken; [eassumption|lia..]|]). eapply wrote_weaken; [eassumption|lia..].
  - intros. rewrite (wrote_slice _ _ _ _ W6), (wrote_slice _ _ _ _ W5), (wrote_slice _ _ _ _ W4),
      (wrote_slice _ _ _ _ W3), (wrote_slice _ _ _ _ W2), (wrote_slice _ _ _ _ W1) by lia. done.
  - rewrite E6. unfold u8. change (2 ^ 8) with 256. rewrite Zmod_mod. apply Z.mod_small. lia.
  - assert (0 <= sfDataStart sb + sfData h l < 2 ^ 16) as Hds.
    { unfold sfDataStart, dirDataHdrSize, dir3DataHdrSize, dir2DataHdrSize.
      destruct (dirEntrySize_range 1 h) as [R1 _], (dirEntrySize_range 2 h) as [R2 _].
      change dir2DataEntSize with dirEntrySize. fold h. destruct (hasCRC sb), h; cbn in R1, R2; lia. }
    cbn [sf_at].
    rewrite !(wrote_dec _ _ _ _ _ _ W6) by lia. rewrite (wrote_slice _ _ _ _ W6) by lia. rewrite E5.
    rewrite (wrote_dec _ _ _ _ _ p W5), (wrote_dec _ _ _ _ _ p W4), (wrote_dec _ _ _ _ _ p W3), (wrote_dec _ _ _ _ _ p W2), E1 by lia.
    rewrite (wrote_dec _ _ _ _ _ (p + 1) W5), (wrote_dec _ _ _ _ _ (p + 1) W4), (wrote_dec _ _ _ _ _ (p + 1) W3), E2 by lia.
    rewrite (wrote_slice _ _ _ _ W5), (wrote_slice _ _ _ _ W4), E3 by lia.
    unfold u8. rewrite u16_small, u32_small by lia. change (2 ^ 8) with 256. rewrite Zmod_mod, !Z.mod_small by lia.
    split_and!; try done. intros ->. cbn in *. rewrite (wrote_dec _ _ _ _ _ _ W5) by lia. auto.
Qed.

Lemma insert_unfold :
  addEntryToSFDir i (eino e) (ename e) (eftype e) sb =
    if sfCap sb i <? need then Ret None
    else
      let p := inodeCoreSize + (6 + sfBytes h l) in
      raw ← (raw ← set_byte (iraw i) p (u8 (zlen (ename e)));
        raw ← put16 raw (p + 1) (u16 (sfDataStart sb + sfData h l));
        raw ← copy_to raw (p + 3) (ename e);
        raw ← (if h then set_byte raw (p + (3 + zlen (ename e))) (eftype e) else Ret raw);
        raw ← put32 raw (p + (if h then 3 + zlen (ename e) + 1 else 3 + zlen (ename e))) (u32 (eino e));
        set_byte raw inodeCoreSize (u8 (zlen l + 1)));
      i' ← setInodeSize (set_raw i raw) need;
      Ret (Some i').
Proof.
  destruct (dataFork_ok sb G i Hi) as (fork & Hf & _ & _). unfold addEntryToSFDir. rewrite Hf. ostep.
  destruct (fork_header sb i fork ts l Hf Hd) as (H6 & -> & -> & En). destruct (fork_dir sb i fork ts l Hf Hd) as [_ _ Hl R A].
  destruct He as (Bn & Hn & Hino & Hft).
  rewrite (proj2 (Z.ltb_ge (zlen fork) 2)) by lia. ostep. cbn [Z.ltb Z.compare]. rewrite En. fold (sfDataStart sb). fold h in A, R |- *.
  rewrite (proj2 (Z.ltb_ge 4294967295 (eino e))) by lia.
  change (2 + 4) with 6. change (0 + 6) with 6 in A, R.
  pose proof (sfBytes_range h l Hl).
  rewrite (sfSizeLoop_at fork h l 6 ts (sfDataStart sb) Hl ltac:(lia) R A). ostep. fold (sfCap sb i).
  assert ((if h then 1 + 2 + zlen (ename e) + 4 + 1 else 1 + 2 + zlen (ename e) + 4) = sfSize h e) as ->
    by (unfold sfSize; destruct h; cbn [Z.b2z]; lia).
  fold need. destruct (_ <? need); [done|]. change (4 =? 8) with false. cbv zeta iota.
  repeat (match goal with |- (?m ≫= _) = _ => destruct m; ostep; try done end).
Qed.

Lemma insert_spec :
  (sfCap sb i < need -> addEntryToSFDir i (eino e) (ename e) (eftype e) sb = Ret None) /\
  (need <= sfCap sb i -> exists i', addEntryToSFDir i (eino e) (ename e) (eftype e) sb = Ret (Some i') /\
     inode_wf sb i' /\ isize i' = need /\ sf_dir sb (iraw i') inodeCoreSize (ts ++ [sfDataStart sb + sfData h l]) (l ++ [e])).
Proof.
  rewrite insert_unfold. split; intros Hfit.
  { by rewrite (proj2 (Z.ltb_lt _ _)) by lia. }
  rewrite (proj2 (Z.ltb_ge _ _)) by lia. cbv zeta.
  destruct (insert_writes Hfit) as (raw & -> & W & F & Ec & A). ostep.
  destruct Hi as (Hb & L & Hs). pose proof isz_small. pose proof (wrote_len _ _ _ _ W) as Lr.
  pose proof (fork_sync i Hs raw _ W) as Hs1.
  pose proof (sfBytes_range h l (sf_ents _ _ _ _ _ Hd)) as [B1 B2]. pose proof (zlen_nonneg l).
  assert (0 <= need < 2 ^ 64).
  { unfold need, sfSize, inodeCoreSize in *. destruct He as (_ & ? & _). destruct h; cbn [Z.b2z] in *; lia. }
  destruct (setInodeSize_sync (set_raw i raw) Hs1 need) as (i' & -> & Sz & Hs2 & W2); [done|]. ostep.
  pose proof (wrote_len _ _ _ _ W2) as L2. cbn [iraw set_raw] in W2, L2.
  assert (forall o n, 64 <= o -> 0 <= n -> slice (iraw i') o n = slice raw o n) as F2.
  { intros. apply (wrote_slice _ _ _ _ W2); lia. }
  assert (sfBytes h (l ++ [e]) = sfBytes h l + sfSize h e) as Eb by (rewrite sfBytes_app; cbn [sfBytes]; lia).
  exists i'. split_and!; [done| |done|].
  - split_and!; [|lia|done]. eapply wrote_bytes; [exact W2|]. by eapply wrote_bytes.
  - pose proof Hd as [C I8 En R A0]. unfold need, inodeCoreSize in *.
    constructor.
    + unfold dec in *. rewrite F2, zlen_app by lia. rewrite Ec, zlen_cons, zlen_nil. lia.
    + unfold dec in *. rewrite F2, F by lia. exact I8.
    + apply Forall_app. split; [done|by constructor].
    + fold h. rewrite Eb. lia.
    + fold h. apply sf_at_app; [by eapply sf_at_len|]. split.
      * apply (sf_at_shift 0 (iraw i)); [done|lia| |exact A0]. intros. rewrite F2, F by lia. done.
      * apply (sf_at_shift 0 raw); [by constructor|lia| |rewrite !Z.add_0_l; by rewrite <- Z.add_assoc].
        intros. rewrite F2 by lia. done.
Qed.
End Insert.


Definition sample_sfdir : inode :=
  Eval vm_compute in decodeInode 0 (raw_of (
    b ← put16 sample_raw inoOffMode 0x41ED;
    b ← put64 b inoOffSize 6; put32 b (inodeCoreSize + 2) 128)).
Lemma sample_sfdir_wf : inode_wf sample_sb sample_sfdir /\ sf_dir sample_sb (iraw sample_sfdir) inodeCoreSize [] [].
Proof.
  split.
  - split; [by apply (bool_decide_unpack _)|split; [reflexivity|]].
    split; [discriminate|vm_compute; reflexivity].
  - constructor; try reflexivity; [constructor|vm_compute; discriminate].
Qed.

Definition sample_i8dir : inode :=
  Eval vm_compute in decodeInode 0 (raw_of (
    b ← put16 sample_raw inoOffMode 0x41ED;
    b ← put64 b inoOffSize 21;
    b ← copy_to b inodeCoreSize [1; 1]; b ← put64 b (inodeCoreSize + 2) 128;
    copy_to b (inodeCoreSize + 10) ([1; 0; 96; 120; 1] ++ be_encode 8 (2 ^ 33)))).

(** A directory that already stores 8-byte inode numbers gets its new entry
    with a 4-byte number: a concrete such directory, after a successful insertion,
    no longer lists or finds the entry that was inserted. *)
Lemma addEntryToSFDir_i8_corrupts :
  exists i' fork fork', dataFork sample_i8dir = Ret fork /\ sfLookup fork [120] (hasFType sample_sb) = Ret (2 ^ 33) /\
    addEntryToSFDir sample_i8dir 131 [97; 98] 1 sample_sb = Ret (Some i') /\ dataFork i' = Ret fork' /\
    sfLookup fork' [97; 98] (hasFType sample_sb) <> Ret 131.
Proof.
  do 3 eexists. split_and!; [vm_compute; reflexivity..|]. vm_compute. discriminate.
Qed.
