(* ===== verification/Delete.v ===== *)
(** * Removing directory entries (delete.go)

    [removeSFEntry] takes an entry out of a short-form directory: the entries behind it move
    up over it, the vacated tail is cleared, the count and the inode size shrink. *)
From S2P Require Import Prelude Bytes Crc Extent Device Superblock SafeIO Inode FileRead Dir SfDir.

(** The bounds of the first entry called [name], [None] when there is none. *)
Fixpoint removeSFLoop (n : nat) (fork name : bytes) (hasFType : bool) (inoSize off : Z) : outcome (option (Z * Z)) :=
  match n with
  | O => Ret None
  | S n' =>
      if zlen fork <=? off + 3 then Ret None
      else
        namelen ← byte_at fork off;
        let entStart := off in
        let off := off + 3 in
        if zlen fork <? off + namelen then Ret None
        else
          nm ← sub fork off (off + namelen);
          let off := off + namelen in
          let off := if hasFType then off + 1 else off in
          let off := off + inoSize in
          if bool_decide (nm = name) then Ret (Some (entStart, off))
          else removeSFLoop n' fork name hasFType inoSize off
  end.

(** The edit of the inode; [fork] is a slice of its raw buffer. *)
Definition removeSFInode (sb : superblock) (i : inode) (name : bytes) : outcome inode :=
  fork ← dataFork i;
  if zlen fork <? 2 then Fail ErrNotFound
  else
    count ← byte_at fork 0;
    i8count ← byte_at fork 1;
    let parentSize := if 0 <? i8count then 8 else 4 in
    let inoSize := if 0 <? i8count then 8 else 4 in
    st ← removeSFLoop (Z.to_nat count) fork name (hasFType sb) inoSize (2 + parentSize);
    match st with
    | None => Fail ErrNotFound
    | Some (entStart, entEnd) =>
        let entLen := entEnd - entStart in
        rest ← from fork entEnd;
        fork' ← copy_to fork entStart rest;
        fork' ← clear_range fork' (zlen fork' - entLen) (zlen fork');
        fork' ← set_byte fork' 0 (u8 (count - 1));
        setInodeSize (set_raw i (splice (iraw i) inodeCoreSize fork')) (u64 (isize i - entLen))
    end.
(** The caller's inode is edited; it is returned. *)
Definition removeSFEntry {D} `{Device D} (partOff : Z) (sb : superblock) (i : inode) (name : bytes) : M (World D) inode :=
  i' ← lift (removeSFInode sb i name);
  writeInode partOff sb i';;
  mret i'.

(** ** On laid-out entries *)
Fixpoint cutName (name : bytes) (l : list dirEnt) : option (list dirEnt * dirEnt * list dirEnt) :=
  match l with
  | [] => None
  | e :: rest =>
      if bool_decide (ename e = name) then Some ([], e, rest)
      else match cutName name rest with Some (l1, x, l2) => Some (e :: l1, x, l2) | None => None end
  end.
Lemma cutName_Some name l l1 e l2 : cutName name l = Some (l1, e, l2) -> l = l1 ++ e :: l2 /\ ename e = name.
Proof.
  revert l1. induction l as [|x l IH]; intros l1; cbn; [done|]. case_bool_decide; [by intros [= <- <- <-]|].
  destruct (cutName name l) as [[[a y] c]|] eqn:E; [|done]. intros [= <- <- <-]. destruct (IH a eq_refl) as [-> ?]. done.
Qed.

Lemma removeSFLoop_at name b h l off ts :
  Forall sf_ent l -> 0 <= off -> off + sfBytes h l <= zlen b -> sf_at b h off ts l ->
  removeSFLoop (length l) b name h 4 off =
    Ret (match cutName name l with
         | Some (l1, e, _) => Some (off + sfBytes h l1, off + sfBytes h l1 + sfSize h e)
         | None => None
         end).
Proof.
  intros Hl. revert off ts. induction Hl as [|e l He Hl IH]; intros off [|t ts] Ho Hle E; [done..|].
  cbn [sf_at sfBytes length removeSFLoop cutName] in *. destruct E as (E1 & _ & E3 & _ & _ & E).
  pose proof (sfBytes_range h l Hl). pose proof (zlen_nonneg l). destruct He as (_ & Hn & _).
  assert (0 <= Z.b2z h <= 1) by (destruct h; cbn; lia). unfold sfSize in *.
  rewrite (proj2 (Z.leb_gt _ _)) by lia. rewrite (byte_at_ok b off) by lia. ostep. rewrite E1.
  rewrite (proj2 (Z.ltb_ge _ _)) by lia. rewrite sub_ok by lia. ostep.
  replace (off + 3 + zlen (ename e) - (off + 3)) with (zlen (ename e)) by lia. rewrite E3.
  assert ((if h then off + 3 + zlen (ename e) + 1 else off + 3 + zlen (ename e)) + 4 =
          off + (7 + zlen (ename e) + Z.b2z h)) as -> by (destruct h; cbn [Z.b2z]; lia).
  case_bool_decide; [by rewrite Z.add_0_r|]. rewrite (fun a c => IH _ _ a c E) by lia.
  destruct (cutName name l) as [[[l1 x] l2]|]; [|done]. cbn [sfBytes]. unfold sfSize. do 3 f_equal; lia.
Qed.

Section Remove.
Context (sb : superblock) (fork : bytes) (ts1 : list Z) (t : Z) (ts2 : list Z) (l1 : list dirEnt) (e : dirEnt) (l2 : list dirEnt).
Let h := hasFType sb.
Context (Hb : isbytes fork) (Hd : sf_dir sb fork 0 (ts1 ++ t :: ts2) (l1 ++ e :: l2)) (Hl : length ts1 = length l1).
Let p := 6 + sfBytes h l1.
Let q := p + sfSize h e.

Lemma remove_fork :
  exists fork', (rest ← from fork q;
    fork' ← copy_to fork p rest;
    fork' ← clear_range fork' (zlen fork' - (q - p)) (zlen fork');
    set_byte fork' 0 (u8 (zlen (l1 ++ e :: l2) - 1))) = Ret fork' /\
    zlen fork' = zlen fork /\ isbytes fork' /\ sf_dir sb fork' 0 (ts1 ++ ts2) (l1 ++ l2).
Proof.
  destruct Hd as [C I8 En R A]. pose proof En as En'. apply Forall_app in En' as [En1 [Ee En2]%Forall_cons].
  pose proof (sfBytes_range h l1 En1) as [B1 _]. pose proof (sfBytes_range h l2 En2) as [B2 _]. pose proof (zlen_nonneg l1). pose proof (zlen_nonneg l2).
  fold h in R, A. rewrite sfBytes_app in R. cbn [sfBytes] in R. rewrite sf_at_app in A by done. destruct A as [A1 A2]. cbn [sf_at] in A2.
  destruct A2 as (_ & _ & _ & _ & _ & A2).
  assert (8 <= sfSize h e) by (destruct Ee as (_ & ? & _); unfold sfSize; destruct h; cbn [Z.b2z]; lia).
  assert (zlen (l1 ++ e :: l2) = zlen l1 + 1 + zlen l2) as Ec by (rewrite zlen_app, zlen_cons; lia).
  pose proof (dec_range 1 fork 0 Hb ltac:(lia) ltac:(lia) ltac:(lia)) as Hc. change (256 ^ 1) with 256 in Hc.
  set (rest := slice fork q (zlen fork - q)).
  assert (zlen rest = zlen fork - q) as Lr by (apply zlen_slice; unfold q, p; lia).
  assert (isbytes rest) as Hr by (by apply isbytes_slice).
  unfold from. rewrite sub_ok by (unfold q, p; lia). ostep. fold rest.
  destruct (copy_spec fork p rest) as (f1 & -> & W1 & E1); [unfold p; lia|unfold q in Lr; lia|done|]. ostep. pose proof (wrote_len _ _ _ _ W1) as L1.
  destruct (clear_spec f1 (zlen f1 - (q - p)) (zlen f1)) as (f2 & -> & W2 & _); [unfold q, p; lia|unfold q; lia|lia|]. ostep. pose proof (wrote_len _ _ _ _ W2) as L2.
  destruct (set_byte_spec f2 0 (u8 (zlen (l1 ++ e :: l2) - 1))) as (f3 & -> & W3 & E3); [lia|]. pose proof (wrote_len _ _ _ _ W3) as L3.
  assert (forall o n, 1 <= o -> 0 <= n -> o + n <= p -> slice f3 o n = slice fork o n) as Fl.
  { intros. rewrite (wrote_slice _ _ _ _ W3), (wrote_slice _ _ _ _ W2), (wrote_slice _ _ _ _ W1) by (unfold q, p in *; lia). done. }
  assert (forall o n, p <= o -> 0 <= n -> o + n <= zlen fork - (q - p) -> slice f3 o n = slice fork (q - p + o) n) as Fr.
  { intros o n ? ? ?. rewrite (wrote_slice _ _ _ _ W3), (wrote_slice _ _ _ _ W2) by (unfold q, p in *; lia).
    transitivity (slice rest (o - p) n).
    - rewrite <- E1, slice_slice by (unfold q, p in *; lia). f_equal. lia.
    - unfold rest. rewrite slice_slice by (unfold q, p in *; lia). f_equal. lia. }
  exists f3. split_and!; [done|lia|by do 3 (eapply wrote_bytes; [eassumption|])|].
  constructor.
  - rewrite E3, Ec, zlen_app. unfold u8. change (2 ^ 8) with 256. rewrite Zmod_mod, Z.mod_small; lia.
  - unfold dec in *. rewrite Fl by (unfold p; lia). exact I8.
  - by apply Forall_app.
  - fold h. rewrite sfBytes_app. lia.
  - fold h. change (0 + 6) with 6 in *. apply sf_at_app; [done|]. split.
    + apply (sf_at_shift 0 fork); [done|lia| |exact A1]. intros. by rewrite Fl by (unfold p; lia).
    + fold p. apply (sf_at_shift (q - p) fork); [done|unfold p; lia| |].
      * intros. apply Fr; unfold q, p in *; lia.
      * replace (q - p + p) with (6 + sfBytes h l1 + sfSize h e) by (unfold q, p; lia). exact A2.
Qed.
End Remove.

(** C14 (functional).  Removing a name from a short-form directory: without an entry of that
    name the call reports [ErrNotFound]; otherwise the first such entry goes, the new
    inode is well formed, its size shrinks by the entry, the listing is the old one
    without it, and lookup agrees with the listing; the other entries keep their tags. *)
Theorem removeSFEntry_correct (sb : superblock) (i : inode) (ts : list Z) (l : list dirEnt) (name : bytes) :
  geometry_ok sb -> inode_wf sb i -> sf_dir sb (iraw i) inodeCoreSize ts l ->
  isize i = 6 + sfBytes (hasFType sb) l ->
  match cutName name l with
  | None => removeSFInode sb i name = Fail ErrNotFound
  | Some (l1, e, l2) =>
      exists i' fork' ts1 t ts2, removeSFInode sb i name = Ret i' /\ inode_wf sb i' /\
        ts = ts1 ++ t :: ts2 /\ length ts1 = length l1 /\
        sf_dir sb (iraw i') inodeCoreSize (ts1 ++ ts2) (l1 ++ l2) /\ isize i' = 6 + sfBytes (hasFType sb) (l1 ++ l2) /\
        dataFork i' = Ret fork' /\
        sfReadDir fork' (hasFType sb) = Ret (map (toDirEntry (hasFType sb)) (l1 ++ l2)) /\
        (forall nm, sfLookup fork' nm (hasFType sb) =
           match firstMatch nm (l1 ++ l2) with Some ino => Ret ino | None => Fail ErrNotFound end)
  end.
Proof.
  intros G Hi Hd Hsz. destruct (dataFork_ok sb G i Hi) as (fork & Hf & Hb & Lf).
  destruct (fork_header sb i fork ts l Hf Hd) as (H6 & E0 & E1 & En). pose proof (fork_dir sb i fork ts l Hf Hd) as Hd0.
  pose proof Hd0 as [_ _ Hl R A].
  assert (removeSFInode sb i name = match cutName name l with
    | None => Fail ErrNotFound
    | Some (l1, e, _) => fork' ← (rest ← from fork (6 + sfBytes (hasFType sb) l1 + sfSize (hasFType sb) e);
        fork' ← copy_to fork (6 + sfBytes (hasFType sb) l1) rest;
        fork' ← clear_range fork' (zlen fork' - sfSize (hasFType sb) e) (zlen fork');
        set_byte fork' 0 (u8 (zlen l - 1)));
      setInodeSize (set_raw i (splice (iraw i) inodeCoreSize fork')) (u64 (isize i - sfSize (hasFType sb) e))
    end) as ->.
  { unfold removeSFInode. rewrite Hf. ostep. rewrite (proj2 (Z.ltb_ge (zlen fork) 2)) by lia. rewrite E0, E1. ostep. cbn [Z.ltb Z.compare].
    rewrite En, (removeSFLoop_at name fork (hasFType sb) l (2 + 4) ts) by (done || lia). ostep.
    destruct (cutName name l) as [[[l1 e] l2]|]; [|done]. change (2 + 4) with 6.
    replace (6 + sfBytes (hasFType sb) l1 + sfSize (hasFType sb) e - (6 + sfBytes (hasFType sb) l1)) with (sfSize (hasFType sb) e) by lia.
    repeat (match goal with |- (?m ≫= _) = _ => destruct m; ostep; try done end). }
  destruct (cutName name l) as [[[l1 e] l2]|] eqn:Ec; [|done]. apply cutName_Some in Ec as [-> _].
  assert (exists ts1 t ts2, ts = ts1 ++ t :: ts2 /\ length ts1 = length l1) as (ts1 & t & ts2 & -> & Lt).
  { apply sf_at_len in A. rewrite length_app in A. cbn in A. exists (take (length l1) ts).
    destruct (drop (length l1) ts) as [|t ts2] eqn:Ed; [apply (f_equal length) in Ed; rewrite length_drop in Ed; cbn in Ed; lia|].
    exists t, ts2. rewrite <- Ed, take_drop, length_take. split; [done|lia]. }
  destruct (remove_fork sb fork ts1 t ts2 l1 e l2 Hb Hd0 Lt) as (f' & Ef & Lf' & Hb' & Hd').
  set (h := hasFType sb) in *. replace (6 + sfBytes h l1 + sfSize h e - (6 + sfBytes h l1)) with (sfSize h e) in Ef by lia. rewrite Ef. ostep.
  destruct Hi as (Hbr & L & Hs). unfold inodeCoreSize in *.
  destruct (fork_sub sb i fork _ _ Hf Hd) as [_ Lfr]. unfold inodeCoreSize in Lfr.
  pose proof (splice_wrote (iraw i) 176 f' ltac:(lia) ltac:(lia) Hb') as W. pose proof (wrote_len _ _ _ _ W) as Lr.
  pose proof Hl as Hl'. apply Forall_app in Hl' as [Hl1 [He Hl2]%Forall_cons].
  pose proof (sfBytes_range h l1 Hl1). pose proof (sfBytes_range h l2 Hl2). pose proof (zlen_nonneg l1). pose proof (zlen_nonneg l2).
  rewrite sfBytes_app in Hsz, R |- *. cbn [sfBytes] in Hsz, R. pose proof (isz_small sb G l1 e).
  assert (8 <= sfSize h e) by (destruct He as (_ & ? & _); unfold sfSize; destruct h; cbn [Z.b2z]; lia).
  rewrite u64_small by lia.
  destruct (setInodeSize_sync _ (fork_sync i Hs _ _ W) (isize i - sfSize h e)) as (i' & -> & Sz & Hs2 & W2); [lia|].
  pose proof (wrote_len _ _ _ _ W2) as L2. cbn [iraw set_raw] in W2, L2.
  assert (forall o n, 0 <= o -> 0 <= n -> o + n <= zlen fork -> slice (iraw i') (176 + o) n = slice f' o n) as F.
  { intros. rewrite (wrote_slice _ _ _ _ W2), slice_splice_in by lia. f_equal. lia. }
  assert (inode_wf sb i') as Wi.
  { split_and!; [|lia|done]. eapply wrote_bytes; [exact W2|]. by eapply wrote_bytes. }
  assert (sf_dir sb (iraw i') 176 (ts1 ++ ts2) (l1 ++ l2)) as Hdi.
  { destruct Hd' as [C' I8' En' R' A']. fold h in R', A'. rewrite sfBytes_app in R'. constructor; [| |done|fold h; rewrite sfBytes_app; lia|].
    - replace 176 with (176 + 0) by lia. unfold dec in *. by rewrite F by lia.
    - unfold dec in *. by rewrite F by lia.
    - fold h. apply (sf_at_shift (-176) f'); [done|lia| |exact A']. rewrite sfBytes_app. intros o n ? ? ?.
      replace (slice (iraw i') o n) with (slice (iraw i') (176 + (o - 176)) n) by (f_equal; lia). rewrite F by lia. f_equal. lia. }
  destruct (dataFork_ok sb G i' Wi) as (fork' & Hf' & _). exists i', fork', ts1, t, ts2.
  split_and!; try done; [lia|by eapply (sfReadDir_at sb i')|intros; by eapply (sfLookup_at sb i')].
Qed.

(** "ab" and "cd", inodes 131 and 132, added to the empty directory. *)
Definition two_entries : inode :=
  Eval vm_compute in
    match addEntryToSFDir sample_sfdir 131 [97; 98] 1 sample_sb with
    | Ret (Some i) => match addEntryToSFDir i 132 [99; 100] 1 sample_sb with Ret (Some j) => j | _ => i end
    | _ => sample_sfdir
    end.
Lemma two_entries_ok :
  inode_wf sample_sb two_entries /\
  sf_dir sample_sb (iraw two_entries) inodeCoreSize [96; 112] [mkDirEnt [97; 98] 131 1; mkDirEnt [99; 100] 132 1].
Proof.
  split.
  - split; [by apply (bool_decide_unpack _)|split; [reflexivity|]]. split; [discriminate|vm_compute; reflexivity].
  - constructor.
    + vm_compute. reflexivity.
    + vm_compute. reflexivity.
    + by apply (bool_decide_unpack _).
    + vm_compute. discriminate.
    + vm_compute. repeat split; reflexivity.
Qed.
Lemma removeSFEntry_correct_witness :
  exists i' fork', removeSFInode sample_sb two_entries [97; 98] = Ret i' /\ dataFork i' = Ret fork' /\
    sfLookup fork' [97; 98] (hasFType sample_sb) = Fail ErrNotFound /\ sfLookup fork' [99; 100] (hasFType sample_sb) = Ret 132.
Proof.
  destruct two_entries_ok as [Wi Hd].
  destruct (removeSFEntry_correct sample_sb two_entries [96; 112] [mkDirEnt [97; 98] 131 1; mkDirEnt [99; 100] 132 1] [97; 98]
    sample_sb_geometry Wi Hd ltac:(vm_compute; reflexivity)) as (i' & fork' & _ & _ & _ & E & _ & _ & _ & _ & _ & Hf & _ & Hl).
  exists i', fork'. split; [exact E|]. split; [exact Hf|]. split; rewrite Hl; reflexivity.
Defined.

(** The survivors keep their tags, while an insertion computes its tag from the sizes of
    the entries present: removing "ab" and adding "ef" gives "cd" and "ef" the tag 112. *)
Example removal_then_insertion_repeats_tag :
  exists j k, removeSFInode sample_sb two_entries [97; 98] = Ret j /\
    addEntryToSFDir j 133 [101; 102] 1 sample_sb = Ret (Some k) /\
    sf_dir sample_sb (iraw k) inodeCoreSize [112; 112] [mkDirEnt [99; 100] 132 1; mkDirEnt [101; 102] 133 1].
Proof.
  eexists _, _. split_and!; [vm_compute; reflexivity..|]. constructor.
  - vm_compute. reflexivity.
  - vm_compute. reflexivity.
  - by apply (bool_decide_unpack _).
  - vm_compute. discriminate.
  - vm_compute. repeat split; reflexivity.
Qed.

(** The shift runs to the end of the inode: an attribute fork (here 16 bytes of 7 at
    [forkOff * 8 = 64]) moves up by the entry's 10 bytes. *)
Definition with_attributes : inode :=
  mkInode (inum two_entries) (imode two_entries) (iformat two_entries) (isize two_entries) (inBlocks two_entries)
    (inExts two_entries) 8 (splice (iraw two_entries) (inodeCoreSize + 64) (replicate 16 7)).
Example removal_shifts_attributes :
  exists j, removeSFInode sample_sb with_attributes [97; 98] = Ret j /\
    slice (iraw j) (inodeCoreSize + 64) 16 = replicate 6 7 ++ make_bytes 10.
Proof. eexists. split; vm_compute; reflexivity. Qed.
