(* ===== verification/Lookup.v ===== *)
(** * Path resolution and directory listing (dir.go)

    Lookup and listing over the extents of a directory, [pathLookup] with its bound on
    symbolic links, and the pieces of Go's path and strings packages it uses.  The
    function variables of dir.go ([dirReadInode], [dirPathLookup], ...) always hold
    the functions of the same name outside the tests and are modelled by them. *)
From S2P Require Import Prelude Bytes Extent Device Superblock SafeIO Inode FileRead Dir.

(** ** Go's path and strings functions, on byte strings *)
Definition slash := 0x2f.
(** [strings.Split(s, "/")] *)
Fixpoint splitSlash (s : bytes) : list bytes :=
  match s with
  | [] => [[]]
  | c :: rest =>
      if c =? slash then [] :: splitSlash rest
      else match splitSlash rest with
           | w :: ws => (c :: w) :: ws
           | [] => [[c]]
           end
  end.
(** [strings.Join(ws, "/")] *)
Fixpoint joinSlash (ws : list bytes) : bytes :=
  match ws with
  | [] => []
  | [w] => w
  | w :: rest => w ++ slash :: joinSlash rest
  end.
Definition rooted (p : bytes) : bool := match p with c :: _ => c =? slash | [] => false end.
(** One component of [path.Clean]; the stack [acc] is reversed. *)
Definition cleanStep (r : bool) (acc : list bytes) (w : bytes) : list bytes :=
  if bool_decide (w = []) || bool_decide (w = dot) then acc
  else if bool_decide (w = dotdot) then
    match acc with
    | [] => if r then [] else [dotdot]
    | t :: rest => if bool_decide (t = dotdot) then dotdot :: acc else rest
    end
  else w :: acc.
Definition cleanParts (p : bytes) : list bytes :=
  rev (fold_left (cleanStep (rooted p)) (splitSlash p) []).
(** [path.Clean(p)] *)
Definition pathClean (p : bytes) : bytes :=
  let ws := cleanParts p in
  if rooted p then slash :: joinSlash ws
  else match ws with [] => dot | _ => joinSlash ws end.
(** [strings.TrimPrefix(p, "/")] *)
Definition trimSlash (p : bytes) : bytes := match p with c :: rest => if c =? slash then rest else p | [] => [] end.

Definition maxSymlinkDepth := 40.

Section Lookup.
Context {SIO : SafeIO} {D : Type} {Dev : Device D}.
Variables (r : D) (partOff : Z) (sb : superblock).

(** ** Directories over extents *)
Definition dirExtents (i : inode) : outcome (list extent) :=
  if iformat i =? inodeFmtExtents then inlineExtents i
  else if iformat i =? inodeFmtBtree then btreeExtents r partOff sb i
  else Fail (Errorf "unsupported format for dir extents").

(** [for b := 0; b < e.count; b++] of [blockDirLookup]. *)
Fixpoint lookupRun (n : nat) (e : extent) (b : Z) (name : bytes) : outcome (option Z) :=
  match n with
  | O => Ret None
  | S n' =>
      blk ← readRawBlock r partOff sb (u64 (startBlock e + b));
      found ← searchDirBlock blk name (hasFType sb) (hasCRC sb);
      match found with
      | Some ino => Ret (Some ino)
      | None => lookupRun n' e (b + 1) name
      end
  end.
Fixpoint lookupExts (exts : list extent) (name : bytes) : outcome Z :=
  match exts with
  | [] => Fail ErrNotFound
  | e :: rest =>
      let leafLogBlock := dirLeafByteOffset / blockSize sb in
      if leafLogBlock <=? startOff e then lookupExts rest name
      else
        found ← lookupRun (Z.to_nat (count e)) e 0 name;
        match found with
        | Some ino => Ret ino
        | None => lookupExts rest name
        end
  end.
Definition blockDirLookup (i : inode) (name : bytes) : outcome Z :=
  exts ← dirExtents i;
  lookupExts exts name.

Definition lookupInDir (i : inode) (name : bytes) : outcome Z :=
  if iformat i =? inodeFmtLocal then fork ← dataFork i; sfLookup fork name (hasFType sb)
  else if (iformat i =? inodeFmtExtents) || (iformat i =? inodeFmtBtree) then blockDirLookup i name
  else Fail (Errorf "unsupported dir format").

Fixpoint readDirRun (n : nat) (e : extent) (b : Z) : outcome (list DirEntry) :=
  match n with
  | O => Ret []
  | S n' =>
      blk ← readRawBlock r partOff sb (u64 (startBlock e + b));
      es ← parseDirBlock blk (hasFType sb) (hasCRC sb);
      rest ← readDirRun n' e (b + 1);
      Ret (es ++ rest)
  end.
Definition blockReadDir (i : inode) : outcome (list DirEntry) :=
  exts ← dirExtents i;
  let leafLogBlock := dirLeafByteOffset / blockSize sb in
  range_acc exts [] (fun e entries =>
    if leafLogBlock <=? startOff e then Ret entries
    else es ← readDirRun (Z.to_nat (count e)) e 0; Ret (entries ++ es)).
Definition readDir (i : inode) : outcome (list DirEntry) :=
  if iformat i =? inodeFmtLocal then fork ← dataFork i; sfReadDir fork (hasFType sb)
  else if (iformat i =? inodeFmtExtents) || (iformat i =? inodeFmtBtree) then blockReadDir i
  else Fail (Errorf "unsupported dir format").

(** [dirParentIno] of write.go: the ".." entry of logical block 0. *)
Fixpoint parentExts (exts : list extent) : outcome Z :=
  match exts with
  | [] => Fail (Errorf "directory inode has no data block")
  | e :: rest =>
      if negb (startOff e =? 0) || (dirLeafByteOffset / blockSize sb <=? startOff e) then parentExts rest
      else
        blk ← readRawBlock r partOff sb (startBlock e);
        blockDirParent blk (hasFType sb) (hasCRC sb)
  end.
Definition dirParentIno (i : inode) : outcome Z := exts ← dirExtents i; parentExts exts.

(** ** Path resolution *)
(** The loop over the components; [follow] resolves a symlink target. *)
Fixpoint walkParts (follow : bytes -> outcome inode) (parts : list bytes) (cur : inode) : outcome inode :=
  match parts with
  | [] => Ret cur
  | name :: rest =>
      childIno ← lookupInDir cur name;
      child ← readInode r partOff sb childIno;
      if isSymlink child then
        target ← readSymlinkTarget r partOff sb child;
        cur ← follow target;
        walkParts follow rest cur
      else walkParts follow rest child
  end.

Fixpoint pathLookupResolve (fuel : nat) (p : bytes) (depth : Z) : outcome inode :=
  match fuel with
  | O => NoFuel
  | S fuel' =>
      if maxSymlinkDepth <=? depth then Fail ErrSymlinkLoop
      else
        let p := pathClean p in
        root ← readInode r partOff sb (rootIno sb);
        if bool_decide (p = [slash]) || bool_decide (p = dot) then Ret root
        else walkParts (fun target => pathLookupResolve fuel' target (depth + 1))
                       (splitSlash (trimSlash p)) root
  end.
Definition pathLookup (p : bytes) : outcome inode :=
  pathLookupResolve (Z.to_nat (maxSymlinkDepth + 1)) p 0.
End Lookup.

(** ** Safety on hostile images *)
(** [inodeByteOff] has no overflow check, so a forged inode number can make [readInode] read at a
    negative offset, where the laws of the device promise nothing.  This is the only read of
    the resolver that they do not cover. *)
Definition negative_inode_reads_fail {D} `{Device D} (r : D) (partOff : Z) (sb : superblock) : Prop :=
  forall ino, inodeByteOff sb partOff ino < 0 -> safe (ReadAt r (inodeByteOff sb partOff ino) (inodeSize sb)).

Section Safe.
Context {SIO : SafeIO} {SL : SafeIOLaws SIO} {D : Type} {Dev : Device D} {DL : DeviceLaws D}.
Context (r : D) (partOff : Z) (sb : superblock) (W : sb_width sb) (G : geometry_ok sb)
        (Hp : 0 <= partOff < 2 ^ 63) (Hneg : negative_inode_reads_fail r partOff sb).

Lemma readInode_post ino : post (inode_wf sb) (readInode r partOff sb ino).
Proof.
  pose proof (inodeSize_range sb G). unfold readInode, readBytes.
  assert (safe (ReadAt r (inodeByteOff sb partOff ino) (inodeSize sb))) as Hs.
  { destruct (Z_lt_le_dec (inodeByteOff sb partOff ino) 0); [by apply Hneg|apply ReadAt_safe; lia]. }
  eapply post_bind; [exact Hs|]. intros buf Hr _.
  assert (zlen buf = inodeSize sb) as L by (eapply ReadAt_len; [|exact Hr]; lia).
  assert (isbytes buf) as Hb by by eapply ReadAt_isbytes.
  rewrite parseInode_eq by (unfold inodeCoreSize; lia). case_match eqn:Em; [|done]. cbn.
  split_and!; [done|done|]. apply inode_sync_iff. unfold inodeCoreSize. bsplit. split_and!; [cbn; lia|done|done].
Qed.

Lemma dirExtents_post i : inode_wf sb i -> post (fun _ => True) (dirExtents r partOff sb i).
Proof.
  intros Hi. unfold dirExtents. repeat case_match; [| |done].
  - eapply post_mono; [by eapply inlineExtents_post|done].
  - eapply post_mono; [by eapply btreeExtents_post|done].
Qed.

Lemma sfLookup_safe fork name h : isbytes fork -> safe (sfLookup fork name h).
Proof.
  intros Hb. unfold sfLookup. destruct (Z.ltb_spec (zlen fork) 6); [done|].
  rewrite !byte_at_ok by lia. ostep.
  assert (forall n i8 off, 0 <= off -> safe (sfLookupLoop n fork name h i8 off)) as L.
  { intros n i8. induction n as [|n IH]; intros off Ho; cbn [sfLookupLoop]; [done|].
    destruct (Z.leb_spec (zlen fork) (off + 3)); [done|]. rewrite byte_at_ok by lia. ostep.
    pose proof (dec_range 1 fork off Hb ltac:(lia) ltac:(lia) ltac:(lia)).
    destruct (Z.ltb_spec (zlen fork) (off + 3 + dec 1 fork off)); [done|]. rewrite sub_ok by lia. ostep.
    set (o := if h then _ else _). assert (0 <= o) by (unfold o; destruct h; lia).
    unfold sfInoSize. destruct (0 <? i8); cbn [Z.eqb Pos.eqb].
    - destruct (Z.ltb_spec (zlen fork) (o + 8)); [done|]. rewrite be_get_ok by lia. ostep.
      case_bool_decide; [done|]. apply IH; lia.
    - destruct (Z.ltb_spec (zlen fork) (o + 4)); [done|]. rewrite be_get_ok by lia. ostep.
      case_bool_decide; [done|]. apply IH; lia. }
  apply L. case_match; lia.
Qed.

Lemma lookupInDir_safe i name : inode_wf sb i -> safe (lookupInDir r partOff sb i name).
Proof.
  intros Hi. unfold lookupInDir. case_match.
  { destruct (dataFork_ok sb G i Hi) as (fork & -> & Hb & _). ostep. by apply sfLookup_safe. }
  case_match; [|done]. unfold blockDirLookup. pstep dirExtents_post as exts _ _.
  induction exts as [|e exts IH]; cbn [lookupExts]; [done|]. case_match; [done|].
  assert (forall n b, safe (lookupRun r partOff sb n e b name)) as R.
  { intros n. induction n as [|n IHn]; intros b; cbn [lookupRun]; [done|].
    pstep readRawBlock_post as blk _ [_ Hb].
    eapply post_bind; [by apply searchDirBlock_safe|]. intros [ino|] _ _; [done|apply IHn]. }
  eapply post_bind; [apply R|]. intros [ino|] _ _; [done|exact IH].
Qed.

Lemma walkParts_post follow parts cur :
  inode_wf sb cur -> (forall t, post (inode_wf sb) (follow t)) ->
  post (inode_wf sb) (walkParts r partOff sb follow parts cur).
Proof.
  intros Hc Hf. revert cur Hc. induction parts as [|name rest IH]; intros cur Hc; cbn [walkParts]; [done|].
  pstep lookupInDir_safe as childIno _ _. pstep readInode_post as child _ Hch. case_match; [|by apply IH].
  pstep readSymlinkTarget_post as target _ _. pstep Hf as cur' _ Hc'. by apply IH.
Qed.

Lemma resolve_post fuel p depth :
  maxSymlinkDepth - depth < Z.of_nat fuel -> 0 < Z.of_nat fuel ->
  post (inode_wf sb) (pathLookupResolve r partOff sb fuel p depth).
Proof.
  revert p depth. induction fuel as [|fuel IH]; intros p depth Hf H0; [lia|]. cbn [pathLookupResolve].
  destruct (Z.leb_spec maxSymlinkDepth depth); [done|]. pstep readInode_post as root _ Hr.
  case_match; [done|]. apply walkParts_post; [done|]. intros t. apply IH; lia.
Qed.
End Safe.

(** C30 (termination).  Resolving any path on any image returns or fails: symbolic link
    cycles end with an error instead of recursing forever, and hostile
    directories, inode numbers and link targets cannot panic the resolver, provided the
    backend answers the inode reads that land at a negative offset with an error.  These the code
    does not exclude, and a backend may panic on them ([forged_inode_panics]).  What
    is returned is a well-formed inode. *)
Theorem pathLookup_safe {SIO : SafeIO} {SL : SafeIOLaws SIO} {D} {Dev : Device D} {DL : DeviceLaws D}
    (r : D) (partOff : Z) (sb : superblock) (p : bytes) :
  sb_width sb -> geometry_ok sb -> 0 <= partOff < 2 ^ 63 -> negative_inode_reads_fail r partOff sb ->
  post (inode_wf sb) (pathLookup r partOff sb p).
Proof. intros W G Hp Hneg. unfold pathLookup. apply resolve_post; [done..| |]; unfold maxSymlinkDepth; lia. Qed.
Lemma pathLookup_safe_witness :
  post (inode_wf sample_sb) (pathLookup sample_image 0 sample_sb [slash; 97]).
Proof.
  apply (pathLookup_safe sample_image 0 sample_sb [slash; 97] sample_sb_width sample_sb_geometry); [lia|].
  intros ino Hi. cbn [ReadAt memdev_device]. unfold mem_ReadAt. by destruct (inrange _ _ _).
Defined.

(** A backend that panics on a negative offset, and a superblock with a root inode number out of
    all range, which [validateGeometry] accepts. *)
Record strictdev := mkStrict { image_of : memdev }.
Definition strict_device : Device strictdev :=
  {| ReadAt := fun d off n => if off <? 0 then Panic else mem_ReadAt (image_of d) off n;
     WriteAt := fun d off bs => if off <? 0 then (Panic, d) else let '(o, m) := mem_WriteAt (image_of d) off bs in (o, mkStrict m) |}.
Definition forged_sb : superblock :=
  {| blockSize := 4096; sectorSize := 512; agBlocks := 6000; agCount := 4; dBlocks := 23000;
     rootIno := 2 ^ 55; inodeSize := 512; inopBlock := 8; inopBLog := 3; agBlkLog := 13;
     dirBlkLog := 0; hasCRC := true; hasFType := true; hasReflink := false; features2 := 0;
     quotaFlags := 0; uQuotino := 0; gQuotino := 0; pQuotino := 0;
     uuid := replicate 16 0; label := []; maxRead := 0 |}.
Example forged_inode_panics :
  validateGeometry forged_sb = Ret tt /\ inodeByteOff forged_sb 0 (rootIno forged_sb) < 0 /\
  @pathLookup _ strictdev strict_device (mkStrict sample_image) 0 forged_sb [slash] = Panic.
Proof. vm_compute. done. Qed.

(** ** Relative link targets *)
Section Clean.
Definition plain (w : bytes) : Prop := w <> [] /\ w <> dot /\ ~ In slash w.

Lemma clean_keeps_dotdot rt ws acc :
  In dotdot acc -> In dotdot (fold_left (cleanStep rt) ws acc).
Proof.
  revert acc. induction ws as [|w ws IH]; intros acc Ha; [done|]. cbn [fold_left]. apply IH.
  unfold cleanStep. case_match; [done|]. case_match; [|by apply in_cons].
  destruct acc as [|t rest]; [done|]. destruct (bool_decide (t = dotdot)) eqn:Et; [by apply in_eq|].
  apply bool_decide_eq_false in Et. by destruct Ha as [Ha|Ha].
Qed.
Lemma clean_root_agrees ws acc :
  ~ In dotdot (fold_left (cleanStep false) ws acc) ->
  fold_left (cleanStep true) ws acc = fold_left (cleanStep false) ws acc.
Proof.
  revert acc. induction ws as [|w ws IH]; intros acc Hn; [done|]. cbn [fold_left] in *.
  assert (cleanStep true acc w = cleanStep false acc w) as E.
  { destruct (bool_decide (cleanStep false acc w = [dotdot])) eqn:E.
    - apply bool_decide_eq_true in E. exfalso. apply Hn, clean_keeps_dotdot. rewrite E. apply in_eq.
    - apply bool_decide_eq_false in E. unfold cleanStep in *. case_match; [done|]. case_match; [|done]. by destruct acc. }
  rewrite E. by apply IH.
Qed.
Lemma split_plain s : Forall (fun w => ~ In slash w) (splitSlash s).
Proof.
  induction s as [|c s IH]; cbn [splitSlash]; [by constructor; [intros []|constructor]|].
  destruct (Z.eqb_spec c slash); [constructor; [intros []|done]|].
  destruct (splitSlash s) as [|w ws]; [constructor; [|constructor]; intros [H|[]]; congruence|].
  apply Forall_cons in IH as [Hw Hws]. constructor; [|done]. intros [H|H]; [congruence|done].
Qed.
Lemma clean_plain rt ws acc :
  Forall (fun w => ~ In slash w) ws -> Forall plain acc -> Forall plain (fold_left (cleanStep rt) ws acc).
Proof.
  intros Hw. revert acc. induction Hw as [|w ws Hns Hw IH]; intros acc Ha; [done|]. cbn [fold_left]. apply IH.
  assert (plain dotdot) as Pd by (split_and!; [done..|]; intros [H|[H|[]]]; done).
  unfold cleanStep. case_match eqn:E1; [done|]. case_match.
  - destruct acc as [|t rest]; [case_match; [done|by constructor]|].
    destruct (bool_decide (t = dotdot)); [by constructor|].
    by apply Forall_cons in Ha as [_ ?].
  - constructor; [|done]. apply orb_false_iff in E1 as [E1 E2]. apply bool_decide_eq_false in E1, E2. done.
Qed.
Lemma join_plain_head w ws :
  plain w -> exists c s, joinSlash (w :: ws) = c :: s /\ c <> slash /\ joinSlash (w :: ws) <> dot.
Proof.
  intros (Hn & Hd & Hs). destruct w as [|c w]; [done|]. assert (c <> slash) by (intros ->; apply Hs; apply in_eq).
  destruct ws as [|w' ws]; [exists c, w; done|]. exists c, (w ++ slash :: joinSlash (w' :: ws)).
  split_and!; [done|done|]. change (joinSlash _) with ((c :: w) ++ slash :: joinSlash (w' :: ws)).
  intros Hj. apply (f_equal zlen) in Hj. rewrite zlen_app, !zlen_cons in Hj. change (zlen dot) with 1 in Hj.
  pose proof (zlen_nonneg w). pose proof (zlen_nonneg (joinSlash (w' :: ws))). lia.
Qed.
End Clean.

(** Link targets are resolved from the root of the filesystem, not from the
    directory that holds the link: a relative path (one that does not climb with a
    leading "..") resolves exactly as the same path with a "/" in front. *)
Lemma relative_resolves_from_root {SIO : SafeIO} {D} {Dev : Device D}
    (r : D) (partOff : Z) (sb : superblock) (fuel : nat) (p : bytes) (depth : Z) :
  rooted p = false -> ~ In dotdot (cleanParts p) ->
  pathLookupResolve r partOff sb fuel p depth = pathLookupResolve r partOff sb fuel (slash :: p) depth.
Proof.
  intros Hr Hn. destruct fuel as [|fuel]; [done|]. cbn [pathLookupResolve].
  assert (cleanParts (slash :: p) = cleanParts p) as Ec.
  { unfold cleanParts in *. rewrite Hr in *. cbn [rooted splitSlash]. rewrite Z.eqb_refl. cbn [fold_left].
    rewrite clean_root_agrees; [done|]. intros H. by apply Hn, in_rev; rewrite rev_involutive. }
  assert (Forall plain (cleanParts p)) as Hp.
  { apply Forall_rev, clean_plain; [apply split_plain|constructor]. }
  unfold pathClean. rewrite Ec, Hr. cbn [rooted]. rewrite Z.eqb_refl.
  destruct (cleanParts p) as [|w ws]; [done|]. apply Forall_cons in Hp as [Hw _].
  destruct (join_plain_head w ws Hw) as (c & s & E & Hc & Hd).
  assert (bool_decide (joinSlash (w :: ws) = [slash]) = false) as -> by (apply bool_decide_false; congruence).
  assert (bool_decide (joinSlash (w :: ws) = dot) = false) as -> by (by apply bool_decide_false).
  assert (bool_decide (slash :: joinSlash (w :: ws) = [slash]) = false) as -> by (apply bool_decide_false; congruence).
  assert (bool_decide (slash :: joinSlash (w :: ws) = dot) = false) as -> by (apply bool_decide_false; done).
  cbn [orb]. rewrite E. cbn [trimSlash]. rewrite (proj2 (Z.eqb_neq c slash)) by done. by rewrite Z.eqb_refl.
Qed.
Lemma relative_resolves_from_root_witness :
  rooted [97; slash; 98] = false /\
  pathLookupResolve sample_image 0 sample_sb 3 [97; slash; 98] 1 =
  pathLookupResolve sample_image 0 sample_sb 3 [slash; 97; slash; 98] 1.
Proof.
  split; [reflexivity|]. apply relative_resolves_from_root; [reflexivity|].
  vm_compute. intros [H|[H|[]]]; discriminate H.
Defined.
