(* ===== verification/OpenFile.v ===== *)
(** * Positional reads (openfile.go)

    An open file keeps the size and either the inline bytes or the extent list sorted by
    file offset; [ReadAt] fills a window of the file from the extents that overlap it.
    The theorem compares it with reading the whole file.  The locks are not modelled. *)
From S2P Require Import Prelude Bytes Crc Extent Device Superblock SafeIO Inode FileRead Dir Lookup.

Record xfsFile := mkFile { fsize : Z; finline : option bytes; fexts : list extent }.

Section OpenFile.
Context {SIO : SafeIO} {D : Type} {Dev : Device D} (r : D) (partOff : Z) (sb : superblock).

(** [OpenFile] once the path is resolved.  [append([]byte(nil), ...)] of no bytes is nil.
    [sort.Slice] may order equal keys otherwise than [merge_sort]; the extents come
    validated, so of those with equal keys all but one are empty, and [ReadAt] skips them. *)
Definition openInode (i : inode) : outcome xfsFile :=
  let size := if 2 ^ 62 <? isize i then 2 ^ 62 else isize i in
  if iformat i =? inodeFmtLocal then
    fork ← dataFork i;
    if zlen fork <? isize i then Fail (Errorf "inline size exceeds fork space")
    else Ret (mkFile size (if isize i =? 0 then None else Some (slice fork 0 (isize i))) [])
  else if iformat i =? inodeFmtExtents then
    exts ← inlineExtents i; Ret (mkFile size None (merge_sort (by_start startOff) exts))
  else if iformat i =? inodeFmtBtree then
    exts ← btreeExtents r partOff sb i; Ret (mkFile size None (merge_sort (by_start startOff) exts))
  else Fail (Errorf "unsupported fork format").
Definition OpenFile (path : bytes) : outcome xfsFile :=
  i ← pathLookup r partOff sb path;
  failif (negb (isRegular i)) (Errorf "not a regular file");;
  openInode i.

(** [(f *xfsFile) readExtents]. *)
Fixpoint fileExtents (exts : list extent) (off hi : Z) (dst : bytes) : outcome bytes :=
  match exts with
  | [] => Ret dst
  | e :: rest =>
      if u64 hi / blockSize sb + 1 <? startOff e then Ret dst
      else
        let eStart := i64 (i64 (startOff e) * blockSize sb) in
        let eEnd := i64 (eStart + i64 (count e * blockSize sb)) in
        let lo := Z.max eStart off in
        let top := Z.min eEnd hi in
        if top <=? lo then fileExtents rest off hi dst
        else
          phys ← blockByteOffset partOff sb (startBlock e);
          guardP (inrange dst (lo - off) (top - lo));;
          bs ← ReadAt r (i64 (phys + (lo - eStart))) (top - lo);
          fileExtents rest off hi (splice dst (lo - off) bs)
  end.

(** [f.ReadAt(p, off)] with [len(p) = plen]: the bytes put into [p] and whether io.EOF is
    reported with them. *)
Definition fileReadAt (f : xfsFile) (plen off : Z) : outcome (bytes * bool) :=
  if off <? 0 then Fail (Errorf "negative offset")
  else if fsize f <=? off then Ret ([], true)
  else
    let want := if fsize f <? i64 (off + plen) then fsize f - off else plen in
    let dst := make_bytes want in
    dst ← match finline f with
          | Some data =>
              rest ← from data (Z.min off (zlen data));
              copy_to dst 0 rest
          | None => fileExtents (fexts f) off (i64 (off + want)) dst
          end;
    Ret (dst, want <? plen).
End OpenFile.

(** ** Windows *)
Lemma slice_eq_bytes (l k : bytes) :
  zlen l = zlen k -> (forall j, 0 <= j < zlen l -> slice l j 1 = slice k j 1) -> l = k.
Proof.
  intros L H. apply list_eq_same_length with (n := length l); [unfold zlen in L; lia|done|].
  intros j x y Hj Hx Hy. specialize (H (Z.of_nat j) ltac:(unfold zlen; lia)). unfold slice in H.
  rewrite Nat2Z.id in H. rewrite (drop_S _ _ _ Hx), (drop_S _ _ _ Hy) in H. change (Z.to_nat 1) with 1%nat in H. cbn [take] in H. congruence.
Qed.

Section Window.
Context {SIO : SafeIO} {SL : SafeIOLaws SIO} {D : Type} {Dev : Device D} {DL : DeviceLaws D}.
Context (r : D) (partOff : Z) (sb : superblock) (W : sb_width sb) (G : geometry_ok sb) (Hp : 0 <= partOff < 2 ^ 63).
Context (Hdev : forall o n bs, 0 < n -> ReadAt r o n = Ret bs -> o + n <= 2 ^ 63).
Context (size : Z) (out : bytes) (Hsz : 0 <= size <= 2 ^ 62) (Lo : zlen out = size).
(** Extent [e] is what [out] shows of it. *)
Definition shown (e : extent) : Prop := count e <> 0 -> run_start sb e < size -> exists o,
  blockByteOffset partOff sb (startBlock e) = Ret o /\
  ReadAt r o (run_end sb size e - run_start sb e) =
    Ret (slice out (run_start sb e) (run_end sb size e - run_start sb e)).
(** Byte [x] of the file is mapped by [e]. *)
Definition maps (e : extent) (x : Z) : Prop := startOff e * blockSize sb <= x < (startOff e + count e) * blockSize sb.

Context (off want : Z) (Hoff : 0 <= off) (Hwant : 0 <= want) (Hw : off + want <= size).
(** The window so far: right, or still zero where no extent of [done] maps. *)
Definition filled (done : extent -> Prop) (dst : bytes) : Prop :=
  zlen dst = want /\ forall j, 0 <= j < want ->
    slice dst j 1 = slice out (off + j) 1 \/ (slice dst j 1 = [0] /\ forall e, done e -> ~ maps e (off + j)).

Lemma fileExtents_cons e rest dst :
  extent_wf e -> 
  fileExtents r partOff sb (e :: rest) off (off + want) dst =
  if (off + want) / blockSize sb + 1 <? startOff e then Ret dst
  else
    let lo := Z.max (startOff e * blockSize sb) off in
    let top := Z.min ((startOff e + count e) * blockSize sb) (off + want) in
    if top <=? lo then fileExtents r partOff sb rest off (off + want) dst
    else
      phys ← blockByteOffset partOff sb (startBlock e);
      guardP (inrange dst (lo - off) (top - lo));;
      bs ← ReadAt r (i64 (phys + (lo - startOff e * blockSize sb))) (top - lo);
      fileExtents r partOff sb rest off (off + want) (splice dst (lo - off) bs).
Proof.
  intros (? & ? & ?). pose proof (bs_range sb G). cbn [fileExtents]. rewrite u64_small by lia.
  destruct (Z.ltb_spec ((off + want) / blockSize sb + 1) (startOff e)); [done|].
  pose proof (Z.mul_div_le (off + want) (blockSize sb) ltac:(lia)).
  assert (startOff e * blockSize sb <= (off + want) + blockSize sb) by nia.
  rewrite (i64_small (startOff e)) by lia. rewrite (i64_small (startOff e * _)) by nia.
  rewrite (i64_small (count e * _)) by nia. rewrite (i64_small (_ + _ * _)) by nia.
  by rewrite <- Z.mul_add_distr_r.
Qed.

Lemma filled_skip (done : extent -> Prop) e dst :
  (forall x, off <= x < off + want -> ~ maps e x) -> filled done dst -> filled (fun e' => done e' \/ e' = e) dst.
Proof.
  intros He [L H]. split; [done|]. intros j Hj. destruct (H j Hj) as [|[Hz Hd]]; [by left|]. right. split; [done|].
  intros e' [Hd'| ->]; [by apply Hd|]. apply He. lia.
Qed.
Lemma filled_splice (done : extent -> Prop) e lo top dst :
  off <= lo -> lo <= top -> top <= off + want -> (forall x, off <= x < off + want -> maps e x -> lo <= x < top) ->
  filled done dst -> filled (fun e' => done e' \/ e' = e) (splice dst (lo - off) (slice out lo (top - lo))).
Proof.
  intros H1 H2 H3 He [L H].
  assert (zlen (slice out lo (top - lo)) = top - lo) as Ls by (apply zlen_slice; lia).
  split; [rewrite zlen_splice; lia|]. intros j Hj.
  destruct (decide (lo - off <= j < top - off)) as [Hin|Hout].
  - left. rewrite slice_splice_in by lia. rewrite slice_slice by lia. f_equal. lia.
  - rewrite slice_splice_other by lia. destruct (H j Hj) as [|[Hz Hd]]; [by left|]. right. split; [done|].
    intros e' [Hd'| ->]; [by apply Hd|]. intros Hm. apply He in Hm; lia.
Qed.

Lemma fileExtents_filled exts (done : extent -> Prop) dst :
  StronglySorted (by_start startOff) exts -> Forall extent_wf exts -> Forall (nowrap sb) exts -> Forall shown exts ->
  filled done dst ->
  exists dst', fileExtents r partOff sb exts off (off + want) dst = Ret dst' /\ filled (fun e => done e \/ In e exts) dst'.
Proof.
  pose proof (bs_range sb G) as Hbs. intros S. revert done dst. induction S as [|e rest S IH F]; intros done dst We Wn Ws Hf.
  { exists dst. split; [done|]. destruct Hf as [L H]. split; [done|]. intros j Hj. destruct (H j Hj) as [|[? Hd]]; [by left|].
    right. split; [done|]. intros e [He|[]]. by apply Hd. }
  apply Forall_cons in We as [He We], Wn as [Ne Wn], Ws as [Se Ws]. rewrite fileExtents_cons by done. pose proof He as (Hs & _ & Hc).
  assert (forall d1, filled (fun e' => done e' \/ e' = e) d1 ->
    exists dst', fileExtents r partOff sb rest off (off + want) d1 = Ret dst' /\ filled (fun e' => done e' \/ In e' (e :: rest)) dst') as Hrest.
  { intros d1 Hd1. destruct (IH _ _ We Wn Ws Hd1) as (dst' & E & L & H). exists dst'. split; [done|]. split; [done|]. intros j Hj.
    destruct (H j Hj) as [|[? Hd]]; [by left|]. right. split; [done|]. intros e' [?|[<-|?]]; apply Hd; auto. }
  destruct (Z.ltb_spec ((off + want) / blockSize sb + 1) (startOff e)) as [Hbrk|Hgo].
  { exists dst. split; [done|]. destruct Hf as [L H]. split; [done|]. intros j Hj. destruct (H j Hj) as [|[? Hd]]; [by left|].
    right. split; [done|]. intros e' [He'|He']; [by apply Hd|]. unfold maps.
    assert (startOff e <= startOff e').
    { destruct He' as [<-|He']; [lia|]. rewrite Forall_forall in F. apply list_elem_of_In in He'. apply (F e' He'). }
    pose proof (Z.mul_succ_div_gt (off + want) (blockSize sb) ltac:(lia)). nia. }
  cbv zeta. set (st := startOff e * blockSize sb). set (lo := Z.max st off). set (top := Z.min ((startOff e + count e) * blockSize sb) (off + want)).
  destruct (Z.leb_spec top lo) as [Hno|Hyes].
  { apply Hrest, filled_skip; [|done]. intros x Hx Hm. unfold maps in Hm. fold st in Hm. lia. }
  assert (run_start sb e = st) as Est by (apply u64_small; unfold st, nowrap in *; nia).
  assert (run_end sb size e = Z.min size ((startOff e + count e) * blockSize sb)) as Een by (unfold run_end; rewrite Est; unfold st; f_equal; lia).
  destruct Se as (o & Eo & Er); [nia|lia|]. rewrite Est, Een in Er. rewrite Eo. ostep.
  assert (0 < Z.min size ((startOff e + count e) * blockSize sb) - st) as Hpos by lia. pose proof (Hdev _ _ _ Hpos Er) as Hd63. pose proof (post_Ret_inv _ _ _ (blockByteOffset_post partOff sb W G Hp (startBlock e)) Eo) as Ho0. cbv beta in Ho0.
  pose proof (ReadAt_sub _ _ _ _ (lo - st) (top - lo) Er ltac:(lia) ltac:(lia) ltac:(lia)) as Esub.
  rewrite slice_slice in Esub by lia. replace (st + (lo - st)) with lo in Esub by lia.
  destruct Hf as [L Hf']. rewrite (proj2 (inrange_spec dst (lo - off) (top - lo))) by lia. ostep.
  rewrite i64_small by lia. rewrite Esub. ostep. apply Hrest, filled_splice; [lia..| |done].
  intros x Hx Hm. unfold maps in Hm. fold st in Hm. lia.
Qed.
End Window.

(** The extents an inode's fork maps. *)
Definition forkExtents {SIO : SafeIO} {D} `{Device D} (r : D) (partOff : Z) (sb : superblock) (i : inode) : outcome (list extent) :=
  if iformat i =? inodeFmtExtents then inlineExtents i else btreeExtents r partOff sb i.

Lemma window_read {SIO : SafeIO} {SL : SafeIOLaws SIO} {D} {Dev : Device D} {DL : DeviceLaws D}
    (r : D) (partOff : Z) (sb : superblock) (i : inode) (exts : list extent) (out : bytes) (off want : Z) :
  sb_width sb -> geometry_ok sb -> 0 <= partOff < 2 ^ 63 -> 0 <= isize i <= 2 ^ 62 ->
  (forall o n bs, 0 < n -> ReadAt r o n = Ret bs -> o + n <= 2 ^ 63) ->
  Forall extent_wf exts -> runs_disjoint startOff exts -> Forall (nowrap sb) exts ->
  readExtents r partOff sb exts (isize i) i = Ret out -> 0 <= off -> 0 <= want -> off + want <= isize i ->
  fileExtents r partOff sb (merge_sort (by_start startOff) exts) off (off + want) (make_bytes want) = Ret (slice out off want).
Proof.
  intros W G Hp Hsz Hdev We Hd Wn H Hoff Hwant Hw. pose proof (bs_range sb G).
  destruct (readExtents_content r partOff sb W G Hp i exts out We Wn Hd ltac:(lia) H) as (_ & Lo & Hs & Hz).
  pose proof (merge_sort_Permutation (by_start startOff) exts) as P.
  assert (Total (by_start startOff)) by (intros a b; unfold by_start; lia).
  assert (Transitive (by_start startOff)) by (intros a b c; unfold by_start; lia).
  destruct (fileExtents_filled r partOff sb W G Hp Hdev (isize i) out Hsz Lo off want Hoff Hwant Hw
    (merge_sort (by_start startOff) exts) (fun _ => False) (make_bytes want)) as (dst & E & L & Hf).
  { apply StronglySorted_merge_sort; apply _. } { by rewrite P. } { by rewrite P. } { rewrite P. exact Hs. }
  { split; [unfold make_bytes; rewrite zlen_replicate; lia|]. intros j Hj. right. split; [|tauto].
    unfold make_bytes, slice. rewrite drop_replicate, take_replicate.
    replace (Z.to_nat 1 `min` (Z.to_nat want - Z.to_nat j))%nat with 1%nat by lia. done. }
  rewrite E. f_equal. apply slice_eq_bytes; [rewrite L, zlen_slice; lia|]. intros j Hj. rewrite L in Hj.
  rewrite slice_slice by lia. destruct (Hf j Hj) as [|[-> Hn]]; [done|]. symmetry. rewrite (Hz (off + j) 1); [done|lia..|].
  apply Forall_forall. intros e He. rewrite Forall_forall in We, Wn. pose proof (We e He) as (? & _ & ?). specialize (Wn e He).
  assert (~ maps sb e (off + j)) as Hm. { apply Hn. right. apply list_elem_of_In. by rewrite P. }
  unfold misses, run_end, run_start, maps, nowrap in *. rewrite u64_small by nia. nia.
Qed.

Lemma inline_window (data : bytes) (off want : Z) :
  0 <= off -> 0 <= want -> off + want <= zlen data ->
  (rest ← from data (Z.min off (zlen data)); copy_to (make_bytes want) 0 rest) = Ret (slice data off want).
Proof.
  intros Ho Hw Hl. unfold from. rewrite sub_ok by lia. ostep. unfold copy_to.
  assert (zlen (make_bytes want) = want) as L by (unfold make_bytes; rewrite zlen_replicate; lia).
  rewrite (proj2 (Z.leb_le 0 (zlen (make_bytes want)))) by lia. ostep. f_equal.
  replace (Z.min off (zlen data)) with off by lia. unfold splice. change (Z.to_nat 0) with 0%nat. cbn [take app].
  assert (length (make_bytes want) = Z.to_nat want) as -> by (unfold zlen in L; lia).
  rewrite Nat.sub_0_r. assert (take (Z.to_nat want) (slice data off (zlen data - off)) = slice data off want) as ->.
  { unfold slice. rewrite take_take. f_equal. lia. }
  rewrite drop_ge, app_nil_r; [done|]. unfold zlen in L. pose proof (zlen_slice data off want ltac:(lia) ltac:(lia) ltac:(lia)) as Ls. unfold zlen in Ls. lia.
Qed.
Lemma readAt_window {SIO : SafeIO} {D} {Dev : Device D} (r : D) (partOff : Z) (sb : superblock) (f : xfsFile) (out : bytes) :
  0 <= fsize f <= 2 ^ 62 ->
  (forall off want, 0 <= off < fsize f -> 0 <= want -> off + want <= fsize f ->
     match finline f with
     | Some data => rest ← from data (Z.min off (zlen data)); copy_to (make_bytes want) 0 rest
     | None => fileExtents r partOff sb (fexts f) off (off + want) (make_bytes want)
     end = Ret (slice out off want)) ->
  forall plen off, 0 <= plen < 2 ^ 62 -> 0 <= off ->
    fileReadAt r partOff sb f plen off =
      Ret (slice out off (Z.max 0 (Z.min plen (fsize f - off))), (fsize f <=? off) || (fsize f <? off + plen)).
Proof.
  intros Hs H plen off Hp Ho. unfold fileReadAt. rewrite (proj2 (Z.ltb_ge off 0)) by lia.
  destruct (Z.leb_spec (fsize f) off) as [Hle|Hlt].
  { replace (Z.max 0 (Z.min plen (fsize f - off))) with 0 by lia. done. }
  rewrite (i64_small (off + plen)) by lia.
  set (want := if fsize f <? off + plen then fsize f - off else plen).
  assert (want = Z.min plen (fsize f - off) /\ (want <? plen) = (fsize f <? off + plen)) as [Ew Ef].
  { unfold want. destruct (Z.ltb_spec (fsize f) (off + plen)); split; lia. }
  rewrite (i64_small (off + want)) by lia. pose proof (H off want ltac:(lia) ltac:(lia) ltac:(lia)) as Hw.
  rewrite Ef. replace (Z.max 0 (Z.min plen (fsize f - off))) with want by lia.
  destruct (finline f); rewrite Hw; done.
Qed.

(** C7 (equivalence).  Positional reads agree with whole-file reads.  Take a file of at most
    2^62 bytes, on a device that has no bytes past 2^63, all of whose extents start below file
    byte 2^64 ([nowrap]; [readExtents] lets [startOff * blockSize] wrap around, [ReadAt] does not,
    so beyond it they disagree).  When it can be read as a whole, it can be opened with the same size, and
    [ReadAt] of any length at any offset returns exactly that window of the contents,
    with io.EOF exactly when the window runs past the end.  Unwritten extents are included:
    both return their blocks as stored ([unwritten_read_as_stored]). *)
Theorem openFile_reads_window {SIO : SafeIO} {SL : SafeIOLaws SIO} {D} {Dev : Device D} {DL : DeviceLaws D}
    (r : D) (partOff : Z) (sb : superblock) (i : inode) (out : bytes) :
  sb_width sb -> geometry_ok sb -> 0 <= partOff < 2 ^ 63 -> inode_wf sb i -> isize i <= 2 ^ 62 ->
  (forall o n bs, 0 < n -> ReadAt r o n = Ret bs -> o + n <= 2 ^ 63) ->
  (forall exts, forkExtents r partOff sb i = Ret exts -> Forall (nowrap sb) exts) ->
  readFileData r partOff sb i = Ret out ->
  exists f, openInode r partOff sb i = Ret f /\ fsize f = isize i /\
    forall plen off, 0 <= plen < 2 ^ 62 -> 0 <= off ->
      fileReadAt r partOff sb f plen off =
        Ret (slice out off (Z.max 0 (Z.min plen (isize i - off))), (isize i <=? off) || (isize i <? off + plen)).
Proof.
  intros W G Hp Hi Hsz Hdev Hn H. pose proof (inode_fields sb G i Hi) as (Hs0 & _). unfold openInode.
  rewrite (proj2 (Z.ltb_ge (2 ^ 62) (isize i))) by lia. unfold readFileData in H. unfold forkExtents in Hn.
  assert (forall exts, Forall extent_wf exts /\ runs_disjoint startOff exts -> Forall (nowrap sb) exts ->
      readExtents r partOff sb exts (isize i) i = Ret out ->
      exists f, Ret (mkFile (isize i) None (merge_sort (by_start startOff) exts)) = Ret f /\ fsize f = isize i /\
        forall plen off, 0 <= plen < 2 ^ 62 -> 0 <= off -> fileReadAt r partOff sb f plen off =
          Ret (slice out off (Z.max 0 (Z.min plen (isize i - off))), (isize i <=? off) || (isize i <? off + plen))) as Hext.
  { intros exts [We Hd] Wn He. eexists. split_and!; [done|done|]. intros plen off Hpl Ho.
    apply (readAt_window r partOff sb (mkFile (isize i) None (merge_sort (by_start startOff) exts)) out); cbn [fsize finline fexts]; [lia| |done..].
    intros o want Hoo Hww Hle. eapply window_read; try eassumption; lia. }
  destruct (iformat i =? inodeFmtLocal).
  - unfold inlineData in H. obind. destruct (Z.ltb_spec (zlen a) (isize i)) as [|Hl]; [done|]. injection H as <-. rewrite ?Ha. ostep. rewrite (proj2 (Z.ltb_ge (zlen a) (isize i)) Hl).
    eexists. split_and!; [done|done|]. apply readAt_window; cbn [fsize finline fexts]; [lia|]. intros o want Hoo Hww Hle.
    rewrite (proj2 (Z.eqb_neq (isize i) 0)) by lia. apply inline_window; [lia..|]. rewrite zlen_slice; lia.
  - destruct (iformat i =? inodeFmtExtents); [|destruct (iformat i =? inodeFmtBtree); [|done]].
    + obind. rewrite ?Ha. ostep. apply Hext; [exact (post_Ret_inv _ _ _ (inlineExtents_post sb G i Hi) Ha)|by apply Hn|done].
    + obind. rewrite ?Ha. ostep. apply Hext; [exact (post_Ret_inv _ _ _ (btreeExtents_post r partOff sb W G Hp i Hi) Ha)|by apply Hn|done].
Qed.
Lemma openFile_reads_window_witness :
  exists f, openInode sample_image 0 sample_sb sample_file = Ret f /\ fsize f = 9000 /\
    fileReadAt sample_image 0 sample_sb f 10 4090 = Ret ([0; 0; 0; 0; 0; 0; 7; 7; 7; 7], false).
Proof.
  destruct (openFile_reads_window sample_image 0 sample_sb sample_file sample_out sample_sb_width sample_sb_geometry
    ltac:(lia) sample_file_wf ltac:(vm_compute; discriminate)) as (f & E & Es & H).
  - intros o n bs Hn H. apply mem_ReadAt_Ret in H as (_ & _ & H & _). etransitivity; [exact H|]. vm_compute. discriminate.
  - intros exts H. vm_compute in H. injection H as <-. constructor; [|constructor]. vm_compute. reflexivity.
  - exact sample_read.
  - exists f. split; [exact E|]. split; [exact Es|]. rewrite H by lia. vm_compute. reflexivity.
Defined.

(** Past the bound the two disagree: with an extent at file block 2^52 (of 4096 bytes),
    [readExtents] lets its byte position wrap to 0 and returns the block as the start of
    the file; [ReadAt] sees the hole that is there. *)
Definition wrapped_file : inode :=
  Eval vm_compute in decodeInode 0 (raw_of (copy_to (iraw sample_file) inodeCoreSize (encodeExtent (mkExtent (2 ^ 52) 2 1 false)))).
Example wrapped_offset_disagrees :
  (out ← readFileData sample_image 0 sample_sb wrapped_file; Ret (slice out 0 4)) = Ret [7; 7; 7; 7] /\
  (f ← openInode sample_image 0 sample_sb wrapped_file; fileReadAt sample_image 0 sample_sb f 4 0) = Ret ([0; 0; 0; 0], false).
Proof. vm_compute. done. Qed.
