(* ===== verification/AgBlocks.v ===== *)
(** * Allocation group headers and B-tree blocks (alloc.go, alloc_btree.go, alloc_btree_delete.go)

    The AGF/AGI sectors, B-tree block I/O, the superblock counters and the
    record-level edits of free-space B-tree blocks (insert, remove, shift,
    re-sort), each on the block's bytes as the code has them. *)
From S2P Require Import Prelude Bytes Crc Device Superblock SafeIO Inode FileRead Dir.

Definition allocBTreeMaxSteps := 2 ^ 20.
Definition magicAGF := 0x58414746.
Definition magicAGI := 0x58414749.
Definition magicIAB3 := 0x49414233.
Definition nullAgb := 0xFFFFFFFF.

Definition agfOffMagic := 0.
Definition agfOffBnoRoot := 16.
Definition agfOffCntRoot := 20.
Definition agfOffBnoLevel := 28.
Definition agfOffCntLevel := 32.
Definition agfOffFLCount := 48.
Definition agfOffFreeBlks := 52.
Definition agfOffLongest := 56.
Definition agfOffBtreeBlks := 60.
Definition agfOffCRC := 216.
Definition agiOffMagic := 0.
Definition agiOffCount := 16.
Definition agiOffRoot := 20.
Definition agiOffLevel := 24.
Definition agiOffFreeCount := 28.
Definition agiOffNewIno := 32.
Definition agiOffCRC := 312.
Definition btreeCRCOff := 52.
Definition inobtRecSize := 16.
Definition inobtKeySize := 4.
Definition inobtPtrSize := 4.
Definition allocRecSize := 8.
Definition allocKeySize := 8.
Definition allocPtrSize := 4.
Definition inobtChunkInodes := 64.

(** ** AG headers *)
Section Headers.
Context {D : Type} {Dev : Device D}.
Variables (partOff : Z) (sb : superblock).

Definition agfBlock (r : D) (ag : Z) : outcome bytes :=
  buf ← readBytes r (agFByteOffset sb partOff ag) (sectSize sb);
  magic ← be32 buf agfOffMagic;
  failif (negb (magic =? magicAGF)) (Errorf "bad AGF magic");;
  Ret buf.
Definition writeAGF (ag : Z) (buf : bytes) : M (World D) unit :=
  buf ← lift (if hasCRC sb then updateCRC buf agfOffCRC 512 else Ret buf);
  writeAt buf (agFByteOffset sb partOff ag).
Definition agiBlock (r : D) (ag : Z) : outcome bytes :=
  buf ← readBytes r (agIByteOffset sb partOff ag) (sectSize sb);
  magic ← be32 buf agiOffMagic;
  failif (negb (magic =? magicAGI)) (Errorf "bad AGI magic");;
  Ret buf.
Definition writeAGI (ag : Z) (buf : bytes) : M (World D) unit :=
  buf ← lift (if hasCRC sb then updateCRC buf agiOffCRC 512 else Ret buf);
  writeAt buf (agIByteOffset sb partOff ag).

(** [syncSuperblockCounts]: the three counters summed over the AGs. *)
Definition addCounts (r : D) (ag : Z) (acc : Z * Z * Z) : outcome (Z * Z * Z) :=
  let '(icount, ifree, fdblocks) := acc in
  agf ← agfBlock r ag;
  agi ← agiBlock r ag;
  freeblks ← be32 agf agfOffFreeBlks;
  flcount ← be32 agf agfOffFLCount;
  btreeblks ← be32 agf agfOffBtreeBlks;
  cnt ← be32 agi agiOffCount;
  fc ← be32 agi agiOffFreeCount;
  Ret (u64 (icount + cnt), u64 (ifree + fc), u64 (fdblocks + (freeblks + flcount + btreeblks))).
Definition syncSuperblockCounts : M (World D) unit :=
  acc ← readD (fun r => for_acc (Z.to_nat (agCount sb)) 0 (0, 0, 0) (addCounts r));
  let '(icount, ifree, fdblocks) := acc in
  buf ← readD (fun r => readBytes r partOff 512);
  buf ← lift (put64 buf sbOffIcount icount);
  buf ← lift (put64 buf sbOffIfree ifree);
  buf ← lift (put64 buf sbOffFdblocks fdblocks);
  buf ← lift (if hasCRC sb then updateCRC buf sbOffCRC sbCRCLen else Ret buf);
  writeAt buf partOff.

(** ** B-tree blocks *)
Definition readAGBlock (r : D) (ag agRel : Z) : outcome bytes :=
  readRawBlock r partOff sb (agAbsBlock sb ag agRel).
Definition writeAGBTree (ag agRel : Z) (blk : bytes) : M (World D) unit :=
  blk ← lift (if hasCRC sb then updateCRC blk btreeCRCOff (zlen blk) else Ret blk);
  writeRawBlock partOff sb (agAbsBlock sb ag agRel) blk.
End Headers.

Definition agBTreeHdrSize (sb : superblock) : Z := btreeHdrSize (hasCRC sb).
Definition inobtMaxInternal (blockLen hdrSize : Z) : Z := Z.quot (blockLen - hdrSize) (inobtKeySize + inobtPtrSize).
Definition allocMaxInternal (blockLen hdrSize : Z) : Z := Z.quot (blockLen - hdrSize) (allocKeySize + allocPtrSize).
Definition allocMaxLeaf (blockLen hdrSize : Z) : Z := Z.quot (blockLen - hdrSize) allocRecSize.
Definition allocMinLeaf (blockLen hdrSize : Z) : Z := Z.quot (allocMaxLeaf blockLen hdrSize) 2.
Definition allocMinInternal (blockLen hdrSize : Z) : Z := Z.quot (allocMaxInternal blockLen hdrSize) 2.

(** A record (or key): [ar_startblock], [ar_blockcount]. *)
Definition arec : Type := Z * Z.
Definition allocLess (bnoSort : bool) (aStart aCount bStart bCount : Z) : bool :=
  if bnoSort then aStart <? bStart
  else if negb (aCount =? bCount) then aCount <? bCount
  else aStart <? bStart.

(** [blk[off:], blk[off+4:]] as a pair of big-endian uint32. *)
Definition recAt (blk : bytes) (off : Z) : outcome arec :=
  s ← be32 blk off; c ← be32 blk (off + 4); Ret (s, c).
Definition putRec (blk : bytes) (off : Z) (r : arec) : outcome bytes :=
  b ← put32 blk off r.1; put32 b (off + 4) r.2.
(** [copy(blk[dst:], blk[lo:hi])] inside one buffer. *)
Definition copyWithin (blk : bytes) (dst lo hi : Z) : outcome bytes :=
  s ← sub blk lo hi; copy_to blk dst s.

(** The insertion slot: [for i ...; if allocLess(new, rec_i) { insertAt = i; break }]. *)
Definition insertSlot (bnoSort : bool) (blk : bytes) (hdrSize numrecs : Z) (r : arec) : outcome Z :=
  found ← scan (Z.to_nat numrecs) 0 (fun i =>
    ex ← recAt blk (hdrSize + i * allocRecSize);
    Ret (if allocLess bnoSort r.1 r.2 ex.1 ex.2 then Some i else None));
  Ret (match found with Some i => i | None => numrecs end).

(** The in-place leaf insert of [allocInsertInto]. *)
Definition leafInsert (blk : bytes) (hdrSize numrecs insertAt : Z) (r : arec) : outcome bytes :=
  let insertOff := hdrSize + insertAt * allocRecSize in
  b ← copyWithin blk (insertOff + allocRecSize) insertOff (hdrSize + numrecs * allocRecSize);
  b ← copy_to b insertOff (be_encode 4 r.1 ++ be_encode 4 r.2);
  put16 b 6 (u16 (numrecs + 1)).

(** The covering child: the last [i] with [key_i <= new]. *)
Fixpoint coverChild (n : nat) (bnoSort : bool) (blk : bytes) (hdrSize : Z) (r : arec) (i child : Z) : outcome Z :=
  match n with
  | O => Ret child
  | S n' =>
      k ← recAt blk (hdrSize + i * allocKeySize);
      if negb (allocLess bnoSort r.1 r.2 k.1 k.2) then coverChild n' bnoSort blk hdrSize r (i + 1) i
      else Ret child
  end.

(** Insert separator and pointer at [insertAt] of an interior node with room. *)
Definition nodeInsert (blk : bytes) (hdrSize numrecs maxInternal insertAt : Z) (key : arec) (ptr : Z) : outcome bytes :=
  let ptrBase := hdrSize + maxInternal * allocKeySize in
  b ← copyWithin blk (hdrSize + (insertAt + 1) * allocKeySize) (hdrSize + insertAt * allocKeySize) (hdrSize + numrecs * allocKeySize);
  b ← putRec b (hdrSize + insertAt * allocKeySize) key;
  b ← copyWithin b (ptrBase + (insertAt + 1) * allocPtrSize) (ptrBase + insertAt * allocPtrSize) (ptrBase + numrecs * allocPtrSize);
  b ← put32 b (ptrBase + insertAt * allocPtrSize) ptr;
  put16 b 6 (u16 (numrecs + 1)).

Definition allocRemoveRecAt (blk : bytes) (hdrSize idx recSize : Z) : outcome bytes :=
  numrecs ← be16 blk 6;
  let start := hdrSize + idx * recSize in
  b ← copyWithin blk start (start + recSize) (hdrSize + numrecs * recSize);
  let last := hdrSize + (numrecs - 1) * recSize in
  b ← clear_range b last (last + recSize);
  put16 b 6 (u16 (numrecs - 1)).

Definition allocRemoveKeyPtrAt (blk : bytes) (hdrSize idx maxInternal : Z) : outcome bytes :=
  numrecs ← be16 blk 6;
  let ptrBase := hdrSize + maxInternal * allocKeySize in
  let kStart := hdrSize + idx * allocKeySize in
  b ← copyWithin blk kStart (kStart + allocKeySize) (hdrSize + numrecs * allocKeySize);
  b ← clear_range b (hdrSize + (numrecs - 1) * allocKeySize) (hdrSize + numrecs * allocKeySize);
  let pStart := ptrBase + idx * allocPtrSize in
  b ← copyWithin b pStart (pStart + allocPtrSize) (ptrBase + numrecs * allocPtrSize);
  clear_range b (ptrBase + (numrecs - 1) * allocPtrSize) (ptrBase + numrecs * allocPtrSize).

(** Swap the records at [a] and [b]. *)
Definition swapRecs (blk : bytes) (a b : Z) : outcome bytes :=
  tmp ← sub blk a (a + allocRecSize);
  x ← copyWithin blk a b (b + allocRecSize);
  copy_to x b tmp.

(** [for i := idx; i > 0; i--]. *)
Fixpoint allocCntBubbleLeft (leaf : bytes) (hdrSize : Z) (idx : nat) : outcome bytes :=
  match idx with
  | O => Ret leaf
  | S i' =>
      let cur := hdrSize + Z.of_nat idx * allocRecSize in
      let prev := cur - allocRecSize in
      c ← recAt leaf cur;
      p ← recAt leaf prev;
      if negb (allocLess false c.1 c.2 p.1 p.2) then Ret leaf
      else
        leaf ← swapRecs leaf cur prev;
        allocCntBubbleLeft leaf hdrSize i'
  end.

(** The forward re-sort of [bnoUpdateRecord]: [for i := recIdx; i+1 < numrecs; i++]. *)
Fixpoint bnoBubbleRight (n : nat) (leaf : bytes) (hdrSize i : Z) : outcome bytes :=
  match n with
  | O => Ret leaf
  | S n' =>
      let cur := hdrSize + i * allocRecSize in
      let nxt := cur + allocRecSize in
      curStart ← be32 leaf cur;
      nxtStart ← be32 leaf nxt;
      if curStart <=? nxtStart then Ret leaf
      else
        leaf ← swapRecs leaf cur nxt;
        bnoBubbleRight n' leaf hdrSize (i + 1)
  end.

Definition allocBumpBtreeBlocks (agfBuf : bytes) (delta : Z) : outcome bytes :=
  v ← be32 agfBuf agfOffBtreeBlks;
  put32 agfBuf agfOffBtreeBlks (u32 (i32 (i32 v + delta))).

(** [newAllocBlock] and [newInobtBlock] differ in the magic only. *)
Definition newShortBlock (sb : superblock) (ag agRel level numrecs magic : Z) : outcome bytes :=
  b ← put32 (make_bytes (blockSize sb)) 0 magic;
  b ← put16 b 4 (u16 level);
  b ← put16 b 6 (u16 numrecs);
  b ← put32 b 8 nullAgb;
  b ← put32 b 12 nullAgb;
  b ← put64 b 16 (u64 (fsbToPhysBlock sb (agAbsBlock sb ag agRel) * fmtDaddrPerBlock));
  guardP (48 <=? zlen b);;
  b ← copy_to b 32 (take 16 (uuid sb));
  put32 b 48 ag.
Definition newAllocBlock (sb : superblock) (ag agRel level numrecs magic : Z) : outcome bytes :=
  newShortBlock sb ag agRel level numrecs magic.
Definition newInobtBlock (sb : superblock) (ag agRel level numrecs : Z) : outcome bytes :=
  newShortBlock sb ag agRel level numrecs magicIAB3.
