(* ===== verification/Zones.v ===== *)
(** * Zones of the image

    The metadata an operation edits lives in a few byte ranges of the image.  Writing
    one range leaves every range apart from it as it was. *)
From S2P Require Import Prelude Bytes Crc Device Superblock SafeIO Inode FileRead Dir AgBlocks.

Definition apartZ (o n o' n' : Z) : Prop := o + n <= o' \/ o' + n' <= o.
Lemma apartZ_sym o n o' n' : apartZ o n o' n' -> apartZ o' n' o n.
Proof. unfold apartZ. tauto. Qed.
Lemma i64_mul p k : i64 (i64 p * k) = i64 (p * k).
Proof.
  unfold i64. set (q := (p + 2 ^ 63) mod 2 ^ 64 - 2 ^ 63).
  assert (exists j, q = p + j * 2 ^ 64) as [j ->].
  { exists (- ((p + 2 ^ 63) / 2 ^ 64)). unfold q. pose proof (Z.div_mod (p + 2 ^ 63) (2 ^ 64) ltac:(lia)). lia. }
  f_equal. replace ((p + j * 2 ^ 64) * k + 2 ^ 63) with (p * k + 2 ^ 63 + (j * k) * 2 ^ 64) by ring.
  apply Z_mod_plus_full.
Qed.

(** [writeRawBlock] writes where [readRawBlock] reads. *)
Lemma raw_offset partOff sb ag rel o : blockByteOffset partOff sb (agAbsBlock sb ag rel) = Ret o ->
  i64 (partOff + i64 (i64 (fsbToPhysBlock sb (agAbsBlock sb ag rel)) * blockSize sb)) = o.
Proof. unfold blockByteOffset. case_match; [done|]. intros [= <-]. by rewrite i64_mul. Qed.

Section Zones.
Context {D : Type} {Dev : Device D} {DL : DeviceLaws D} {DR : DeviceReliable D}.

(** Everything outside the zones [zs] reads as before. *)
Definition keeps (zs : list (Z * Z)) (d d' : D) : Prop := forall o n cs,
  0 <= n -> Forall (fun z => apartZ o n z.1 z.2) zs -> ReadAt d o n = Ret cs -> ReadAt d' o n = Ret cs.
Lemma keeps_refl zs d : keeps zs d d.
Proof. by intros o n cs. Qed.
Lemma keeps_trans zs zs' d1 d2 d3 : keeps zs d1 d2 -> keeps zs' d2 d3 -> keeps (zs ++ zs') d1 d3.
Proof. intros H1 H2 o n cs Hn [Ha Hb]%Forall_app Hr. apply H2; [done|done|]. by apply H1. Qed.

Lemma write_zone w o n old b :
  ReadAt (dev w) o n = Ret old -> zlen b = n -> isbytes b ->
  exists d', writeAt b o w = (Ret tt, set_dev d' w) /\ ReadAt d' o n = Ret b /\
    forall o' n' cs, 0 <= n' -> apartZ o' n' o n -> ReadAt (dev w) o' n' = Ret cs -> ReadAt d' o' n' = Ret cs.
Proof.
  intros E L Hb. rewrite <- L in *. destruct (WriteAt_ok (dev w) o b old E) as (d' & Ew). exists d'.
  unfold writeAt. rewrite Ew. split; [done|]. split; [by eapply ReadAt_write|].
  intros o' n' cs Hn Ha Hr. eapply ReadAt_write_other; [exact Ew|done|exact Ha|exact Hr].
Qed.

(** Stamping the CRC of a B-tree block writes bytes 52-55 at most. *)
Lemma stamp_block sb b :
  isbytes b -> 512 <= zlen b ->
  exists b', (if hasCRC sb then updateCRC b btreeCRCOff (zlen b) else Ret b) = Ret b' /\
    wrote b b' 52 (if hasCRC sb then 56 else 52).
Proof.
  intros Hb L. destruct (hasCRC sb); [|exists b; split; [done|apply wrote_refl]]. unfold btreeCRCOff.
  destruct (updateCRC_spec b 52 (zlen b)) as (b' & E & _ & Wr); [done|unfold crc_layout_ok; lia|eauto].
Qed.
(** Stamping an AG header sector writes its CRC field at most. *)
Lemma stamp_sector sb b o :
  isbytes b -> 512 <= zlen b -> 0 <= o -> o + 4 <= 512 ->
  exists b', (if hasCRC sb then updateCRC b o 512 else Ret b) = Ret b' /\ wrote b b' o (o + 4).
Proof.
  intros Hb L Ho H4. destruct (hasCRC sb); [|exists b; split; [done|apply wrote_refl]].
  destruct (updateCRC_spec b o 512) as (b' & E & _ & Wr); [done|unfold crc_layout_ok; lia|eauto].
Qed.
End Zones.
