(* ===== verification/AllocTree.v ===== *)
(** * Free-space B-trees (alloc.go, alloc_btree.go, alloc_btree_delete.go)

    Search, insertion with splits and root growth, deletion with rebalancing, merges
    and root collapse, for the bno tree (by start) and the cnt tree (by count, then
    start).  A split takes its block from [metaAlloc], the call through the
    [allocMetaAllocBlock] function variable.  The guarded traversals run on fuel
    [stepsFuel], one more than their guard admits; the unguarded recursions on
    [tfuel], a bound on the tree depth. *)
From S2P Require Import Prelude Bytes Crc Device Superblock SafeIO Inode FileRead Dir AgBlocks.

Definition stepsFuel : nat := Z.to_nat (allocBTreeMaxSteps + 1).
(** [None]: absorbed in place; [Some (rightKey, rightRel)]: the block split. *)
Definition allocSplit : Type := option (arec * Z).
Record allocPathNode := mkPath { prel : Z; pblk : bytes; pchildIdx : Z }.

(** A record's bytes, [r := make([]byte, n); copy(r, leaf[off:])]. *)
Definition slotBytes (blk : bytes) (off n : Z) : outcome bytes :=
  rest ← from blk off;
  Ret (take (Z.to_nat n) (rest ++ make_bytes n)).
Fixpoint readSlots (k : nat) (blk : bytes) (off n : Z) : outcome (list bytes) :=
  match k with
  | O => Ret []
  | S k' => r ← slotBytes blk off n; rest ← readSlots k' blk (off + n) n; Ret (r :: rest)
  end.
(** [for i ... copy(blk[off+i*n:], recs[i])]. *)
Fixpoint putSlots (blk : bytes) (off n : Z) (recs : list bytes) : outcome bytes :=
  match recs with
  | [] => Ret blk
  | r :: rest => b ← copy_to blk off r; putSlots b (off + n) n rest
  end.
(** [for i := half; i < numrecs; i++ { clear(blk[...]) }]. *)
Fixpoint clearSlots (k : nat) (blk : bytes) (off n : Z) : outcome bytes :=
  match k with
  | O => Ret blk
  | S k' => b ← clear_range blk off (off + n); clearSlots k' b (off + n) n
  end.
(** [copy(xs[at+1:], xs[at:]); xs[at] = x] on a slice with one spare slot. *)
Definition insertAtZ {A} (l : list A) (at_ : Z) (x : A) : list A :=
  take (Z.to_nat at_) l ++ x :: drop (Z.to_nat at_) l.
Definition recBytes (r : arec) : bytes := be_encode 4 r.1 ++ be_encode 4 r.2.

Fixpoint readKeys (k : nat) (blk : bytes) (off : Z) : outcome (list arec) :=
  match k with
  | O => Ret []
  | S k' => r ← recAt blk off; rest ← readKeys k' blk (off + allocKeySize); Ret (r :: rest)
  end.
Fixpoint readPtrs (k : nat) (blk : bytes) (off : Z) : outcome (list Z) :=
  match k with
  | O => Ret []
  | S k' => p ← be32 blk off; rest ← readPtrs k' blk (off + allocPtrSize); Ret (p :: rest)
  end.
(** [for i ...: put key i and pointer i]. *)
Fixpoint putKeyPtrs (blk : bytes) (kOff pOff : Z) (ks : list arec) (ps : list Z) : outcome bytes :=
  match ks, ps with
  | k :: ks', p :: ps' =>
      b ← putRec blk kOff k;
      b ← put32 b pOff p;
      putKeyPtrs b (kOff + allocKeySize) (pOff + allocPtrSize) ks' ps'
  | _, _ => Ret blk
  end.

Section Tree.
Context {SIO : SafeIO} {D : Type} {Dev : Device D}.
Variables (partOff : Z) (sb : superblock) (tfuel : nat).
Let W := World D.
Let hdrSize := agBTreeHdrSize sb.

Definition readAG (ag rel : Z) : M W bytes := readD (fun r => readAGBlock partOff sb r ag rel).
Definition writeTree (ag rel : Z) (blk : bytes) : M W unit := writeAGBTree partOff sb ag rel blk.
Definition readAGF (ag : Z) : M W bytes := readD (fun r => agfBlock partOff sb r ag).

(** ** Searches *)
(** First leaf record with [count >= need]; [Some None] is the [break]. *)
Definition leafFind (blk : bytes) (numrecs need : Z) : outcome (option (option Z)) :=
  scan (Z.to_nat numrecs) 0 (fun i =>
    let off := hdrSize + i * allocRecSize in
    if zlen blk <? off + 8 then Ret (Some None)
    else
      count ← be32 blk (off + 4);
      Ret (if need <=? count then Some (Some i) else None)).

Fixpoint cntFindLoop (fuel : nat) (r : D) (ag need : Z) (guard : LoopGuard) (seen : VisitSet) (prevLvl agRel : Z) : outcome (Z * bytes * Z) :=
  match fuel with
  | O => NoFuel
  | S fuel' =>
      guard ← Next guard;
      seen ← VisitCheck seen agRel;
      blk ← readAGBlock partOff sb r ag agRel;
      failif (zlen blk <? hdrSize) (Errorf "cnt B-tree block too small");;
      lvl ← be16 blk 4;
      numrecs ← be16 blk 6;
      if lvl =? 0 then
        found ← leafFind blk numrecs need;
        match found with
        | Some (Some i) => Ret (agRel, blk, i)
        | _ =>
            rsib ← be32 blk 12;
            if rsib =? nullAgb then Fail (Errorf "no free extent")
            else cntFindLoop fuel' r ag need guard seen prevLvl rsib
        end
      else
        failif (prevLvl <=? lvl) (Errorf "cnt B-tree non-decreasing level");;
        failif (numrecs <=? 0) (Errorf "cnt B-tree internal node with no records");;
        let ptrOff := hdrSize + allocMaxInternal (zlen blk) hdrSize * allocKeySize in
        let lastPtr := ptrOff + (numrecs - 1) * allocPtrSize in
        failif ((lastPtr <? 0) || (zlen blk <? lastPtr + 4)) (Errorf "cnt B-tree block too small");;
        agRel ← be32 blk lastPtr;
        cntFindLoop fuel' r ag need guard seen lvl agRel
  end.
Definition cntFindBlock (r : D) (ag rootRel need : Z) : outcome (Z * bytes * Z) :=
  cntFindLoop stepsFuel r ag need (NewLoopGuard allocBTreeMaxSteps) emptyVisit (2 ^ 30) rootRel.

Fixpoint longestDescend (fuel : nat) (r : D) (ag : Z) (guard : LoopGuard) (seen : VisitSet) (level agRel : Z) : outcome Z :=
  match fuel with
  | O => NoFuel
  | S fuel' =>
      if level <=? 1 then Ret agRel
      else
        guard ← Next guard;
        seen ← VisitCheck seen agRel;
        blk ← readAGBlock partOff sb r ag agRel;
        failif (zlen blk <? hdrSize) (Errorf "btree block too small");;
        let ptrOff := hdrSize + allocMaxInternal (zlen blk) hdrSize * allocKeySize in
        failif ((ptrOff <? 0) || (zlen blk <? ptrOff + allocPtrSize)) (Errorf "btree block too small");;
        agRel ← be32 blk ptrOff;
        longestDescend fuel' r ag guard seen (level - 1) agRel
  end.
(** [for i < numrecs]: the largest count, stopping at the end of the block. *)
Fixpoint maxCount (n : nat) (blk : bytes) (i longest : Z) : outcome Z :=
  match n with
  | O => Ret longest
  | S n' =>
      let off := hdrSize + i * allocRecSize in
      if zlen blk <? off + 8 then Ret longest
      else
        count ← be32 blk (off + 4);
        maxCount n' blk (i + 1) (if longest <? count then count else longest)
  end.
Fixpoint longestWalk (fuel : nat) (r : D) (ag : Z) (guard : LoopGuard) (seen : VisitSet) (longest agRel : Z) : outcome Z :=
  match fuel with
  | O => NoFuel
  | S fuel' =>
      guard ← Next guard;
      seen ← VisitCheck seen agRel;
      blk ← readAGBlock partOff sb r ag agRel;
      failif (zlen blk <? hdrSize) (Errorf "btree block too small");;
      numrecs ← be16 blk 6;
      longest ← maxCount (Z.to_nat numrecs) blk 0 longest;
      rsib ← be32 blk 12;
      if rsib =? nullAgb then Ret longest
      else longestWalk fuel' r ag guard seen longest rsib
  end.
Definition agfRecomputeLongest (r : D) (ag rootRel level : Z) : outcome Z :=
  leaf ← longestDescend stepsFuel r ag (NewLoopGuard allocBTreeMaxSteps) emptyVisit level rootRel;
  longestWalk stepsFuel r ag (NewLoopGuard allocBTreeMaxSteps) emptyVisit 0 leaf.

(** [bnoFindRecord]: no guard in the code. *)
Fixpoint bnoChild (n : nat) (blk : bytes) (start i child : Z) : outcome Z :=
  match n with
  | O => Ret child
  | S n' =>
      k ← be32 blk (hdrSize + i * allocKeySize);
      if k <=? start then bnoChild n' blk start (i + 1) i else Ret child
  end.
Fixpoint bnoFindLoop (fuel : nat) (r : D) (ag agStartRel agRel : Z) : outcome (Z * bytes * Z) :=
  match fuel with
  | O => NoFuel
  | S fuel' =>
      blk ← readAGBlock partOff sb r ag agRel;
      lvl ← be16 blk 4;
      numrecs ← be16 blk 6;
      if lvl =? 0 then
        found ← scan (Z.to_nat numrecs) 0 (fun i =>
          start ← be32 blk (hdrSize + i * allocRecSize);
          Ret (if start =? agStartRel then Some i else None));
        match found with
        | Some i => Ret (agRel, blk, i)
        | None => Fail (Errorf "bno B-tree: startblock not found")
        end
      else
        child ← bnoChild (Z.to_nat numrecs) blk agStartRel 0 0;
        agRel ← be32 blk (hdrSize + allocMaxInternal (zlen blk) hdrSize * allocKeySize + child * allocPtrSize);
        bnoFindLoop fuel' r ag agStartRel agRel
  end.
Definition bnoFindRecord (r : D) (ag rootRel agStartRel : Z) : outcome (Z * bytes * Z) :=
  bnoFindLoop tfuel r ag agStartRel rootRel.

Definition bnoUpdateRecord (ag rootRel oldStart newStart newCount : Z) : M W unit :=
  f ← readD (fun r => bnoFindRecord r ag rootRel oldStart);
  let '(leafRel, leaf, recIdx) := f in
  leaf ← lift (putRec leaf (hdrSize + recIdx * allocRecSize) (newStart, newCount));
  numrecs ← lift (be16 leaf 6);
  leaf ← lift (bnoBubbleRight (Z.to_nat (numrecs - 1 - recIdx)) leaf hdrSize recIdx);
  writeTree ag leafRel leaf.

(** ** Insertion *)
Definition allocBumpAGFBtreeBlocks (ag delta : Z) : M W unit :=
  agfBuf ← readAGF ag;
  agfBuf ← lift (allocBumpBtreeBlocks agfBuf delta);
  writeAGF partOff sb ag agfBuf.

(** The sibling left behind gets the new block as its left sibling. *)
Definition stitchRight (ag oldRight rightRel : Z) : M W unit :=
  if oldRight =? nullAgb then mret tt
  else
    sib ← readAG ag oldRight;
    sib ← lift (put32 sib 8 rightRel);
    writeTree ag oldRight sib.

Section Insert.
Variable metaAlloc : Z -> Z -> M W Z.    (* ag, nBlocks -> fsbno *)

Definition allocSplitLeaf (ag selfRel : Z) (bnoSort : bool) (r : arec) : M W allocSplit :=
  rightAbs ← metaAlloc ag 1;
  let rightRel := (fsbToAgAgbno sb rightAbs).2 in
  leaf ← readAG ag selfRel;
  numrecs ← lift (be16 leaf 6);
  insertAt ← lift (insertSlot bnoSort leaf hdrSize numrecs r);
  let total := numrecs + 1 in
  old ← lift (readSlots (Z.to_nat numrecs) leaf hdrSize allocRecSize);
  let recs := insertAtZ old insertAt (recBytes r) in
  let half := Z.quot total 2 in
  magic ← lift (be32 leaf 0);
  oldRight ← lift (be32 leaf 12);
  left ← lift (put32 leaf 12 rightRel);
  left ← lift (put16 left 6 (u16 half));
  left ← lift (putSlots left hdrSize allocRecSize (take (Z.to_nat half) recs));
  left ← lift (clearSlots (Z.to_nat (numrecs - half)) left (hdrSize + half * allocRecSize) allocRecSize);
  writeTree ag selfRel left;;
  right ← lift (newAllocBlock sb ag rightRel 0 (total - half) magic);
  right ← lift (put32 right 8 selfRel);
  right ← lift (put32 right 12 oldRight);
  right ← lift (putSlots right hdrSize allocRecSize (drop (Z.to_nat half) recs));
  writeTree ag rightRel right;;
  stitchRight ag oldRight rightRel;;
  allocBumpAGFBtreeBlocks ag 1;;
  match drop (Z.to_nat half) recs with
  | rec :: _ => key ← lift (recAt rec 0); mret (Some (key, rightRel))
  | [] => lift Panic
  end.

Definition allocSplitNode (ag selfRel : Z) (node : bytes) (insertAt : Z) (newKey : arec) (newPtr : Z) : M W allocSplit :=
  numrecs ← lift (be16 node 6);
  let maxInternal := allocMaxInternal (zlen node) hdrSize in
  let ptrBase := hdrSize + maxInternal * allocKeySize in
  let total := numrecs + 1 in
  ks ← lift (readKeys (Z.to_nat numrecs) node hdrSize);
  ps ← lift (readPtrs (Z.to_nat numrecs) node ptrBase);
  let keys := insertAtZ ks insertAt newKey in
  let ptrs := insertAtZ ps insertAt newPtr in
  let half := Z.quot total 2 in
  rightAbs ← metaAlloc ag 1;
  let rightRel := (fsbToAgAgbno sb rightAbs).2 in
  magic ← lift (be32 node 0);
  blockLevel ← lift (be16 node 4);
  oldRight ← lift (be32 node 12);
  left ← lift (put32 node 12 rightRel);
  left ← lift (put16 left 6 (u16 half));
  let h := Z.to_nat half in
  left ← lift (putKeyPtrs left hdrSize ptrBase (take h keys) (take h ptrs));
  let gap := Z.to_nat (numrecs - half) in
  left ← lift (putKeyPtrs left (hdrSize + half * allocKeySize) (ptrBase + half * allocPtrSize)
                 (replicate gap (0, 0)) (replicate gap 0));
  writeTree ag selfRel left;;
  right ← lift (newAllocBlock sb ag rightRel blockLevel (total - half) magic);
  right ← lift (put32 right 8 selfRel);
  right ← lift (put32 right 12 oldRight);
  right ← lift (putKeyPtrs right hdrSize ptrBase (drop h keys) (drop h ptrs));
  writeTree ag rightRel right;;
  stitchRight ag oldRight rightRel;;
  allocBumpAGFBtreeBlocks ag 1;;
  match drop h keys with
  | key :: _ => mret (Some (key, rightRel))
  | [] => lift Panic
  end.

Fixpoint allocInsertInto (fuel : nat) (ag selfRel : Z) (bnoSort : bool) (r : arec) : M W allocSplit :=
  match fuel with
  | O => lift NoFuel
  | S fuel' =>
      blk ← readAG ag selfRel;
      lvl ← lift (be16 blk 4);
      numrecs ← lift (be16 blk 6);
      if lvl =? 0 then
        let maxRecs := allocMaxLeaf (zlen blk) hdrSize in
        insertAt ← lift (insertSlot bnoSort blk hdrSize numrecs r);
        if numrecs <? maxRecs then
          blk ← lift (leafInsert blk hdrSize numrecs insertAt r);
          writeTree ag selfRel blk;;
          mret None
        else allocSplitLeaf ag selfRel bnoSort r
      else
        let maxInternal := allocMaxInternal (zlen blk) hdrSize in
        let ptrBase := hdrSize + maxInternal * allocKeySize in
        child ← lift (coverChild (Z.to_nat numrecs) bnoSort blk hdrSize r 0 0);
        childRel ← lift (be32 blk (ptrBase + child * allocPtrSize));
        res ← allocInsertInto fuel' ag childRel bnoSort r;
        match res with
        | None => mret None
        | Some (rightKey, rightRel) =>
            let insertAt := child + 1 in
            if numrecs <? maxInternal then
              blk ← lift (nodeInsert blk hdrSize numrecs maxInternal insertAt rightKey rightRel);
              writeTree ag selfRel blk;;
              mret None
            else allocSplitNode ag selfRel blk insertAt rightKey rightRel
        end
  end.

Definition setTreeRoot (bnoSort : bool) (agfBuf : bytes) (rootRel level : Z) : outcome bytes :=
  b ← put32 agfBuf (if bnoSort then agfOffBnoRoot else agfOffCntRoot) rootRel;
  put32 b (if bnoSort then agfOffBnoLevel else agfOffCntLevel) (u32 level).

Definition allocInsertRecord (ag rootRel level : Z) (r : arec) (bnoSort : bool) : M W unit :=
  res ← allocInsertInto tfuel ag rootRel bnoSort r;
  match res with
  | None => mret tt
  | Some (rightKey, rightRel) =>
      newRootAbs ← metaAlloc ag 1;
      let newRootRel := (fsbToAgAgbno sb newRootAbs).2 in
      oldRoot ← readAG ag rootRel;
      oldBlockLevel ← lift (be16 oldRoot 4);
      magic ← lift (be32 oldRoot 0);
      root ← lift (newAllocBlock sb ag newRootRel (oldBlockLevel + 1) 2 magic);
      leftKey ← lift (recAt oldRoot hdrSize);
      root ← lift (putRec root hdrSize leftKey);
      root ← lift (putRec root (hdrSize + allocKeySize) rightKey);
      let ptrBase := hdrSize + allocMaxInternal (zlen root) hdrSize * allocKeySize in
      root ← lift (put32 root ptrBase rootRel);
      root ← lift (put32 root (ptrBase + allocPtrSize) rightRel);
      writeTree ag newRootRel root;;
      agfBuf ← readAGF ag;
      agfBuf ← lift (setTreeRoot bnoSort agfBuf newRootRel (level + 1));
      agfBuf ← lift (allocBumpBtreeBlocks agfBuf 1);
      writeAGF partOff sb ag agfBuf
  end.
End Insert.

(** ** Deletion *)
Definition childPtr (blk : bytes) (i : Z) : outcome Z :=
  let ptrBase := hdrSize + allocMaxInternal (zlen blk) hdrSize * allocKeySize in
  be32 blk (ptrBase + i * allocPtrSize).
Definition firstKey (blk : bytes) : outcome arec := recAt blk hdrSize.
Definition minRecsOf (isLeaf : bool) (blk : bytes) : Z :=
  if isLeaf then allocMinLeaf (zlen blk) hdrSize else allocMinInternal (zlen blk) hdrSize.
(** [copy(dst[d:d+n], src[s:s+n])] *)
Definition copyRange (dst : bytes) (d : Z) (src : bytes) (s n : Z) : outcome bytes :=
  guardP (inrange dst d n);;
  x ← sub src s (s + n);
  copy_to dst d x.

(** [Some blk]: a record moved and the node's block is now [blk]. *)
Definition tryRshift (ag : Z) (node : allocPathNode) (rightRel : Z) (isLeaf : bool) : M W (option bytes) :=
  right ← readAG ag rightRel;
  rNum ← lift (be16 right 6);
  if rNum - 1 <? minRecsOf isLeaf right then mret None
  else
    let nb := pblk node in
    nNum ← lift (be16 nb 6);
    both ← lift (
      if isLeaf then
        nb ← copyRange nb (hdrSize + nNum * allocRecSize) right hdrSize allocRecSize;
        right ← allocRemoveRecAt right hdrSize 0 allocRecSize;
        Ret (nb, right)
      else
        let nPtrBase := hdrSize + allocMaxInternal (zlen nb) hdrSize * allocKeySize in
        let rMaxN := allocMaxInternal (zlen right) hdrSize in
        let rPtrBase := hdrSize + rMaxN * allocKeySize in
        nb ← copyRange nb (hdrSize + nNum * allocKeySize) right hdrSize allocKeySize;
        p ← be32 right rPtrBase;
        nb ← put32 nb (nPtrBase + nNum * allocPtrSize) p;
        right ← allocRemoveKeyPtrAt right hdrSize 0 rMaxN;
        Ret (nb, right));
    nb ← lift (put16 both.1 6 (u16 (nNum + 1)));
    right ← lift (put16 both.2 6 (u16 (rNum - 1)));
    writeTree ag rightRel right;;
    mret (Some nb).

Definition tryLshift (ag : Z) (node : allocPathNode) (leftRel : Z) (isLeaf : bool) : M W (option bytes) :=
  left ← readAG ag leftRel;
  lNum ← lift (be16 left 6);
  if lNum - 1 <? minRecsOf isLeaf left then mret None
  else
    let nb := pblk node in
    nNum ← lift (be16 nb 6);
    both ← lift (
      if isLeaf then
        nb ← copyWithin nb (hdrSize + allocRecSize) hdrSize (hdrSize + nNum * allocRecSize);
        let src := hdrSize + (lNum - 1) * allocRecSize in
        nb ← copyRange nb hdrSize left src allocRecSize;
        left ← clear_range left src (src + allocRecSize);
        Ret (nb, left)
      else
        let nPtrBase := hdrSize + allocMaxInternal (zlen nb) hdrSize * allocKeySize in
        let lPtrBase := hdrSize + allocMaxInternal (zlen left) hdrSize * allocKeySize in
        nb ← copyWithin nb (hdrSize + allocKeySize) hdrSize (hdrSize + nNum * allocKeySize);
        nb ← copyWithin nb (nPtrBase + allocPtrSize) nPtrBase (nPtrBase + nNum * allocPtrSize);
        nb ← copyRange nb hdrSize left (hdrSize + (lNum - 1) * allocKeySize) allocKeySize;
        p ← be32 left (lPtrBase + (lNum - 1) * allocPtrSize);
        nb ← put32 nb nPtrBase p;
        left ← clear_range left (hdrSize + (lNum - 1) * allocKeySize) (hdrSize + lNum * allocKeySize);
        left ← put32 left (lPtrBase + (lNum - 1) * allocPtrSize) 0;
        Ret (nb, left));
    nb ← lift (put16 both.1 6 (u16 (nNum + 1)));
    left ← lift (put16 both.2 6 (u16 (lNum - 1)));
    writeTree ag leftRel left;;
    mret (Some nb).

(** The copy loops of [merge]. *)
Fixpoint mergeLeafRecs (n : nat) (left right : bytes) (lNum i : Z) : outcome bytes :=
  match n with
  | O => Ret left
  | S n' =>
      left ← copyRange left (hdrSize + (lNum + i) * allocRecSize) right (hdrSize + i * allocRecSize) allocRecSize;
      mergeLeafRecs n' left right lNum (i + 1)
  end.
Fixpoint mergeNodeRecs (n : nat) (left right : bytes) (lNum i : Z) : outcome bytes :=
  match n with
  | O => Ret left
  | S n' =>
      let lPtrBase := hdrSize + allocMaxInternal (zlen left) hdrSize * allocKeySize in
      let rPtrBase := hdrSize + allocMaxInternal (zlen right) hdrSize * allocKeySize in
      left ← copyRange left (hdrSize + (lNum + i) * allocKeySize) right (hdrSize + i * allocKeySize) allocKeySize;
      p ← be32 right (rPtrBase + i * allocPtrSize);
      left ← put32 left (lPtrBase + (lNum + i) * allocPtrSize) p;
      mergeNodeRecs n' left right lNum (i + 1)
  end.
(** [merge]; the caller records [rightRel] as freed. *)
Definition merge (ag leftRel : Z) (left : bytes) (rightRel : Z) (isLeaf : bool) : M W unit :=
  right ← readAG ag rightRel;
  lNum ← lift (be16 left 6);
  rNum ← lift (be16 right 6);
  left ← lift (if isLeaf then mergeLeafRecs (Z.to_nat rNum) left right lNum 0
               else mergeNodeRecs (Z.to_nat rNum) left right lNum 0);
  left ← lift (put16 left 6 (u16 (lNum + rNum)));
  rRsib ← lift (be32 right 12);
  left ← lift (put32 left 12 rRsib);
  writeTree ag leftRel left;;
  stitchRight ag rRsib leftRel.

Definition refreshParentKey (ag : Z) (parent : allocPathNode) (ci childRel : Z) : M W unit :=
  child ← readAG ag childRel;
  k ← lift (firstKey child);
  blk ← lift (putRec (pblk parent) (hdrSize + ci * allocKeySize) k);
  writeTree ag (prel parent) blk.

(** [fixupFrom(path, idx)]: [node] is [path[idx]], [ancestors] the blocks above it,
    nearest first.  Returns the blocks freed. *)
Fixpoint fixupFrom (ag : Z) (suppressMerge : bool) (ancestors : list allocPathNode) (node : allocPathNode) : M W (list Z) :=
  numrecs ← lift (be16 (pblk node) 6);
  lvl ← lift (be16 (pblk node) 4);
  let isLeaf := lvl =? 0 in
  let minRecs := minRecsOf isLeaf (pblk node) in
  match ancestors with
  | [] => writeTree ag (prel node) (pblk node);; mret []
  | parent :: rest =>
      if (minRecs <=? numrecs) || suppressMerge then writeTree ag (prel node) (pblk node);; mret []
      else
        let ci := pchildIdx parent in
        pNum ← lift (be16 (pblk parent) 6);
        let hasRight := ci + 1 <=? pNum - 1 in
        moved ← (if hasRight then
                   rightRel ← lift (childPtr (pblk parent) (ci + 1));
                   m ← tryRshift ag node rightRel isLeaf;
                   mret (option_map (fun nb => (nb, rightRel)) m)
                 else mret None);
        match moved with
        | Some (nb, rightRel) =>
            writeTree ag (prel node) nb;;
            refreshParentKey ag parent (ci + 1) rightRel;;
            mret []
        | None =>
            moved ← (if 0 <=? ci - 1 then
                       leftRel ← lift (childPtr (pblk parent) (ci - 1));
                       tryLshift ag node leftRel isLeaf
                     else mret None);
            match moved with
            | Some nb =>
                writeTree ag (prel node) nb;;
                refreshParentKey ag parent ci (prel node);;
                mret []
            | None =>
                writeTree ag (prel node) (pblk node);;
                st ← (if hasRight then
                        rightRel ← lift (childPtr (pblk parent) (ci + 1));
                        merge ag (prel node) (pblk node) rightRel isLeaf;;
                        pb ← lift (allocRemoveKeyPtrAt (pblk parent) hdrSize (ci + 1) (allocMaxInternal (zlen (pblk parent)) hdrSize));
                        mret (pb, rightRel)
                      else
                        leftRel ← lift (childPtr (pblk parent) (ci - 1));
                        leftBlk ← readAG ag leftRel;
                        merge ag leftRel leftBlk (prel node) isLeaf;;
                        pb ← lift (allocRemoveKeyPtrAt (pblk parent) hdrSize ci (allocMaxInternal (zlen (pblk parent)) hdrSize));
                        mret (pb, prel node));
                pn ← lift (be16 st.1 6);
                pb ← lift (put16 st.1 6 (u16 (pn - 1)));
                freed ← fixupFrom ag suppressMerge rest (mkPath (prel parent) pb (pchildIdx parent));
                mret (st.2 :: freed)
            end
        end
  end.

(** Rewrite the separator [ci] of [parentRel] from its child's first key. *)
Definition refreshSeparator (ag parentRel ci : Z) (parent : bytes) : M W unit :=
  childRel ← lift (childPtr parent ci);
  child ← readAG ag childRel;
  k ← lift (firstKey child);
  cur ← lift (recAt parent (hdrSize + ci * allocKeySize));
  if (cur.1 =? k.1) && (cur.2 =? k.2) then mret tt
  else
    blk ← lift (putRec parent (hdrSize + ci * allocKeySize) k);
    writeTree ag parentRel blk.

(** [refreshKeysAlongPath]: [ancestors] nearest first. *)
Fixpoint refreshKeysAlongPath (ag : Z) (ancestors : list allocPathNode) : M W unit :=
  match ancestors with
  | [] => mret tt
  | p :: rest =>
      parent ← readAG ag (prel p);
      pNum ← lift (be16 parent 6);
      (if pNum =? 0 then mret tt
       else refreshSeparator ag (prel p) (if pNum <=? pchildIdx p then pNum - 1 else pchildIdx p) parent);;
      refreshKeysAlongPath ag rest
  end.

(** The recorded descent; the result lists the ancestors nearest first. *)
Fixpoint deleteDescend (fuel : nat) (r : D) (ag curRel : Z) (bnoSort : bool) (rec : arec) (acc : list allocPathNode) : outcome (list allocPathNode * allocPathNode) :=
  match fuel with
  | O => NoFuel
  | S fuel' =>
      blk ← readAGBlock partOff sb r ag curRel;
      lvl ← be16 blk 4;
      numrecs ← be16 blk 6;
      if lvl =? 0 then Ret (acc, mkPath curRel blk 0)
      else
        let ptrBase := hdrSize + allocMaxInternal (zlen blk) hdrSize * allocKeySize in
        child ← coverChild (Z.to_nat numrecs) bnoSort blk hdrSize rec 0 0;
        next ← be32 blk (ptrBase + child * allocPtrSize);
        deleteDescend fuel' r ag next bnoSort rec (mkPath curRel blk child :: acc)
  end.

Definition findRec (bnoSort : bool) (blk : bytes) (numrecs : Z) (rec : arec) : outcome (option Z) :=
  scan (Z.to_nat numrecs) 0 (fun i =>
    x ← recAt blk (hdrSize + i * allocRecSize);
    Ret (if (x.1 =? rec.1) && (bnoSort || (x.2 =? rec.2)) then Some i else None)).

(** The root-collapse loop: final root, level and freed roots. *)
Fixpoint collapseRoot (fuel : nat) (ag rootRel level : Z) : M W (Z * Z * list Z) :=
  match fuel with
  | O => lift NoFuel
  | S fuel' =>
      rootBlk ← readAG ag rootRel;
      rootLvl ← lift (be16 rootBlk 4);
      rootNum ← lift (be16 rootBlk 6);
      if (rootLvl =? 0) || negb (rootNum =? 1) then mret (rootRel, level, [])
      else
        onlyChild ← lift (be32 rootBlk (hdrSize + allocMaxInternal (zlen rootBlk) hdrSize * allocKeySize));
        childBlk ← readAG ag onlyChild;
        childBlk ← lift (put32 childBlk 8 nullAgb);
        childBlk ← lift (put32 childBlk 12 nullAgb);
        writeTree ag onlyChild childBlk;;
        res ← collapseRoot fuel' ag onlyChild (level - 1);
        let '(rt, lv, freed) := res in
        mret (rt, lv, rootRel :: freed)
  end.

Definition allocDeleteRecordCollect (ag rootRel level : Z) (rec : arec) (bnoSort : bool) : M W (list Z) :=
  w ← getS;
  suppressMerge ← (if allocDraining w then mret true
                   else catchM (readAGF ag)
                          (fun agfBuf => longest ← lift (be32 agfBuf agfOffLongest); mret (longest <? 2))
                          (fun _ => mret false));
  p ← readD (fun r => deleteDescend tfuel r ag rootRel bnoSort rec []);
  let '(ancestors, leaf) := p in
  numrecs ← lift (be16 (pblk leaf) 6);
  recIdx ← lift (findRec bnoSort (pblk leaf) numrecs rec);
  match recIdx with
  | None => failM (Errorf "B-tree delete: record not found")
  | Some recIdx =>
      blk ← lift (allocRemoveRecAt (pblk leaf) hdrSize recIdx allocRecSize);
      freed1 ← fixupFrom ag suppressMerge ancestors (mkPath (prel leaf) blk (pchildIdx leaf));
      refreshKeysAlongPath ag ancestors;;
      c ← collapseRoot tfuel ag rootRel level;
      let '(newRootRel, newLevel, freed2) := c in
      let freedBlocks := freed1 ++ freed2 in
      (if negb (newRootRel =? rootRel) || negb (newLevel =? level) || (0 <? zlen freedBlocks) then
         agfBuf ← readAGF ag;
         agfBuf ← lift (setTreeRoot bnoSort agfBuf newRootRel newLevel);
         agfBuf ← lift (allocBumpBtreeBlocks agfBuf (- zlen freedBlocks));
         writeAGF partOff sb ag agfBuf
       else mret tt);;
      mret freedBlocks
  end.

(** [allocCntRefreshLeafKey]: depth-first search for the leaf, then refresh the
    separators bottom-up.  The guard is shared by the whole search. *)
Fixpoint refreshSearch (fuel : nat) (r : D) (ag target : Z) (guard : LoopGuard) (rel : Z) : outcome (option (list (Z * Z)) * LoopGuard) :=
  match fuel with
  | O => NoFuel
  | S fuel' =>
      guard ← Next guard;
      blk ← readAGBlock partOff sb r ag rel;
      lvl ← be16 blk 4;
      if lvl =? 0 then Ret (None, guard)
      else
        numrecs ← be16 blk 6;
        (fix children (n : nat) (i : Z) (guard : LoopGuard) : outcome (option (list (Z * Z)) * LoopGuard) :=
           match n with
           | O => Ret (None, guard)
           | S n' =>
               child ← childPtr blk i;
               if child =? target then Ret (Some [(rel, i)], guard)
               else
                 res ← refreshSearch fuel' r ag target guard child;
                 match res.1 with
                 | Some sub => Ret (Some ((rel, i) :: sub), res.2)
                 | None => children n' (i + 1) res.2
                 end
           end) (Z.to_nat numrecs) 0 guard
  end.
Fixpoint refreshSteps (ag : Z) (path : list (Z * Z)) : M W unit :=
  match path with
  | [] => mret tt
  | (rel, ci) :: rest =>
      parent ← readAG ag rel;
      refreshSeparator ag rel ci parent;;
      refreshSteps ag rest
  end.
Definition allocCntRefreshLeafKey (ag rootRel level targetLeafRel : Z) : M W unit :=
  if level <=? 1 then mret tt
  else
    p ← readD (fun r => refreshSearch tfuel r ag targetLeafRel (NewLoopGuard allocBTreeMaxSteps) rootRel);
    match p.1 with
    | None => failM (Errorf "cnt separator refresh: leaf not reachable")
    | Some path => refreshSteps ag (rev path)
    end.
(** ** The single-leaf routines the trees above replaced; no caller is left in the code *)
Definition btreeDeleteRecord (ag recIdx leafRel : Z) (leaf : bytes) (recSize : Z) : M W unit :=
  numrecs ← lift (be16 leaf 6);
  if (recIdx <? 0) || (numrecs <=? recIdx) then failM (Errorf "btree delete: invalid record index")
  else
    let recStart := hdrSize + recIdx * recSize in
    leaf ← lift (copyWithin leaf recStart (recStart + recSize) (hdrSize + numrecs * recSize));
    let lastOff := hdrSize + (numrecs - 1) * recSize in
    leaf ← lift (clear_range leaf lastOff (lastOff + recSize));
    leaf ← lift (put16 leaf 6 (u16 (numrecs - 1)));
    writeTree ag leafRel leaf.

(** The sort key of a record: its start in the bno tree, its count in the cnt tree. *)
Definition sortKey (bnoSort : bool) (r : arec) : Z := if bnoSort then r.1 else r.2.
Definition keyAt (bnoSort : bool) (blk : bytes) (off : Z) : outcome Z := be32 blk (if bnoSort then off else off + 4).
Fixpoint keyChild (n : nat) (bnoSort : bool) (blk : bytes) (newKey i child : Z) : outcome Z :=
  match n with
  | O => Ret child
  | S n' =>
      k ← keyAt bnoSort blk (hdrSize + i * allocKeySize);
      if k <=? newKey then keyChild n' bnoSort blk newKey (i + 1) i else Ret child
  end.
Fixpoint treeInsertLoop (fuel : nat) (ag : Z) (bnoSort : bool) (rec : arec) (agRel : Z) : M W unit :=
  match fuel with
  | O => lift NoFuel
  | S fuel' =>
      blk ← readAG ag agRel;
      lvl ← lift (be16 blk 4);
      numrecs ← lift (be16 blk 6);
      if lvl =? 0 then
        if allocMaxLeaf (zlen blk) hdrSize <=? numrecs then failM (Errorf "bno/cnt B-tree leaf full")
        else
          found ← lift (scan (Z.to_nat numrecs) 0 (fun i =>
            key ← keyAt bnoSort blk (hdrSize + i * allocRecSize);
            Ret (if sortKey bnoSort rec <? key then Some i else None)));
          let insertAt := match found with Some i => i | None => numrecs end in
          let insertOff := hdrSize + insertAt * allocRecSize in
          blk ← lift (copyWithin blk (insertOff + allocRecSize) insertOff (hdrSize + numrecs * allocRecSize));
          blk ← lift (putRec blk insertOff rec);
          blk ← lift (put16 blk 6 (u16 (numrecs + 1)));
          writeTree ag agRel blk
      else
        child ← lift (keyChild (Z.to_nat numrecs) bnoSort blk (sortKey bnoSort rec) 0 0);
        agRel ← lift (be32 blk (hdrSize + allocMaxInternal (zlen blk) hdrSize * allocKeySize + child * allocPtrSize));
        treeInsertLoop fuel' ag bnoSort rec agRel
  end.
Definition allocBTreeInsert (ag rootRel : Z) (rec : arec) (bnoSort : bool) : M W unit := treeInsertLoop tfuel ag bnoSort rec rootRel.
End Tree.
