(* ===== verification/Alloc.v ===== *)
(** * Block allocation (alloc.go, alloc_btree.go, alloc_btree_delete.go)

    [allocBlocks] and [freeBlocks] with everything they reach: both free-space trees, the
    split reserve, the queue of merged-away blocks and its drain at the outermost
    operation.  The Go functions call each other (a free may split a tree, which
    allocates, which may merge, which frees); the model ties that knot by fuel:
    [allocOps n] admits [n] nested allocations or frees. *)
From S2P Require Import Prelude Bytes Crc Device Superblock SafeIO Inode FileRead Dir AgBlocks AllocTree.

(** [defer]: run [m], then [cleanup] whether it returned or failed. *)
Definition finallyM {S A} (m : M S A) (cleanup : M S unit) : M S A := fun s =>
  match m s with
  | (Ret a, s') => match cleanup s' with
                   | (Ret _, s'') => (Ret a, s'')
                   | (Fail e, s'') => (Fail e, s'')
                   | (Panic, s'') => (Panic, s'')
                   | (NoFuel, s'') => (NoFuel, s'')
                   end
  | (Fail e, s') => match cleanup s' with
                    | (Panic, s'') => (Panic, s'')
                    | (NoFuel, s'') => (NoFuel, s'')
                    | (_, s'') => (Fail e, s'')
                    end
  | (Panic, s') => (Panic, s')
  | (NoFuel, s') => (NoFuel, s')
  end.

Section Alloc.
Context {SIO : SafeIO} {D : Type} {Dev : Device D}.
Variables (partOff : Z) (sb : superblock) (tfuel : nat).
Let W := World D.
Let hdrSize := agBTreeHdrSize sb.

Record AllocOps := mkOps {
  opAlloc : Z -> Z -> M W Z;          (* allocBlocks: ag, nBlocks -> fsbno *)
  opFree : Z -> Z -> M W unit         (* freeBlocks: fsbno, nBlocks *)
}.

Section Open.
Variable self : AllocOps.

(** ** The block source of splits *)
Definition allocMetaBlock (ag nBlocks : Z) : M W Z :=
  if negb (nBlocks =? 1) then failM (Errorf "allocMetaBlock: only single-block allocations")
  else opAlloc self ag 1.

Definition reserveAlloc (r : allocSplitReserve) (nBlocks : Z) : outcome (Z * allocSplitReserve) :=
  if negb (nBlocks =? 1) then Fail (Errorf "split reserve: only single-block allocations")
  else if rn r <=? rused r then Fail (Errorf "split reserve exhausted")
  else Ret (u64 (runStart r + rused r), mkReserve (runStart r) (rn r) (rused r + 1)).

(** Index of the queued block the drain hook hands out. *)
Fixpoint queueIdx (q : list (Z * Z)) (ag : Z) (i : nat) : option nat :=
  match q with
  | [] => None
  | it :: rest => if it.1 =? ag then Some i else queueIdx rest ag (S i)
  end.
(** Calling the function variable's value [h]; returns the block and the hook with
    its updated captured state. *)
Fixpoint callHook (h : metaHook) (ag nBlocks : Z) : M W (Z * metaHook) :=
  match h with
  | HookMetaBlock => b ← allocMetaBlock ag nBlocks; mret (b, h)
  | HookReserve r => x ← lift (reserveAlloc r nBlocks); mret (x.1, HookReserve x.2)
  | HookDrain prev =>
      if negb (nBlocks =? 1) then failM (Errorf "drain meta alloc: only single-block requests")
      else
        w ← getS;
        let q := allocMergedFreeQueue w in
        let idx := match queueIdx q ag 0 with
                   | Some i => Some i
                   | None => if 0 <? zlen q then Some 0%nat else None
                   end in
        match idx with
        | None => x ← callHook prev ag nBlocks; mret (x.1, HookDrain x.2)
        | Some i =>
            match q !! i with
            | Some item =>
                modS (set_queue (take i q ++ drop (S i) q));;
                mret (agAbsBlock sb item.1 item.2, h)
            | None => lift Panic
            end
        end
  end.
Definition allocMetaAllocBlockF (ag nBlocks : Z) : M W Z :=
  w ← getS;
  x ← callHook (allocMetaAllocBlock w) ag nBlocks;
  modS (set_hook x.2);;
  mret x.1.

(** ** Deferred frees *)
Definition allocFreeMergedBlocks (ag : Z) (freed : list Z) : M W unit :=
  modS (fun w => set_queue (allocMergedFreeQueue w ++ map (fun fb => (ag, fb)) freed) w).

Fixpoint drainLoop (fuel : nat) (guard : LoopGuard) : M W unit :=
  match fuel with
  | O => lift NoFuel
  | S fuel' =>
      w ← getS;
      match allocMergedFreeQueue w with
      | [] => mret tt
      | item :: rest =>
          guard ← lift (Next guard);
          modS (set_queue rest);;
          opFree self (agAbsBlock sb item.1 item.2) 1;;
          drainLoop fuel' guard
      end
  end.
Definition allocDrainMergedFrees : M W unit :=
  w ← getS;
  if allocDraining w then mret tt
  else
    modS (set_draining true);;
    let prevHook := allocMetaAllocBlock w in
    modS (set_hook (HookDrain prevHook));;
    finallyM (drainLoop stepsFuel (NewLoopGuard allocBTreeMaxSteps))
             (modS (set_hook prevHook);; modS (set_draining false)).

(** The operation boundary: [allocOpDepth++; defer ...]. *)
Definition withOp {A} (m : M W A) : M W A :=
  modS (fun w => set_opDepth (allocOpDepth w + 1) w);;
  a ← finallyM m (modS (fun w => set_opDepth (allocOpDepth w - 1) w));
  w ← getS;
  (if allocOpDepth w =? 0 then allocDrainMergedFrees else mret tt);;
  mret a.

Definition allocDeleteRecord (ag rootRel level : Z) (rec : arec) (bnoSort : bool) : M W unit :=
  withOp (freed ← allocDeleteRecordCollect partOff sb tfuel ag rootRel level rec bnoSort;
          allocFreeMergedBlocks ag freed).
Definition bnoDeleteRecord (ag rootRel level agStartRel : Z) : M W unit :=
  allocDeleteRecord ag rootRel level (agStartRel, 0) true.

(** ** Split reserves *)
Definition allocReserveSplitBlocks (ag n : Z) : M W allocSplitReserve :=
  if n <=? 0 then mret (mkReserve 0 0 0)
  else start ← opAlloc self ag (u32 n); mret (mkReserve start (u32 n) 0).
Definition reserveRelease (r : allocSplitReserve) : M W unit :=
  let leftover := u32 (rn r - rused r) in
  if leftover =? 0 then mret tt
  else opFree self (u64 (runStart r + rused r)) leftover.

Definition allocInsertWithReserve (ag level : Z) (insertFn : M W unit) : M W unit :=
  w ← getS;
  if 0 <? allocReserveDepth w then insertFn
  else if allocDraining w then insertFn
  else
    catchM (allocReserveSplitBlocks ag (level + 1))
      (fun reserve =>
         w ← getS;
         let prevHook := allocMetaAllocBlock w in
         modS (set_hook (HookReserve reserve));;
         modS (fun w => set_reserveDepth (allocReserveDepth w + 1) w);;
         finallyM insertFn
           (w ← getS;
            let r := match allocMetaAllocBlock w with HookReserve r => r | _ => reserve end in
            modS (set_hook prevHook);;
            finallyM (reserveRelease r) (modS (fun w => set_reserveDepth (allocReserveDepth w - 1) w))))
      (fun _ => insertFn).

Definition bnoInsertRecord (ag rootRel level agStartRel nBlocks : Z) : M W unit :=
  allocInsertRecord partOff sb tfuel allocMetaAllocBlockF ag rootRel level (agStartRel, nBlocks) true.
Definition cntInsertRecord (ag rootRel level agStartRel nBlocks : Z) : M W unit :=
  allocInsertRecord partOff sb tfuel allocMetaAllocBlockF ag rootRel level (agStartRel, nBlocks) false.

(** ** The two operations *)
Definition getAGF (ag : Z) : M W bytes := readAGF partOff sb ag.

(** Take the whole extent: delete it from both trees; the new AGF, cnt root and level. *)
Definition consumeWhole (ag cntRoot cntLevel startRel count : Z) : M W (bytes * Z * Z) :=
  cntFreed ← allocDeleteRecordCollect partOff sb tfuel ag cntRoot cntLevel (startRel, count) false;
  agfBuf ← getAGF ag;
  bnoRoot ← lift (be32 agfBuf agfOffBnoRoot);
  bnoLevel ← lift (be32 agfBuf agfOffBnoLevel);
  bnoFreed ← allocDeleteRecordCollect partOff sb tfuel ag bnoRoot bnoLevel (startRel, 0) true;
  allocFreeMergedBlocks ag (cntFreed ++ bnoFreed);;
  agfBuf ← getAGF ag;
  cntRoot ← lift (be32 agfBuf agfOffCntRoot);
  cntLevel ← lift (be32 agfBuf agfOffCntLevel);
  mret (agfBuf, cntRoot, cntLevel).

(** Take the front of the extent: shrink its record in both trees. *)
Definition consumePart (ag cntRoot cntLevel bnoRoot cntLeafRel : Z) (cntLeaf : bytes) (recIdx startRel newStart remaining : Z) : M W unit :=
  cntLeaf ← lift (putRec cntLeaf (hdrSize + recIdx * allocRecSize) (newStart, remaining));
  cntLeaf ← lift (allocCntBubbleLeft cntLeaf hdrSize (Z.to_nat recIdx));
  writeTree partOff sb ag cntLeafRel cntLeaf;;
  allocCntRefreshLeafKey partOff sb tfuel ag cntRoot cntLevel cntLeafRel;;
  bnoUpdateRecord partOff sb tfuel ag bnoRoot startRel newStart remaining.

Definition allocBlocksBody (ag nBlocks : Z) : M W Z :=
  agfBuf ← getAGF ag;
  cntRoot ← lift (be32 agfBuf agfOffCntRoot);
  cntLevel ← lift (be32 agfBuf agfOffCntLevel);
  bnoRoot ← lift (be32 agfBuf agfOffBnoRoot);
  bnoLevel ← lift (be32 agfBuf agfOffBnoLevel);
  f ← readD (fun r => cntFindBlock partOff sb r ag cntRoot nBlocks);
  let '(cntLeafRel, cntLeaf, recIdx) := f in
  rec ← lift (recAt cntLeaf (hdrSize + recIdx * allocRecSize));
  let '(startRel, count) := rec in
  if count <? nBlocks then failM (Errorf "largest free extent too small")
  else
    let remaining := count - nBlocks in
    st ← (if remaining =? 0 then consumeWhole ag cntRoot cntLevel startRel count
          else consumePart ag cntRoot cntLevel bnoRoot cntLeafRel cntLeaf recIdx startRel (u32 (startRel + nBlocks)) remaining;;
               mret (agfBuf, cntRoot, cntLevel));
    let '(agfBuf, cntRoot, cntLevel) := st in
    freeBlks ← lift (be32 agfBuf agfOffFreeBlks);
    agfBuf ← lift (put32 agfBuf agfOffFreeBlks (u32 (freeBlks - nBlocks)));
    longest ← readD (fun r => agfRecomputeLongest partOff sb r ag cntRoot cntLevel);
    agfBuf ← lift (put32 agfBuf agfOffLongest longest);
    writeAGF partOff sb ag agfBuf;;
    mret (agAbsBlock sb ag startRel).

Definition freeBlocksBody (absStartBlock nBlocks : Z) : M W unit :=
  let '(ag, agStartRel) := fsbToAgAgbno sb absStartBlock in
  agfBuf ← getAGF ag;
  bnoRoot ← lift (be32 agfBuf agfOffBnoRoot);
  bnoLevel ← lift (be32 agfBuf agfOffBnoLevel);
  allocInsertWithReserve ag bnoLevel (bnoInsertRecord ag bnoRoot bnoLevel agStartRel nBlocks);;
  agfBuf ← getAGF ag;
  cntRoot ← lift (be32 agfBuf agfOffCntRoot);
  cntLevel ← lift (be32 agfBuf agfOffCntLevel);
  allocInsertWithReserve ag cntLevel (cntInsertRecord ag cntRoot cntLevel agStartRel nBlocks);;
  agfBuf ← getAGF ag;
  cntRoot ← lift (be32 agfBuf agfOffCntRoot);
  cntLevel ← lift (be32 agfBuf agfOffCntLevel);
  freeBlks ← lift (be32 agfBuf agfOffFreeBlks);
  agfBuf ← lift (put32 agfBuf agfOffFreeBlks (u32 (freeBlks + nBlocks)));
  longest ← readD (fun r => agfRecomputeLongest partOff sb r ag cntRoot cntLevel);
  agfBuf ← lift (put32 agfBuf agfOffLongest longest);
  writeAGF partOff sb ag agfBuf.
End Open.

Fixpoint allocOps (fuel : nat) : AllocOps :=
  match fuel with
  | O => mkOps (fun _ _ => lift NoFuel) (fun _ _ => lift NoFuel)
  | S fuel' =>
      let self := allocOps fuel' in
      mkOps (fun ag n => withOp self (allocBlocksBody ag n))
            (fun abs n => withOp self (freeBlocksBody self abs n))
  end.
Definition allocBlocks (fuel : nat) (ag nBlocks : Z) : M W Z := opAlloc (allocOps fuel) ag nBlocks.
Definition freeBlocks (fuel : nat) (absStartBlock nBlocks : Z) : M W unit := opFree (allocOps fuel) absStartBlock nBlocks.
End Alloc.
