(* ===== verification/AllocLeaf.v ===== *)
(** * Free-space leaves as record lists

    [leaf_view sb b l]: block [b] is a right-most leaf holding the records [l].  The
    byte-level edits of AgBlocks act on the view as list operations, and keep the
    tree order: [bno] by start, [cnt] by count and then start. *)
From S2P Require Import Prelude Bytes Crc Device Superblock SafeIO Inode FileRead Dir AgBlocks AllocTree.

Definition rec_ok (r : arec) : Prop := 0 <= r.1 < 2 ^ 32 /\ 0 <= r.2 < 2 ^ 32.
Definition bytesOf (o : outcome bytes) : bytes := match o with Ret b => b | _ => [] end.
Definition flat (l : list arec) : bytes := concat (map recBytes l).
Definition less (bno : bool) (a b : arec) : Prop := allocLess bno a.1 a.2 b.1 b.2 = true.
#[export] Instance less_dec bno : RelDecision (less bno).
Proof. intros a b. unfold less. apply _. Defined.

Record leaf_view (sb : superblock) (b : bytes) (l : list arec) : Prop := {
  lv_len : zlen b = blockSize sb;
  lv_bytes : isbytes b;
  lv_level : dec 2 b 4 = 0;
  lv_num : dec 2 b 6 = zlen l;
  lv_rsib : dec 4 b 12 = nullAgb;
  lv_fit : agBTreeHdrSize sb + 8 * zlen l <= zlen b;
  lv_recs : slice b (agBTreeHdrSize sb) (8 * zlen l) = flat l;
  lv_ok : Forall rec_ok l
}.

Lemma flat_app l k : flat (l ++ k) = flat l ++ flat k.
Proof. unfold flat. by rewrite map_app, concat_app. Qed.
Lemma flat_cons r l : flat (r :: l) = recBytes r ++ flat l.
Proof. done. Qed.
Lemma zlen_recBytes r : zlen (recBytes r) = 8.
Proof. unfold recBytes. rewrite zlen_app, !zlen_be_encode. done. Qed.
Lemma zlen_flat l : zlen (flat l) = 8 * zlen l.
Proof. induction l as [|r l IH]; [done|]. rewrite flat_cons, zlen_app, zlen_recBytes, zlen_cons, IH. lia. Qed.
Lemma isbytes_recBytes r : isbytes (recBytes r).
Proof. apply Forall_app. split; apply isbytes_be_encode. Qed.
Lemma isbytes_flat l : isbytes (flat l).
Proof. induction l; [constructor|]. rewrite flat_cons. apply Forall_app. split; [apply isbytes_recBytes|done]. Qed.

Lemma slice_app_l l k n : 0 <= n -> n = zlen l -> slice (l ++ k) 0 n = l.
Proof. intros. subst n. unfold slice, zlen. rewrite Nat2Z.id. cbn [drop Z.to_nat]. apply take_app_length. Qed.
Lemma slice_app_r l k o n : zlen l <= o -> slice (l ++ k) o n = slice k (o - zlen l) n.
Proof. intros. unfold slice. rewrite drop_app_ge by zl. do 2 f_equal. zl. Qed.
Lemma slice_app_shift l k n : slice (l ++ k) (zlen l) n = slice k 0 n.
Proof. rewrite slice_app_r by lia. by rewrite Z.sub_diag. Qed.

(** The view, cut between and at records. *)
Lemma hdr_pos sb : 16 <= agBTreeHdrSize sb <= 56.
Proof. unfold agBTreeHdrSize, btreeHdrSize. case_match; lia. Qed.

Lemma view_split sb b l1 l2 :
  leaf_view sb b (l1 ++ l2) ->
  slice b (agBTreeHdrSize sb) (8 * zlen l1) = flat l1 /\
  slice b (agBTreeHdrSize sb + 8 * zlen l1) (8 * zlen l2) = flat l2.
Proof.
  intros [L _ _ _ _ F R _]. rewrite zlen_app in *. pose proof (hdr_pos sb).
  pose proof (zlen_nonneg l1). pose proof (zlen_nonneg l2).
  rewrite Z.mul_add_distr_l, slice_app_adj, flat_app in R by lia.
  apply app_inj_1 in R; [done|]. apply Nat2Z.inj. fold (zlen (flat l1)). rewrite zlen_flat.
  change (zlen (slice b (agBTreeHdrSize sb) (8 * zlen l1)) = 8 * zlen l1). apply zlen_slice; lia.
Qed.
Lemma view_cut sb b l1 r l2 :
  leaf_view sb b (l1 ++ r :: l2) ->
  let o := agBTreeHdrSize sb + 8 * zlen l1 in
  slice b (agBTreeHdrSize sb) (8 * zlen l1) = flat l1 /\ slice b o 8 = recBytes r /\
  slice b (o + 8) (8 * zlen l2) = flat l2.
Proof.
  intros V o. destruct (view_split sb b l1 (r :: l2) V) as [E1 E2]. split; [done|].
  pose proof (view_split sb b (l1 ++ [r]) l2) as E3. rewrite <- app_assoc in E3. destruct (E3 V) as [_ E4].
  rewrite zlen_app in E4. change (zlen [r]) with 1 in E4. unfold o.
  split; [|rewrite <- E4; f_equal; lia].
  pose proof (f_equal (fun s => slice s 0 8) E2) as E. cbn beta in E.
  pose proof (hdr_pos sb). pose proof (zlen_nonneg l1). pose proof (zlen_nonneg l2). rewrite zlen_cons in E.
  rewrite slice_slice, Z.add_0_r in E by lia. rewrite E, flat_cons. apply slice_app_l; [lia|by rewrite zlen_recBytes].
Qed.

Lemma be_decode_enc4 v : 0 <= v < 2 ^ 32 -> be_decode (be_encode 4 v) = v.
Proof. intros. rewrite be_decode_encode. change (Z.of_nat 4) with 4. change (256 ^ 4) with (2 ^ 32). by apply Z.mod_small. Qed.

Lemma recAt_bytes b o r :
  rec_ok r -> 0 <= o -> o + 8 <= zlen b -> slice b o 8 = recBytes r -> recAt b o = Ret r.
Proof.
  intros [H1 H2] Ho Hle E. unfold recAt. rewrite !be_get_ok by lia. ostep.
  assert (slice b o 4 = be_encode 4 r.1 /\ slice b (o + 4) 4 = be_encode 4 r.2) as [E1 E2].
  { pose proof (slice_app_adj b o 4 4 ltac:(lia) ltac:(lia) ltac:(lia)) as A. change (4 + 4) with 8 in A.
    rewrite A in E. unfold recBytes in E. apply app_inj_1 in E; [done|].
    rewrite be_encode_length. apply Nat2Z.inj. change (zlen (slice b o 4) = 4). apply zlen_slice; lia. }
  unfold dec. rewrite E1, E2, !be_decode_enc4 by done. by destruct r.
Qed.
Lemma recAt_view sb b l1 r l2 :
  leaf_view sb b (l1 ++ r :: l2) -> recAt b (agBTreeHdrSize sb + zlen l1 * allocRecSize) = Ret r.
Proof.
  intros V. destruct (view_cut sb b l1 r l2 V) as (_ & E & _). destruct V as [L _ _ _ _ F _ O].
  rewrite zlen_app, zlen_cons in F. pose proof (zlen_nonneg l1). pose proof (zlen_nonneg l2).
  pose proof (hdr_pos sb). unfold allocRecSize. rewrite Z.mul_comm.
  apply recAt_bytes; [|lia|lia|done]. apply Forall_app in O as [_ O]. by apply Forall_cons in O as [? _].
Qed.

(** ** Building views *)
Section Edit.
Context (sb : superblock) (b b' : bytes) (l l' : list arec).
Context (V : leaf_view sb b l) (W : wrote b b' 6 (blockSize sb)).

(** [b'] differs from [b] from byte 6 on, has the new count and the new records. *)
Lemma view_intro :
  slice b' 8 8 = slice b 8 8 -> dec 2 b' 6 = zlen l' -> Forall rec_ok l' ->
  agBTreeHdrSize sb + 8 * zlen l' <= blockSize sb ->
  slice b' (agBTreeHdrSize sb) (8 * zlen l') = flat l' -> leaf_view sb b' l'.
Proof.
  intros H8 Hn Ho Hf Hr. destruct V as [L B Lv _ Rs _ _ _]. pose proof (wrote_len _ _ _ _ W).
  constructor; try done; [lia|by eapply wrote_bytes| | |lia].
  - rewrite (wrote_dec _ _ _ _ _ _ W) by lia. done.
  - assert (slice b' 12 4 = slice b 12 4) as E.
    { pose proof (f_equal (fun s => slice s 4 4) H8) as E. cbn beta in E. rewrite !slice_slice in E by lia. done. }
    unfold dec in *. by rewrite E.
Qed.
End Edit.

Lemma put32_spec b o v :
  0 <= o -> o + 4 <= zlen b ->
  exists b', put32 b o v = Ret b' /\ wrote b b' o (o + 4) /\ slice b' o 4 = be_encode 4 v.
Proof.
  intros Ho Hl. pose proof (zlen_be_encode 4 v : zlen (be_encode 4 v) = 4) as L4.
  exists (splice b o (be_encode 4 v)). rewrite be_put_ok by lia. split; [done|].
  pose proof (splice_wrote b o (be_encode 4 v)) as Wr. pose proof (slice_splice_same b o (be_encode 4 v)) as Sl.
  rewrite L4 in Wr, Sl. split; [apply Wr; [lia..|apply isbytes_be_encode]|apply Sl; lia].
Qed.
Lemma putRec_spec b o r :
  0 <= o -> o + 8 <= zlen b -> exists b', putRec b o r = Ret b' /\ wrote b b' o (o + 8) /\ slice b' o 8 = recBytes r.
Proof.
  intros Ho Hle. unfold putRec. destruct (put32_spec b o r.1) as (b1 & -> & W1 & S1); [lia..|]. ostep.
  pose proof (wrote_len _ _ _ _ W1). destruct (put32_spec b1 (o + 4) r.2) as (b2 & -> & W2 & S2); [lia..|].
  exists b2. split; [done|]. split.
  - eapply wrote_trans; (eapply wrote_weaken; [eassumption|lia..]).
  - pose proof (slice_app_adj b2 o 4 4 ltac:(lia) ltac:(lia) ltac:(lia)) as A. change (4 + 4) with 8 in A.
    rewrite A, S2. unfold recBytes. f_equal. by rewrite (wrote_slice _ _ _ _ W2) by lia.
Qed.

(** [copy(blk[dst:], blk[lo:hi])] that fits. *)
Lemma copyWithin_spec b dst lo hi :
  isbytes b -> 0 <= lo -> lo <= hi -> hi <= zlen b -> 0 <= dst -> dst + (hi - lo) <= zlen b ->
  exists b', copyWithin b dst lo hi = Ret b' /\ wrote b b' dst (dst + (hi - lo)) /\
    slice b' dst (hi - lo) = slice b lo (hi - lo).
Proof.
  intros Hb H1 H2 H3 H4 H5. unfold copyWithin. rewrite sub_ok by lia. ostep.
  assert (zlen (slice b lo (hi - lo)) = hi - lo) as Ls by (apply zlen_slice; lia).
  destruct (copy_spec b dst (slice b lo (hi - lo))) as (b' & E & Wr & Sl); [lia|lia|by apply isbytes_slice|].
  rewrite Ls in *. eauto.
Qed.

Section Ops.
Context (sb : superblock).
Let hdr := agBTreeHdrSize sb.

Lemma putRec_view b l1 r l2 r' :
  leaf_view sb b (l1 ++ r :: l2) -> rec_ok r' ->
  exists b', putRec b (hdr + zlen l1 * allocRecSize) r' = Ret b' /\ leaf_view sb b' (l1 ++ r' :: l2).
Proof.
  intros V Ho. pose proof (hdr_pos sb). pose proof (zlen_nonneg l1). pose proof (zlen_nonneg l2).
  destruct (view_cut sb b l1 r l2 V) as (E1 & _ & E3). pose proof V as [L _ _ N _ F _ O].
  rewrite zlen_app, zlen_cons in F, N. unfold allocRecSize. fold hdr in F, E1, E3 |- *.
  destruct (putRec_spec b (hdr + zlen l1 * 8) r') as (b' & -> & Wr & S8); [unfold hdr; lia|lia|].
  exists b'. split; [done|]. apply (view_intro sb b b' (l1 ++ r :: l2)); [done|eapply wrote_weaken; [exact Wr|unfold hdr; lia..]|..].
  - apply (wrote_slice _ _ _ _ Wr); unfold hdr; lia.
  - rewrite (wrote_dec _ _ _ _ _ _ Wr) by (unfold hdr; lia). rewrite zlen_app, zlen_cons. lia.
  - apply Forall_app in O as [O1 [_ O2]%Forall_cons]. apply Forall_app. split; [done|by constructor].
  - rewrite zlen_app, zlen_cons. unfold hdr in F. lia.
  - fold hdr. rewrite zlen_app, zlen_cons, flat_app, flat_cons.
    replace (8 * (zlen l1 + (1 + zlen l2))) with (8 * zlen l1 + (8 + 8 * zlen l2)) by lia.
    rewrite slice_app_adj, (slice_app_adj b' _ 8) by (unfold hdr; lia). f_equal; [|f_equal].
    + rewrite (wrote_slice _ _ _ _ Wr) by (unfold hdr; lia). done.
    + rewrite <- S8. f_equal. lia.
    + rewrite (wrote_slice _ _ _ _ Wr) by (unfold hdr; lia). done.
Qed.

Lemma leafInsert_view b l1 l2 r :
  leaf_view sb b (l1 ++ l2) -> rec_ok r -> hdr + 8 * (zlen (l1 ++ l2) + 1) <= blockSize sb -> blockSize sb <= 65536 ->
  exists b', leafInsert b hdr (zlen (l1 ++ l2)) (zlen l1) r = Ret b' /\ leaf_view sb b' (l1 ++ r :: l2).
Proof.
  intros V Ho Hroom Hbs. pose proof (hdr_pos sb). pose proof (zlen_nonneg l1). pose proof (zlen_nonneg l2).
  destruct (view_split sb b l1 l2 V) as (E1 & E2). pose proof V as [L B _ N _ F _ O].
  rewrite zlen_app in F, N, Hroom |- *. unfold leafInsert, allocRecSize. fold hdr in F, E1, E2 |- *.
  assert (16 <= hdr) by (unfold hdr; lia).
  destruct (copyWithin_spec b (hdr + zlen l1 * 8 + 8) (hdr + zlen l1 * 8) (hdr + (zlen l1 + zlen l2) * 8))
    as (b1 & -> & W1 & S1); [done|lia..|]. ostep. pose proof (wrote_len _ _ _ _ W1).
  replace (hdr + (zlen l1 + zlen l2) * 8 - (hdr + zlen l1 * 8)) with (8 * zlen l2) in * by lia.
  destruct (copy_spec b1 (hdr + zlen l1 * 8) (recBytes r)) as (b2 & E & W2 & S2);
    [lia|rewrite zlen_recBytes; lia|apply isbytes_recBytes|]. fold (recBytes r). rewrite E. ostep.
  rewrite zlen_recBytes in W2, S2. pose proof (wrote_len _ _ _ _ W2).
  destruct (put_spec 2 b2 6 (u16 (zlen l1 + zlen l2 + 1))) as (b3 & -> & W3 & S3); [lia..|]. pose proof (wrote_len _ _ _ _ W3).
  exists b3. split; [done|]. apply (view_intro sb b b3 (l1 ++ l2)); [done| |..].
  - do 2 (eapply wrote_trans; [eapply wrote_weaken; [eassumption|lia..]|]). eapply wrote_weaken; [eassumption|lia..].
  - rewrite (wrote_slice _ _ _ _ W3), (wrote_slice _ _ _ _ W2), (wrote_slice _ _ _ _ W1) by lia. done.
  - rewrite S3, u16_small, zlen_app, zlen_cons by lia. rewrite Z.mod_small; lia.
  - apply Forall_app in O as [O1 O2]. apply Forall_app. split; [done|by constructor].
  - rewrite zlen_app, zlen_cons. fold hdr. lia.
  - fold hdr. rewrite zlen_app, zlen_cons, flat_app, flat_cons.
    replace (8 * (zlen l1 + (1 + zlen l2))) with (8 * zlen l1 + (8 + 8 * zlen l2)) by lia.
    rewrite slice_app_adj, (slice_app_adj b3 _ 8) by lia. f_equal; [|f_equal].
    + rewrite (wrote_slice _ _ _ _ W3), (wrote_slice _ _ _ _ W2), (wrote_slice _ _ _ _ W1) by lia. done.
    + rewrite (wrote_slice _ _ _ _ W3) by lia. rewrite <- S2. f_equal. lia.
    + rewrite (wrote_slice _ _ _ _ W3), (wrote_slice _ _ _ _ W2) by lia. rewrite <- E2.
      transitivity (slice b1 (hdr + zlen l1 * 8 + 8) (8 * zlen l2)); [f_equal; lia|]. rewrite S1. f_equal. lia.
Qed.

Lemma allocRemoveRecAt_view b l1 r l2 :
  leaf_view sb b (l1 ++ r :: l2) -> blockSize sb <= 65536 ->
  exists b', allocRemoveRecAt b hdr (zlen l1) allocRecSize = Ret b' /\ leaf_view sb b' (l1 ++ l2).
Proof.
  intros V Hbs. pose proof (hdr_pos sb). pose proof (zlen_nonneg l1). pose proof (zlen_nonneg l2).
  destruct (view_cut sb b l1 r l2 V) as (E1 & _ & E3). pose proof V as [L B _ N _ F _ O].
  rewrite zlen_app, zlen_cons in F, N. unfold allocRemoveRecAt, allocRecSize. fold hdr in F, E1, E3 |- *.
  assert (16 <= hdr) by (unfold hdr; lia). rewrite (be_get_ok 2 b 6) by lia. ostep. rewrite N.
  destruct (copyWithin_spec b (hdr + zlen l1 * 8) (hdr + zlen l1 * 8 + 8) (hdr + (zlen l1 + (1 + zlen l2)) * 8))
    as (b1 & -> & W1 & S1); [done|lia..|]. ostep. pose proof (wrote_len _ _ _ _ W1).
  replace (hdr + (zlen l1 + (1 + zlen l2)) * 8 - (hdr + zlen l1 * 8 + 8)) with (8 * zlen l2) in * by lia.
  set (last := hdr + (zlen l1 + (1 + zlen l2) - 1) * 8) in *.
  destruct (clear_spec b1 last (last + 8)) as (b2 & -> & W2 & _); [unfold last; lia..|]. ostep. pose proof (wrote_len _ _ _ _ W2).
  destruct (put_spec 2 b2 6 (u16 (zlen l1 + (1 + zlen l2) - 1))) as (b3 & -> & W3 & S3); [lia..|].
  exists b3. split; [done|]. apply (view_intro sb b b3 (l1 ++ r :: l2)); [done| |..].
  - do 2 (eapply wrote_trans; [eapply wrote_weaken; [eassumption|unfold last; lia..]|]). eapply wrote_weaken; [eassumption|lia..].
  - rewrite (wrote_slice _ _ _ _ W3), (wrote_slice _ _ _ _ W2), (wrote_slice _ _ _ _ W1) by (unfold last; lia). done.
  - rewrite S3, u16_small, zlen_app by lia. rewrite Z.mod_small; lia.
  - apply Forall_app in O as [O1 [_ O2]%Forall_cons]. by apply Forall_app.
  - rewrite zlen_app. fold hdr. lia.
  - fold hdr. rewrite zlen_app, flat_app, Z.mul_add_distr_l, slice_app_adj by lia. f_equal.
    + rewrite (wrote_slice _ _ _ _ W3), (wrote_slice _ _ _ _ W2), (wrote_slice _ _ _ _ W1) by (unfold last; lia). done.
    + rewrite (wrote_slice _ _ _ _ W3), (wrote_slice _ _ _ _ W2) by (unfold last; lia). rewrite <- E3.
      transitivity (slice b1 (hdr + zlen l1 * 8) (8 * zlen l2)); [f_equal; lia|]. rewrite S1. f_equal; lia.
Qed.

Lemma swapRecs_view b l1 p c l2 :
  leaf_view sb b (l1 ++ p :: c :: l2) ->
  exists b', swapRecs b (hdr + zlen l1 * 8 + 8) (hdr + zlen l1 * 8) = Ret b' /\ leaf_view sb b' (l1 ++ c :: p :: l2).
Proof.
  intros V. pose proof (hdr_pos sb). pose proof (zlen_nonneg l1). pose proof (zlen_nonneg l2).
  destruct (view_cut sb b l1 p (c :: l2) V) as (E1 & E2 & _).
  destruct (view_cut sb b (l1 ++ [p]) c l2 ltac:(by rewrite <- app_assoc)) as (_ & E3 & E4).
  rewrite zlen_app in E3, E4. change (zlen [p]) with 1 in E3, E4. pose proof V as [L B _ N _ F _ O].
  rewrite zlen_app, !zlen_cons in F, N. unfold swapRecs, allocRecSize. fold hdr in F, E1, E2, E3, E4 |- *.
  assert (16 <= hdr) by (unfold hdr; lia). set (o := hdr + zlen l1 * 8).
  rewrite sub_ok by (unfold o; lia). ostep. replace (o + 8 + 8 - (o + 8)) with 8 by lia.
  replace (hdr + 8 * (zlen l1 + 1)) with (o + 8) in * by (unfold o; lia). rewrite E3.
  replace (hdr + 8 * zlen l1) with o in * by (unfold o; lia).
  destruct (copyWithin_spec b (o + 8) o (o + 8)) as (b1 & -> & W1 & S1); [done|unfold o; lia..|]. ostep. pose proof (wrote_len _ _ _ _ W1).
  replace (o + 8 - o) with 8 in * by lia.
  destruct (copy_spec b1 o (recBytes c)) as (b2 & E & W2 & S2); [unfold o; lia|rewrite zlen_recBytes; unfold o; lia|apply isbytes_recBytes|].
  rewrite E. rewrite zlen_recBytes in W2, S2. exists b2. split; [done|].
  apply (view_intro sb b b2 (l1 ++ p :: c :: l2)); [done| |..].
  - eapply wrote_trans; (eapply wrote_weaken; [eassumption|unfold o; lia..]).
  - rewrite (wrote_slice _ _ _ _ W2), (wrote_slice _ _ _ _ W1) by (unfold o; lia). done.
  - rewrite (wrote_dec _ _ _ _ _ _ W2), (wrote_dec _ _ _ _ _ _ W1) by (unfold o; lia). rewrite zlen_app, !zlen_cons. lia.
  - apply Forall_app in O as [O1 [Op [Oc O2]%Forall_cons]%Forall_cons]. apply Forall_app. split; [done|by apply Forall_cons; split; [|apply Forall_cons]].
  - rewrite zlen_app, !zlen_cons. fold hdr. lia.
  - fold hdr. rewrite zlen_app, !zlen_cons, flat_app, !flat_cons.
    replace (8 * (zlen l1 + (1 + (1 + zlen l2)))) with (8 * zlen l1 + (8 + (8 + 8 * zlen l2))) by lia.
    rewrite slice_app_adj, (slice_app_adj b2 _ 8), (slice_app_adj b2 _ 8) by lia.
    replace (hdr + 8 * zlen l1) with o by (unfold o; lia). f_equal; [|f_equal; [|f_equal]].
    + rewrite (wrote_slice _ _ _ _ W2), (wrote_slice _ _ _ _ W1) by (unfold o; lia). done.
    + done.
    + rewrite (wrote_slice _ _ _ _ W2) by (unfold o; lia). by rewrite S1.
    + rewrite (wrote_slice _ _ _ _ W2), (wrote_slice _ _ _ _ W1) by (unfold o; lia). done.
Qed.
End Ops.

(** ** Searches of a leaf as searches of its record list *)
Fixpoint cut (p : arec -> bool) (l : list arec) : option (list arec * arec * list arec) :=
  match l with
  | [] => None
  | x :: l' => if p x then Some ([], x, l')
               else match cut p l' with
                    | Some (a, y, c) => Some (x :: a, y, c)
                    | None => None
                    end
  end.
Lemma cut_Some p l l1 x l2 :
  cut p l = Some (l1, x, l2) -> l = l1 ++ x :: l2 /\ p x = true /\ Forall (fun y => p y = false) l1.
Proof.
  revert l1 x l2. induction l as [|y l IH]; intros l1 x l2; cbn [cut]; [done|].
  destruct (p y) eqn:Ep; [intros [= <- <- <-]; done|].
  destruct (cut p l) as [[[a z] c]|]; [|done]. intros [= <- <- <-].
  destruct (IH a z c eq_refl) as (-> & Hz & Ha). split; [done|]. split; [done|by constructor].
Qed.
Lemma cut_None p l : cut p l = None -> Forall (fun y => p y = false) l.
Proof.
  induction l as [|y l IH]; cbn [cut]; [by constructor|].
  destruct (p y) eqn:Ep; [done|]. destruct (cut p l) as [[[a z] c]|]; [done|]. intros _. constructor; [done|by apply IH].
Qed.
Lemma cut_here p l1 x l2 :
  Forall (fun y => p y = false) l1 -> p x = true -> cut p (l1 ++ x :: l2) = Some (l1, x, l2).
Proof. induction 1 as [|y l1 Hy _ IH]; intros Hx; cbn [cut app]; [by rewrite Hx|]. by rewrite Hy, IH. Qed.

Definition cutIdx {B} (h : Z -> B) (c : option (list arec * arec * list arec)) : option B :=
  match c with Some (l1, _, _) => Some (h (zlen l1)) | None => None end.

(** A loop that tests record [i] at step [i] finds what [cut] finds. *)
Lemma scan_cut {B} (f : Z -> outcome (option B)) (h : Z -> B) (p : arec -> bool) (l : list arec) :
  (forall l1 x l2, l = l1 ++ x :: l2 -> f (zlen l1) = Ret (if p x then Some (h (zlen l1)) else None)) ->
  scan (length l) 0 f = Ret (cutIdx h (cut p l)).
Proof.
  intros H. assert (forall l0 l', l = l0 ++ l' ->
    scan (length l') (zlen l0) f = Ret (match cut p l' with Some (l1, _, _) => Some (h (zlen l0 + zlen l1)) | None => None end)) as G.
  { intros l0 l'. revert l0. induction l' as [|x l' IH]; intros l0 E; [done|].
    cbn [scan length cut]. rewrite (H l0 x l' E). ostep. destruct (p x).
    - by rewrite zlen_nil, Z.add_0_r.
    - replace (zlen l0 + 1) with (zlen (l0 ++ [x])) by zl. rewrite (IH (l0 ++ [x])) by by rewrite <- app_assoc.
      destruct (cut p l') as [[[a y] c]|]; [|done]. do 3 f_equal. zl. }
  specialize (G [] l eq_refl). rewrite zlen_nil in G. rewrite G. unfold cutIdx. by destruct (cut p l) as [[[a y] c]|].
Qed.

Section Search.
Context (sb : superblock) (b : bytes) (l : list arec) (V : leaf_view sb b l).
Let hdr := agBTreeHdrSize sb.

Lemma Z_to_nat_zlen {A} (k : list A) : Z.to_nat (zlen k) = length k.
Proof. unfold zlen. apply Nat2Z.id. Qed.
Lemma recAt_at l1 x l2 : l = l1 ++ x :: l2 -> recAt b (hdr + zlen l1 * allocRecSize) = Ret x.
Proof. intros E. pose proof V as V'. rewrite E in V'. by apply (recAt_view sb b l1 x l2). Qed.
Lemma field_at l1 x l2 : l = l1 ++ x :: l2 ->
  be32 b (hdr + zlen l1 * allocRecSize) = Ret x.1 /\ be32 b (hdr + zlen l1 * allocRecSize + 4) = Ret x.2.
Proof.
  intros E. pose proof (recAt_at l1 x l2 E) as R. unfold recAt in R. obind. by rewrite Ha, Ha0.
Qed.
Lemma rec_fits l1 x l2 : l = l1 ++ x :: l2 -> hdr + zlen l1 * allocRecSize + 8 <= zlen b.
Proof.
  intros E. pose proof (lv_fit _ _ _ V) as F. rewrite E, zlen_app, zlen_cons in F.
  pose proof (zlen_nonneg l2). unfold allocRecSize, hdr. lia.
Qed.

Lemma insertSlot_view bno r :
  insertSlot bno b hdr (zlen l) r =
    Ret (match cut (fun x => allocLess bno r.1 r.2 x.1 x.2) l with Some (l1, _, _) => zlen l1 | None => zlen l end).
Proof.
  unfold insertSlot. rewrite Z_to_nat_zlen, (scan_cut _ (fun i => i) (fun x => allocLess bno r.1 r.2 x.1 x.2)).
  - ostep. unfold cutIdx. by destruct (cut _ l) as [[[? ?] ?]|].
  - intros l1 x l2 E. by rewrite (recAt_at l1 x l2 E).
Qed.
Lemma leafFind_view need :
  leafFind sb b (zlen l) need = Ret (cutIdx Some (cut (fun x => need <=? x.2) l)).
Proof.
  unfold leafFind. fold hdr. rewrite Z_to_nat_zlen. apply scan_cut. intros l1 x l2 E.
  rewrite (proj2 (Z.ltb_ge _ _)) by (by apply (rec_fits l1 x l2)). by rewrite (proj2 (field_at l1 x l2 E)).
Qed.
Lemma findRec_view bno r :
  findRec sb bno b (zlen l) r = Ret (cutIdx (fun i => i) (cut (fun x => (x.1 =? r.1) && (bno || (x.2 =? r.2))) l)).
Proof.
  unfold findRec. fold hdr. rewrite Z_to_nat_zlen. apply scan_cut. intros l1 x l2 E. by rewrite (recAt_at l1 x l2 E).
Qed.
Lemma bnoScan_view s :
  scan (length l) 0 (fun i => start ← be32 b (hdr + i * allocRecSize); Ret (if start =? s then Some i else None))
  = Ret (cutIdx (fun i => i) (cut (fun x => x.1 =? s) l)).
Proof. apply scan_cut. intros l1 x l2 E. by rewrite (proj1 (field_at l1 x l2 E)). Qed.

Definition maxOf (l : list arec) (m : Z) : Z := fold_left (fun m x => if m <? x.2 then x.2 else m) l m.
Lemma maxCount_view : maxCount sb (length l) b 0 0 = Ret (maxOf l 0).
Proof.
  assert (forall l0 l' m, l = l0 ++ l' -> maxCount sb (length l') b (zlen l0) m = Ret (maxOf l' m)) as G;
    [|by apply (G [] l)].
  intros l0 l'. revert l0. induction l' as [|x l' IH]; intros l0 m E; [done|].
  cbn [maxCount length maxOf fold_left]. fold hdr.
  rewrite (proj2 (Z.ltb_ge _ _)) by (by apply (rec_fits l0 x l')). rewrite (proj2 (field_at l0 x l' E)). ostep.
  replace (zlen l0 + 1) with (zlen (l0 ++ [x])) by zl. by apply IH; rewrite <- app_assoc.
Qed.
End Search.

(** ** Order *)
Definition key_eq (bno : bool) (a c : arec) : Prop := if bno then a.1 = c.1 else a = c.
Abbreviation ordered bno := (StronglySorted (less bno)).

#[export] Instance less_trans bno : Transitive (less bno).
Proof.
  intros [a1 a2] [b1 b2] [c1 c2]. unfold less, allocLess. cbn [fst snd].
  destruct bno; [lia|]. repeat case_match; bsplit; lia.
Qed.
Lemma less_total bno a c : less bno a c \/ key_eq bno a c \/ less bno c a.
Proof.
  destruct a as [a1 a2], c as [c1 c2]. unfold less, allocLess, key_eq. cbn [fst snd].
  destruct bno; [lia|]. destruct (Z.lt_total a2 c2) as [|[->|]], (Z.lt_total a1 c1) as [|[->|]]; repeat case_match; bsplit; auto; lia.
Qed.
Lemma less_irrefl bno a c : less bno a c -> ~ key_eq bno a c.
Proof.
  destruct a as [a1 a2], c as [c1 c2]. unfold less, allocLess, key_eq. cbn [fst snd].
  destruct bno; [lia|]. intros H [= -> ->]. rewrite Z.eqb_refl in H. cbn in H. lia.
Qed.
Lemma not_less bno a c : ~ key_eq bno a c -> allocLess bno a.1 a.2 c.1 c.2 = false -> less bno c a.
Proof. intros Hk Hf. destruct (less_total bno a c) as [H|[H|H]]; [|done|done]. unfold less in H. congruence. Qed.

Lemma ordered_app {R : arec -> arec -> Prop} l k :
  StronglySorted R (l ++ k) <-> StronglySorted R l /\ StronglySorted R k /\ Forall (fun x => Forall (R x) k) l.
Proof.
  induction l as [|x l IH]; cbn [app].
  - split; [|tauto]. intros. split_and!; [constructor|done|constructor].
  - split.
    + intros [H F]%StronglySorted_inv. apply IH in H as (H1 & H2 & H3). apply Forall_app in F as [F1 F2].
      split_and!; [by constructor|done|by constructor].
    + intros ([H1 F1]%StronglySorted_inv & H2 & [F2 F3]%Forall_cons). constructor; [by apply IH|by apply Forall_app].
Qed.
Lemma ordered_cut {R : arec -> arec -> Prop} l1 r l2 :
  StronglySorted R (l1 ++ r :: l2) <->
  StronglySorted R (l1 ++ l2) /\ Forall (fun x => R x r) l1 /\ Forall (R r) l2.
Proof.
  rewrite !ordered_app. split.
  - intros (H1 & [H2 F2]%StronglySorted_inv & F). split_and!; try done.
    + eapply Forall_impl; [exact F|]. intros x [_ ?]%Forall_cons. done.
    + eapply Forall_impl; [exact F|]. by intros x [? _]%Forall_cons.
  - intros ((H1 & H2 & F) & F1 & F2). split_and!; [done|by constructor|].
    apply Forall_forall. intros x Hx. rewrite Forall_forall in F, F1. constructor; auto.
Qed.
(** Above a lower bound the whole tail is above it. *)
Lemma less_all bno r x l : less bno r x -> ordered bno (x :: l) -> Forall (less bno r) (x :: l).
Proof.
  intros H [_ F]%StronglySorted_inv. constructor; [done|]. eapply Forall_impl; [exact F|].
  intros y Hy. by transitivity x.
Qed.

(** Where [insertSlot] points, the record fits the order. *)
Lemma insert_ordered bno r l :
  ordered bno l -> Forall (fun x => ~ key_eq bno r x) l ->
  exists l1 l2, l = l1 ++ l2 /\
    (match cut (fun x => allocLess bno r.1 r.2 x.1 x.2) l with Some (l1, _, _) => zlen l1 | None => zlen l end) = zlen l1 /\
    ordered bno (l1 ++ r :: l2).
Proof.
  intros Ho Hk. destruct (cut _ l) as [[[l1 x] l2]|] eqn:E.
  - apply cut_Some in E as (-> & Hx & F). exists l1, (x :: l2). split_and!; [done..|].
    apply Forall_app in Hk as [Hk _]. apply ordered_cut. split; [done|]. split.
    + apply Forall_forall. intros y Hy. rewrite Forall_forall in F, Hk. apply not_less; auto.
    + apply less_all; [done|]. by apply ordered_app in Ho as (_ & ? & _).
  - apply cut_None in E. exists l, []. rewrite app_nil_r. split_and!; [done..|].
    apply ordered_cut. rewrite app_nil_r. split_and!; [done| |constructor].
    apply Forall_forall. intros y Hy. rewrite Forall_forall in E, Hk. apply not_less; auto.
Qed.

(** The re-sort of a shrunk cnt record, on lists: [rp] holds the records to its left, nearest first. *)
Fixpoint bubble (rp : list arec) (c : arec) (l2 : list arec) : list arec :=
  match rp with
  | [] => c :: l2
  | p :: rp' => if allocLess false c.1 c.2 p.1 p.2 then bubble rp' c (p :: l2) else rev rp ++ c :: l2
  end.
Lemma bubbleLeft_view sb b rp c l2 :
  leaf_view sb b (rev rp ++ c :: l2) ->
  exists b', allocCntBubbleLeft b (agBTreeHdrSize sb) (length rp) = Ret b' /\ leaf_view sb b' (bubble rp c l2).
Proof.
  revert b l2. induction rp as [|p rp IH]; intros b l2 V; [by exists b|].
  cbn [length allocCntBubbleLeft bubble]. cbn [rev] in V. pose proof V as V'. rewrite <- app_assoc in V'. cbn [app] in V'.
  assert (zlen (rev rp) = Z.of_nat (length rp)) as El by (unfold zlen; by rewrite length_rev).
  assert (zlen (rev rp ++ [p]) = Z.of_nat (S (length rp))) as El' by (rewrite zlen_app, El; unfold zlen; cbn [length]; lia).
  rewrite <- El'. rewrite (recAt_view sb b _ c l2 V). ostep.
  replace (agBTreeHdrSize sb + zlen (rev rp ++ [p]) * allocRecSize - allocRecSize)
    with (agBTreeHdrSize sb + zlen (rev rp) * allocRecSize) by (unfold allocRecSize; lia).
  rewrite (recAt_view sb b _ p (c :: l2) V'). ostep.
  destruct (allocLess false c.1 c.2 p.1 p.2); cbn [negb]; [|by exists b].
  replace (agBTreeHdrSize sb + zlen (rev rp ++ [p]) * allocRecSize)
    with (agBTreeHdrSize sb + zlen (rev rp) * 8 + 8) by (unfold allocRecSize; lia).
  destruct (swapRecs_view sb b _ p c l2 V') as (b1 & E & V1). change allocRecSize with 8. rewrite E. ostep. by apply IH.
Qed.
Lemma bubble_perm rp c l2 : bubble rp c l2 ≡ₚ rev rp ++ c :: l2.
Proof.
  revert l2. induction rp as [|p rp IH]; intros l2; [done|]. cbn [bubble]. case_match; [|done].
  rewrite IH. cbn [rev]. rewrite <- app_assoc. cbn [app]. by rewrite (Permutation_swap p c l2).
Qed.
Lemma bubble_ordered rp c l2 :
  ordered false (rev rp ++ l2) -> Forall (less false c) l2 -> Forall (fun x => c <> x) rp -> ordered false (bubble rp c l2).
Proof.
  revert l2. induction rp as [|p rp IH]; intros l2 Ho F Hn; cbn [bubble].
  - apply (ordered_cut []). split_and!; [done|constructor|done].
  - apply Forall_cons in Hn as [Hp Hn]. cbn [rev] in *. case_match eqn:E.
    + rewrite <- app_assoc in Ho. apply IH; [done| |done]. by constructor.
    + apply ordered_cut. split_and!; [done| |done].
      assert (less false p c) as Hpc by (by apply not_less). apply Forall_app. split; [|by constructor].
      rewrite <- app_assoc in Ho. apply ordered_cut in Ho as (_ & H & _). eapply Forall_impl; [exact H|].
      intros x Hx. by transitivity p.
Qed.
