(* ===== verification/AllocSpec.v ===== *)
(** * The block allocator of an allocation group (alloc.go [allocBlocks])

    An allocation group whose two free-space trees are single leaves is described by
    the list [B] of free runs in block order and its cnt permutation [C]
    ([free_ok]); [ag_view] relates them to the image.  The theorems show that
    [allocBlocks] on the image is a best-fit allocation on the set of free blocks. *)
From S2P Require Import Prelude Bytes Crc Device Superblock SafeIO Inode FileRead Dir AgBlocks Zones AllocTree Alloc AllocLeaf.

(** ** The abstract free space *)
Definition run_ok (r : arec) : Prop := 0 <= r.1 /\ 0 < r.2 /\ r.1 + r.2 < 2 ^ 32.
Definition before (a b : arec) : Prop := a.1 + a.2 <= b.1.
Definition free_in (l : list arec) (x : Z) : Prop := exists r, In r l /\ r.1 <= x < r.1 + r.2.
(** [B] (bno) holds separate runs in block order; [C] (cnt) holds all of them but [X],
    by count. *)
Record trees_ok (X B C : list arec) : Prop := {
  fo_run : Forall run_ok B;
  fo_sep : StronglySorted before B;
  fo_perm : B ≡ₚ X ++ C;
  fo_cnt : ordered false C
}.
(** Between operations the two trees hold the same runs. *)
Definition free_ok (B C : list arec) : Prop := trees_ok [] B C.

(** What is left of run [r] once its first [n] blocks are taken. *)
Definition takeFront (n : Z) (r : arec) : list arec :=
  if r.2 - n =? 0 then [] else [(r.1 + n, r.2 - n)].
Section Runs.
Context (b1 b2 : list arec) (s c : Z).
Context (R : Forall run_ok (b1 ++ (s, c) :: b2)) (S : StronglySorted before (b1 ++ (s, c) :: b2)).

Lemma runs_left x : In x b1 -> x.1 < x.1 + x.2 <= s.
Proof.
  intros Hx. apply ordered_cut in S as (_ & F & _). apply Forall_app in R as [R1 _].
  rewrite Stdlib.Lists.List.Forall_forall in F, R1. pose proof (F x Hx) as H. destruct (R1 x Hx) as (? & ? & ?). unfold before in H. cbn in H. lia.
Qed.
Lemma runs_right x : In x b2 -> s + c <= x.1 < x.1 + x.2.
Proof.
  intros Hx. apply ordered_cut in S as (_ & _ & F). apply Forall_app in R as [_ [_ R1]%Forall_cons].
  rewrite Stdlib.Lists.List.Forall_forall in F, R1. pose proof (F x Hx) as H. destruct (R1 x Hx) as (? & ? & ?). unfold before in H. cbn in H. lia.
Qed.
Lemma run_mid : run_ok (s, c).
Proof. apply Forall_app in R as [_ [H _]%Forall_cons]. done. Qed.
(** Another run does not start inside the run. *)
Lemma runs_only x : In x (b1 ++ (s, c) :: b2) -> s <= x.1 < s + c -> x = (s, c).
Proof.
  pose proof run_mid as (_ & Hc & _). cbn in *. intros [H|[H|H]]%in_app_or Hx; [|done|].
  - apply runs_left in H. lia.
  - apply runs_right in H. lia.
Qed.
Lemma cut_run : cut (fun x => x.1 =? s) (b1 ++ (s, c) :: b2) = Some (b1, (s, c), b2).
Proof.
  apply cut_here; [|cbn; lia]. apply Forall_forall. intros x Hx%list_elem_of_In.
  pose proof (runs_left x Hx). lia.
Qed.

Context (n : Z) (Hn : 0 < n <= c).
Lemma takeFront_ok :
  Forall run_ok (b1 ++ takeFront n (s, c) ++ b2) /\ StronglySorted before (b1 ++ takeFront n (s, c) ++ b2).
Proof.
  pose proof run_mid as (? & ? & ?). pose proof R as R'. apply Forall_app in R' as [R1 [_ R2]%Forall_cons].
  pose proof S as S'. apply ordered_cut in S' as (S1 & F1 & F2). unfold takeFront. cbn [fst snd] in *. case_match eqn:E; cbn [app].
  - split; [by apply Forall_app|done].
  - split; [apply Forall_app; split; [done|constructor; [unfold run_ok; cbn; lia|done]]|].
    apply ordered_cut. split; [done|]. unfold before in *. cbn in *. split; (eapply Forall_impl; [eassumption|]); cbn; intros; lia.
Qed.
Lemma takeFront_free x :
  free_in (b1 ++ takeFront n (s, c) ++ b2) x <-> free_in (b1 ++ (s, c) :: b2) x /\ ~ (s <= x < s + n).
Proof.
  unfold free_in, takeFront. cbn [fst snd]. split.
  - intros (r & [H|[H|H]%in_app_or]%in_app_or & Hr).
    + split; [exists r; split; [apply in_or_app; by left|done]|]. apply runs_left in H. lia.
    + case_match eqn:E; [done|]. apply Z.eqb_neq in E. destruct H as [<-|[]]. cbn in Hr.
      split; [exists (s, c); split; [apply in_or_app; right; apply in_eq|cbn; lia]|lia].
    + split; [exists r; split; [apply in_or_app; right; by apply in_cons|done]|]. apply runs_right in H. lia.
  - intros [(r & [H|[<-|H]]%in_app_or & Hr) Hx].
    + exists r. split; [apply in_or_app; by left|done].
    + cbn in Hr. exists (s + n, c - n). split; [|cbn; lia]. apply in_or_app; right. apply in_or_app; left.
      rewrite (proj2 (Z.eqb_neq _ _)) by lia. apply in_eq.
    + exists r. split; [apply in_or_app; right; apply in_or_app; by right|done].
Qed.
End Runs.

Lemma cut_ext p q l : (forall x, p x = q x) -> cut p l = cut q l.
Proof. intros E. induction l as [|x l IH]; [done|]. cbn. by rewrite E, IH. Qed.


(** ** Device zones *)
Record ag_zones (sb : superblock) (partOff ag bnoRel cntRel bo co : Z) : Prop := {
  z_sect : 512 <= sectSize sb;
  z_bs : 512 <= blockSize sb <= 65536;
  z_bo : blockByteOffset partOff sb (agAbsBlock sb ag bnoRel) = Ret bo;
  z_co : blockByteOffset partOff sb (agAbsBlock sb ag cntRel) = Ret co;
  z_fb : apartZ (agFByteOffset sb partOff ag) (sectSize sb) bo (blockSize sb);
  z_fc : apartZ (agFByteOffset sb partOff ag) (sectSize sb) co (blockSize sb);
  z_bc : apartZ bo (blockSize sb) co (blockSize sb)
}.
Record agf_view (sb : superblock) (agf : bytes) (bnoRel cntRel : Z) : Prop := {
  av_len : zlen agf = sectSize sb;
  av_bytes : isbytes agf;
  av_magic : dec 4 agf 0 = magicAGF;
  av_bno : dec 4 agf 16 = bnoRel;
  av_cnt : dec 4 agf 20 = cntRel;
  av_bnoLevel : dec 4 agf 28 = 1;
  av_cntLevel : dec 4 agf 32 = 1
}.

Lemma stepsFuel_S : exists k, stepsFuel = S k.
Proof. exists (Z.to_nat allocBTreeMaxSteps). unfold stepsFuel. rewrite <- Z2Nat.inj_succ by (unfold allocBTreeMaxSteps; lia). done. Qed.

Section Spec.
Context {D : Type} {Dev : Device D} {DL : DeviceLaws D} {DR : DeviceReliable D}.
Context (sb : superblock) (partOff ag bnoRel cntRel bo co : Z).
Context (Zn : ag_zones sb partOff ag bnoRel cntRel bo co).
Let fo := agFByteOffset sb partOff ag.

Record ag_view (d : D) (agf : bytes) (B C : list arec) : Prop := {
  v_agf : ReadAt d fo (sectSize sb) = Ret agf;
  v_agfv : agf_view sb agf bnoRel cntRel;
  v_bno : exists bb, ReadAt d bo (blockSize sb) = Ret bb /\ leaf_view sb bb B;
  v_cnt : exists cb, ReadAt d co (blockSize sb) = Ret cb /\ leaf_view sb cb C
}.

(** Only the AGF and the two leaves differ. *)
Definition framed (d d' : D) : Prop := forall o n cs,
  0 <= n -> apartZ o n fo (sectSize sb) -> apartZ o n bo (blockSize sb) -> apartZ o n co (blockSize sb) ->
  ReadAt d o n = Ret cs -> ReadAt d' o n = Ret cs.
Lemma framed_refl d : framed d d.
Proof. by intros o n cs. Qed.
Lemma framed_trans d1 d2 d3 : framed d1 d2 -> framed d2 d3 -> framed d1 d3.
Proof. intros H1 H2 o n cs ? ? ? ? H. apply H2; try done. by apply H1. Qed.

(** ** Reads *)
Lemma getAGF_view w agf B C : ag_view (dev w) agf B C -> getAGF partOff sb ag w = (Ret agf, w).
Proof.
  intros [E [L _ M _ _ _ _] _ _]. unfold getAGF, readAGF, readD, agfBlock, readBytes. fold fo. rewrite E. ostep.
  pose proof (z_sect _ _ _ _ _ _ _ Zn). unfold agfOffMagic. rewrite be_get_ok by lia. ostep. by rewrite M.
Qed.
Lemma readAG_bno d agf B C : ag_view d agf B C ->
  exists bb, readAGBlock partOff sb d ag bnoRel = Ret bb /\ leaf_view sb bb B.
Proof.
  intros [_ _ (bb & E & V) _]. exists bb. unfold readAGBlock, readRawBlock. by rewrite (z_bo _ _ _ _ _ _ _ Zn).
Qed.
Lemma readAG_cnt d agf B C : ag_view d agf B C ->
  exists cb, readAGBlock partOff sb d ag cntRel = Ret cb /\ leaf_view sb cb C.
Proof.
  intros [_ _ _ (cb & E & V)]. exists cb. unfold readAGBlock, readRawBlock. by rewrite (z_co _ _ _ _ _ _ _ Zn).
Qed.

(** ** Writes *)
Lemma stamp_view b l :
  leaf_view sb b l ->
  exists b', (if hasCRC sb then updateCRC b btreeCRCOff (zlen b) else Ret b) = Ret b' /\ leaf_view sb b' l.
Proof.
  intros V. destruct (hasCRC sb) eqn:Hc; [|by exists b].
  pose proof V as [L B _ N _ F R O]. pose proof (z_bs _ _ _ _ _ _ _ Zn). unfold btreeCRCOff.
  destruct (updateCRC_spec b 52 (zlen b)) as (b' & E & _ & Wr); [done|unfold crc_layout_ok; lia|].
  exists b'. split; [done|]. assert (agBTreeHdrSize sb = 56) as Eh by (unfold agBTreeHdrSize, btreeHdrSize; by rewrite Hc).
  pose proof (zlen_nonneg l).
  apply (view_intro sb b b' l); [done|eapply wrote_weaken; [exact Wr|lia..]|..|done|lia|].
  - apply (wrote_slice _ _ _ _ Wr); lia.
  - rewrite (wrote_dec _ _ _ _ _ _ Wr) by lia. done.
  - rewrite (wrote_slice _ _ _ _ Wr) by lia. done.
Qed.


Ltac unzone := pose proof (z_sect _ _ _ _ _ _ _ Zn); pose proof (z_bs _ _ _ _ _ _ _ Zn);
  assert (apartZ fo (sectSize sb) bo (blockSize sb)) by exact (z_fb _ _ _ _ _ _ _ Zn);
  assert (apartZ fo (sectSize sb) co (blockSize sb)) by exact (z_fc _ _ _ _ _ _ _ Zn); pose proof (z_bc _ _ _ _ _ _ _ Zn).

Hint Resolve apartZ_sym : core.

(** The state after an update of the device. *)
Definition steps_to {A} (m : M (World D) A) (w : World D) (a : A) (agf' : bytes) (B' C' : list arec) : Prop :=
  exists d', m w = (Ret a, set_dev d' w) /\ ag_view d' agf' B' C' /\ framed (dev w) d'.

Lemma writeTree_bno w agf B C b l :
  ag_view (dev w) agf B C -> leaf_view sb b l -> steps_to (writeTree partOff sb ag bnoRel b) w tt agf l C.
Proof.
  intros [Vf Vv (bb & Eb & _) (cb & Ec & Vc)] V. unzone.
  destruct (stamp_view b l V) as (b' & E & V'). 
  destruct (write_zone w bo (blockSize sb) bb b' Eb (lv_len _ _ _ V') (lv_bytes _ _ _ V')) as (d' & Ew & Er & Fr).
  exists d'. unfold writeTree, writeAGBTree, writeRawBlock.
  rewrite (bindM_lift _ _ _ _ E), (raw_offset _ _ _ _ _ (z_bo _ _ _ _ _ _ _ Zn)). split; [done|]. split.
  - constructor; [apply Fr; [lia|auto..]|done|eauto|]. exists cb. split; [apply Fr; [lia|auto..]|done].
  - intros o n cs ? ? ? ?. by apply Fr.
Qed.
Lemma writeTree_cnt w agf B C b l :
  ag_view (dev w) agf B C -> leaf_view sb b l -> steps_to (writeTree partOff sb ag cntRel b) w tt agf B l.
Proof.
  intros [Vf Vv (bb & Eb & Vb) (cb & Ec & _)] V. unzone.
  destruct (stamp_view b l V) as (b' & E & V'). 
  destruct (write_zone w co (blockSize sb) cb b' Ec (lv_len _ _ _ V') (lv_bytes _ _ _ V')) as (d' & Ew & Er & Fr).
  exists d'. unfold writeTree, writeAGBTree, writeRawBlock.
  rewrite (bindM_lift _ _ _ _ E), (raw_offset _ _ _ _ _ (z_co _ _ _ _ _ _ _ Zn)). split; [done|]. split.
  - constructor; [apply Fr; [lia|auto..]|done| |eauto]. exists bb. split; [apply Fr; [lia|auto..]|done].
  - intros o n cs ? ? ? ?. by apply Fr.
Qed.
(** A new AGF that kept its roots; [fields] is what the stamped copy keeps. *)
Lemma writeAGF_view w agf B C agf1 :
  ag_view (dev w) agf B C -> agf_view sb agf1 bnoRel cntRel ->
  exists agf', steps_to (writeAGF partOff sb ag agf1) w tt agf' B C /\
    dec 4 agf' 52 = dec 4 agf1 52 /\ dec 4 agf' 56 = dec 4 agf1 56.
Proof.
  intros [Vf Vv (bb & Eb & Vb) (cb & Ec & Vc)] V. unzone. pose proof V as [L Hb Mg Rb Rc Lb Lc].
  destruct (stamp_sector sb agf1 agfOffCRC Hb ltac:(lia) ltac:(unfold agfOffCRC; lia) ltac:(unfold agfOffCRC; lia)) as (agf' & E & Wr).
  unfold agfOffCRC in Wr.
  exists agf'. split; [|by rewrite !(wrote_dec _ _ _ _ _ _ Wr) by lia].
  unfold writeAGF. pose proof (wrote_len _ _ _ _ Wr).
  destruct (write_zone w fo (sectSize sb) agf agf' Vf ltac:(lia) (wrote_bytes _ _ _ _ Wr Hb)) as (d' & Ew & Er & Fr).
  exists d'. rewrite (bindM_lift _ _ _ _ E). split; [exact Ew|]. split.
  - constructor; [done| |exists bb; split; [apply Fr; [lia|auto..]|done]|exists cb; split; [apply Fr; [lia|auto..]|done]].
    constructor; [lia|by apply (wrote_bytes _ _ _ _ Wr)|..]; by rewrite (wrote_dec _ _ _ _ _ _ Wr) by lia.
  - intros o n cs ? ? ? ?. by apply Fr.
Qed.

(** Both trees at once: [h] selects bno. *)
Definition rootOf (h : bool) : Z := if h then bnoRel else cntRel.
Lemma readTree_view (h : bool) d agf B C : ag_view d agf B C ->
  exists b, readAGBlock partOff sb d ag (rootOf h) = Ret b /\ leaf_view sb b (if h then B else C).
Proof. intros V. destruct h; [by eapply readAG_bno|by eapply readAG_cnt]. Qed.
Lemma writeTree_view (h : bool) w agf B C b l :
  ag_view (dev w) agf B C -> leaf_view sb b l ->
  steps_to (writeTree partOff sb ag (rootOf h) b) w tt agf (if h then l else B) (if h then C else l).
Proof. intros V Vl. destruct h; [by eapply writeTree_bno|by eapply writeTree_cnt]. Qed.
Lemma leaf_fields b l : leaf_view sb b l ->
  be16 b 4 = Ret 0 /\ be16 b 6 = Ret (zlen l) /\ be32 b 12 = Ret nullAgb /\ (zlen b <? agBTreeHdrSize sb) = false.
Proof.
  intros [L _ Lv N R F _ _]. unzone. pose proof (hdr_pos sb).
  rewrite !be_get_ok by lia. rewrite Lv, N, R. split_and!; [done..|lia].
Qed.


Context {SIO : SafeIO} {SL : SafeIOLaws SIO}.
Lemma first_step rel : exists g v, Next (NewLoopGuard allocBTreeMaxSteps) = Ret g /\ VisitCheck emptyVisit rel = Ret v.
Proof.
  destruct (Next_step (NewLoopGuard allocBTreeMaxSteps)) as (g & Eg & _); [rewrite budget_new; unfold allocBTreeMaxSteps; lia|].
  destruct (Check_fresh emptyVisit rel (visited_empty rel)) as (v & Ev & _). eauto.
Qed.

(** ** Searches on the image *)
Lemma cntFind_view d agf B C need :
  ag_view d agf B C ->
  exists cb, leaf_view sb cb C /\
    cntFindBlock partOff sb d ag cntRel need =
      match cut (fun x => need <=? x.2) C with
      | Some (l1, _, _) => Ret (cntRel, cb, zlen l1)
      | None => Fail (Errorf "no free extent")
      end.
Proof.
  intros V. destruct (readTree_view false d agf B C V) as (cb & E & Vc). cbn [rootOf] in E. exists cb. split; [done|].
  destruct (leaf_fields cb C Vc) as (F1 & F2 & F3 & F4). destruct stepsFuel_S as [k Ek].
  destruct (first_step cntRel) as (g & v & Eg & Ev).
  unfold cntFindBlock. rewrite Ek. cbn [cntFindLoop]. rewrite Eg. ostep. rewrite Ev. ostep. rewrite E. ostep.
  rewrite F4. ostep. rewrite F1, F2. ostep. change (0 =? 0) with true. cbv iota.
  rewrite (leafFind_view sb cb C Vc). ostep. unfold cutIdx. destruct (cut _ C) as [[[l1 x] l2]|]; [done|].
  by rewrite F3.
Qed.
Lemma longest_view d agf B C :
  ag_view d agf B C -> agfRecomputeLongest partOff sb d ag cntRel 1 = Ret (maxOf C 0).
Proof.
  intros V. destruct (readTree_view false d agf B C V) as (cb & E & Vc). cbn [rootOf] in E.
  destruct (leaf_fields cb C Vc) as (F1 & F2 & F3 & F4). destruct stepsFuel_S as [k Ek].
  destruct (first_step cntRel) as (g & v & Eg & Ev).
  unfold agfRecomputeLongest. rewrite Ek. cbn [longestDescend longestWalk]. change (1 <=? 1) with true. cbv iota. ostep.
  rewrite Eg. ostep. rewrite Ev. ostep. rewrite E. ostep. rewrite F4. ostep. rewrite F2. ostep.
  rewrite Z_to_nat_zlen, (maxCount_view sb cb C Vc). ostep. by rewrite F3.
Qed.
Lemma bnoFind_view t d agf B C s l1 x l2 :
  ag_view d agf B C -> cut (fun x => x.1 =? s) B = Some (l1, x, l2) ->
  exists bb, leaf_view sb bb B /\ bnoFindRecord partOff sb (S t) d ag bnoRel s = Ret (bnoRel, bb, zlen l1).
Proof.
  intros V Ec. destruct (readTree_view true d agf B C V) as (bb & E & Vb). cbn [rootOf] in E. exists bb. split; [done|].
  destruct (leaf_fields bb B Vb) as (F1 & F2 & _). unfold bnoFindRecord. cbn [bnoFindLoop].
  rewrite E. ostep. rewrite F1, F2. ostep. change (0 =? 0) with true. cbv iota.
  rewrite Z_to_nat_zlen, (bnoScan_view sb bb B Vb), Ec. done.
Qed.

(** ** Deleting a record *)
Lemma suppress_view w agf B C :
  ag_view (dev w) agf B C ->
  exists b : bool, (if allocDraining w then mret true
    else catchM (readAGF partOff sb ag) (fun agfBuf => longest ← lift (be32 agfBuf agfOffLongest); mret (longest <? 2))
                (fun _ => mret false)) w = (Ret b, w).
Proof.
  intros V. destruct (allocDraining w); [by exists true|]. pose proof (getAGF_view w agf B C V) as E. unfold getAGF in E.
  unfold catchM. rewrite E. pose proof (av_len _ _ _ _ (v_agfv _ _ _ _ V)). unzone.
  rewrite (bindM_lift _ _ _ (dec 4 agf 56)) by (apply be_get_ok; unfold agfOffLongest; lia). by eexists.
Qed.
Lemma delete_view (h : bool) t w agf B C l1 x l2 r :
  ag_view (dev w) agf B C ->
  cut (fun y => (y.1 =? r.1) && (h || (y.2 =? r.2))) (if h then B else C) = Some (l1, x, l2) ->
  steps_to (allocDeleteRecordCollect partOff sb (S t) ag (rootOf h) 1 r h) w [] agf
    (if h then l1 ++ l2 else B) (if h then C else l1 ++ l2).
Proof.
  intros V Ec. pose proof (z_bs _ _ _ _ _ _ _ Zn). destruct (readTree_view h _ agf B C V) as (b & E & Vl).
  destruct (leaf_fields b _ Vl) as (F1 & F2 & _). destruct (suppress_view w agf B C V) as (sm & Esm).
  pose proof Vl as Vl'. destruct (cut_Some _ _ _ _ _ Ec) as (El & _). rewrite El in Vl'.
  destruct (allocRemoveRecAt_view sb b l1 x l2 Vl' ltac:(lia)) as (b' & Er & Vb').
  destruct (leaf_fields b' _ Vb') as (G1 & G2 & _).
  destruct (writeTree_view h w agf B C b' _ V Vb') as (d' & Ew & Vd & Fr). exists d'. split; [|by destruct h].
  unfold allocDeleteRecordCollect. rewrite (bindM_Ret getS _ w w w eq_refl), (bindM_Ret _ _ _ _ _ Esm).
  rewrite (bindM_Ret _ _ w ([], mkPath (rootOf h) b 0) w).
  2:{ unfold readD. cbn [deleteDescend]. rewrite E. ostep. rewrite F1. ostep. by rewrite F2. }
  cbn [pblk]. rewrite (bindM_lift _ _ _ _ F2), (bindM_lift _ _ _ (Some (zlen l1))).
  2:{ by rewrite (findRec_view sb b _ Vl), Ec. }
  rewrite (bindM_lift _ _ _ _ Er). cbn [prel pchildIdx].
  rewrite (bindM_Ret _ _ w [] (set_dev d' w)).
  2:{ cbn [fixupFrom pblk prel]. rewrite (bindM_lift _ _ _ _ G2), (bindM_lift _ _ _ _ G1). by rewrite (bindM_Ret _ _ _ _ _ Ew). }
  cbn [refreshKeysAlongPath]. rewrite (bindM_Ret _ _ _ tt (set_dev d' w)) by done.
  rewrite (bindM_Ret _ _ _ (rootOf h, 1, []) (set_dev d' w)).
  2:{ cbn [collapseRoot].
      destruct (readTree_view h d' agf (if h then l1 ++ l2 else B) (if h then C else l1 ++ l2)) as (b2 & E2 & V2); [by destruct h|].
      destruct (leaf_fields b2 _ V2) as (K1 & K2 & _).
      rewrite (bindM_Ret _ _ _ b2 (set_dev d' w)) by (unfold readAG, readD; cbn [dev set_dev]; by rewrite E2).
      rewrite (bindM_lift _ _ _ _ K1), (bindM_lift _ _ _ _ K2). done. }
  rewrite Z.eqb_refl. done.
Qed.

(** ** Taking a run *)
Lemma set_queue_nil (w : World D) (f : Z -> Z * Z) : set_queue (allocMergedFreeQueue w ++ map f []) w = w.
Proof. destruct w. unfold set_queue. cbn. by rewrite app_nil_r. Qed.
Lemma agf_fields agf : agf_view sb agf bnoRel cntRel ->
  be32 agf agfOffBnoRoot = Ret bnoRel /\ be32 agf agfOffCntRoot = Ret cntRel /\
  be32 agf agfOffBnoLevel = Ret 1 /\ be32 agf agfOffCntLevel = Ret 1 /\ be32 agf agfOffFreeBlks = Ret (dec 4 agf 52).
Proof.
  intros [L _ _ Rb Rc Lb Lc]. unzone. unfold agfOffBnoRoot, agfOffCntRoot, agfOffBnoLevel, agfOffCntLevel, agfOffFreeBlks.
  rewrite !be_get_ok by lia. by rewrite Rb, Rc, Lb, Lc.
Qed.

Section Take.
Context (t : nat) (agf : bytes) (X b1 b2 c1 c2 : list arec) (s c : Z).
Let B := b1 ++ (s, c) :: b2.
Let C := c1 ++ (s, c) :: c2.
Context (F : trees_ok X B C).

Lemma take_cut_bno (r : arec) : r.1 = s ->
  cut (fun y => (y.1 =? r.1) && (true || (y.2 =? r.2))) B = Some (b1, (s, c), b2).
Proof.
  intros ->. destruct F as [R S _ _]. rewrite <- (cut_run b1 b2 s c R S). apply cut_ext. intros x. apply andb_true_r.
Qed.
Lemma take_cut_cnt : cut (fun y => (y.1 =? s) && (false || (y.2 =? c))) C = Some (c1, (s, c), c2).
Proof.
  apply cut_here; [|cbn; by rewrite !Z.eqb_refl]. destruct F as [_ _ _ O]. apply ordered_cut in O as (_ & O & _).
  eapply Forall_impl; [exact O|]. intros [y1 y2] Hy. apply less_irrefl in Hy. cbn in *.
  apply andb_false_iff. destruct (Z.eqb_spec y1 s) as [->|]; [|by left]. right. apply Z.eqb_neq. congruence.
Qed.

Lemma consumeWhole_view w :
  ag_view (dev w) agf B C ->
  steps_to (consumeWhole partOff sb (S t) ag cntRel 1 s c) w (agf, cntRel, 1) agf (b1 ++ b2) (c1 ++ c2).
Proof.
  intros V. destruct (delete_view false t w agf B C c1 (s, c) c2 (s, c) V take_cut_cnt) as (d1 & E1 & V1 & F1). cbn [rootOf] in E1.
  destruct (delete_view true t (set_dev d1 w) agf B (c1 ++ c2) b1 (s, c) b2 (s, 0) V1 (take_cut_bno (s, 0) eq_refl)) as (d2 & E2 & V2 & F2).
  cbn [rootOf] in E2. exists d2. split; [|split; [done|eapply framed_trans; [exact F1|exact F2]]].
  destruct (agf_fields agf (v_agfv _ _ _ _ V)) as (G1 & G2 & G3 & G4 & _).
  unfold consumeWhole. rewrite (bindM_Ret _ _ _ _ _ E1), (bindM_Ret _ _ _ _ _ (getAGF_view (set_dev d1 w) agf _ _ V1)).
  rewrite (bindM_lift _ _ _ _ G1), (bindM_lift _ _ _ _ G3), (bindM_Ret _ _ _ _ _ E2).
  rewrite (bindM_Ret _ _ (set_dev d2 (set_dev d1 w)) tt (set_dev d2 w)).
  2:{ unfold allocFreeMergedBlocks, modS. cbn [app]. by rewrite set_queue_nil. }
  rewrite (bindM_Ret _ _ _ _ _ (getAGF_view (set_dev d2 w) agf _ _ V2)), (bindM_lift _ _ _ _ G2), (bindM_lift _ _ _ _ G4). done.
Qed.

Context (n : Z) (Hn : 0 < n < c).
Lemma shrunk_ok : rec_ok (s + n, c - n).
Proof. destruct F as [R S _ _]. pose proof (run_mid b1 b2 s c R) as (? & ? & ?). unfold rec_ok. cbn in *. lia. Qed.
Lemma bnoBubbleRight_view b :
  leaf_view sb b (b1 ++ (s + n, c - n) :: b2) ->
  bnoBubbleRight (length b2) b (agBTreeHdrSize sb) (zlen b1) = Ret b.
Proof.
  intros V. destruct F as [R S _ _]. destruct b2 as [|y b2']; [done|]. cbn [length bnoBubbleRight].
  destruct (field_at sb b _ V b1 _ (y :: b2') eq_refl) as [E1 _]. rewrite E1. ostep.
  destruct (field_at sb b _ V (b1 ++ [(s + n, c - n)]) y b2' ltac:(by rewrite <- app_assoc)) as [E2 _].
  rewrite zlen_app in E2. change (zlen [(s + n, c - n)]) with 1 in E2.
  replace (agBTreeHdrSize sb + zlen b1 * allocRecSize + allocRecSize) with (agBTreeHdrSize sb + (zlen b1 + 1) * allocRecSize) by (unfold allocRecSize; lia).
  rewrite E2. ostep. cbn [fst]. pose proof (runs_right b1 (y :: b2') s c R S y (in_eq _ _)).
  by rewrite (proj2 (Z.leb_le _ _)) by lia.
Qed.
Lemma consumePart_view w cb :
  ag_view (dev w) agf B C -> leaf_view sb cb C ->
  steps_to (consumePart partOff sb (S t) ag cntRel 1 bnoRel cntRel cb (zlen c1) s (s + n) (c - n)) w tt agf
    (b1 ++ (s + n, c - n) :: b2) (bubble (rev c1) (s + n, c - n) c2).
Proof.
  intros V Vc. destruct (putRec_view sb cb c1 (s, c) c2 (s + n, c - n) Vc shrunk_ok) as (cb1 & E1 & V1).
  destruct (bubbleLeft_view sb cb1 (rev c1) (s + n, c - n) c2 ltac:(by rewrite rev_involutive)) as (cb2 & E2 & V2).
  rewrite length_rev in E2. destruct (writeTree_cnt w agf B C cb2 _ V V2) as (d1 & E3 & V3 & F1).
  destruct F as [R S _ _].
  destruct (bnoFind_view t d1 agf B _ s b1 (s, c) b2 V3 (cut_run b1 b2 s c R S)) as (bb & Vb & E4).
  destruct (putRec_view sb bb b1 (s, c) b2 (s + n, c - n) Vb shrunk_ok) as (bb1 & E5 & V5).
  destruct (leaf_fields bb1 _ V5) as (_ & E6 & _).
  destruct (writeTree_bno (set_dev d1 w) agf B _ bb1 _ V3 V5) as (d2 & E7 & V7 & F2).
  exists d2. split; [|split; [done|eapply framed_trans; [exact F1|exact F2]]].
  unfold consumePart. rewrite (bindM_lift _ _ _ _ E1), Z_to_nat_zlen, (bindM_lift _ _ _ _ E2), (bindM_Ret _ _ _ _ _ E3).
  rewrite (bindM_Ret _ _ _ tt (set_dev d1 w)) by done.
  unfold bnoUpdateRecord. rewrite (bindM_Ret _ _ (set_dev d1 w) (bnoRel, bb, zlen b1) (set_dev d1 w)) by (unfold readD; cbn [dev set_dev]; by rewrite E4).
  rewrite (bindM_lift _ _ _ _ E5), (bindM_lift _ _ _ _ E6).
  rewrite zlen_app, zlen_cons. replace (Z.to_nat (zlen b1 + (1 + zlen b2) - 1 - zlen b1)) with (length b2) by zl.
  rewrite (bindM_lift _ _ _ _ (bnoBubbleRight_view bb1 V5)). exact E7.
Qed.
End Take.

Lemma maxOf_range l m : Forall rec_ok l -> 0 <= m < 2 ^ 32 -> 0 <= maxOf l m < 2 ^ 32.
Proof.
  revert m. induction l as [|x l IH]; intros m Hl Hm; [done|]. apply Forall_cons in Hl as [[? ?] Hl].
  cbn [maxOf fold_left]. apply IH; [done|]. by case_match.
Qed.

(** The two counters of the AGF. *)
Lemma counters_view w agf B C v :
  ag_view (dev w) agf B C ->
  exists agf', steps_to (
      agfBuf ← lift (put32 agf agfOffFreeBlks v);
      longest ← readD (fun r => agfRecomputeLongest partOff sb r ag cntRel 1);
      agfBuf ← lift (put32 agfBuf agfOffLongest longest);
      writeAGF partOff sb ag agfBuf) w tt agf' B C /\
    dec 4 agf' 52 = v mod 2 ^ 32 /\ dec 4 agf' 56 = maxOf C 0.
Proof.
  intros V. pose proof (v_agfv _ _ _ _ V) as [L Hb Mg Rb Rc Lb Lc]. unzone.
  assert (0 <= maxOf C 0 < 2 ^ 32) as Hm.
  { destruct (v_cnt _ _ _ _ V) as (cb & _ & Vc). apply maxOf_range; [apply (lv_ok _ _ _ Vc)|lia]. }
  destruct (put_spec 4 agf 52 v) as (a1 & E1 & W1 & D1); [lia..|]. pose proof (wrote_len _ _ _ _ W1).
  destruct (put_spec 4 a1 56 (maxOf C 0)) as (a2 & E2 & W2 & D2); [lia..|]. pose proof (wrote_len _ _ _ _ W2).
  destruct (writeAGF_view w agf B C a2) as (agf' & (d' & Ew & Vd & Fr) & G1 & G2); [done| |].
  { constructor; [lia|by apply (wrote_bytes _ _ _ _ W2), (wrote_bytes _ _ _ _ W1)|..];
      by rewrite (wrote_dec _ _ _ _ _ _ W2), (wrote_dec _ _ _ _ _ _ W1) by lia. }
  exists agf'. split.
  - exists d'. split; [|done]. unfold agfOffFreeBlks, agfOffLongest.
    rewrite (bindM_lift _ _ _ _ E1), (bindM_Ret _ _ w (maxOf C 0) w) by (unfold readD; by rewrite (longest_view _ agf B C V)).
    rewrite (bindM_lift _ _ _ _ E2). exact Ew.
  - rewrite G1, G2, D2, (wrote_dec _ _ _ _ _ _ W2), D1 by lia. split; [done|]. by apply Z.mod_small.
Qed.

Lemma take_trees_ok X b1 b2 c1 c2 s c n :
  trees_ok X (b1 ++ (s, c) :: b2) (c1 ++ (s, c) :: c2) -> 0 < n < c ->
  trees_ok X (b1 ++ (s + n, c - n) :: b2) (bubble (rev c1) (s + n, c - n) c2).
Proof.
  intros [R S P O] Hn. destruct (takeFront_ok b1 b2 s c R S n ltac:(lia)) as [R' S'].
  unfold takeFront in *. cbn [fst snd] in *. rewrite (proj2 (Z.eqb_neq _ _)) in R', S' by lia. cbn [app] in R', S'.
  constructor; [done..| |].
  - rewrite bubble_perm, rev_involutive. rewrite app_assoc in P. apply Permutation_app_inv in P.
    rewrite app_assoc. by rewrite <- !Permutation_middle, P.
  - apply ordered_cut in O as (O & _ & O2). apply bubble_ordered; [by rewrite rev_involutive| |].
    + eapply Forall_impl; [exact O2|]. intros x Hx. transitivity (s, c); [|done]. unfold less, allocLess. cbn.
      rewrite (proj2 (Z.eqb_neq _ _)) by lia. cbn. lia.
    + apply Forall_forall. intros x Hx%list_elem_of_In <-. apply in_rev in Hx.
      assert (In (s + n, c - n) (b1 ++ (s, c) :: b2)) as Hi.
      { eapply Permutation_in; [symmetry; exact P|]. apply in_or_app; right; apply in_or_app; by left. }
      pose proof (runs_only b1 b2 s c R S _ Hi ltac:(cbn; lia)) as E. injection E. lia.
Qed.

Lemma allocBody_view t w agf X b1 b2 c1 c2 s c n :
  let B := b1 ++ (s, c) :: b2 in let C := c1 ++ (s, c) :: c2 in
  ag_view (dev w) agf B C -> trees_ok X B C -> cut (fun x => n <=? x.2) C = Some (c1, (s, c), c2) -> 0 < n ->
  exists agf' C', steps_to (allocBlocksBody partOff sb (S t) ag n) w (agAbsBlock sb ag s) agf' (b1 ++ takeFront n (s, c) ++ b2) C' /\
    trees_ok X (b1 ++ takeFront n (s, c) ++ b2) C' /\
    dec 4 agf' 52 = u32 (dec 4 agf 52 - n) /\ dec 4 agf' 56 = maxOf C' 0.
Proof.
  intros B C V F Ec Hn. destruct (cntFind_view _ agf B C n V) as (cb & Vc & Ef). rewrite Ec in Ef.
  destruct (cut_Some _ _ _ _ _ Ec) as (_ & Hnc%Z.leb_le & _). cbn in Hnc.
  pose proof F as [R S P O]. pose proof (run_mid b1 b2 s c R) as (? & ? & ?). cbn [fst snd] in *.
  assert (exists C1, steps_to (if c - n =? 0 then consumeWhole partOff sb (Datatypes.S t) ag cntRel 1 s c
      else consumePart partOff sb (Datatypes.S t) ag cntRel 1 bnoRel cntRel cb (zlen c1) s (u32 (s + n)) (c - n);;
               mret (agf, cntRel, 1)) w (agf, cntRel, 1) agf (b1 ++ takeFront n (s, c) ++ b2) C1
      /\ trees_ok X (b1 ++ takeFront n (s, c) ++ b2) C1) as (C1 & (d1 & E1 & V1 & F1) & Fo).
  { destruct (takeFront_ok b1 b2 s c R S n ltac:(lia)) as [R' S']. unfold takeFront in *. cbn [fst snd] in *. case_match eqn:E0.
    - exists (c1 ++ c2). split; [apply (consumeWhole_view t agf X); done|].
      constructor; [done..|unfold B, C in P; rewrite app_assoc in P; cbn [app]; rewrite app_assoc; by apply Permutation_app_inv in P|by apply ordered_cut in O as (? & _)].
    - apply Z.eqb_neq in E0. rewrite u32_small by lia.
      destruct (consumePart_view t agf X b1 b2 c1 c2 s c F n ltac:(lia) w cb V Vc) as (d1 & E1 & V1 & F1).
      eexists; split; [exists d1; split; [by rewrite (bindM_Ret _ _ _ _ _ E1)|done]|]. apply take_trees_ok; [done|lia]. }
  destruct (counters_view (set_dev d1 w) agf _ C1 (u32 (dec 4 agf 52 - n)) V1) as (agf' & (d2 & E2 & V2 & F2) & G1 & G2).
  exists agf', C1. split; [|split; [done|split; [rewrite G1; apply Z.mod_small, u32_range|done]]].
  exists d2. split; [|split; [done|eapply framed_trans; [exact F1|exact F2]]].
  destruct (agf_fields agf (v_agfv _ _ _ _ V)) as (K1 & K2 & K3 & K4 & K5).
  unfold allocBlocksBody. rewrite (bindM_Ret _ _ _ _ _ (getAGF_view w agf B C V)).
  rewrite (bindM_lift _ _ _ _ K2), (bindM_lift _ _ _ _ K4), (bindM_lift _ _ _ _ K1), (bindM_lift _ _ _ _ K3).
  rewrite (bindM_Ret _ _ w (cntRel, cb, zlen c1) w) by (unfold readD; by rewrite Ef).
  rewrite (bindM_lift _ _ _ _ (recAt_view sb cb c1 (s, c) c2 Vc)). rewrite (proj2 (Z.ltb_ge c n)) by lia.
  rewrite (bindM_Ret _ _ _ _ _ E1), (bindM_lift _ _ _ _ K5).
  apply bindM_inv in E2 as (a1 & w1 & Ea & E2). rewrite (bindM_Ret _ _ _ _ _ Ea).
  apply bindM_inv in E2 as (a2 & w2 & Eb & E2). rewrite (bindM_Ret _ _ _ _ _ Eb).
  apply bindM_inv in E2 as (a3 & w3 & Ed & E2). rewrite (bindM_Ret _ _ _ _ _ Ed), (bindM_Ret _ _ _ _ _ E2). done.
Qed.

Lemma allocBody_exhausted t w agf B C n :
  ag_view (dev w) agf B C -> cut (fun x => n <=? x.2) C = None ->
  allocBlocksBody partOff sb t ag n w = (Fail (Errorf "no free extent"), w).
Proof.
  intros V Ec. destruct (cntFind_view _ agf B C n V) as (cb & _ & Ef). rewrite Ec in Ef.
  destruct (agf_fields agf (v_agfv _ _ _ _ V)) as (K1 & K2 & K3 & K4 & _).
  unfold allocBlocksBody. rewrite (bindM_Ret _ _ _ _ _ (getAGF_view w agf B C V)).
  rewrite (bindM_lift _ _ _ _ K2), (bindM_lift _ _ _ _ K4), (bindM_lift _ _ _ _ K1), (bindM_lift _ _ _ _ K3).
  apply bindM_Fail. unfold readD. by rewrite Ef.
Qed.

(** ** The operation boundary *)
Lemma withOp_quiet {A} (self : @AllocOps D) (m : M (World D) A) d a d' :
  m (set_opDepth 1 (initWorld d)) = (Ret a, set_dev d' (set_opDepth 1 (initWorld d))) ->
  withOp sb self m (initWorld d) = (Ret a, initWorld d').
Proof.
  intros E. destruct stepsFuel_S as [k Ek]. unfold withOp.
  rewrite (bindM_Ret _ _ _ tt (set_opDepth 1 (initWorld d))) by done.
  rewrite (bindM_Ret _ _ _ a (initWorld d')) by (unfold finallyM; by rewrite E).
  rewrite (bindM_Ret getS _ _ (initWorld d') (initWorld d')) by done. cbn [allocOpDepth initWorld]. change (0 =? 0) with true. cbv iota.
  rewrite (bindM_Ret _ _ _ tt (initWorld d')); [done|]. unfold allocDrainMergedFrees.
  rewrite (bindM_Ret getS _ _ (initWorld d') (initWorld d')) by done. cbn [allocDraining initWorld].
  unfold finallyM. rewrite Ek. done.
Qed.
End Spec.

Lemma best_fit (n : Z) C c1 s c c2 :
  ordered false C -> cut (fun x => n <=? x.2) C = Some (c1, (s, c), c2) ->
  forall r, In r C -> n <= r.2 -> c <= r.2.
Proof.
  intros O E r Hr Hn. apply cut_Some in E as (-> & _ & F). apply ordered_cut in O as (_ & _ & O2).
  apply in_app_or in Hr as [H|[<-|H]]; [|done|].
  - rewrite List.Forall_forall in F. apply F in H. lia.
  - rewrite List.Forall_forall in O2. apply O2 in H. unfold less, allocLess in H. cbn in H. case_match; bsplit; lia.
Qed.

(** C2 (refinement).  In an allocation group whose two free-space trees are single leaves,
    [allocBlocks] on an image refines best-fit allocation on the set of free blocks: it
    returns the start [s] of a run of [n] free blocks, cut from the front of the smallest
    sufficient extent (not of the largest one, as the comment at alloc.go:1109 has it);
    afterwards exactly those blocks are no longer free; both free-space indexes stay
    ordered, mutually consistent and non-overlapping on the image; [agf_freeblks] falls by
    [n], [agf_longest] is the largest remaining extent; nothing but the AGF and the two
    leaves is written, and the allocator's package state is as before. *)
Theorem allocBlocks_refines {SIO : SafeIO} {SL : SafeIOLaws SIO} {D} {Dev : Device D} {DL : DeviceLaws D} {DR : DeviceReliable D}
    (sb : superblock) (partOff ag bnoRel cntRel bo co : Z) (tfuel fuel : nat) (d : D) (agf : bytes) (B C : list arec) (n : Z) :
  ag_zones sb partOff ag bnoRel cntRel bo co ->
  ag_view sb partOff ag bnoRel cntRel bo co d agf B C -> free_ok B C ->
  0 < n -> Exists (fun r => n <= r.2) B ->
  exists s c d' agf' B' C',
    allocBlocks partOff sb (S tfuel) (S fuel) ag n (initWorld d) = (Ret (agAbsBlock sb ag s), initWorld d') /\
    In (s, c) B /\ n <= c /\ (forall r, In r B -> n <= r.2 -> c <= r.2) /\
    ag_view sb partOff ag bnoRel cntRel bo co d' agf' B' C' /\ free_ok B' C' /\
    (forall x, free_in B' x <-> free_in B x /\ ~ (s <= x < s + n)) /\
    dec 4 agf' agfOffFreeBlks = u32 (dec 4 agf agfOffFreeBlks - n) /\ dec 4 agf' agfOffLongest = maxOf C' 0 /\
    framed sb partOff ag bo co d d'.
Proof.
  intros Zn V F Hn He. destruct (cut (fun x => n <=? x.2) C) as [[[c1 [s c]] c2]|] eqn:Ec.
  2:{ apply cut_None in Ec. apply Exists_exists in He as (r & Hr & Hnr). rewrite (fo_perm _ _ _ F) in Hr. cbn [app] in Hr.
      rewrite Forall_forall in Ec. apply Ec in Hr. lia. }
  destruct (cut_Some _ _ _ _ _ Ec) as (-> & Hnc%Z.leb_le & _). cbn in Hnc. pose proof F as [R S P O]. cbn [app] in P.
  assert (In (s, c) B) as Hin by (eapply Permutation_in; [symmetry; exact P|apply in_or_app; right; apply in_eq]).
  pose proof Hin as (b1 & b2 & ->)%in_split. set (w1 := set_opDepth 1 (initWorld d)).
  destruct (allocBody_view sb partOff ag bnoRel cntRel bo co Zn tfuel w1 agf [] b1 b2 c1 c2 s c n V F Ec Hn)
    as (agf' & C' & (d' & E & V' & Fr) & F' & G1 & G2).
  exists s, c, d', agf', (b1 ++ takeFront n (s, c) ++ b2), C'. split_and!; try done.
  - cbn [allocBlocks allocOps opAlloc]. eapply withOp_quiet; exact E.
  - intros r Hr. apply (best_fit n _ _ _ _ _ O Ec). by eapply Permutation_in.
  - intros x. apply takeFront_free; [done|done|lia].
Qed.

(** ** A small image: 512-byte blocks, one AG, bno root in block 4, cnt root in block 5 *)
Definition tiny_sb : superblock :=
  {| blockSize := 512; sectorSize := 512; agBlocks := 64; agCount := 1; dBlocks := 64;
     rootIno := 16; inodeSize := 256; inopBlock := 2; inopBLog := 1; agBlkLog := 6; dirBlkLog := 0;
     hasCRC := true; hasFType := true; hasReflink := false; features2 := 0; quotaFlags := 0;
     uQuotino := 0; gQuotino := 0; pQuotino := 0; uuid := replicate 16 0; label := []; maxRead := 0 |}.

Lemma tiny_sb_width : sb_width tiny_sb.
Proof. constructor; cbn; try lia. split; [done|by apply (bool_decide_unpack _)]. Qed.
Lemma tiny_sb_geometry : geometry_ok tiny_sb.
Proof. apply validateGeometry_iff; [apply tiny_sb_width|vm_compute; reflexivity]. Qed.
Definition tiny_agf (bnoRoot cntRoot bnoLevel cntLevel freeblks longest : Z) : bytes := bytesOf (
  b ← put32 (make_bytes 512) agfOffMagic magicAGF;
  b ← put32 b agfOffBnoRoot bnoRoot; b ← put32 b agfOffCntRoot cntRoot;
  b ← put32 b agfOffBnoLevel bnoLevel; b ← put32 b agfOffCntLevel cntLevel;
  b ← put32 b agfOffFreeBlks freeblks; put32 b agfOffLongest longest).
Definition tiny_leaf (rel rsib : Z) (recs : list arec) : bytes := bytesOf (
  b ← newAllocBlock tiny_sb 0 rel 0 (zlen recs) 0x41423342;
  b ← put32 b 12 rsib;
  putSlots b 56 8 (map recBytes recs)).
Definition tiny_B : list arec := [(10, 8); (20, 30); (56, 5)].
Definition tiny_C : list arec := [(56, 5); (10, 8); (20, 30)].
Definition tiny_image : memdev := make_bytes 512 ++ tiny_agf 4 5 1 1 43 30 ++ make_bytes 1024
  ++ tiny_leaf 4 nullAgb tiny_B ++ tiny_leaf 5 nullAgb tiny_C ++ make_bytes (58 * 512).

Lemma tiny_zones : ag_zones tiny_sb 0 0 4 5 2048 2560.
Proof. constructor; try (vm_compute; reflexivity); vm_compute; intuition congruence. Qed.
Lemma tiny_leaf_view rel l :
  l = tiny_B \/ l = tiny_C -> rel = 4 \/ rel = 5 -> leaf_view tiny_sb (tiny_leaf rel nullAgb l) l.
Proof.
  intros [-> | ->] [-> | ->]; (constructor; [vm_compute; reflexivity|apply (bool_decide_unpack _); vm_compute; exact I|vm_compute; (reflexivity || congruence)..|]);
    repeat constructor; cbn; lia.
Qed.
Lemma tiny_view : ag_view tiny_sb 0 0 4 5 2048 2560 tiny_image (tiny_agf 4 5 1 1 43 30) tiny_B tiny_C.
Proof.
  constructor; [vm_compute; reflexivity| | |].
  - constructor; try (vm_compute; reflexivity). apply (bool_decide_unpack _); vm_compute; exact I.
  - exists (tiny_leaf 4 nullAgb tiny_B). split; [vm_compute; reflexivity|apply tiny_leaf_view; tauto].
  - exists (tiny_leaf 5 nullAgb tiny_C). split; [vm_compute; reflexivity|apply tiny_leaf_view; tauto].
Qed.
Lemma tiny_free : free_ok tiny_B tiny_C.
Proof.
  constructor.
  - repeat constructor; cbn; lia.
  - unfold before. repeat constructor; cbn; lia.
  - unfold tiny_B, tiny_C. by rewrite (Permutation_app_comm [(10, 8); (20, 30)] [(56, 5)]).
  - repeat constructor.
Qed.
Lemma allocBlocks_refines_witness :
  exists s c d' agf' B' C',
    allocBlocks 0 tiny_sb 3 2 0 6 (initWorld tiny_image) = (Ret (agAbsBlock tiny_sb 0 s), initWorld d') /\
    In (s, c) tiny_B /\ 6 <= c /\ (forall r, In r tiny_B -> 6 <= r.2 -> c <= r.2) /\
    ag_view tiny_sb 0 0 4 5 2048 2560 d' agf' B' C' /\ free_ok B' C' /\
    (forall x, free_in B' x <-> free_in tiny_B x /\ ~ (s <= x < s + 6)) /\
    dec 4 agf' agfOffFreeBlks = u32 (dec 4 (tiny_agf 4 5 1 1 43 30) agfOffFreeBlks - 6) /\ dec 4 agf' agfOffLongest = maxOf C' 0 /\
    framed tiny_sb 0 0 2048 2560 tiny_image d'.
Proof.
  apply (allocBlocks_refines tiny_sb 0 0 4 5 2048 2560 2 1 tiny_image (tiny_agf 4 5 1 1 43 30) tiny_B tiny_C 6);
    [apply tiny_zones|apply tiny_view|apply tiny_free|lia|].
  apply Exists_exists. exists (10, 8). split; [apply list_elem_of_In; apply in_eq|cbn; lia].
Defined.

(** When no free extent is long enough, [allocBlocks] fails and changes
    neither the image nor the allocator's state. *)
Lemma allocBlocks_exhausted {SIO : SafeIO} {SL : SafeIOLaws SIO} {D} {Dev : Device D} {DL : DeviceLaws D}
    (sb : superblock) (partOff ag bnoRel cntRel bo co : Z) (tfuel fuel : nat) (d : D) (agf : bytes) (B C : list arec) (n : Z) :
  ag_zones sb partOff ag bnoRel cntRel bo co ->
  ag_view sb partOff ag bnoRel cntRel bo co d agf B C -> free_ok B C ->
  Forall (fun r => r.2 < n) B ->
  allocBlocks partOff sb tfuel (S fuel) ag n (initWorld d) = (Fail (Errorf "no free extent"), initWorld d).
Proof.
  intros Zn V F Hall. set (w1 := set_opDepth 1 (initWorld d)).
  assert (cut (fun x => n <=? x.2) C = None) as Ec.
  { destruct (cut _ C) as [[[c1 r] c2]|] eqn:Ec; [|done]. apply cut_Some in Ec as (-> & Hr%Z.leb_le & _).
    rewrite (fo_perm _ _ _ F) in Hall. cbn [app] in Hall. apply Forall_app in Hall as [_ [H _]%Forall_cons]. lia. }
  cbn [allocBlocks allocOps opAlloc]. unfold withOp. rewrite (bindM_Ret _ _ _ tt w1) by done.
  apply bindM_Fail. unfold finallyM. by rewrite (allocBody_exhausted sb partOff ag bnoRel cntRel bo co Zn tfuel w1 agf B C n V Ec).
Qed.
Lemma allocBlocks_exhausted_witness :
  allocBlocks 0 tiny_sb 2 2 0 31 (initWorld tiny_image) = (Fail (Errorf "no free extent"), initWorld tiny_image).
Proof.
  apply (allocBlocks_exhausted tiny_sb 0 0 4 5 2048 2560 2 1 tiny_image (tiny_agf 4 5 1 1 43 30) tiny_B tiny_C 31);
    [apply tiny_zones|apply tiny_view|apply tiny_free|]. repeat constructor; cbn; lia.
Defined.

(** ** Insertion into a leaf *)
(** Inserting a free run into a single-leaf tree with room adds exactly
    that record on the image, keeps the tree's order (bno by start, cnt by count then
    start) and writes nothing else. *)
Lemma allocInsertRecord_leaf {D} {Dev : Device D} {DL : DeviceLaws D} {DR : DeviceReliable D}
    (sb : superblock) (partOff ag bnoRel cntRel bo co : Z) (tfuel : nat) (metaAlloc : Z -> Z -> M (World D) Z)
    (w : World D) (agf : bytes) (B C : list arec) (h : bool) (r : arec) :
  let l := if h then B else C in
  ag_zones sb partOff ag bnoRel cntRel bo co ->
  ag_view sb partOff ag bnoRel cntRel bo co (dev w) agf B C ->
  ordered h l -> Forall (fun x => ~ key_eq h r x) l -> rec_ok r ->
  zlen l < allocMaxLeaf (blockSize sb) (agBTreeHdrSize sb) ->
  exists l', ordered h l' /\ l' ≡ₚ r :: l /\
    steps_to sb partOff ag bnoRel cntRel bo co
      (allocInsertRecord partOff sb (S tfuel) metaAlloc ag (rootOf bnoRel cntRel h) 1 r h) w tt agf
      (if h then l' else B) (if h then C else l').
Proof.
  intros l Zn V Ho Hk Hr Hroom. pose proof (z_bs _ _ _ _ _ _ _ Zn) as Hbs. pose proof (hdr_pos sb) as Hh.
  destruct (readTree_view sb partOff ag bnoRel cntRel bo co Zn h _ agf B C V) as (b & Er & Vl). fold l in Vl.
  destruct (leaf_fields sb partOff ag bnoRel cntRel bo co Zn b l Vl) as (F1 & F2 & _).
  destruct (insert_ordered h r l Ho Hk) as (l1 & l2 & El & Ei & Ho'). exists (l1 ++ r :: l2).
  split; [done|]. split; [by rewrite <- Permutation_middle, El|].
  assert (agBTreeHdrSize sb + 8 * (zlen l + 1) <= blockSize sb) as Hfit.
  { unfold allocMaxLeaf, allocRecSize in Hroom. rewrite Z.quot_div_nonneg in Hroom by lia.
    pose proof (Z.mul_div_le (blockSize sb - agBTreeHdrSize sb) 8 ltac:(lia)). lia. }
  destruct (leafInsert_view sb b l1 l2 r) as (b' & Eb & Vb); [by rewrite <- El|done|by rewrite <- El|lia|]. rewrite <- El in Eb.
  destruct (writeTree_view sb partOff ag bnoRel cntRel bo co Zn h w agf B C b' _ V Vb) as (d' & Ew & Vd & Fr).
  exists d'. split; [|done]. unfold allocInsertRecord. rewrite (bindM_Ret _ _ w None (set_dev d' w)); [done|].
  cbn [allocInsertInto]. rewrite (bindM_Ret _ _ w b w) by (unfold readAG, readD; by rewrite Er).
  rewrite (bindM_lift _ _ _ _ F1), (bindM_lift _ _ _ _ F2). change (0 =? 0) with true. cbv iota.
  rewrite (bindM_lift _ _ _ (zlen l1)) by (by rewrite (insertSlot_view sb b l Vl), Ei).
  rewrite (lv_len _ _ _ Vl), (proj2 (Z.ltb_lt _ _) Hroom), (bindM_lift _ _ _ _ Eb), (bindM_Ret _ _ _ _ _ Ew). done.
Qed.

(** ** Two-level cnt trees *)
Definition tiny_node (rel level : Z) (kids : list (arec * Z)) : bytes := bytesOf (
  b ← newAllocBlock tiny_sb 0 rel level (zlen kids) 0x41423343;
  putKeyPtrs b 56 (56 + allocMaxInternal 512 56 * 8) (map fst kids) (map snd kids)).
(** bno leaf in block 4; cnt root in block 5 over the leaves 6 and 7. *)
Definition two_level_image : memdev := make_bytes 512 ++ tiny_agf 4 5 1 2 18 7 ++ make_bytes 1024
  ++ tiny_leaf 4 nullAgb [(10, 5); (20, 6); (30, 7)]
  ++ tiny_node 5 1 [((10, 5), 6); ((30, 7), 7)]
  ++ tiny_leaf 6 7 [(10, 5); (20, 6)] ++ tiny_leaf 7 nullAgb [(30, 7)] ++ make_bytes (56 * 512).
Definition recordsAt (d : memdev) (rel : Z) : outcome (list arec) :=
  b ← readAGBlock 0 tiny_sb d 0 rel; n ← be16 b 6; readKeys (Z.to_nat n) b 56.

(** Beyond a single leaf best fit fails.  With a cnt tree of two leaves, [allocBlocks] looks only at the right-most
    leaf.  After a request for 6 blocks has shrunk that leaf's extent to 1 block, a
    request for 5 fails with "no free extent" although the bno tree still lists free
    extents of 5 and 6 blocks; the cnt leaves are then no longer in order. *)
Example cnt_two_levels_lose_space :
  let '(o1, w1) := allocBlocks 0 tiny_sb 4 4 0 6 (initWorld two_level_image) in
  o1 = Ret 30 /\
  (allocBlocks 0 tiny_sb 4 4 0 5 w1).1 = Fail (Errorf "no free extent") /\
  recordsAt (dev w1) 4 = Ret [(10, 5); (20, 6); (36, 1)] /\
  recordsAt (dev w1) 6 = Ret [(10, 5); (20, 6)] /\ recordsAt (dev w1) 7 = Ret [(36, 1)].
Proof. vm_compute. done. Qed.
