(* ===== verification/FreeSpec.v ===== *)
(** * Returning blocks to the free space (alloc.go [freeBlocks])

    [freeBlocks] on an AG whose free-space trees are single leaves with room: every
    insertion is wrapped in a reserve (two blocks allocated before, and freed after,
    through the same trees), so the record lists change shape, but the set of free
    blocks grows by exactly the freed run. *)
From S2P Require Import Prelude Bytes Crc Device Superblock SafeIO Inode FileRead Dir AgBlocks Zones AllocTree Alloc AllocLeaf AllocSpec.

(** ** Inserting a run, on record lists *)
Definition clear_of (r : arec) (l : list arec) : Prop := forall x, free_in l x -> ~ (r.1 <= x < r.1 + r.2).
Lemma free_in_perm l k x : l ≡ₚ k -> free_in l x -> free_in k x.
Proof. intros P (r & Hr & Hx). exists r. split; [by eapply Permutation_in|done]. Qed.
Lemma free_in_cons r l x : free_in (r :: l) x <-> (r.1 <= x < r.1 + r.2) \/ free_in l x.
Proof.
  unfold free_in. split; [intros (y & [<-|Hy] & Hx); eauto|].
  intros [H|(y & Hy & Hx)]; [exists r; split; [apply in_eq|done]|exists y; split; [by apply in_cons|done]].
Qed.
Lemma free_in_insert r l l' x : l' ≡ₚ r :: l -> free_in l' x <-> (r.1 <= x < r.1 + r.2) \/ free_in l x.
Proof. intros P. rewrite <- free_in_cons. split; apply free_in_perm; [done|by symmetry]. Qed.

Lemma before_less l : Forall run_ok l -> StronglySorted before l -> ordered true l.
Proof.
  intros R S. induction S as [|x l S IH F]; [constructor|]. apply Forall_cons in R as [(_ & ? & _) R].
  constructor; [by apply IH|]. eapply Forall_impl; [exact F|]. intros y Hy. unfold before in Hy. unfold less, allocLess. lia.
Qed.
Lemma clear_side r y l : run_ok r -> run_ok y -> clear_of r l -> In y l -> before r y \/ before y r.
Proof.
  intros (? & ? & _) (? & ? & _) Hc Hy. unfold before.
  destruct (Z.le_gt_cases (r.1 + r.2) y.1); [by left|]. destruct (Z.le_gt_cases (y.1 + y.2) r.1); [by right|]. exfalso.
  apply (Hc (Z.max r.1 y.1)); [exists y; split; [done|lia]|lia].
Qed.

Section Insert.
Context (X B C : list arec) (r : arec).

Lemma clear_keys : Forall run_ok B -> run_ok r -> clear_of r B -> Forall (fun x => ~ key_eq true r x) B.
Proof.
  intros R Hr Hc. apply Forall_forall. intros y Hy E. cbn in E. rewrite Forall_forall in R. apply list_elem_of_In in Hy as Hi.
  pose proof (R y Hy) as (? & ? & _). destruct Hr as (? & ? & _). apply (Hc y.1); [exists y; split; [done|lia]|lia].
Qed.
Lemma insert_bno_ok B' :
  trees_ok X B C -> run_ok r -> clear_of r B -> ordered true B' -> B' ≡ₚ r :: B -> trees_ok (r :: X) B' C.
Proof.
  intros [R S P O] Hr Hc Ho Hp. assert (In r B') as (l1 & l2 & ->)%in_split by (eapply Permutation_in; [by symmetry|apply in_eq]).
  assert (Forall run_ok (l1 ++ r :: l2)) as R' by (rewrite Hp; by constructor).
  assert (forall y, In y (l1 ++ l2) -> run_ok y /\ (before r y \/ before y r)) as Hs.
  { intros y Hy. assert (In y B) as Hy'. { eapply Permutation_in; [|exact Hy]. eapply Permutation_cons_inv. by rewrite Permutation_middle. }
    assert (run_ok y) by (rewrite Forall_forall in R; by apply R, list_elem_of_In). split; [done|by eapply clear_side]. }
  constructor; [done| | |done].
  - apply ordered_cut in Ho as (Ho & F1 & F2). apply ordered_cut. split_and!.
    + assert (l1 ++ l2 ≡ₚ B) as Hp' by (eapply Permutation_cons_inv; by rewrite Permutation_middle).
      assert (l1 ++ l2 = B) as ->; [|done].
      eapply (StronglySorted_unique_strong (less true)); [|exact Ho|by apply before_less|done].
      intros x1 x2 _ _ H1 H2. unfold less, allocLess in *. lia.
    + rewrite Forall_forall in F1 |- *. intros y Hy. pose proof (F1 y Hy) as L. apply list_elem_of_In in Hy.
      destruct (Hs y ltac:(apply in_or_app; by left)) as ((? & ? & _) & [Hb|Hb]); [|done]. destruct Hr as (? & ? & _). unfold before, less, allocLess in *. lia.
    + rewrite Forall_forall in F2 |- *. intros y Hy. pose proof (F2 y Hy) as L. apply list_elem_of_In in Hy.
      destruct (Hs y ltac:(apply in_or_app; by right)) as ((? & ? & _) & [Hb|Hb]); [done|]. destruct Hr as (? & ? & _). unfold before, less, allocLess in *. lia.
  - cbn [app]. by rewrite Hp, P.
Qed.
Lemma insert_cnt_ok C' : trees_ok (r :: X) B C -> ordered false C' -> C' ≡ₚ r :: C -> trees_ok X B C'.
Proof. intros [R S P O] Ho Hp. constructor; [done..| |done]. by rewrite P, Hp, <- Permutation_middle. Qed.
Lemma cnt_keys : trees_ok (r :: X) B C -> Forall (fun x => ~ key_eq false r x) C.
Proof.
  intros [R S P _]. assert (NoDup B) as N.
  { pose proof (before_less B R S) as Ho. clear P R S. induction Ho as [|x l _ IH F]; constructor; [|done].
    intros Hx. rewrite Forall_forall in F. by apply F, less_irrefl in Hx. }
  rewrite P in N. apply NoDup_cons in N as [N _]. apply Forall_forall. intros y Hy <-. apply N, elem_of_app. by right.
Qed.
End Insert.

(** ** The operation on the image *)
Section Free.
Context {SIO : SafeIO} {SL : SafeIOLaws SIO} {D : Type} {Dev : Device D} {DL : DeviceLaws D} {DR : DeviceReliable D}.
Context (sb : superblock) (partOff ag bnoRel cntRel bo co : Z).
Context (Wd : sb_width sb) (G : geometry_ok sb) (Hag : 0 <= ag < 2 ^ 32).
Context (Zn : ag_zones sb partOff ag bnoRel cntRel bo co).
Abbreviation view := (ag_view sb partOff ag bnoRel cntRel bo co).
Abbreviation steps := (steps_to sb partOff ag bnoRel cntRel bo co).
Abbreviation room l := (zlen l < allocMaxLeaf (blockSize sb) (agBTreeHdrSize sb)).
Implicit Types (w : World D) (B C X : list arec) (self : @AllocOps D).

Lemma steps_bind {A A'} (m : M (World D) A) (k : A -> M (World D) A') w a agf B C a' agf' B' C' :
  steps m w a agf B C -> (forall d, view d agf B C -> steps (k a) (set_dev d w) a' agf' B' C') ->
  steps (m ≫= k) w a' agf' B' C'.
Proof.
  intros (d & E & V & F) Hk. destruct (Hk d V) as (d' & E' & V' & F'). exists d'. split; [|split; [done|by eapply framed_trans]].
  rewrite (bindM_Ret _ _ _ _ _ E). exact E'.
Qed.

(** An operation inside another one leaves the queue alone. *)
Lemma withOp_nested {A} self (m : M (World D) A) w a agf B C :
  0 < allocOpDepth w -> steps m (set_opDepth (allocOpDepth w + 1) w) a agf B C -> steps (withOp sb self m) w a agf B C.
Proof.
  intros Hd (d & E & V & F). exists d. split; [|done]. unfold withOp.
  rewrite (bindM_Ret _ _ _ tt (set_opDepth (allocOpDepth w + 1) w)) by done.
  rewrite (bindM_Ret _ _ _ a (set_dev d w)).
  2:{ unfold finallyM. rewrite E. destruct w. unfold modS, set_opDepth, set_dev. cbn. by replace (allocOpDepth + 1 - 1) with allocOpDepth by lia. }
  rewrite (bindM_Ret getS _ _ (set_dev d w) (set_dev d w)) by done. cbn [allocOpDepth set_dev].
  by rewrite (proj2 (Z.eqb_neq _ _)) by lia.
Qed.
Lemma withOp_fails {A} self (m : M (World D) A) w e :
  m (set_opDepth (allocOpDepth w + 1) w) = (Fail e, set_opDepth (allocOpDepth w + 1) w) -> withOp sb self m w = (Fail e, w).
Proof.
  intros E. unfold withOp. rewrite (bindM_Ret _ _ _ tt (set_opDepth (allocOpDepth w + 1) w)) by done.
  apply bindM_Fail. unfold finallyM. rewrite E. destruct w. unfold modS, set_opDepth. cbn. by replace (allocOpDepth + 1 - 1) with allocOpDepth by lia.
Qed.

(** Inserting run [r] into one of the trees; [h] selects bno. *)
Lemma insert_step (h : bool) t metaAlloc w agf X B C r :
  view (dev w) agf B C -> trees_ok (if h then X else r :: X) B C -> run_ok r -> (h = true -> clear_of r B) ->
  room (if h then B else C) ->
  exists B' C', steps (allocInsertRecord partOff sb (S t) metaAlloc ag (rootOf bnoRel cntRel h) 1 r h) w tt agf B' C' /\
    trees_ok (if h then r :: X else X) B' C' /\ (if h then B' ≡ₚ r :: B /\ C' = C else B' = B /\ C' ≡ₚ r :: C).
Proof.
  intros V F Hr Hc Hroom. assert (rec_ok r) as Hk by (destruct Hr as (? & ? & ?); unfold rec_ok; lia).
  destruct h.
  - destruct (allocInsertRecord_leaf sb partOff ag bnoRel cntRel bo co t metaAlloc w agf B C true r) as (l & Ho & Hp & St); try done.
    { apply before_less; apply F. } { apply clear_keys; [apply F|done|by apply Hc]. }
    exists l, C. split; [exact St|]. split; [|done]. apply (insert_bno_ok X B); auto.
  - destruct (allocInsertRecord_leaf sb partOff ag bnoRel cntRel bo co t metaAlloc w agf B C false r) as (l & Ho & Hp & St); try done.
    { apply F. } { by eapply cnt_keys. }
    exists B, l. split; [exact St|]. split; [|done]. by apply (insert_cnt_ok X B C r).
Qed.

Abbreviation ins self t h r := (allocInsertRecord partOff sb (S t) (allocMetaAllocBlockF sb self) ag (rootOf bnoRel cntRel h) 1 r h).

(** The frame of [freeBlocks] around its two insertions. *)
Lemma freeBody_steps self t w d1 agf B C agf1 B1 C1 agf2 B2 C2 r :
  view (dev w) agf B C -> 0 <= r.1 < 2 ^ agBlkLog sb ->
  allocInsertWithReserve self ag 1 (ins self t true r) w = (Ret tt, set_dev d1 w) ->
  view d1 agf1 B1 C1 -> framed sb partOff ag bo co (dev w) d1 ->
  steps (allocInsertWithReserve self ag 1 (ins self t false r)) (set_dev d1 w) tt agf2 B2 C2 ->
  exists agf', steps (freeBlocksBody partOff sb (S t) self (agAbsBlock sb ag r.1) r.2) w tt agf' B2 C2 /\
    dec 4 agf' 52 = u32 (dec 4 agf2 52 + r.2) /\ dec 4 agf' 56 = maxOf C2 0.
Proof.
  intros V Hr E1 V1 F1 (d2 & E2 & V2 & F2).
  destruct (counters_view sb partOff ag bnoRel cntRel bo co Zn (set_dev d2 w) agf2 B2 C2 (u32 (dec 4 agf2 52 + r.2)) V2)
    as (agf' & (d3 & E3 & V3 & F3) & G1 & G2).
  exists agf'. split; [|split; [rewrite G1; apply Z.mod_small, u32_range|done]].
  exists d3. split; [|split; [done|by do 2 (eapply framed_trans; [eassumption|])]].
  pose proof (getAGF_view sb partOff ag bnoRel cntRel bo co Zn) as Hget.
  pose proof (agf_fields sb partOff ag bnoRel cntRel bo co Zn) as Hf.
  destruct (Hf agf (v_agfv _ _ _ _ _ _ _ _ _ _ _ V)) as (K1 & _ & K3 & _ & _).
  destruct (Hf agf1 (v_agfv _ _ _ _ _ _ _ _ _ _ _ V1)) as (_ & L2 & _ & L4 & _).
  destruct (Hf agf2 (v_agfv _ _ _ _ _ _ _ _ _ _ _ V2)) as (_ & M2 & _ & M4 & M5).
  unfold freeBlocksBody. rewrite (fsbToAgAgbno_agAbsBlock sb Wd G ag r.1) by done.
  rewrite (bindM_Ret _ _ _ _ _ (Hget w agf B C V)), (bindM_lift _ _ _ _ K1), (bindM_lift _ _ _ _ K3).
  unfold bnoInsertRecord, cntInsertRecord. rewrite <- surjective_pairing. cbn [rootOf] in E1, E2.
  rewrite (bindM_Ret _ _ _ _ _ E1), (bindM_Ret _ _ _ _ _ (Hget (set_dev d1 w) agf1 B1 C1 V1)).
  rewrite (bindM_lift _ _ _ _ L2), (bindM_lift _ _ _ _ L4), (bindM_Ret _ _ _ _ _ E2).
  rewrite (bindM_Ret _ _ _ _ _ (Hget (set_dev d2 w) agf2 B2 C2 V2)).
  rewrite (bindM_lift _ _ _ _ M2), (bindM_lift _ _ _ _ M4), (bindM_lift _ _ _ _ M5). exact E3.
Qed.

(** With a reserve installed, an insertion installs none. *)
Lemma reserve_off self (m : M (World D) unit) w :
  0 < allocReserveDepth w -> allocInsertWithReserve self ag 1 m w = m w.
Proof.
  intros H. unfold allocInsertWithReserve. rewrite (bindM_Ret getS _ _ w w) by done. by rewrite (proj2 (Z.ltb_lt _ _) H).
Qed.
Lemma zlen_perm {A} (l k : list A) : l ≡ₚ k -> zlen l = zlen k.
Proof. intros P. unfold zlen. by rewrite P. Qed.

(** The free that returns an unused reserve. *)
Lemma free_reserved self t w agf X B C q :
  0 < allocReserveDepth w -> view (dev w) agf B C -> trees_ok X B C -> run_ok q -> clear_of q B ->
  q.1 < 2 ^ agBlkLog sb -> room B -> room C ->
  exists agf' B' C', steps (freeBlocksBody partOff sb (S t) self (agAbsBlock sb ag q.1) q.2) w tt agf' B' C' /\
    trees_ok X B' C' /\ B' ≡ₚ q :: B /\ dec 4 agf' 52 = u32 (dec 4 agf 52 + q.2).
Proof.
  intros Hd V F Hq Hc Hl RB RC.
  destruct (insert_step true t (allocMetaAllocBlockF sb self) w agf X B C q V F Hq ltac:(done) RB)
    as (B1 & C1 & (d1 & E1 & V1 & Fr1) & F1 & P1 & ->).
  destruct (insert_step false t (allocMetaAllocBlockF sb self) (set_dev d1 w) agf X B1 C q V1 F1 Hq ltac:(done) RC)
    as (B2 & C2 & St & F2 & -> & P2).
  destruct (freeBody_steps self t w d1 agf B C agf B1 C agf B1 C2 q V) as (agf' & S' & G1 & _).
  - destruct Hq as (? & _). lia.
  - by rewrite reserve_off.
  - done.
  - done.
  - destruct St as (d2 & E2 & V2 & Fr2). exists d2. by rewrite reserve_off.
  - exists agf', B1, C2. done.
Qed.

(** An insertion that leaves its two-block reserve unused. *)
Lemma with_reserve self (m : M (World D) unit) w p d1 d2 d3 :
  allocReserveDepth w = 0 -> allocDraining w = false -> 0 <= p < 2 ^ 64 ->
  opAlloc self ag 2 w = (Ret p, set_dev d1 w) ->
  m (set_reserveDepth 1 (set_hook (HookReserve (mkReserve p 2 0)) (set_dev d1 w))) =
    (Ret tt, set_reserveDepth 1 (set_hook (HookReserve (mkReserve p 2 0)) (set_dev d2 w))) ->
  opFree self p 2 (set_reserveDepth 1 (set_dev d2 w)) = (Ret tt, set_reserveDepth 1 (set_dev d3 w)) ->
  allocInsertWithReserve self ag 1 m w = (Ret tt, set_dev d3 w).
Proof.
  intros Hd Hg Hp Ea Em Ef. unfold allocInsertWithReserve. rewrite (bindM_Ret getS _ _ w w) by done. rewrite Hd, Hg. change (0 <? 0) with false.
  unfold catchM, allocReserveSplitBlocks. change (1 + 1 <=? 0) with false. change (u32 (1 + 1)) with 2. cbv beta iota.
  rewrite (bindM_Ret _ _ _ _ _ Ea). unfold mret at 1, M_ret at 1. cbv beta iota.
  rewrite (bindM_Ret getS _ _ (set_dev d1 w) (set_dev d1 w)) by done. cbv zeta.
  rewrite (bindM_Ret _ _ _ tt (set_hook (HookReserve (mkReserve p 2 0)) (set_dev d1 w))) by done.
  rewrite (bindM_Ret _ _ _ tt (set_reserveDepth 1 (set_hook (HookReserve (mkReserve p 2 0)) (set_dev d1 w)))).
  2:{ unfold modS. cbn. by rewrite Hd. }
  unfold finallyM at 1. rewrite Em. cbv beta iota.
  rewrite (bindM_Ret getS _ _ _ _ eq_refl). cbn [allocMetaAllocBlock set_reserveDepth set_hook].
  rewrite (bindM_Ret _ _ _ tt (set_reserveDepth 1 (set_dev d2 w))) by (by destruct w).
  unfold finallyM, reserveRelease. cbn [rn rused runStart]. change (u32 (2 - 0)) with 2. cbv iota beta zeta. change (2 =? 0) with false.
  rewrite Z.add_0_r, u64_small by done. rewrite Ef. unfold modS. destruct w. cbn in *. by rewrite Hd.
Qed.

Lemma cut_split X B C n s c c1 c2 :
  trees_ok X B C -> cut (fun x => n <=? x.2) C = Some (c1, (s, c), c2) ->
  exists b1 b2 : list arec, B = b1 ++ (s, c) :: b2 /\ C = c1 ++ (s, c) :: c2 /\ n <= c /\ run_ok (s, c).
Proof.
  intros [R _ P _] Ec. destruct (cut_Some _ _ _ _ _ Ec) as (-> & Hn%Z.leb_le & _).
  assert (In (s, c) B) as Hin.
  { eapply Permutation_in; [symmetry; exact P|]. apply in_or_app; right. apply in_or_app; right. apply in_eq. }
  pose proof Hin as (b1 & b2 & ->)%in_split. exists b1, b2. split_and!; try done.
  rewrite Forall_forall in R. apply R, list_elem_of_In, Hin.
Qed.
Lemma takeFront_len n (r : arec) (b1 b2 : list arec) : zlen (b1 ++ takeFront n r ++ b2) <= zlen (b1 ++ r :: b2).
Proof. unfold takeFront. case_match; rewrite !zlen_app, ?zlen_cons; zl. Qed.

Lemma trees_len X B C : trees_ok X B C -> zlen C <= zlen B.
Proof. intros F. rewrite (zlen_perm _ _ (fo_perm _ _ _ F)), zlen_app. zl. Qed.
Lemma abs_range p : 0 <= p < agBlocks sb -> 0 <= agAbsBlock sb ag p < 2 ^ 64 /\ p < 2 ^ agBlkLog sb.
Proof.
  intros Hp. pose proof (pow_log_range sb Wd G). destruct (g_abl _ G) as (_ & ? & _).
  rewrite agAbsBlock_eq by (done || lia). split; [nia|lia].
Qed.

(** One of the two insertions, with its reserve. *)
Lemma phase (h : bool) t f w agf X B C r :
  let self := allocOps partOff sb (S t) (S f) in
  0 < allocOpDepth w -> allocReserveDepth w = 0 -> allocDraining w = false ->
  view (dev w) agf B C -> trees_ok (if h then X else r :: X) B C -> run_ok r -> (h = true -> clear_of r B) ->
  (forall x, free_in B x -> x < agBlocks sb) -> zlen B + 1 < allocMaxLeaf (blockSize sb) (agBTreeHdrSize sb) ->
  exists agf' B' C', steps (allocInsertWithReserve self ag 1 (ins self t h r)) w tt agf' B' C' /\
    trees_ok (if h then r :: X else X) B' C' /\
    (forall x, free_in B' x <-> free_in B x \/ (h = true /\ r.1 <= x < r.1 + r.2)) /\
    zlen B' <= zlen B + (if h then 2 else 1) /\ dec 4 agf' 52 = dec 4 agf 52.
Proof.
  intros self Hop Hd Hg V F Hr Hc Hin Hroom.
  pose proof (trees_len _ _ _ F) as HBC. remember (zlen B) as k eqn:Hk.
  destruct (cut (fun x => 2 <=? x.2) C) as [[[c1 [p c]] c2]|] eqn:Ec.
  2:{ destruct (insert_step h t (allocMetaAllocBlockF sb self) w agf X B C r V F Hr Hc) as (B' & C' & (d' & E & V' & Fr) & F' & HB); [destruct h; lia|].
      exists agf, B', C'. split_and!; [|done| |destruct h, HB as [P1 P2]; [rewrite (zlen_perm _ _ P1), zlen_cons; lia|subst; lia]|done].
      - exists d'. split; [|done]. unfold allocInsertWithReserve. rewrite (bindM_Ret getS _ _ w w) by done. rewrite Hd, Hg. change (0 <? 0) with false.
        unfold catchM, allocReserveSplitBlocks. change (1 + 1 <=? 0) with false. change (u32 (1 + 1)) with 2. cbv beta iota.
        rewrite (bindM_Fail _ _ _ (Errorf "no free extent") w); [exact E|]. cbn [opAlloc allocOps self].
        apply withOp_fails. by apply (allocBody_exhausted sb partOff ag bnoRel cntRel bo co Zn _ (set_opDepth _ w) agf B C).
      - intros x. destruct h, HB as [P1 P2]; [rewrite (free_in_insert _ _ _ x P1); tauto|subst; intuition congruence]. }
  destruct (cut_split _ _ _ _ _ _ _ _ F Ec) as (b1 & b2 & -> & -> & Hc2 & Hp). pose proof Hp as (Hp0 & _ & Hp32). cbn [fst snd] in Hp0, Hp32.
  set (X' := if h then X else r :: X) in *. set (B1 := b1 ++ takeFront 2 (p, c) ++ b2 : list arec).
  assert (forall x, free_in B1 x <-> free_in (b1 ++ (p, c) :: b2) x /\ ~ (p <= x < p + 2)) as HB1.
  { intros x. apply takeFront_free; [apply F|apply F|lia]. }
  assert (forall x, p <= x < p + 2 -> free_in (b1 ++ (p, c) :: b2) x) as Hpf.
  { intros x Hx. exists (p, c). split; [apply in_or_app; right; apply in_eq|cbn; lia]. }
  destruct (abs_range p) as [Habs Hlog]; [specialize (Hin p (Hpf p ltac:(lia))); lia|].
  assert (zlen B1 <= k) as HL1 by (rewrite Hk; apply takeFront_len).
  destruct (allocBody_view sb partOff ag bnoRel cntRel bo co Zn t (set_opDepth (allocOpDepth w + 1) w) agf X' b1 b2 c1 c2 p c 2 V F Ec ltac:(lia))
    as (agf1 & C1 & St1 & F1 & G1 & _). change (trees_ok X' B1 C1) in F1.
  apply (withOp_nested (allocOps partOff sb (S t) f)) in St1 as (d1 & E1 & V1 & Fr1); [|done]. change (view d1 agf1 B1 C1) in V1.
  set (w1 := set_reserveDepth 1 (set_hook (HookReserve (mkReserve (agAbsBlock sb ag p) 2 0)) (set_dev d1 w))).
  destruct (insert_step h t (allocMetaAllocBlockF sb self) w1 agf1 X B1 C1 r V1 F1 Hr) as (B2 & C2 & (d2 & E2 & V2 & Fr2) & F2 & HB2).
  { intros Hh x Hx. apply Hc; [done|]. by apply HB1. }
  { pose proof (trees_len _ _ _ F1). destruct h; lia. }
  assert (zlen B2 <= zlen B1 + (if h then 1 else 0) /\
    forall x, free_in B2 x <-> free_in B1 x \/ (h = true /\ r.1 <= x < r.1 + r.2)) as [HL2 HB2'].
  { destruct h, HB2 as [P1 P2]; [split; [rewrite (zlen_perm _ _ P1), zlen_cons; lia|]|subst; split; [lia|intuition congruence]].
    intros x. rewrite (free_in_insert _ _ _ x P1). tauto. }
  pose proof (trees_len _ _ _ F2) as HL2'.
  destruct (free_reserved (allocOps partOff sb (S t) f) t (set_opDepth (allocOpDepth w + 1) (set_reserveDepth 1 (set_dev d2 w))) agf1
    (if h then r :: X else X) B2 C2 (p, 2) ltac:(done) V2 F2) as (agf3 & B3 & C3 & St3 & F3 & P3 & G3); cbn [fst snd].
  { unfold run_ok. cbn. lia. }
  { intros x Hx Hxp. cbn in Hxp. apply HB2' in Hx as [Hx%HB1|[Hh Hx]]; [tauto|]. by apply (Hc Hh x); [apply Hpf|]. }
  { done. } { destruct h; lia. } { destruct h; lia. }
  apply (withOp_nested (allocOps partOff sb (S t) f) _ (set_reserveDepth 1 (set_dev d2 w))) in St3 as (d3 & E3 & V3 & Fr3); [|done].
  exists agf3, B3, C3. split_and!; [|done| | |].
  - exists d3. split; [|split; [done|by do 2 (eapply framed_trans; [eassumption|])]].
    eapply with_reserve; [done|done|exact Habs|exact E1|exact E2|exact E3].
  - intros x. rewrite (free_in_insert _ _ _ x P3), HB2', HB1. cbn. specialize (Hpf x).
    destruct (Z.le_gt_cases p x), (Z.lt_ge_cases x (p + 2)); intuition lia.
  - rewrite (zlen_perm _ _ P3), zlen_cons. destruct h; lia.
  - rewrite G3, G1. cbn [snd]. pose proof (v_agfv _ _ _ _ _ _ _ _ _ _ _ V) as [L Hb _ _ _ _ _]. pose proof (z_sect _ _ _ _ _ _ _ Zn).
    pose proof (dec_range 4 agf 52 Hb ltac:(lia) ltac:(lia) ltac:(lia)). unfold u32. rewrite Zplus_mod_idemp_l.
    replace (dec 4 agf 52 - 2 + 2) with (dec 4 agf 52) by lia. by apply Z.mod_small.
Qed.
End Free.

(** [freeBlocks] from a quiet state, with the growth of the free-space leaves. *)
Lemma freeBlocks_view {SIO : SafeIO} {SL : SafeIOLaws SIO} {D} {Dev : Device D} {DL : DeviceLaws D} {DR : DeviceReliable D}
    (sb : superblock) (partOff ag bnoRel cntRel bo co : Z) (tfuel fuel : nat) (d : D) (agf : bytes) (B C : list arec) (s n : Z) :
  sb_width sb -> geometry_ok sb -> 0 <= ag < 2 ^ 32 ->
  ag_zones sb partOff ag bnoRel cntRel bo co ->
  ag_view sb partOff ag bnoRel cntRel bo co d agf B C -> free_ok B C -> (forall x, free_in B x -> x < agBlocks sb) ->
  0 <= s -> 0 < n -> s + n <= agBlocks sb -> (forall x, free_in B x -> ~ (s <= x < s + n)) ->
  zlen B + 3 < allocMaxLeaf (blockSize sb) (agBTreeHdrSize sb) ->
  exists d' agf' B' C',
    freeBlocks partOff sb (S tfuel) (S (S fuel)) (agAbsBlock sb ag s) n (initWorld d) = (Ret tt, initWorld d') /\
    ag_view sb partOff ag bnoRel cntRel bo co d' agf' B' C' /\ free_ok B' C' /\
    (forall x, free_in B' x <-> free_in B x \/ s <= x < s + n) /\
    dec 4 agf' agfOffFreeBlks = u32 (dec 4 agf agfOffFreeBlks + n) /\ dec 4 agf' agfOffLongest = maxOf C' 0 /\
    framed sb partOff ag bo co d d' /\ zlen B' <= zlen B + 3.
Proof.
  intros Wd G Hag Zn V F Hin Hs Hn Hsn Hc Hroom. set (w1 := set_opDepth 1 (initWorld d)).
  assert (run_ok (s, n)) as Hr by (pose proof (w_agb _ Wd); unfold run_ok; cbn; lia).
  destruct (phase sb partOff ag bnoRel cntRel bo co Wd G Hag Zn true tfuel fuel w1 agf [] B C (s, n))
    as (agf1 & B1 & C1 & (d1 & E1 & V1 & Fr1) & F1 & HB1 & HL1 & G1); try done; [lia|].
  destruct (phase sb partOff ag bnoRel cntRel bo co Wd G Hag Zn false tfuel fuel (set_dev d1 w1) agf1 [] B1 C1 (s, n))
    as (agf2 & B2 & C2 & St2 & F2 & HB2 & HL2 & G2); try done; [|lia|].
  { intros x Hx. apply HB1 in Hx as [Hx|[_ Hx]]; [by apply Hin|cbn in Hx; lia]. }
  destruct (freeBody_steps sb partOff ag bnoRel cntRel bo co Wd G Hag Zn (allocOps partOff sb (S tfuel) (S fuel)) tfuel w1 d1 agf B C agf1 B1 C1 agf2 B2 C2 (s, n) V)
    as (agf' & (d' & E & V' & Fr) & K1 & K2); [|exact E1|done|done|exact St2|].
  { destruct (g_abl _ G) as (_ & ? & _). cbn. lia. }
  exists d', agf', B2, C2. split_and!; try done.
  - cbn [freeBlocks allocOps opFree]. eapply withOp_quiet; exact E.
  - intros x. rewrite HB2, HB1. cbn. intuition congruence.
  - change agfOffFreeBlks with 52. by rewrite K1, G2, G1.
  - lia.
Qed.

(** C3 (refinement).  [freeBlocks] on an image adds exactly the freed run to the set of free
    blocks, although it allocates and releases reserves in the same trees on the way:
    afterwards the free blocks are the old ones and the run, both indexes are ordered,
    mutually consistent and non-overlapping, [agf_freeblks] has grown by [n],
    [agf_longest] is the largest extent; nothing but the AGF and the two leaves is
    written and the allocator's package state is as before. *)
Theorem freeBlocks_refines {SIO : SafeIO} {SL : SafeIOLaws SIO} {D} {Dev : Device D} {DL : DeviceLaws D} {DR : DeviceReliable D}
    (sb : superblock) (partOff ag bnoRel cntRel bo co : Z) (tfuel fuel : nat) (d : D) (agf : bytes) (B C : list arec) (s n : Z) :
  sb_width sb -> geometry_ok sb -> 0 <= ag < 2 ^ 32 ->
  ag_zones sb partOff ag bnoRel cntRel bo co ->
  ag_view sb partOff ag bnoRel cntRel bo co d agf B C -> free_ok B C -> (forall x, free_in B x -> x < agBlocks sb) ->
  0 <= s -> 0 < n -> s + n <= agBlocks sb -> (forall x, free_in B x -> ~ (s <= x < s + n)) ->
  zlen B + 3 < allocMaxLeaf (blockSize sb) (agBTreeHdrSize sb) ->
  exists d' agf' B' C',
    freeBlocks partOff sb (S tfuel) (S (S fuel)) (agAbsBlock sb ag s) n (initWorld d) = (Ret tt, initWorld d') /\
    ag_view sb partOff ag bnoRel cntRel bo co d' agf' B' C' /\ free_ok B' C' /\
    (forall x, free_in B' x <-> free_in B x \/ s <= x < s + n) /\
    dec 4 agf' agfOffFreeBlks = u32 (dec 4 agf agfOffFreeBlks + n) /\ dec 4 agf' agfOffLongest = maxOf C' 0 /\
    framed sb partOff ag bo co d d'.
Proof.
  intros Wd G Hag Zn V F Hin Hs Hn Hsn Hc Hroom.
  destruct (freeBlocks_view sb partOff ag bnoRel cntRel bo co tfuel fuel d agf B C s n) as (d' & agf' & B' & C' & E & V' & F' & HB & G1 & G2 & Fr & _); try done.
  exists d', agf', B', C'. by split_and!.
Qed.
Lemma freeBlocks_refines_witness :
  exists d' agf' B' C',
    freeBlocks 0 tiny_sb 1 2 (agAbsBlock tiny_sb 0 18) 2 (initWorld tiny_image) = (Ret tt, initWorld d') /\
    ag_view tiny_sb 0 0 4 5 2048 2560 d' agf' B' C' /\ free_ok B' C' /\
    (forall x, free_in B' x <-> free_in tiny_B x \/ 18 <= x < 18 + 2) /\
    dec 4 agf' agfOffFreeBlks = u32 (dec 4 (tiny_agf 4 5 1 1 43 30) agfOffFreeBlks + 2) /\ dec 4 agf' agfOffLongest = maxOf C' 0 /\
    framed tiny_sb 0 0 2048 2560 tiny_image d'.
Proof.
  apply (freeBlocks_refines tiny_sb 0 0 4 5 2048 2560 0 0 tiny_image (tiny_agf 4 5 1 1 43 30) tiny_B tiny_C 18 2);
    [apply tiny_sb_width|apply tiny_sb_geometry|lia|apply tiny_zones|apply tiny_view|apply tiny_free| |lia|lia|cbn; lia| |vm_compute; reflexivity].
  all: intros x (r & Hr & Hx); repeat destruct Hr as [<-|Hr]; cbn in *; (lia || done).
Defined.

(** Blocks covered by AG-relative runs. *)
Definition coveredBy (runs : list arec) (x : Z) : Prop := Exists (fun r => r.1 <= x < r.1 + r.2) runs.
Definition disjoint_runs (runs : list arec) : Prop := ForallOrdPairs (fun r r' => apartZ r.1 r.2 r'.1 r'.2) runs.
(** Freeing several runs of one AG, as deletion, truncation and rewriting do. *)
Lemma freeRuns_view {SIO : SafeIO} {SL : SafeIOLaws SIO} {D} {Dev : Device D} {DL : DeviceLaws D} {DR : DeviceReliable D}
    (sb : superblock) (partOff ag bnoRel cntRel bo co : Z) (tfuel fuel : nat) (runs : list arec) (d : D) (agf : bytes) (B C : list arec) :
  sb_width sb -> geometry_ok sb -> 0 <= ag < 2 ^ 32 ->
  ag_zones sb partOff ag bnoRel cntRel bo co ->
  ag_view sb partOff ag bnoRel cntRel bo co d agf B C -> free_ok B C -> (forall x, free_in B x -> x < agBlocks sb) ->
  Forall (fun r => 0 <= r.1 /\ 0 < r.2 /\ r.1 + r.2 <= agBlocks sb) runs -> disjoint_runs runs -> (forall x, free_in B x -> ~ coveredBy runs x) ->
  zlen B + 3 * zlen runs < allocMaxLeaf (blockSize sb) (agBTreeHdrSize sb) ->
  exists d' agf' B' C',
    range_accM (map (fun r => (agAbsBlock sb ag r.1, r.2)) runs) tt (fun run _ => freeBlocks partOff sb (S tfuel) (S (S fuel)) run.1 run.2) (initWorld d) = (Ret tt, initWorld d') /\
    ag_view sb partOff ag bnoRel cntRel bo co d' agf' B' C' /\ free_ok B' C' /\
    (forall x, free_in B' x <-> free_in B x \/ coveredBy runs x) /\ framed sb partOff ag bo co d d'.
Proof.
  intros Wd G Hag Zn V F Hin Hr Hd Hc Hroom. revert d agf B C V F Hin Hc Hroom. induction Hr as [|[s n] runs (Hs & Hn & Hsn) Hr IH]; intros d agf B C V F Hin Hc Hroom.
  { exists d, agf, B, C. split_and!; [done..| |apply framed_refl]. intros x. split; [by left|]. intros [H|H]; [done|inversion H]. }
  inversion Hd as [|? ? Hd1 Hd2]; subst. rewrite zlen_cons in Hroom. pose proof (zlen_nonneg runs). cbn [fst snd] in *.
  destruct (freeBlocks_view sb partOff ag bnoRel cntRel bo co tfuel fuel d agf B C s n) as (d1 & agf1 & B1 & C1 & E & V1 & F1 & HB1 & _ & _ & Fr1 & HL1); try done.
  { intros x Hx Hxs. apply (Hc x Hx). by left. } { unfold arec in *. lia. }
  destruct (IH Hd2 d1 agf1 B1 C1 V1 F1) as (d' & agf' & B' & C' & E' & V' & F' & HB' & Fr').
  { intros x [Hx|Hx]%HB1; [by apply Hin|lia]. }
  { intros x [Hx|Hx]%HB1 Hcv; [apply (Hc x Hx); by right|]. apply Exists_exists in Hcv as ([s' n'] & Hr' & Hx'). rewrite Forall_forall in Hd1.
    specialize (Hd1 _ Hr'). unfold apartZ in Hd1. cbn [fst snd] in *. lia. }
  { lia. }
  exists d', agf', B', C'. split_and!; [|done|done| |by eapply framed_trans].
  - cbn [map range_accM fst snd]. rewrite (bindM_Ret _ _ _ _ _ E). exact E'.
  - intros x. rewrite HB', HB1. unfold coveredBy. rewrite Exists_cons. cbn [fst snd]. tauto.
Qed.

(** The price of the reserve: the two blocks come back as an extent of their own, so after
    freeing one block elsewhere the 30 contiguous free blocks 20..49 can no longer be
    allocated as one run. *)
Definition one_run_image : memdev := make_bytes 512 ++ tiny_agf 4 5 1 1 30 30 ++ make_bytes 1024
  ++ tiny_leaf 4 nullAgb [(20, 30)] ++ tiny_leaf 5 nullAgb [(20, 30)] ++ make_bytes (58 * 512).
Example freeBlocks_splits_runs :
  (allocBlocks 0 tiny_sb 2 3 0 30 (initWorld one_run_image)).1 = Ret 20 /\
  let '(o, w) := freeBlocks 0 tiny_sb 2 3 60 1 (initWorld one_run_image) in
  o = Ret tt /\ recordsAt (dev w) 4 = Ret [(20, 2); (22, 28); (60, 1)] /\
  (allocBlocks 0 tiny_sb 2 3 0 30 w).1 = Fail (Errorf "no free extent").
Proof. vm_compute. done. Qed.
