(* ===== verification/FileWrite.v ===== *)
(** * Writing files and sharing extents (write.go, reflink.go)

    Overwriting a regular file (inline, in place, reallocating, promoting an inline
    file, breaking a reflink share) and the refcount B-tree block of an AG: reading
    and writing its records, sharing and releasing an extent. *)
From S2P Require Import Prelude Bytes Crc Extent Device Superblock SafeIO Refcount Inode FileRead Dir AgBlocks AllocTree Alloc.

Definition refcRecSize := 12.
Definition refcStartMask := 2 ^ 31 - 1.
Definition magicRefcnt := 0x52334643.
Definition agfOffRefcntRoot := 88.
Definition agfOffRefcntLevel := 92.

(** ** The extent list of an inode *)
(** [for i, e := range exts { copy(fork[i*16:], encodeExtent(e)) }], [o = i*16]. *)
Fixpoint putExtents (raw : bytes) (o : Z) (exts : list extent) : outcome bytes :=
  match exts with
  | [] => Ret raw
  | e :: rest => b ← copy_to raw (inodeCoreSize + o) (encodeExtent e); putExtents b (o + 16) rest
  end.
Definition writeExtentList (i : inode) (exts : list extent) : outcome inode :=
  fork ← dataFork i;
  let need := zlen exts * 16 in
  if zlen fork <? need then Fail (Errorf "extent list too large for inode fork")
  else
    b ← clear_range (iraw i) inodeCoreSize (inodeCoreSize + need);
    b ← putExtents b 0 exts;
    Ret (set_raw i b).

(** ** Inode flags *)
Definition inodeIsReflinked (i : inode) : outcome bool :=
  v ← byte_at (iraw i) inoOffVersion;
  if 3 <=? v then f ← be64 (iraw i) inoOffFlags2; Ret (negb (Z.land f xfsDiflag2Reflink =? 0))
  else Ret false.
Definition setInodeReflinkFlag (i : inode) : outcome inode :=
  f ← be64 (iraw i) inoOffFlags2;
  b ← put64 (iraw i) inoOffFlags2 (Z.lor f xfsDiflag2Reflink);
  Ret (set_raw i b).
(** [f &^ xfsDiflag2Reflink] *)
Definition clearReflinkFlag (i : inode) : outcome inode :=
  f ← be64 (iraw i) inoOffFlags2;
  b ← put64 (iraw i) inoOffFlags2 (Z.ldiff f xfsDiflag2Reflink);
  Ret (set_raw i b).
(** [clear(in.dataFork())] *)
Definition clearFork (i : inode) : outcome inode :=
  guardP (inodeCoreSize <=? zlen (iraw i));;
  b ← clear_range (iraw i) inodeCoreSize (zlen (iraw i));
  Ret (set_raw i b).
Definition resetFreedInodeFork (i : inode) : outcome inode :=
  i ← setInodeNExtents i 0;
  i ← setInodeNBlocks i 0;
  i ← setInodeSize i 0;
  i ← setInodeFormat i inodeFmtExtents;
  i ← clearReflinkFlag i;
  f ← be64 (iraw i) inoOffFlags2;
  i ← (if negb (Z.land f xfsDiflag2Nrext64 =? 0)
       then b ← put64 (iraw i) inoOffBigNExtents 0; Ret (set_raw i b) else Ret i);
  clearFork i.

Definition refcMaxRecs (sb : superblock) : Z := Z.quot (blockSize sb - btreeHdrSize (hasCRC sb)) refcRecSize.
(** Records [i .. i+n-1] of a refcount block. *)
Fixpoint refcReadLoop (n : nat) (blk : bytes) (off : Z) : outcome (list refcRec) :=
  match n with
  | O => Ret []
  | S n' =>
      s ← be32 blk off;
      c ← be32 blk (off + 4);
      rc ← be32 blk (off + 8);
      rest ← refcReadLoop n' blk (off + refcRecSize);
      Ret (mkRec (Z.land s refcStartMask) c rc :: rest)
  end.
Fixpoint refcWriteLoop (blk : bytes) (off : Z) (recs : list refcRec) : outcome bytes :=
  match recs with
  | [] => Ret blk
  | r :: rest =>
      b ← put32 blk off (Z.land (rstart r) refcStartMask);
      b ← put32 b (off + 4) (rcount r);
      b ← put32 b (off + 8) (refcount r);
      refcWriteLoop b (off + refcRecSize) rest
  end.
(** The new contents of the refcount root block. *)
Definition refcBlock (sb : superblock) (blk : bytes) (recs : list refcRec) : outcome bytes :=
  let hdr := btreeHdrSize (hasCRC sb) in
  b ← put16 blk 4 0;
  b ← put16 b 6 (u16 (zlen recs));
  b ← clear_range b hdr (zlen b);
  refcWriteLoop b hdr recs.

Section Write.
Context {SIO : SafeIO} {D : Type} {Dev : Device D}.
Variables (partOff : Z) (sb : superblock) (tfuel ofuel : nat).
Let W := World D.
Let blockAlloc (ag n : Z) : M W Z := allocBlocks partOff sb tfuel ofuel ag n.
Let blockFree (abs n : Z) : M W unit := freeBlocks partOff sb tfuel ofuel abs n.

(** ** Refcount records of an AG *)
Definition parseRefcount (blk : bytes) : outcome (list refcRec) :=
  magic ← be32 blk 0;
  failif (negb (magic =? magicRefcnt)) (Errorf "bad refcountbt magic");;
  let hdr := btreeHdrSize (hasCRC sb) in
  numrecs ← be16 blk 6;
  failif (zlen blk <? hdr + numrecs * refcRecSize) (Errorf "refcountbt numrecs overflows block");;
  refcReadLoop (Z.to_nat numrecs) blk hdr.
Definition refcountReadRecs (r : D) (ag : Z) : outcome (list refcRec) :=
  agf ← agfBlock partOff sb r ag;
  root ← be32 agf agfOffRefcntRoot;
  level ← be32 agf agfOffRefcntLevel;
  if (root =? 0) || (level =? 0) then Ret []
  else if negb (level =? 1) then Fail ErrRefcountFull
  else blk ← readAGBlock partOff sb r ag root; parseRefcount blk.
Definition refcountWriteRecs (ag : Z) (recs : list refcRec) : M W unit :=
  if refcMaxRecs sb <? zlen recs then failM ErrRefcountFull
  else
    agf ← readAGF partOff sb ag;
    root ← lift (be32 agf agfOffRefcntRoot);
    blk ← readAG partOff sb ag root;
    blk ← lift (refcBlock sb blk recs);
    writeTree partOff sb ag root blk.

Definition refcountShareExtent (absBlock count : Z) : M W unit :=
  let '(ag, agbno) := fsbToAgAgbno sb absBlock in
  if agBlocks sb <? agbno + count then failM (Errorf "reflink extent crosses AG boundary")
  else
    recs ← readD (fun r => refcountReadRecs r ag);
    refcountWriteRecs ag (refcIncrRange recs agbno count).
Definition refcountFreeExtent (absBlock count : Z) : M W unit :=
  let '(ag, agbno) := fsbToAgAgbno sb absBlock in
  if agBlocks sb <? agbno + count then failM (Errorf "reflink free extent crosses AG boundary")
  else
    recs ← readD (fun r => refcountReadRecs r ag);
    let '(out, free) := refcDecrRange recs agbno count in
    refcountWriteRecs ag out;;
    range_accM free tt (fun fr _ => blockFree (agAbsBlock sb ag (rstart fr)) (rcount fr)).

(** ** File data *)
(** One block of [data] from byte [start], zero-padded. *)
Definition dataBlock (data : bytes) (start : Z) : bytes :=
  let bs := blockSize sb in
  if zlen data <=? start then make_bytes bs
  else
    let e := if zlen data <? start + bs then zlen data else start + bs in
    take (Z.to_nat bs) (slice data start (e - start) ++ make_bytes bs).
Definition writeBlocksData (absStartBlock nBlocks : Z) (data : bytes) : M W unit :=
  let physBase := i64 (fsbToPhysBlock sb absStartBlock) in
  for_accM (Z.to_nat nBlocks) 0 tt (fun b _ =>
    writeAt (dataBlock data (b * blockSize sb)) (i64 (partOff + i64 (i64 (physBase + b) * blockSize sb)))).

Definition writeExtentBlocks (data : bytes) (e : extent) (written : Z) : M W Z :=
  let physOff := i64 (partOff + i64 (i64 (fsbToPhysBlock sb (startBlock e)) * blockSize sb)) in
  for_accM (Z.to_nat (count e)) 0 written (fun b written =>
    writeAt (dataBlock data written) (i64 (physOff + i64 (b * blockSize sb)));;
    mret (i64 (written + blockSize sb))).
Definition writeExtentsInPlace (i : inode) (exts : list extent) (data : bytes) : M W unit :=
  range_accM exts 0 (writeExtentBlocks data);;
  i ← lift (setInodeSize i (zlen data));
  writeInode partOff sb i.

(** ** Allocation with fallback to the other AGs *)
Fixpoint tryAGs (n : nat) (a ag : Z) (alloc : Z -> M W Z) (err : xerr) : M W Z :=
  match n with
  | O => failM err
  | S n' => if a =? ag then tryAGs n' (a + 1) ag alloc err
            else catchM (alloc a) mret (fun e => tryAGs n' (a + 1) ag alloc e)
  end.
Definition allocAnyAG (ag : Z) (alloc : Z -> M W Z) : M W Z :=
  catchM (alloc ag) mret (fun e => tryAGs (Z.to_nat (agCount sb)) 0 ag alloc e).
(** [uint32((uint64(len(data)) + blockSize - 1) / blockSize)] *)
Definition blocksFor (n : Z) : Z := u32 (u64 (n + blockSize sb - 1) / blockSize sb).

(** Point the inode at one extent of fresh blocks. *)
Definition mapOneExtent (i : inode) (absBlock nBlocks size : Z) : outcome inode :=
  i ← writeExtentList i [mkExtent 0 absBlock nBlocks false];
  i ← setInodeSize i size;
  i ← setInodeNBlocks i nBlocks;
  i ← setInodeNExtents i 1;
  setInodeFormat i inodeFmtExtents.

Definition reallocAndWrite (i : inode) (oldExts : list extent) (data : bytes) : M W unit :=
  range_accM oldExts tt (fun e _ => blockFree (startBlock e) (count e));;
  let nBlocks := blocksFor (zlen data) in
  absBlock ← catchM (allocAnyAG (inoAG sb (inum i)) (fun a => blockAlloc a nBlocks)) mret
               (fun _ => failM (Errorf "realloc: no space"));
  i ← lift (mapOneExtent i absBlock nBlocks (zlen data));
  writeInode partOff sb i;;
  writeBlocksData absBlock nBlocks data.
Definition promoteAndWrite (i : inode) (data : bytes) : M W unit :=
  let nBlocks := blocksFor (zlen data) in
  absBlock ← blockAlloc (inoAG sb (inum i)) nBlocks;
  i ← lift (mapOneExtent i absBlock nBlocks (zlen data));
  writeInode partOff sb i;;
  writeBlocksData absBlock nBlocks data.

Definition reflinkBreakAndWrite (i : inode) (data : bytes) : M W unit :=
  oldExts ← (if iformat i =? inodeFmtExtents then lift (inlineExtents i)
             else if iformat i =? inodeFmtBtree then readD (fun r => btreeExtents r partOff sb i)
             else mret []);
  range_accM oldExts tt (fun e _ => refcountFreeExtent (startBlock e) (count e));;
  i ← lift (clearReflinkFlag i);
  i ← lift (clearFork i);
  i ← lift (setInodeFormat i inodeFmtExtents);
  if zlen data =? 0 then
    i ← lift (setInodeSize i 0);
    i ← lift (setInodeNBlocks i 0);
    i ← lift (setInodeNExtents i 0);
    writeInode partOff sb i
  else
    let nBlocks := blocksFor (zlen data) in
    absBlock ← allocAnyAG (inoAG sb (inum i)) (fun a => blockAlloc a nBlocks);
    i ← lift (writeExtentList i [mkExtent 0 absBlock nBlocks false]);
    i ← lift (setInodeSize i (zlen data));
    i ← lift (setInodeNBlocks i nBlocks);
    i ← lift (setInodeNExtents i 1);
    writeInode partOff sb i;;
    writeBlocksData absBlock nBlocks data.

Definition totalBlocks (exts : list extent) : Z := fold_left (fun n e => u64 (n + count e)) exts 0.
(** The inline case: [clear(in.dataFork()); copy(in.dataFork(), data); setInodeSize]. *)
Definition overwriteLocal (i : inode) (data : bytes) : outcome inode :=
  i ← clearFork i;
  b ← copy_to (iraw i) inodeCoreSize data;
  setInodeSize (set_raw i b) (zlen data).
Definition overwriteExtents (i : inode) (exts : list extent) (data : bytes) : M W unit :=
  let newBlocks := u64 (zlen data + blockSize sb - 1) / blockSize sb in
  if newBlocks <=? totalBlocks exts then writeExtentsInPlace i exts data
  else reallocAndWrite i exts data.
Definition overwriteFile (ino : Z) (data : bytes) : M W unit :=
  i ← readD (fun r => readInode r partOff sb ino);
  if negb (isRegular i) then failM (Errorf "inode is not a regular file")
  else
    shared ← lift (inodeIsReflinked i);
    if (shared : bool) then reflinkBreakAndWrite i data
    else if iformat i =? inodeFmtLocal then
      let forkCap := if iforkOff i =? 0 then u64 (inodeSize sb - inodeCoreSize) else iforkOff i * 8 in
      if zlen data <=? forkCap then
        i ← lift (overwriteLocal i data);
        writeInode partOff sb i
      else promoteAndWrite i data
    else if iformat i =? inodeFmtExtents then
      exts ← lift (inlineExtents i);
      overwriteExtents i exts data
    else if iformat i =? inodeFmtBtree then
      exts ← readD (fun r => btreeExtents r partOff sb i);
      overwriteExtents i exts data
    else failM (Errorf "unsupported format for write").
End Write.
