(* ===== verification/FileWriteSpec.v ===== *)
(** * What a write leaves behind (write.go, reflink.go)

    Round trips through the image: extent lists through the inode fork, refcount
    records through the refcount block, file data through freshly mapped blocks. *)
From S2P Require Import Prelude Bytes Crc Extent Device Superblock SafeIO Refcount Inode FileRead Dir AgBlocks Zones AllocTree Alloc AllocLeaf AllocSpec FileWrite.

(** ** Extent lists *)
Lemma zlen_encodeExtent e : zlen (encodeExtent e) = 16.
Proof. unfold encodeExtent. rewrite zlen_app, !zlen_be_encode. done. Qed.
Lemma isbytes_encodeExtent e : isbytes (encodeExtent e).
Proof. apply Forall_app. split; apply isbytes_be_encode. Qed.
Lemma decodeExtent_take rec : 16 <= zlen rec -> decodeExtent rec = decodeExtent (slice rec 0 16).
Proof.
  intros L. unfold decodeExtent. assert (zlen (slice rec 0 16) = 16) as L' by (apply zlen_slice; lia).
  rewrite (be_get_ok 8 rec 0), (be_get_ok 8 (slice rec 0 16) 0) by lia. ostep.
  rewrite (be_get_ok 8 rec 8), (be_get_ok 8 (slice rec 0 16) 8) by lia. unfold dec. by rewrite !slice_slice by lia.
Qed.

(** [exts] stand in the fork from record [k] on. *)
Definition forkHolds (raw : bytes) (k : Z) (exts : list extent) : Prop :=
  forall l1 e l2, exts = l1 ++ e :: l2 -> slice raw (176 + (k + zlen l1) * 16) 16 = encodeExtent e.
Lemma forkHolds_cons raw k e rest :
  forkHolds raw k (e :: rest) <-> slice raw (176 + k * 16) 16 = encodeExtent e /\ forkHolds raw (k + 1) rest.
Proof.
  split.
  - intros H. split; [by rewrite <- (H [] e rest), Z.add_0_r by done|]. intros l1 x l2 E. rewrite <- (H (e :: l1) x l2) by (by rewrite E).
    rewrite zlen_cons. do 2 f_equal. lia.
  - intros [He H] [|y l1] x l2 E; injection E as <- E; [by rewrite Z.add_0_r|].
    rewrite <- (H l1 x l2 E), zlen_cons. do 2 f_equal. lia.
Qed.
Lemma putExtents_spec raw k exts :
  0 <= k -> 176 + (k + zlen exts) * 16 <= zlen raw -> isbytes raw ->
  exists raw', putExtents raw (k * 16) exts = Ret raw' /\ wrote raw raw' (176 + k * 16) (176 + (k + zlen exts) * 16) /\ forkHolds raw' k exts.
Proof.
  revert raw k. induction exts as [|e rest IH]; intros raw k Hk Hle Hb; cbn [putExtents].
  { exists raw. split; [done|]. split; [apply wrote_refl|]. intros l1 x l2 E. by destruct l1. }
  rewrite zlen_cons in Hle. pose proof (zlen_nonneg rest). unfold inodeCoreSize.
  destruct (copy_spec raw (176 + k * 16) (encodeExtent e)) as (r1 & -> & W1 & S1);
    [lia|rewrite zlen_encodeExtent; lia|apply isbytes_encodeExtent|]. ostep. rewrite zlen_encodeExtent in W1, S1. pose proof (wrote_len _ _ _ _ W1).
  replace (k * 16 + 16) with ((k + 1) * 16) by lia.
  destruct (IH r1 (k + 1)) as (r2 & -> & W2 & H2); [lia|lia|by apply (wrote_bytes _ _ _ _ W1)|].
  exists r2. split; [done|]. rewrite zlen_cons. split.
  - eapply wrote_trans; (eapply wrote_weaken; [eassumption|lia..]).
  - apply forkHolds_cons. split; [|done]. by rewrite (wrote_slice _ _ _ _ W2) by lia.
Qed.
Lemma decodeRecs_fork fork k exts :
  (forall l1 e l2, exts = l1 ++ e :: l2 -> slice fork ((k + zlen l1) * 16) 16 = encodeExtent e) ->
  0 <= k -> (k + zlen exts) * 16 <= zlen fork -> Forall extent_wf exts ->
  decodeRecs fork (length exts) k = Ret exts.
Proof.
  revert k. induction exts as [|e rest IH]; intros k H Hk Hle We; [done|]. apply Forall_cons in We as [He We].
  rewrite zlen_cons in Hle. pose proof (zlen_nonneg rest). cbn [decodeRecs length]. unfold from. rewrite sub_ok by lia. ostep.
  rewrite decodeExtent_take by (rewrite zlen_slice; lia). rewrite slice_slice, Z.add_0_r by lia.
  pose proof (H [] e rest eq_refl) as E0. rewrite zlen_nil, Z.add_0_r in E0. rewrite E0, decodeExtent_encode by done. ostep.
  rewrite IH; [done| |lia|lia|done]. intros l1 x l2 E. rewrite <- (H (e :: l1) x l2) by (by rewrite E). rewrite zlen_cons. do 2 f_equal; lia.
Qed.

Lemma writeExtentList_spec i exts :
  isbytes (iraw i) -> 176 + zlen exts * 16 <= zlen (iraw i) ->
  exists raw', writeExtentList i exts = Ret (set_raw i raw') /\
    wrote (iraw i) raw' 176 (176 + zlen exts * 16) /\ forkHolds raw' 0 exts.
Proof.
  intros Hb Hle. pose proof (zlen_nonneg exts). unfold writeExtentList, dataFork, from, inodeCoreSize. rewrite sub_ok by lia. ostep.
  rewrite zlen_slice, (proj2 (Z.ltb_ge _ _)) by lia.
  destruct (clear_spec (iraw i) 176 (176 + zlen exts * 16)) as (b1 & -> & W1 & _); [lia..|]. ostep. pose proof (wrote_len _ _ _ _ W1).
  destruct (putExtents_spec b1 0 exts) as (b2 & E & W2 & H2); [lia|lia|by apply (wrote_bytes _ _ _ _ W1)|]. change (0 * 16) with 0 in E. rewrite E. ostep.
  exists b2. split; [done|]. split; [|done]. eapply wrote_trans; (eapply wrote_weaken; [eassumption|lia..]).
Qed.
Lemma inlineExtents_of i exts :
  forkHolds (iraw i) 0 exts -> 176 + zlen exts * 16 <= zlen (iraw i) -> inExts i = zlen exts ->
  Forall extent_wf exts -> validateExtents exts = Ret tt -> inlineExtents i = Ret exts.
Proof.
  intros H Hle Hn We Hv. pose proof (zlen_nonneg exts). unfold inlineExtents, dataFork, from, inodeCoreSize. rewrite sub_ok by lia. ostep.
  rewrite zlen_slice, (proj2 (Z.ltb_ge _ _)) by lia. rewrite Hn, Z_to_nat_zlen, decodeRecs_fork; [ostep; by rewrite Hv| |lia|rewrite zlen_slice; lia|done].
  intros l1 e l2 E. rewrite <- (H l1 e l2 E). pose proof (f_equal zlen E) as L. rewrite zlen_app, zlen_cons in L.
  pose proof (zlen_nonneg l1). pose proof (zlen_nonneg l2). by rewrite slice_slice by lia.
Qed.

(** C26 (round trip).  An extent list stored by [writeExtentList] (with the extent count set)
    is read back unchanged by [inlineExtents], whenever it fits the fork and is one
    [validateExtents] accepts; the inode's other fields are untouched. *)
Theorem extentList_roundtrip (i : inode) (exts : list extent) :
  isbytes (iraw i) -> inodeCoreSize + zlen exts * 16 <= zlen (iraw i) -> Forall extent_wf exts -> validateExtents exts = Ret tt ->
  exists i', (i1 ← writeExtentList i exts; setInodeNExtents i1 (zlen exts)) = Ret i' /\
    inlineExtents i' = Ret exts /\ isize i' = isize i /\ iformat i' = iformat i /\ zlen (iraw i') = zlen (iraw i).
Proof.
  unfold inodeCoreSize. intros Hb Hle We Hv. destruct (writeExtentList_spec i exts Hb Hle) as (raw' & -> & W1 & H1). ostep.
  pose proof (wrote_len _ _ _ _ W1). pose proof (zlen_nonneg exts). unfold setInodeNExtents, inoOffNExtents. cbn [iraw set_raw].
  destruct (put_spec 4 raw' 76 (zlen exts)) as (r2 & -> & W2 & _); [lia..|]. ostep. pose proof (wrote_len _ _ _ _ W2).
  eexists; split; [done|]. split; [|cbn; split; [done|split; [done|lia]]].
  apply inlineExtents_of; cbn [iraw inExts]; [|lia|done..].
  intros l1 e l2 E. rewrite <- (H1 l1 e l2 E). pose proof (zlen_nonneg l1). apply (wrote_slice _ _ _ _ W2); lia.
Qed.
Lemma extentList_roundtrip_witness :
  exists i', (i1 ← writeExtentList sample_file [mkExtent 0 9 2 false; mkExtent 5 20 1 true]; setInodeNExtents i1 2) = Ret i' /\
    inlineExtents i' = Ret [mkExtent 0 9 2 false; mkExtent 5 20 1 true] /\
    isize i' = isize sample_file /\ iformat i' = iformat sample_file /\ zlen (iraw i') = zlen (iraw sample_file).
Proof.
  apply (extentList_roundtrip sample_file [mkExtent 0 9 2 false; mkExtent 5 20 1 true]);
    [apply sample_file_wf|vm_compute; congruence|by apply (bool_decide_unpack _)|vm_compute; reflexivity].
Defined.

(** ** Refcount records *)
Fixpoint refcHolds (b : bytes) (off : Z) (recs : list refcRec) : Prop :=
  match recs with
  | [] => True
  | r :: rest => dec 4 b off = rstart r /\ dec 4 b (off + 4) = rcount r /\ dec 4 b (off + 8) = refcount r /\
                 refcHolds b (off + 12) rest
  end.
(** A record the block's fields can hold. *)
Definition refc_fits (r : refcRec) : Prop := 0 <= rstart r < 2 ^ 31 /\ 0 <= rcount r < 2 ^ 32 /\ 0 <= refcount r < 2 ^ 32.
Lemma refcHolds_wrote b b' lo hi off recs :
  wrote b b' lo hi -> 0 <= off -> hi <= off \/ off + 12 * zlen recs <= lo -> refcHolds b off recs -> refcHolds b' off recs.
Proof.
  intros Wr. revert off. induction recs as [|r rest IH]; intros off Ho Hd H; [done|]. rewrite zlen_cons in Hd.
  pose proof (zlen_nonneg rest). destruct H as (H1 & H2 & H3 & H4).
  cbn [refcHolds]. rewrite !(wrote_dec _ _ _ _ _ _ Wr) by lia. split_and!; [done..|]. apply IH; [lia|lia|done].
Qed.
Lemma mask_start s : 0 <= s < 2 ^ 31 -> Z.land s refcStartMask = s.
Proof. intros. unfold refcStartMask. rewrite land_ones_mod by lia. by apply Z.mod_small. Qed.

Lemma refcWriteLoop_spec b off recs :
  0 <= off -> off + 12 * zlen recs <= zlen b -> Forall refc_fits recs ->
  exists b', refcWriteLoop b off recs = Ret b' /\ wrote b b' off (off + 12 * zlen recs) /\ refcHolds b' off recs.
Proof.
  revert b off. induction recs as [|r rest IH]; intros b off Ho Hle Hf; cbn [refcWriteLoop].
  { exists b. split; [done|]. split; [apply wrote_refl|done]. }
  apply Forall_cons in Hf as [(F1 & F2 & F3) Hf]. rewrite zlen_cons in Hle |- *. pose proof (zlen_nonneg rest). rewrite mask_start by done.
  destruct (put_spec 4 b off (rstart r)) as (b1 & -> & W1 & D1); [lia..|]. ostep. pose proof (wrote_len _ _ _ _ W1).
  destruct (put_spec 4 b1 (off + 4) (rcount r)) as (b2 & -> & W2 & D2); [lia..|]. ostep. pose proof (wrote_len _ _ _ _ W2).
  destruct (put_spec 4 b2 (off + 8) (refcount r)) as (b3 & -> & W3 & D3); [lia..|]. ostep. pose proof (wrote_len _ _ _ _ W3).
  unfold refcRecSize. destruct (IH b3 (off + 12)) as (b4 & -> & W4 & H4); [lia|lia|done|]. exists b4. split; [done|].
  change (256 ^ 4) with (2 ^ 32) in *. split.
  - do 3 (eapply wrote_trans; [eapply wrote_weaken; [eassumption|lia..]|]). eapply wrote_weaken; [eassumption|lia..].
  - cbn [refcHolds]. rewrite !(wrote_dec _ _ _ _ _ _ W4) by lia. split_and!; [| | |done].
    + rewrite (wrote_dec _ _ _ _ _ _ W3), (wrote_dec _ _ _ _ _ _ W2), D1 by lia. apply Z.mod_small; lia.
    + rewrite (wrote_dec _ _ _ _ _ _ W3), D2 by lia. by apply Z.mod_small.
    + rewrite D3. by apply Z.mod_small.
Qed.
Lemma refcReadLoop_holds b off recs :
  0 <= off -> off + 12 * zlen recs <= zlen b -> Forall refc_fits recs -> refcHolds b off recs ->
  refcReadLoop (length recs) b off = Ret recs.
Proof.
  revert off. induction recs as [|r rest IH]; intros off Ho Hle Hf H; [done|].
  apply Forall_cons in Hf as [(F1 & F2 & F3) Hf]. rewrite zlen_cons in Hle. pose proof (zlen_nonneg rest). destruct H as (H1 & H2 & H3 & H4).
  cbn [refcReadLoop length]. rewrite !be_get_ok by lia. ostep. unfold refcRecSize. rewrite IH by (done || lia). ostep.
  rewrite H1, H2, H3, mask_start by done. by destruct r.
Qed.

(** The AGF and the one-block refcount tree of an AG. *)
Record refc_zones (sb : superblock) (partOff ag rootRel ro : Z) : Prop := {
  rz_sect : 512 <= sectSize sb;
  rz_bs : 512 <= blockSize sb <= 65536;
  rz_root : rootRel <> 0;
  rz_ro : blockByteOffset partOff sb (agAbsBlock sb ag rootRel) = Ret ro;
  rz_apart : apartZ (agFByteOffset sb partOff ag) (sectSize sb) ro (blockSize sb)
}.
Record refc_view {D} `{Device D} (sb : superblock) (partOff ag rootRel ro : Z) (d : D) (recs : list refcRec) : Prop := {
  rv_agf : exists agf, ReadAt d (agFByteOffset sb partOff ag) (sectSize sb) = Ret agf /\
    dec 4 agf 0 = magicAGF /\ dec 4 agf 88 = rootRel /\ dec 4 agf 92 = 1;
  rv_blk : exists blk, ReadAt d ro (blockSize sb) = Ret blk /\ dec 4 blk 0 = magicRefcnt /\
    dec 2 blk 6 = zlen recs /\ refcHolds blk (btreeHdrSize (hasCRC sb)) recs;
  rv_fits : Forall refc_fits recs;
  rv_max : zlen recs <= refcMaxRecs sb
}.

(** The block [refcountWriteRecs] stores: level 0, the number of records, the records. *)
Lemma refcBlock_spec sb blk recs :
  512 <= zlen blk -> btreeHdrSize (hasCRC sb) + 12 * zlen recs <= zlen blk -> zlen recs < 65536 -> Forall refc_fits recs ->
  exists b', refcBlock sb blk recs = Ret b' /\ wrote blk b' 4 (zlen blk) /\ dec 2 b' 4 = 0 /\ dec 2 b' 6 = zlen recs /\
    refcHolds b' (btreeHdrSize (hasCRC sb)) recs.
Proof.
  intros L Hfit Hn F. pose proof (zlen_nonneg recs). set (hdr := btreeHdrSize (hasCRC sb)) in *. assert (16 <= hdr <= 56) as Hh by (unfold hdr, btreeHdrSize; case_match; lia).
  unfold refcBlock. fold hdr. destruct (put_spec 2 blk 4 0) as (b1 & -> & W1 & D1); [lia..|]. ostep. pose proof (wrote_len _ _ _ _ W1).
  destruct (put_spec 2 b1 6 (u16 (zlen recs))) as (b2 & -> & W2 & D2); [lia..|]. ostep. pose proof (wrote_len _ _ _ _ W2).
  destruct (clear_spec b2 hdr (zlen b2)) as (b3 & -> & W3 & _); [lia..|]. ostep. pose proof (wrote_len _ _ _ _ W3).
  destruct (refcWriteLoop_spec b3 hdr recs) as (b4 & -> & W4 & H4); [lia|lia|done|]. exists b4. split; [done|]. split; [|split; [|split; [|done]]].
  - do 3 (eapply wrote_trans; [eapply wrote_weaken; [eassumption|lia..]|]). eapply wrote_weaken; [eassumption|lia..].
  - by rewrite (wrote_dec _ _ _ _ _ _ W4), (wrote_dec _ _ _ _ _ _ W3), (wrote_dec _ _ _ _ _ _ W2), D1 by lia.
  - rewrite (wrote_dec _ _ _ _ _ _ W4), (wrote_dec _ _ _ _ _ _ W3), D2, u16_small by lia. apply Z.mod_small. lia.
Qed.
Section RefcImage.
Context {SIO : SafeIO} {D : Type} {Dev : Device D} {DL : DeviceLaws D} {DR : DeviceReliable D}.
Context (sb : superblock) (partOff ag rootRel ro : Z) (Zn : refc_zones sb partOff ag rootRel ro).
Abbreviation view := (refc_view sb partOff ag rootRel ro).
Let hdr := btreeHdrSize (hasCRC sb).

Lemma refc_hdr_cases : hdr = (if hasCRC sb then 56 else 16).
Proof. done. Qed.
Lemma maxRecs_fit n : 0 <= n <= refcMaxRecs sb -> hdr + 12 * n <= blockSize sb.
Proof.
  unfold refcMaxRecs, refcRecSize. fold hdr. pose proof (rz_bs _ _ _ _ _ Zn). pose proof refc_hdr_cases.
  assert (16 <= hdr <= 56) by (destruct (hasCRC sb); lia). rewrite Z.quot_div_nonneg by lia.
  pose proof (Z.mul_div_le (blockSize sb - hdr) 12 ltac:(lia)). lia.
Qed.
Lemma agf_read d recs : view d recs ->
  exists agf, agfBlock partOff sb d ag = Ret agf /\ be32 agf agfOffRefcntRoot = Ret rootRel /\ be32 agf agfOffRefcntLevel = Ret 1.
Proof.
  intros [(agf & E & M & R & L) _ _ _]. pose proof (rz_sect _ _ _ _ _ Zn). exists agf.
  assert (zlen agf = sectSize sb) by (eapply ReadAt_len; [|exact E]; lia).
  unfold agfBlock, readBytes, agfOffMagic, agfOffRefcntRoot, agfOffRefcntLevel. rewrite E. ostep.
  rewrite !be_get_ok by lia. ostep. rewrite M, R, L. done.
Qed.
Lemma root_read d : forall blk, ReadAt d ro (blockSize sb) = Ret blk -> readAGBlock partOff sb d ag rootRel = Ret blk.
Proof. intros blk E. unfold readAGBlock, readRawBlock. by rewrite (rz_ro _ _ _ _ _ Zn). Qed.

Lemma refcountRead_view d recs : view d recs -> refcountReadRecs partOff sb d ag = Ret recs.
Proof.
  intros V. destruct (agf_read d recs V) as (agf & E1 & E2 & E3). pose proof V as [_ (blk & Eb & M & N & H) F Mx].
  pose proof (rz_bs _ _ _ _ _ Zn). pose proof (zlen_nonneg recs).
  assert (zlen blk = blockSize sb) as L by (eapply ReadAt_len; [|exact Eb]; lia).
  assert (hdr + 12 * zlen recs <= blockSize sb) as Hfit by (by apply maxRecs_fit).
  unfold refcountReadRecs. rewrite E1. ostep. rewrite E2, E3. ostep.
  rewrite (proj2 (Z.eqb_neq _ _) (rz_root _ _ _ _ _ Zn)). cbn [orb]. change (1 =? 0) with false. change (1 =? 1) with true. cbn [negb].
  cbv iota. rewrite (root_read d blk Eb). ostep. unfold parseRefcount, refcRecSize. fold hdr.
  rewrite (be_get_ok 4 blk 0), (be_get_ok 2 blk 6) by lia. ostep. rewrite M, N. change (magicRefcnt =? magicRefcnt) with true. cbn [negb]. ostep.
  rewrite (proj2 (Z.ltb_ge _ _)) by lia. ostep. rewrite Z_to_nat_zlen. apply refcReadLoop_holds; [|lia|done..]. pose proof refc_hdr_cases. destruct (hasCRC sb); lia.
Qed.

Lemma refcountWrite_view w recs recs' :
  view (dev w) recs -> Forall refc_fits recs' -> zlen recs' <= refcMaxRecs sb ->
  exists d', refcountWriteRecs partOff sb ag recs' w = (Ret tt, set_dev d' w) /\ view d' recs'.
Proof.
  intros V F' Mx'. destruct (agf_read _ recs V) as (agf & E1 & E2 & _). pose proof V as [(agf0 & Ea & Ma) (blk & Eb & M & _) _ _].
  destruct Zn as [Hs Hbs Hr Hro Hap]. pose proof (zlen_nonneg recs'). pose proof refc_hdr_cases as Hh.
  assert (16 <= hdr <= 56) as Hh' by (destruct (hasCRC sb); lia).
  assert (zlen blk = blockSize sb) as L by (eapply ReadAt_len; [|exact Eb]; lia).
  assert (isbytes blk) as Bb by (by eapply ReadAt_isbytes).
  pose proof (maxRecs_fit (zlen recs') ltac:(lia)) as Hfit.
  destruct (refcBlock_spec sb blk recs') as (b' & Erb & Wb & _ & Nb & Hb); [lia|fold hdr; lia|lia|done|]. fold hdr in Hb.
  pose proof (wrote_len _ _ _ _ Wb). assert (isbytes b') as Bb' by (by apply (wrote_bytes _ _ _ _ Wb)).
  destruct (stamp_block sb b' Bb' ltac:(lia)) as (b2 & Es & Ws). pose proof (wrote_len _ _ _ _ Ws).
  destruct (write_zone w ro (blockSize sb) blk b2 Eb ltac:(lia) (wrote_bytes _ _ _ _ Ws Bb')) as (d' & Ew & Er & Fr).
  exists d'. split.
  - unfold refcountWriteRecs. rewrite (proj2 (Z.ltb_ge _ _)) by lia.
    rewrite (bindM_Ret _ _ w agf w) by (unfold readAGF, readD; by rewrite E1). rewrite (bindM_lift _ _ _ _ E2).
    rewrite (bindM_Ret _ _ w blk w) by (unfold readAG, readD, readAGBlock, readRawBlock; rewrite Hro; ostep; by rewrite Eb).
    rewrite (bindM_lift _ _ _ _ Erb). unfold writeTree, writeAGBTree, writeRawBlock.
    rewrite (bindM_lift _ _ _ _ Es), (raw_offset _ _ _ _ _ Hro). exact Ew.
  - assert ((if hasCRC sb then 56 else 52) <= hdr \/ hasCRC sb = false) as Hc by (destruct (hasCRC sb); lia).
    constructor; [exists agf0; split; [apply Fr; [lia|done|done]|done]| |done..].
    exists b2. split; [done|]. split; [rewrite (wrote_dec _ _ _ _ _ _ Ws), (wrote_dec _ _ _ _ _ _ Wb) by lia; done|].
    split; [rewrite (wrote_dec _ _ _ _ _ _ Ws) by lia; done|]. fold hdr.
    destruct (hasCRC sb); [apply (refcHolds_wrote _ _ _ _ _ _ Ws); [lia|lia|done]|]. by injection Es as <-.
Qed.
End RefcImage.

(** Records of blocks inside the AG fit the block's fields. *)
Lemma rc_member K recs r : canonical K recs -> In r recs -> rc recs (rstart r) <> 0.
Proof.
  intros H. induction recs as [|x recs IH]; [done|]. pose proof (canonical_headK K x recs H) as [Wx Hx].
  assert (forall b, 0 <= rc recs b) as Hp by (intros b; destruct (rc_range K recs b (canonical_tail _ _ _ H)); lia).
  unfold rc. cbn [acc]. fold (rc recs (rstart r)). intros [->|Hr].
  - rewrite (covers_start K r Wx). pose proof (Hp (rstart r)). lia.
  - specialize (IH (canonical_tail _ _ _ H) Hr). pose proof (Hp (rstart r)). case_match; lia.
Qed.
Lemma canonical_fits K recs n :
  canonical K recs -> K <= 2 ^ 32 -> n <= 2 ^ 31 -> (forall b, rc recs b <> 0 -> b < n) -> Forall refc_fits recs.
Proof.
  intros H HK Hn Hin. apply List.Forall_forall. intros r Hr. pose proof (Hin _ (rc_member K recs r H Hr)).
  pose proof (canonical_wf K recs H) as Wf. rewrite List.Forall_forall in Wf. destruct (Wf r Hr) as (? & ? & ? & ?). unfold refc_fits. lia.
Qed.

(** C24 (refinement).  [refcountShareExtent] on the image: from the records stored in the AG's
    refcount block it leaves, in the same block, canonical records in which exactly
    the blocks of the shared extent have one more reference (an untracked block has
    two); a later read of the tree returns them. *)
Theorem refcountShareExtent_refines {D} {Dev : Device D} {DL : DeviceLaws D} {DR : DeviceReliable D}
    (sb : superblock) (partOff ag rootRel ro K s cnt : Z) (w : World D) (recs : list refcRec) :
  sb_width sb -> geometry_ok sb -> 0 <= ag < 2 ^ 32 -> agBlocks sb <= 2 ^ 31 ->
  refc_zones sb partOff ag rootRel ro -> refc_view sb partOff ag rootRel ro (dev w) recs ->
  canonical K recs -> 2 <= K < 2 ^ 32 -> (forall b, rc recs b <> 0 -> b < agBlocks sb) ->
  0 <= s -> 0 < cnt -> s + cnt <= agBlocks sb -> zlen (refcIncrRange recs s cnt) <= refcMaxRecs sb ->
  exists d' recs',
    refcountShareExtent partOff sb (agAbsBlock sb ag s) cnt w = (Ret tt, set_dev d' w) /\
    refcountReadRecs partOff sb d' ag = Ret recs' /\ canonical (K + 1) recs' /\
    (forall b, rc recs' b = if inr s (s + cnt) b then incr_count (rc recs b) else rc recs b) /\
    (forall b, rc recs' b <> 0 -> b < agBlocks sb).
Proof.
  intros Hw Hg Hag H31 Zn V Hc HK Hin Hs Hn Hle Hmax.
  destruct (refcIncrRange_rc K recs s cnt) as [Hc' R]; try done; try lia.
  assert (forall b, rc (refcIncrRange recs s cnt) b <> 0 -> b < agBlocks sb) as Hin'.
  { intros b. rewrite R. destruct (inr s (s + cnt) b) eqn:E; [|apply Hin]. unfold inr in E. bsplit. lia. }
  destruct (refcountWrite_view sb partOff ag rootRel ro Zn w recs _ V (canonical_fits (K + 1) _ (agBlocks sb) Hc' ltac:(lia) H31 Hin') Hmax) as (d' & Ew & V').
  exists d', (refcIncrRange recs s cnt). split_and!; [|by eapply refcountRead_view|done..].
  unfold refcountShareExtent. pose proof (g_abl _ Hg). rewrite (fsbToAgAgbno_agAbsBlock sb Hw Hg ag s) by lia.
  rewrite (proj2 (Z.ltb_ge _ _)) by lia.
  rewrite (bindM_Ret _ _ w recs w) by (unfold readD; by rewrite (refcountRead_view sb partOff ag rootRel ro Zn _ recs V)). exact Ew.
Qed.

(** An image with the refcount root in block 7: blocks 10..13 have 2 references, 14..15 have 3. *)
Definition refc_agf : bytes := bytesOf (
  b ← put32 (tiny_agf 4 5 1 1 43 30) agfOffRefcntRoot 7; put32 b agfOffRefcntLevel 1).
Definition refc_root : bytes := bytesOf (
  b ← newAllocBlock tiny_sb 0 7 0 0 magicRefcnt; refcBlock tiny_sb b sample_recs).
Definition refc_image : memdev := make_bytes 512 ++ refc_agf ++ make_bytes (5 * 512) ++ refc_root ++ make_bytes (56 * 512).
Lemma refc_image_zones : refc_zones tiny_sb 0 0 7 3584.
Proof. constructor; try (vm_compute; reflexivity); vm_compute; intuition congruence. Qed.
Lemma refc_image_view : refc_view tiny_sb 0 0 7 3584 (dev (initWorld refc_image)) sample_recs.
Proof.
  constructor.
  - exists refc_agf. vm_compute. tauto.
  - exists refc_root. vm_compute. tauto.
  - repeat constructor; cbn; lia.
  - vm_compute. congruence.
Qed.
Lemma refc_image_in b : rc sample_recs b <> 0 -> b < agBlocks tiny_sb.
Proof.
  unfold rc, sample_recs. cbn [acc refcount]. unfold covers. cbn [rstart rcount]. intros H.
  destruct (Z.lt_ge_cases b 64); [done|]. exfalso. apply H.
  rewrite !(proj2 (Z.ltb_ge b _)) by lia. by rewrite !andb_false_r.
Qed.
Lemma refcountShareExtent_refines_witness :
  exists d' recs',
    refcountShareExtent 0 tiny_sb (agAbsBlock tiny_sb 0 12) 5 (initWorld refc_image) = (Ret tt, set_dev d' (initWorld refc_image)) /\
    refcountReadRecs 0 tiny_sb d' 0 = Ret recs' /\ canonical 5 recs' /\
    (forall b, rc recs' b = if inr 12 (12 + 5) b then incr_count (rc sample_recs b) else rc sample_recs b) /\
    (forall b, rc recs' b <> 0 -> b < agBlocks tiny_sb).
Proof.
  apply (refcountShareExtent_refines tiny_sb 0 0 7 3584 4 12 5 (initWorld refc_image) sample_recs tiny_sb_width tiny_sb_geometry);
    [lia|cbn; lia|apply refc_image_zones|apply refc_image_view|apply sample_recs_canonical|lia|apply refc_image_in|lia|lia|cbn; lia|vm_compute; congruence].
Defined.

(** ** File data *)
Lemma zlen_make k : 0 <= k -> zlen (make_bytes k) = k.
Proof. intros. unfold make_bytes. rewrite zlen_replicate. lia. Qed.
Lemma slice_make o k m : 0 <= o -> 0 <= k -> o + k <= m -> slice (make_bytes m) o k = make_bytes k.
Proof. intros. unfold slice, make_bytes. rewrite drop_replicate, take_replicate. f_equal. lia. Qed.
Section Data.
Context {D : Type} {Dev : Device D} {DL : DeviceLaws D} {DR : DeviceReliable D}.
Context (partOff : Z) (sb : superblock) (W : sb_width sb) (G : geometry_ok sb) (Hp : 0 <= partOff < 2 ^ 63).
Context (abs n base : Z) (data : bytes) (Hn : 0 <= n) (Hb : isbytes data) (Hfit : zlen data <= n * blockSize sb).
Context (Hbase : blockByteOffset partOff sb abs = Ret base) (Hend : base + n * blockSize sb < 2 ^ 63).
Let bs := blockSize sb.
(** The data padded to whole blocks. *)
Definition padded : bytes := data ++ make_bytes (n * bs - zlen data).

Lemma zlen_padded : zlen padded = n * bs.
Proof. unfold padded. rewrite zlen_app, zlen_make by (unfold bs; lia). lia. Qed.
Lemma dataBlock_padded b : 0 <= b < n -> dataBlock sb data (b * bs) = slice padded (b * bs) bs.
Proof.
  intros Hbn. pose proof (bs_range sb G) as Hbs. fold bs in Hbs, Hfit. pose proof (zlen_nonneg data).
  assert (b * bs + bs <= n * bs) by nia. assert (0 <= b * bs) by nia. unfold dataBlock, padded. fold bs.
  destruct (Z.leb_spec (zlen data) (b * bs)).
  - rewrite slice_app_r by lia. symmetry. apply slice_make; lia.
  - set (k := (if zlen data <? b * bs + bs then zlen data else b * bs + bs) - b * bs).
    assert (0 <= k <= bs /\ b * bs + k <= zlen data /\ (k = bs \/ b * bs + k = zlen data)) as (Hk & Hkl & Hkc)
      by (unfold k; destruct (Z.ltb_spec (zlen data) (b * bs + bs)); lia).
    assert (slice (data ++ make_bytes (n * bs - zlen data)) (b * bs) bs = slice data (b * bs) k ++ make_bytes (bs - k)) as ->.
    { replace bs with (k + (bs - k)) at 3 by lia. rewrite slice_app_adj by lia. f_equal.
      - unfold slice. rewrite drop_app_le by (unfold zlen in *; lia). rewrite take_app_le; [done|]. rewrite length_drop. unfold zlen in *. lia.
      - destruct Hkc as [->|E]; [unfold slice, make_bytes; by rewrite !Z.sub_diag|]. rewrite slice_app_r by lia. apply slice_make; lia. }
    assert (length (slice data (b * bs) k) = Z.to_nat k) as Lk by (apply Nat2Z.inj; rewrite Z2Nat.id by lia; apply zlen_slice; lia).
    rewrite take_app_ge by lia. rewrite Lk. f_equal. unfold make_bytes. rewrite take_replicate. f_equal. lia.
Qed.
Lemma isbytes_padded : isbytes padded.
Proof. apply Forall_app. split; [done|]. apply isbytes_replicate. Qed.

Lemma data_off b : 0 <= b < n ->
  i64 (partOff + i64 (i64 (i64 (fsbToPhysBlock sb abs) + b) * bs)) = base + b * bs.
Proof.
  intros Hbn. pose proof (bs_range sb G) as Hbs. fold bs in Hbs, Hend. pose proof Hbase as H. rewrite (blockByteOffset_Ret partOff sb abs W G Hp) in H.
  fold bs in H. destruct (Z.ltb_spec (partOff + fsbToPhysBlock sb abs * bs) (2 ^ 63)); [|done]. injection H as E.
  assert (0 <= fsbToPhysBlock sb abs) by apply u64_range. set (p := fsbToPhysBlock sb abs) in *.
  assert (b * bs + bs <= n * bs) by nia. assert (p < 2 ^ 63) by nia. rewrite (i64_small p) by lia.
  assert (p + b < 2 ^ 63) by nia. rewrite (i64_small (p + b)) by lia. rewrite (i64_small ((p + b) * bs)) by nia. rewrite i64_small by nia. nia.
Qed.

Lemma writeBlocks_loop k b w :
  0 <= b -> b + Z.of_nat k = n ->
  (exists old, ReadAt (dev w) base (n * bs) = Ret old) ->
  ReadAt (dev w) base (b * bs) = Ret (slice padded 0 (b * bs)) ->
  exists d', for_accM k b tt (fun b _ => writeAt (dataBlock sb data (b * blockSize sb))
      (i64 (partOff + i64 (i64 (i64 (fsbToPhysBlock sb abs) + b) * blockSize sb)))) w = (Ret tt, set_dev d' w) /\
    ReadAt d' base (n * bs) = Ret padded /\
    (forall o m cs, 0 <= m -> apartZ o m base (n * bs) -> ReadAt (dev w) o m = Ret cs -> ReadAt d' o m = Ret cs).
Proof.
  revert b w. induction k as [|k IH]; intros b w Hb0 Hk (old & Eo) Hpre; cbn [for_accM].
  { exists (dev w). assert (b = n) as -> by lia. split; [by destruct w|]. split; [|done].
    rewrite Hpre. f_equal. rewrite <- zlen_padded. apply slice_all. }
  pose proof (bs_range sb G) as Hbs. fold bs in Hbs |- *. assert (b * bs + bs <= n * bs) by nia. assert (0 <= b * bs) by nia.
  assert (0 <= b < n) as Hbn by lia. rewrite dataBlock_padded, data_off by done.
  pose proof zlen_padded as Lp. assert (zlen (slice padded (b * bs) bs) = bs) as Ls by (apply zlen_slice; lia).
  destruct (write_zone w (base + b * bs) bs (slice old (b * bs) bs) (slice padded (b * bs) bs)) as (d1 & E1 & R1 & F1);
    [by apply ReadAt_sub with (n := n * bs); [|lia..]|done|apply isbytes_slice, isbytes_padded|].
  rewrite (bindM_Ret _ _ _ _ _ E1).
  assert (ReadAt d1 base ((b + 1) * bs) = Ret (slice padded 0 ((b + 1) * bs))) as R2.
  { replace ((b + 1) * bs) with (b * bs + bs) by lia. rewrite slice_app_adj by lia. rewrite Z.add_0_l.
    apply ReadAt_join; [lia|lia| |done]. apply F1; [lia|left; lia|done]. }
  destruct (IH (b + 1) (set_dev d1 w)) as (d2 & E2 & R3 & F2); [lia|lia| |done|].
  { assert (ReadAt d1 (base + (b + 1) * bs) (n * bs - (b + 1) * bs) = Ret (slice old ((b + 1) * bs) (n * bs - (b + 1) * bs))) as R4.
    { apply F1; [nia|right; lia|]. apply ReadAt_sub with (n := n * bs); [done|lia|nia|lia]. }
    eexists. replace (n * bs) with ((b + 1) * bs + (n * bs - (b + 1) * bs)) by lia. eapply ReadAt_join; [nia|nia|exact R2|exact R4]. }
  exists d2. split; [exact E2|]. split; [done|]. intros o m cs Hm Ha Hr. apply F2; [done|done|]. apply F1; [done| |done].
  unfold apartZ in *. lia.
Qed.
Lemma writeBlocksData_spec w :
  (exists old, ReadAt (dev w) base (n * bs) = Ret old) ->
  exists d', writeBlocksData partOff sb abs n data w = (Ret tt, set_dev d' w) /\ ReadAt d' base (n * bs) = Ret padded /\ keeps [(base, n * bs)] (dev w) d'.
Proof.
  intros (old & Eo). destruct (writeBlocks_loop (Z.to_nat n) 0 w) as (d' & E & R & Fr); [lia|lia|eauto| |].
  2:{ exists d'. split_and!; [done|done|]. intros o m cs Hm [Hz _]%Forall_cons. by apply Fr. }
  change (0 * bs) with 0. change (slice padded 0 0) with (@nil Z).
  pose proof (ReadAt_sub (dev w) base (n * bs) old 0 0 Eo ltac:(lia) ltac:(lia) ltac:(pose proof (bs_range sb G); unfold bs; nia)) as R.
  by rewrite Z.add_0_r in R.
Qed.
End Data.

Lemma validate_one e : validateExtents [e] = Ret tt.
Proof. done. Qed.
Lemma mapOneExtent_spec i abs n size :
  isbytes (iraw i) -> 192 <= zlen (iraw i) -> extent_wf (mkExtent 0 abs n false) ->
  exists i', mapOneExtent i abs n size = Ret i' /\ inlineExtents i' = Ret [mkExtent 0 abs n false] /\
    isize i' = size /\ inBlocks i' = n /\ iformat i' = inodeFmtExtents.
Proof.
  intros Hb L We. destruct (writeExtentList_spec i [mkExtent 0 abs n false] Hb) as (r1 & E1 & W1 & H1); [zl|].
  pose proof (wrote_len _ _ _ _ W1). unfold mapOneExtent. rewrite E1. ostep.
  unfold setInodeSize, setInodeNBlocks, setInodeNExtents, setInodeFormat, inoOffSize, inoOffNBlocks, inoOffNExtents, inoOffFormat. cbn [iraw set_raw].
  destruct (put_spec 8 r1 56 size) as (r2 & -> & W2 & _); [lia..|]. ostep. cbn [iraw]. pose proof (wrote_len _ _ _ _ W2).
  destruct (put_spec 8 r2 64 n) as (r3 & -> & W3 & _); [lia..|]. ostep. cbn [iraw]. pose proof (wrote_len _ _ _ _ W3).
  destruct (put_spec 4 r3 76 1) as (r4 & -> & W4 & _); [lia..|]. ostep. cbn [iraw]. pose proof (wrote_len _ _ _ _ W4).
  destruct (set_byte_spec r4 5 inodeFmtExtents) as (r5 & -> & W5 & _); [lia..|]. ostep. pose proof (wrote_len _ _ _ _ W5).
  eexists. split; [done|]. split; [|done]. apply inlineExtents_of; cbn [iraw inExts]; [|zl|done|by apply Forall_singleton|apply validate_one].
  intros l1 e l2 E. rewrite <- (H1 l1 e l2 E). pose proof (zlen_nonneg l1).
  rewrite (wrote_slice _ _ _ _ W5), (wrote_slice _ _ _ _ W4), (wrote_slice _ _ _ _ W3), (wrote_slice _ _ _ _ W2) by lia. done.
Qed.

(** The size a read may return admits [len] bytes of a file with [n] blocks. *)
Lemma ceiling_admits sb i n len :
  geometry_ok sb -> inBlocks i = n -> 0 <= n < 2 ^ 21 -> 0 <= len <= n * blockSize sb -> len <= maxReadLimit sb ->
  (forall d, declaredBytes sb = Some d -> len <= d) -> len <= fileCeiling sb i.
Proof.
  intros G En Hn Hl Hm Hd. pose proof (bs_range sb G). unfold fileCeiling, inodeMaxBytes. rewrite En.
  cbv zeta. rewrite (proj2 (Z.ltb_ge (2 ^ 48) n)) by lia. rewrite (i64_small n), (i64_small (n + 1)), i64_small by nia.
  destruct (declaredBytes sb) as [d|]; [specialize (Hd d eq_refl)|]; repeat case_match; nia.
Qed.

(** A file of one extent reads as the data its blocks hold. *)
Lemma readOne {SIO : SafeIO} {SL : SafeIOLaws SIO} {D} {Dev : Device D} {DL : DeviceLaws D} (d' : D) (partOff : Z) (sb : superblock) (i' : inode) (abs n base : Z) (data : bytes) :
  geometry_ok sb -> 0 <= n < 2 ^ 21 -> zlen data <= n * blockSize sb -> zlen data < 2 ^ 32 -> 0 <= abs < 2 ^ 52 ->
  zlen data <= maxReadLimit sb -> (forall d, declaredBytes sb = Some d -> zlen data <= d) -> blockByteOffset partOff sb abs = Ret base ->
  inlineExtents i' = Ret [mkExtent 0 abs n false] -> isize i' = zlen data -> inBlocks i' = n -> iformat i' = inodeFmtExtents ->
  ReadAt d' base (n * blockSize sb) = Ret (padded sb n data) -> readFileData d' partOff sb i' = Ret data.
Proof.
  intros G Hn Hfit Hl Habs Hmax Hdec Hbase Ei Es Eb Ef Er. pose proof (bs_range sb G) as Hbs. pose proof (zlen_nonneg data). unfold readFileData. rewrite Ef. change (inodeFmtExtents =? inodeFmtLocal) with false.
  change (inodeFmtExtents =? inodeFmtExtents) with true. cbv iota. rewrite Ei. ostep. unfold readExtents. rewrite Es, i64_small by lia.
  rewrite MakeBytes_ok by (split; [lia|]; eapply ceiling_admits; [done|exact Eb|lia..|done|done]). ostep.
  rewrite (readRuns_cons d' partOff sb G); [|unfold extent_wf; cbn; lia|lia|rewrite zlen_make; lia]. unfold run_end, run_start. cbn [startOff count startBlock].
  change (u64 (0 * blockSize sb)) with 0. rewrite Hbase. ostep.
  destruct (Z.leb_spec (zlen data) 0).
  { destruct data as [|x l]; [done|]. rewrite zlen_cons in *. pose proof (zlen_nonneg l). lia. }
  rewrite Z.min_l, Z.sub_0_r by lia.
  pose proof (ReadAt_sub d' base (n * blockSize sb) (padded sb n data) 0 (zlen data) Er ltac:(lia) ltac:(lia) ltac:(lia)) as R.
  rewrite Z.add_0_r in R. rewrite R. ostep. cbn [readRuns]. f_equal. unfold padded. rewrite slice_app_l by (done || lia).
  unfold splice. rewrite drop_ge by (unfold make_bytes; rewrite length_replicate; unfold zlen; lia). cbn [Z.to_nat take app]. apply app_nil_r.
Qed.

(** An empty inline regular file in a 256-byte inode. *)
Definition sample_local : inode :=
  Eval vm_compute in decodeInode 16 (bytesOf (initInodeV3 (0, 0) (make_bytes 256) 16 0x81A4 1 (replicate 16 0))).

(** C5 (round trip).  The contents a file gets when it is (re)written into freshly
    allocated blocks: the inode [mapOneExtent] leaves maps one extent of
    [blocksFor (len data)] blocks, [writeBlocksData] fills those blocks, and reading
    the file through that inode returns exactly [data]. *)
Theorem freshData_roundtrip {SIO : SafeIO} {SL : SafeIOLaws SIO} {D} {Dev : Device D} {DL : DeviceLaws D} {DR : DeviceReliable D}
    (partOff : Z) (sb : superblock) (i : inode) (abs base : Z) (data : bytes) (w : World D) :
  let n := blocksFor sb (zlen data) in
  sb_width sb -> geometry_ok sb -> 0 <= partOff < 2 ^ 63 ->
  isbytes (iraw i) -> zlen (iraw i) = inodeSize sb -> isbytes data ->
  n < 2 ^ 21 -> zlen data < 2 ^ 32 -> 0 <= abs < 2 ^ 52 ->
  zlen data <= maxReadLimit sb -> (forall d, declaredBytes sb = Some d -> zlen data <= d) ->
  blockByteOffset partOff sb abs = Ret base -> base + n * blockSize sb < 2 ^ 63 ->
  (exists old, ReadAt (dev w) base (n * blockSize sb) = Ret old) ->
  exists i' d',
    mapOneExtent i abs n (zlen data) = Ret i' /\
    writeBlocksData partOff sb abs n data w = (Ret tt, set_dev d' w) /\
    readFileData d' partOff sb i' = Ret data.
Proof.
  intros n W G Hp Hbi Li Hbd Hn Hl Habs Hmax Hdec Hbase Hend Hold.
  pose proof (bs_range sb G) as Hbs. pose proof (inodeSize_range sb G). pose proof (zlen_nonneg data).
  assert (0 <= n /\ zlen data <= n * blockSize sb) as [Hn0 Hfit].
  { unfold n, blocksFor. rewrite u64_small by lia.
    assert (0 <= (zlen data + blockSize sb - 1) / blockSize sb) by (apply Z.div_pos; lia).
    pose proof (Z.mul_succ_div_gt (zlen data + blockSize sb - 1) (blockSize sb) ltac:(lia)).
    assert ((zlen data + blockSize sb - 1) / blockSize sb < 2 ^ 32) by (apply Z.div_lt_upper_bound; nia).
    rewrite u32_small by lia. split; [lia|nia]. }
  destruct (mapOneExtent_spec i abs n (zlen data) Hbi) as (i' & Em & Ei & Es & Eb & Ef); [lia|unfold extent_wf; cbn; lia|].
  destruct (writeBlocksData_spec partOff sb W G Hp abs n base data Hn0 Hbd Hfit Hbase Hend w Hold) as (d' & Ew & Er & _).
  exists i', d'. split; [done|]. split; [done|]. by apply (readOne d' partOff sb i' abs n base data).
Qed.
(** Rewriting the sample file with 700 bytes at block 20 of the small image. *)
Lemma freshData_roundtrip_witness :
  exists i' d',
    mapOneExtent sample_local 20 (blocksFor tiny_sb 700) 700 = Ret i' /\
    writeBlocksData 0 tiny_sb 20 (blocksFor tiny_sb 700) (replicate 700 9) (initWorld tiny_image) = (Ret tt, set_dev d' (initWorld tiny_image)) /\
    readFileData d' 0 tiny_sb i' = Ret (replicate 700 9).
Proof.
  apply (freshData_roundtrip 0 tiny_sb sample_local 20 10240 (replicate 700 9) (initWorld tiny_image) tiny_sb_width tiny_sb_geometry);
    [lia|apply (bool_decide_unpack _); vm_compute; exact I|vm_compute; reflexivity|apply (bool_decide_unpack _); vm_compute; exact I
    |vm_compute; reflexivity|vm_compute; reflexivity|lia|vm_compute; congruence| |vm_compute; reflexivity|vm_compute; reflexivity
    |eexists; vm_compute; reflexivity].
  intros d E. vm_compute in E. injection E as <-. vm_compute. congruence.
Defined.

(** ** Behaviours a caller should know *)
(** An extent-mapped file in inode 12 of the small image. *)
Definition tiny_file (exts : list extent) (size : Z) : bytes := bytesOf (
  i ← writeExtentList (mkInode 12 0x81A4 1 0 0 0 0 (bytesOf (initInodeV3 (0, 0) (make_bytes 256) 12 0x81A4 1 (replicate 16 0)))) exts;
  i ← setInodeSize i size; i ← setInodeNBlocks i 1; i ← setInodeNExtents i (zlen exts); i ← setInodeFormat i inodeFmtExtents;
  Ret (iraw i)).

(** Overwriting an inline file clears the whole literal area, not just the data
    fork: when the inode has an attribute fork (at [forkOff * 8]), every byte of it is
    zero afterwards. *)
Lemma overwriteLocal_wipes_attributes (i : inode) (data : bytes) :
  isbytes data -> 0 <= iforkOff i -> inodeCoreSize + iforkOff i * 8 <= zlen (iraw i) -> zlen data <= iforkOff i * 8 ->
  exists i', overwriteLocal i data = Ret i' /\
    let attr := inodeCoreSize + iforkOff i * 8 in
    slice (iraw i') attr (zlen (iraw i) - attr) = make_bytes (zlen (iraw i) - attr).
Proof.
  unfold inodeCoreSize. intros Hb Hf Hle Hd. pose proof (zlen_nonneg data). unfold overwriteLocal, clearFork, inodeCoreSize.
  rewrite (proj2 (Z.leb_le 176 _)) by lia. ostep.
  destruct (clear_spec (iraw i) 176 (zlen (iraw i))) as (r1 & -> & W1 & S1); [lia..|]. ostep. cbn [iraw set_raw]. pose proof (wrote_len _ _ _ _ W1).
  destruct (copy_spec r1 176 data) as (r2 & -> & W2 & _); [lia|lia|done|]. ostep. unfold setInodeSize, inoOffSize. cbn [iraw set_raw]. pose proof (wrote_len _ _ _ _ W2).
  destruct (put_spec 8 r2 56 (zlen data)) as (r3 & -> & W3 & _); [lia..|]. ostep. eexists. split; [done|]. cbn [iraw].
  set (a := 176 + iforkOff i * 8). rewrite (wrote_slice _ _ _ _ W3), (wrote_slice _ _ _ _ W2) by (unfold a; lia).
  pose proof (f_equal (fun l => slice l (a - 176) (zlen (iraw i) - a)) S1) as E. cbn beta in E.
  rewrite slice_slice, slice_make in E by (unfold a; lia). rewrite <- E. f_equal; unfold a; lia.
Qed.
Lemma overwriteLocal_wipes_attributes_witness :
  exists i', overwriteLocal (mkInode 12 0x81A4 1 3 0 0 2 (replicate 256 7)) [1; 2; 3] = Ret i' /\
    slice (iraw i') 192 64 = make_bytes 64.
Proof.
  apply (overwriteLocal_wipes_attributes (mkInode 12 0x81A4 1 3 0 0 2 (replicate 256 7)) [1; 2; 3]);
    [by apply (bool_decide_unpack _)|cbn; lia|vm_compute; congruence|vm_compute; congruence].
Defined.

(** ** An AG without a refcount tree *)
Lemma refcIncr_nil s cnt : 0 <= s -> 0 < cnt -> s + cnt < 2 ^ 32 -> refcIncrRange [] s cnt = [mkRec s cnt 2].
Proof.
  intros Hs Hc Hb. unfold refcIncrRange. rewrite (u32_small (s + cnt)) by lia. unfold refcClipInside. cbn [clipLoop]. change (merge_sort by_rstart []) with (@nil refcRec).
  cbn [fillGaps]. rewrite (proj2 (Z.ltb_lt _ _)) by lia. cbn [map app]. unfold bumpRec. cbn [refcount rstart rcount]. replace (s + cnt - s) with cnt by lia. rewrite u32_small by lia.
  unfold refcMerge. rewrite filter_cons_True; [reflexivity|]. unfold keepRec. cbn [rcount refcount]. by rewrite (proj2 (Z.eqb_neq cnt 0)) by lia.
Qed.
(** Where block 0 of AG 0 is. *)
Lemma block_zero partOff sb : sb_width sb -> geometry_ok sb -> 0 <= partOff < 2 ^ 63 -> blockByteOffset partOff sb (agAbsBlock sb 0 0) = Ret partOff.
Proof.
  intros W G Hp. rewrite (blockByteOffset_Ret partOff sb _ W G Hp).
  assert (fsbToPhysBlock sb (agAbsBlock sb 0 0) = 0) as -> by (unfold agAbsBlock, shl64, fsbToPhysBlock, shr64; rewrite Z.shiftl_0_l; cbn [Z.lor]; change (u64 0) with 0; rewrite Z.shiftr_0_l; reflexivity).
  rewrite Z.mul_0_l, Z.add_0_r, (proj2 (Z.ltb_lt _ _)) by lia. done.
Qed.
(** A sector whose block-size field is under 512 is no superblock. *)
Lemma small_blocksize_refused buf sb' : isbytes buf -> zlen buf = 512 -> dec 4 buf 4 < 512 -> parseSuperblock buf <> Ret sb'.
Proof.
  intros Hb L Hd. rewrite (parseSuperblock_eq buf L). destruct (_ =? _); [|done]. destruct (validateGeometry (decodeSB buf)) as [[]| | |] eqn:E; ostep; try done. intros _.
  apply validateGeometry_iff in E; [|by apply decodeSB_width]. destruct (g_bs _ E) as (k & Hk & Hbs). cbn [blockSize decodeSB] in Hbs.
  pose proof (Z.pow_le_mono_r 2 9 k ltac:(lia) ltac:(lia)). lia.
Qed.

(** C38 (error).  On an AG 0 without a refcount tree (root 0 in the AGF, which [refcountReadRecs]
    takes for an empty record set; groups of at most 2^31 blocks, no I/O faults), sharing any
    extent inside the group reports success, but
    [refcountWriteRecs] has stored the record set over block 0: the superblock there is
    refused from then on. *)
Theorem refcount_root_zero_destroys_superblock {D} {Dev : Device D} {DL : DeviceLaws D} {DR : DeviceReliable D}
    (sb : superblock) (partOff s cnt : Z) (w : World D) (agf blk : bytes) :
  sb_width sb -> geometry_ok sb -> 0 <= partOff < 2 ^ 63 -> agBlocks sb <= 2 ^ 31 ->
  agfBlock partOff sb (dev w) 0 = Ret agf -> 96 <= zlen agf -> dec 4 agf agfOffRefcntRoot = 0 ->
  ReadAt (dev w) partOff (blockSize sb) = Ret blk ->
  0 <= s -> 0 < cnt -> s + cnt <= agBlocks sb ->
  exists d', refcountShareExtent partOff sb (agAbsBlock sb 0 s) cnt w = (Ret tt, set_dev d' w) /\
    forall sb', readSuperblock d' partOff <> Ret sb'.
Proof.
  intros W G Hp H31 Ha La Hroot Hblk Hs Hc Hle. pose proof (bs_range sb G) as Hbs. unfold agfOffRefcntRoot in Hroot.
  assert (zlen blk = blockSize sb) as L by (eapply ReadAt_len; [|exact Hblk]; lia). assert (isbytes blk) as Bb by (by eapply ReadAt_isbytes).
  pose proof (block_zero partOff sb W G Hp) as H0. set (recs := [mkRec s cnt 2]). assert (zlen recs = 1) as Lr by done.
  assert (16 <= btreeHdrSize (hasCRC sb) <= 56) as Hh by (unfold btreeHdrSize; case_match; lia).
  destruct (refcBlock_spec sb blk recs) as (b1 & Eb & W1 & D4 & D6 & _); [lia|lia|lia|repeat constructor; cbn; lia|].
  pose proof (wrote_len _ _ _ _ W1) as L1. pose proof (wrote_bytes _ _ _ _ W1 Bb) as B1.
  destruct (stamp_block sb b1 B1 ltac:(lia)) as (b2 & Es & Ws). pose proof (wrote_len _ _ _ _ Ws) as L2. pose proof (wrote_bytes _ _ _ _ Ws B1) as B2.
  destruct (write_zone w partOff (blockSize sb) blk b2 Hblk ltac:(lia) B2) as (d' & Ew & Er & _). exists d'. split.
  - unfold refcountShareExtent. pose proof (g_abl _ G). rewrite (fsbToAgAgbno_agAbsBlock sb W G 0 s) by lia. rewrite (proj2 (Z.ltb_ge _ _)) by lia.
    rewrite (bindM_Ret _ _ w [] w).
    2:{ unfold readD, refcountReadRecs, agfOffRefcntRoot, agfOffRefcntLevel. rewrite Ha. ostep. rewrite !be_get_ok by lia. ostep. by rewrite Hroot. }
    rewrite refcIncr_nil by lia. fold recs. unfold refcountWriteRecs.
    rewrite (proj2 (Z.ltb_ge _ _)) by (unfold refcMaxRecs, refcRecSize; rewrite Z.quot_div_nonneg by lia; rewrite Lr; apply Z.div_le_lower_bound; lia).
    rewrite (bindM_Ret _ _ w agf w) by (unfold readAGF, readD; by rewrite Ha). unfold agfOffRefcntRoot. rewrite (bindM_lift _ _ _ 0) by (rewrite be_get_ok by lia; by rewrite Hroot).
    rewrite (bindM_Ret _ _ w blk w) by (unfold readAG, readD, readAGBlock, readRawBlock; rewrite H0; ostep; unfold readBytes; by rewrite Hblk).
    rewrite (bindM_lift _ _ _ _ Eb). unfold writeTree, writeAGBTree, writeRawBlock. rewrite (bindM_lift _ _ _ _ Es), (raw_offset _ _ _ _ _ H0). exact Ew.
  - intros sb'. unfold readSuperblock, readBytes. pose proof (ReadAt_sub d' partOff (blockSize sb) b2 0 512 Er ltac:(lia) ltac:(lia) ltac:(lia)) as R. rewrite Z.add_0_r in R. rewrite R. ostep.
    apply small_blocksize_refused; [by apply isbytes_slice|apply zlen_slice; lia|].
    assert (dec 4 (slice b2 0 512) 4 = dec 4 b2 4) as -> by (unfold dec; by rewrite slice_slice by lia).
    change 4 with (2 + 2) at 1. rewrite dec_app by lia. rewrite !(wrote_dec _ _ _ _ _ _ Ws) by lia. change (4 + 2) with 6. rewrite D4, D6. lia.
Qed.
(** The small image with a superblock sector, reflinking block 20. *)
Definition tiny_sector : bytes := bytesOf (
  b ← put32 (make_bytes 512) sbOffMagic magicSB; b ← put32 b sbOffBlockSize 512; b ← put64 b sbOffDBlocks 64;
  b ← put64 b sbOffRootIno 16; b ← put32 b sbOffAgBlocks 64; b ← put32 b sbOffAgCount 1; b ← put16 b sbOffVersionNum 5;
  b ← put16 b sbOffSectSize 512; b ← put16 b sbOffInodeSize 256; b ← put16 b sbOffInopBlock 2;
  b ← set_byte b sbOffInopBLog 1; b ← set_byte b sbOffAgBlkLog 6; put32 b sbOffFeatIncompat 1).
Definition no_refc_image : memdev := tiny_sector ++ drop 512 tiny_image.
Lemma refcount_root_zero_destroys_superblock_witness :
  (exists sb, readSuperblock no_refc_image 0 = Ret sb) /\
  exists d', refcountShareExtent 0 tiny_sb (agAbsBlock tiny_sb 0 20) 1 (initWorld no_refc_image) = (Ret tt, initWorld d') /\
    forall sb', readSuperblock d' 0 <> Ret sb'.
Proof.
  split; [eexists; vm_compute; reflexivity|].
  apply (refcount_root_zero_destroys_superblock tiny_sb 0 20 1 (initWorld no_refc_image) (tiny_agf 4 5 1 1 43 30) tiny_sector);
    [apply tiny_sb_width|apply tiny_sb_geometry|lia|cbn; lia|vm_compute; reflexivity|vm_compute; congruence|vm_compute; reflexivity|vm_compute; reflexivity|lia|lia|cbn; lia].
Defined.
