(* ===== verification/AllocGuard.v ===== *)
(** * Guarded traversals of the free-space trees (alloc.go)

    [cntFindBlock] and [agfRecomputeLongest] bound their steps and remember the blocks
    they visited, so they return on every image, forged trees included. *)
From S2P Require Import Prelude Bytes Crc Device Superblock SafeIO Inode FileRead Dir AgBlocks AllocTree AllocLeaf.

Lemma scan_post {B} (P : B -> Prop) n i (f : Z -> outcome (option B)) :
  (forall j, i <= j < i + Z.of_nat n -> post (fun o => forall b, o = Some b -> P b) (f j)) ->
  post (fun o => forall b, o = Some b -> P b) (scan n i f).
Proof.
  revert i. induction n as [|n IH]; intros i H; cbn [scan]; [done|].
  eapply post_bind; [apply H; lia|]. intros [b|] _ Hb; [done|]. apply IH. intros j Hj. apply H. lia.
Qed.

Section Guarded.
Context {SIO : SafeIO} {SL : SafeIOLaws SIO} {D : Type} {Dev : Device D} {DL : DeviceLaws D}.
Context (r : D) (partOff : Z) (sb : superblock) (W : sb_width sb) (G : geometry_ok sb)
        (Hp : 0 <= partOff < 2 ^ 63).

(** A leaf record that lies in its block and has [need] blocks. *)
Definition hit (need : Z) (res : Z * bytes * Z) : Prop :=
  let '(_, blk, i) := res in
  let off := agBTreeHdrSize sb + i * allocRecSize in
  0 <= i /\ off + 8 <= zlen blk /\ need <= dec 4 blk (off + 4).

Lemma leafFind_post blk n need :
  post (fun o => forall i, o = Some (Some i) -> hit need (0, blk, i)) (leafFind sb blk n need).
Proof.
  unfold leafFind. pose proof (hdr_pos sb).
  eapply post_mono; [apply (scan_post (fun o => forall i, o = Some i -> hit need (0, blk, i)))|].
  - intros j Hj. case_match eqn:E; [cbn; by intros b [= <-]|]. bsplit. unfold allocRecSize in *.
    rewrite be_get_ok by lia. ostep. cbn [post]. intros o Ho i ->. case_match eqn:E2; [|done]. bsplit.
    injection Ho as <-. unfold hit, allocRecSize. lia.
  - intros o _ H1 i ->. by apply (H1 (Some i)).
Qed.
Lemma cntFindLoop_post fuel ag need g seen lvl rel :
  0 <= budget g < Z.of_nat fuel -> post (hit need) (cntFindLoop partOff sb fuel r ag need g seen lvl rel).
Proof.
  revert g seen lvl rel. induction fuel as [|fuel IH]; intros g seen lvl rel Hf; cbn [cntFindLoop]; [lia|].
  destruct (Next_cases g) as [(g' & Hg & -> & Hg')| ->]; ostep; [|done].
  pstep Check_safe as seen' _ _. pstep (readRawBlock_post r partOff sb W G Hp) as blk _ [L Hb].
  pose proof (bs_range sb G). pose proof (hdr_pos sb).
  pstep post_failif as _ _ _. rewrite !be_get_ok by lia. ostep.
  case_match.
  - pstep leafFind_post as o _ Ho. destruct o as [[i|]|]; [by apply Ho|..];
      (ostep; case_match; [done|]; apply IH; lia).
  - pstep post_failif as _ _ _. pstep post_failif as _ _ H3. pstep post_failif as _ _ H4. bsplit.
    rewrite be_get_ok by lia. ostep. apply IH. lia.
Qed.
Lemma longestDescend_safe fuel ag g seen lvl rel :
  0 <= budget g < Z.of_nat fuel -> safe (longestDescend partOff sb fuel r ag g seen lvl rel).
Proof.
  revert g seen lvl rel. induction fuel as [|fuel IH]; intros g seen lvl rel Hf; cbn [longestDescend]; [lia|].
  case_match; [done|].
  destruct (Next_cases g) as [(g' & Hg & -> & Hg')| ->]; ostep; [|done].
  pstep Check_safe as seen' _ _. pstep (readRawBlock_post r partOff sb W G Hp) as blk _ [L Hb].
  pstep post_failif as _ _ _. pstep post_failif as _ _ H4. unfold allocPtrSize in H4. bsplit.
  rewrite be_get_ok by lia. ostep. apply IH. lia.
Qed.
Lemma maxCount_post blk n i m :
  isbytes blk -> 0 <= i -> 0 <= m < 2 ^ 32 -> post (fun m' => m <= m' < 2 ^ 32) (maxCount sb n blk i m).
Proof.
  intros Hb. pose proof (hdr_pos sb). revert i m. induction n as [|n IH]; intros i m Hi Hm; cbn [maxCount]; [cbn; lia|].
  case_match eqn:E; [cbn; lia|]. bsplit. unfold allocRecSize in *. rewrite be_get_ok by lia. ostep.
  pose proof (dec_range 4 blk (agBTreeHdrSize sb + i * 8 + 4) Hb ltac:(lia) ltac:(lia) ltac:(lia)).
  eapply post_mono; [apply IH; [lia|case_match; lia]|]. intros m' _ Hm'. cbv beta in Hm'. destruct (_ <? _) eqn:E2; bsplit; lia.
Qed.
Lemma longestWalk_post fuel ag g seen m rel :
  0 <= budget g < Z.of_nat fuel -> 0 <= m < 2 ^ 32 ->
  post (fun m' => m <= m' < 2 ^ 32) (longestWalk partOff sb fuel r ag g seen m rel).
Proof.
  revert g seen m rel. induction fuel as [|fuel IH]; intros g seen m rel Hf Hm; cbn [longestWalk]; [lia|].
  destruct (Next_cases g) as [(g' & Hg & -> & Hg')| ->]; ostep; [|done].
  pstep Check_safe as seen' _ _. pstep (readRawBlock_post r partOff sb W G Hp) as blk _ [L Hb].
  pose proof (bs_range sb G).
  pstep post_failif as _ _ _. rewrite !be_get_ok by lia. ostep. pstep maxCount_post as m' _ Hm'.
  ostep. case_match; [done|].
  eapply post_mono; [apply IH; lia|]. cbv beta. intros; lia.
Qed.
Lemma steps_budget : 0 <= budget (NewLoopGuard allocBTreeMaxSteps) < Z.of_nat stepsFuel.
Proof. rewrite budget_new. unfold stepsFuel, allocBTreeMaxSteps. lia. Qed.
End Guarded.

(** C31 (termination).  On any image, with any AG, root and level, [cntFindBlock] returns or
    reports an error within its step bound; a record it returns lies inside its block
    and holds at least the blocks asked for.  [agfRecomputeLongest] likewise returns a
    32-bit count or an error.  Neither panics nor loops. *)
Theorem alloc_traversals_terminate {SIO : SafeIO} {SL : SafeIOLaws SIO} {D} {Dev : Device D} {DL : DeviceLaws D}
    (r : D) (partOff : Z) (sb : superblock) (ag rootRel level need : Z) :
  sb_width sb -> geometry_ok sb -> 0 <= partOff < 2 ^ 63 ->
  post (hit sb need) (cntFindBlock partOff sb r ag rootRel need) /\
  post (fun m => 0 <= m < 2 ^ 32) (agfRecomputeLongest partOff sb r ag rootRel level).
Proof.
  intros W G Hp. split; [apply cntFindLoop_post; [exact W|exact G|exact Hp|apply steps_budget]|].
  unfold agfRecomputeLongest. eapply post_bind.
  - apply longestDescend_safe; [exact W|exact G|exact Hp|apply steps_budget].
  - intros leaf _ _. apply longestWalk_post; [exact W|exact G|exact Hp|apply steps_budget|lia].
Qed.
(** A forged cnt leaf whose right sibling is itself. *)
Definition loop_image : memdev := make_bytes (4096 * 5) ++ bytesOf (
  b ← newAllocBlock sample_sb 0 5 0 0 0x41423343; put32 b 12 5) ++ make_bytes 4096.
Lemma alloc_traversals_terminate_witness :
  post (hit sample_sb 1) (cntFindBlock 0 sample_sb loop_image 0 5 1) /\
  post (fun m => 0 <= m < 2 ^ 32) (agfRecomputeLongest 0 sample_sb loop_image 0 5 1).
Proof.
  apply (alloc_traversals_terminate loop_image 0 sample_sb 0 5 1 1 sample_sb_width sample_sb_geometry). lia.
Defined.
