(* ===== verification/InodeAlloc.v ===== *)
(** * Inode allocation (alloc.go)

    The inobt: searches, allocation and release of an inode in a chunk's bitmap, growth
    by a fresh 64-inode chunk with leaf and node splits.  [tfuel] bounds the unguarded
    descents, [ofuel] the nested block allocations; [now slot] is the clock reading
    when slot [slot] of a new chunk is initialised. *)
From S2P Require Import Prelude Bytes Crc Device Superblock SafeIO Inode FileRead Dir AgBlocks AllocTree Alloc AllocLeaf.

(** [bits64]: [for v != 0]; a uint64 is 0 after 64 shifts. *)
Fixpoint bitsLoop (n : nat) (v acc : Z) : Z :=
  match n with
  | O => acc
  | S n' => if v =? 0 then acc else bitsLoop n' (Z.shiftr v 1) (acc + Z.land v 1)
  end.
Definition bits64 (v : Z) : Z := bitsLoop 64 v 0.
(** [for bit = 0; bit < 64; bit++ { if (irFree>>bit)&1 == 1 { break } }] *)
Fixpoint firstBit (n : nat) (v bit : Z) : Z :=
  match n with
  | O => bit
  | S n' => if Z.land (Z.shiftr v bit) 1 =? 1 then bit else firstBit n' v (bit + 1)
  end.

(** [None]: absorbed; [Some (rightKey, rightRel)]: the block split. *)
Definition inobtSplit : Type := option (Z * Z).

(** Write keys [ks] and pointers [ps] of an interior inobt node. *)
Fixpoint putKeys4 (blk : bytes) (kOff pOff : Z) (ks ps : list Z) : outcome bytes :=
  match ks, ps with
  | k :: ks', p :: ps' =>
      b ← put32 blk kOff k;
      b ← put32 b pOff p;
      putKeys4 b (kOff + inobtKeySize) (pOff + inobtPtrSize) ks' ps'
  | _, _ => Ret blk
  end.
Fixpoint read32s (k : nat) (blk : bytes) (off : Z) : outcome (list Z) :=
  match k with
  | O => Ret []
  | S k' => p ← be32 blk off; rest ← read32s k' blk (off + 4); Ret (p :: rest)
  end.

Section Inobt.
Context {SIO : SafeIO} {D : Type} {Dev : Device D}.
Variables (partOff : Z) (sb : superblock) (tfuel ofuel : nat) (now : Z -> Z * Z).
Let W := World D.
Let hdrSize := agBTreeHdrSize sb.
Let blockAlloc (ag n : Z) : M W Z := allocBlocks partOff sb tfuel ofuel ag n.
Let blockFree (abs n : Z) : M W unit := freeBlocks partOff sb tfuel ofuel abs n.

(** ** Searches *)
Fixpoint inobtFindFree (fuel : nat) (r : D) (ag agRel : Z) : outcome (Z * bytes * Z) :=
  match fuel with
  | O => NoFuel
  | S fuel' =>
      blk ← readAGBlock partOff sb r ag agRel;
      lvl ← be16 blk 4;
      numrecs ← be16 blk 6;
      if lvl =? 0 then
        found ← scan (Z.to_nat numrecs) 0 (fun i =>
          fc ← be32 blk (hdrSize + i * inobtRecSize + 4);
          Ret (if 0 <? fc then Some i else None));
        match found with
        | Some i => Ret (agRel, blk, i)
        | None =>
            rsib ← be32 blk 12;
            if rsib =? nullAgb then Fail ErrInobtFull
            else inobtFindFree fuel' r ag rsib
        end
      else
        agRel ← be32 blk (hdrSize + inobtMaxInternal (zlen blk) hdrSize * inobtKeySize);
        inobtFindFree fuel' r ag agRel
  end.

(** The last child whose key is at most [ino]. *)
Fixpoint inobtChild (n : nat) (blk : bytes) (ino i child : Z) : outcome Z :=
  match n with
  | O => Ret child
  | S n' =>
      k ← be32 blk (hdrSize + i * inobtKeySize);
      if k <=? ino then inobtChild n' blk ino (i + 1) i else Ret child
  end.
Fixpoint inobtFindRecord (fuel : nat) (r : D) (ag agRel agRelIno : Z) : outcome (Z * bytes * Z) :=
  match fuel with
  | O => NoFuel
  | S fuel' =>
      blk ← readAGBlock partOff sb r ag agRel;
      lvl ← be16 blk 4;
      numrecs ← be16 blk 6;
      if lvl =? 0 then
        found ← scan (Z.to_nat numrecs) 0 (fun i =>
          startIno ← be32 blk (hdrSize + i * inobtRecSize);
          Ret (if (startIno <=? agRelIno) && (agRelIno <? u32 (startIno + 64)) then Some i else None));
        match found with
        | Some i => Ret (agRel, blk, i)
        | None => Fail (Errorf "inobt: inode not found")
        end
      else
        child ← inobtChild (Z.to_nat numrecs) blk agRelIno 0 0;
        agRel ← be32 blk (hdrSize + inobtMaxInternal (zlen blk) hdrSize * inobtKeySize + child * inobtPtrSize);
        inobtFindRecord fuel' r ag agRel agRelIno
  end.

(** ** Chunk insertion *)
(** The insertion slot; a duplicate is an error. *)
Definition inobtSlot (blk : bytes) (numrecs startIno : Z) : outcome Z :=
  found ← scan (Z.to_nat numrecs) 0 (fun i =>
    existing ← be32 blk (hdrSize + i * inobtRecSize);
    if startIno <? existing then Ret (Some i)
    else if startIno =? existing then Fail (Errorf "growInobt: inobt already has a record")
    else Ret None);
  Ret (match found with Some i => i | None => numrecs end).

Definition inobtSplitLeaf (ag selfRel : Z) (leaf : bytes) (insertAt : Z) (rec : bytes) : M W inobtSplit :=
  numrecs ← lift (be16 leaf 6);
  let total := numrecs + 1 in
  old ← lift (readSlots (Z.to_nat numrecs) leaf hdrSize inobtRecSize);
  let recs := insertAtZ old insertAt (take (Z.to_nat inobtRecSize) rec) in
  let half := Z.quot total 2 in
  rightAbs ← blockAlloc ag 1;
  let rightRel := (fsbToAgAgbno sb rightAbs).2 in
  oldRight ← lift (be32 leaf 12);
  left ← lift (put32 leaf 12 rightRel);
  left ← lift (put16 left 6 (u16 half));
  left ← lift (putSlots left hdrSize inobtRecSize (take (Z.to_nat half) recs));
  left ← lift (clearSlots (Z.to_nat (numrecs - half)) left (hdrSize + half * inobtRecSize) inobtRecSize);
  writeTree partOff sb ag selfRel left;;
  right ← lift (newInobtBlock sb ag rightRel 0 (total - half));
  right ← lift (put32 right 8 selfRel);
  right ← lift (put32 right 12 oldRight);
  right ← lift (putSlots right hdrSize inobtRecSize (drop (Z.to_nat half) recs));
  writeTree partOff sb ag rightRel right;;
  stitchRight partOff sb ag oldRight rightRel;;
  match drop (Z.to_nat half) recs with
  | rec :: _ => key ← lift (be32 rec 0); mret (Some (key, rightRel))
  | [] => lift Panic
  end.

Definition inobtSplitNode (ag selfRel : Z) (node : bytes) (insertAt newKey newPtr : Z) : M W inobtSplit :=
  numrecs ← lift (be16 node 6);
  let ptrBase := hdrSize + inobtMaxInternal (zlen node) hdrSize * inobtKeySize in
  let total := numrecs + 1 in
  ks ← lift (read32s (Z.to_nat numrecs) node hdrSize);
  ps ← lift (read32s (Z.to_nat numrecs) node ptrBase);
  let keys := insertAtZ ks insertAt newKey in
  let ptrs := insertAtZ ps insertAt newPtr in
  let half := Z.quot total 2 in
  rightAbs ← blockAlloc ag 1;
  let rightRel := (fsbToAgAgbno sb rightAbs).2 in
  oldRight ← lift (be32 node 12);
  blockLevel ← lift (be16 node 4);
  left ← lift (put32 node 12 rightRel);
  left ← lift (put16 left 6 (u16 half));
  let h := Z.to_nat half in
  left ← lift (putKeys4 left hdrSize ptrBase (take h keys) (take h ptrs));
  let gap := Z.to_nat (numrecs - half) in
  left ← lift (putKeys4 left (hdrSize + half * inobtKeySize) (ptrBase + half * inobtPtrSize)
                 (replicate gap 0) (replicate gap 0));
  writeTree partOff sb ag selfRel left;;
  right ← lift (newInobtBlock sb ag rightRel blockLevel (total - half));
  right ← lift (put32 right 8 selfRel);
  right ← lift (put32 right 12 oldRight);
  right ← lift (putKeys4 right hdrSize ptrBase (drop h keys) (drop h ptrs));
  writeTree partOff sb ag rightRel right;;
  stitchRight partOff sb ag oldRight rightRel;;
  match drop h keys with
  | key :: _ => mret (Some (key, rightRel))
  | [] => lift Panic
  end.

Fixpoint inobtInsertInto (fuel : nat) (ag selfRel startIno : Z) (rec : bytes) : M W inobtSplit :=
  match fuel with
  | O => lift NoFuel
  | S fuel' =>
      blk ← readAG partOff sb ag selfRel;
      lvl ← lift (be16 blk 4);
      numrecs ← lift (be16 blk 6);
      if lvl =? 0 then
        let maxRecs := Z.quot (zlen blk - hdrSize) inobtRecSize in
        insertAt ← lift (inobtSlot blk numrecs startIno);
        if numrecs <? maxRecs then
          let insertOff := hdrSize + insertAt * inobtRecSize in
          blk ← lift (copyWithin blk (insertOff + inobtRecSize) insertOff (hdrSize + numrecs * inobtRecSize));
          blk ← lift (copy_to blk insertOff rec);
          blk ← lift (put16 blk 6 (u16 (numrecs + 1)));
          writeTree partOff sb ag selfRel blk;;
          mret None
        else inobtSplitLeaf ag selfRel blk insertAt rec
      else
        child ← lift (inobtChild (Z.to_nat numrecs) blk startIno 0 0);
        let maxInternal := inobtMaxInternal (zlen blk) hdrSize in
        let ptrBase := hdrSize + maxInternal * inobtKeySize in
        childRel ← lift (be32 blk (ptrBase + child * inobtPtrSize));
        res ← inobtInsertInto fuel' ag childRel startIno rec;
        match res with
        | None => mret None
        | Some (rightKey, rightRel) =>
            let insertAt := child + 1 in
            if numrecs <? maxInternal then
              blk ← lift (copyWithin blk (hdrSize + (insertAt + 1) * inobtKeySize) (hdrSize + insertAt * inobtKeySize) (hdrSize + numrecs * inobtKeySize));
              blk ← lift (put32 blk (hdrSize + insertAt * inobtKeySize) rightKey);
              blk ← lift (copyWithin blk (ptrBase + (insertAt + 1) * inobtPtrSize) (ptrBase + insertAt * inobtPtrSize) (ptrBase + numrecs * inobtPtrSize));
              blk ← lift (put32 blk (ptrBase + insertAt * inobtPtrSize) rightRel);
              blk ← lift (put16 blk 6 (u16 (numrecs + 1)));
              writeTree partOff sb ag selfRel blk;;
              mret None
            else inobtSplitNode ag selfRel blk insertAt rightKey rightRel
        end
  end.

(** Returns the AGI buffer, with a new root and level after a root split. *)
Definition inobtInsertChunkRecord (ag : Z) (agiBuf : bytes) (rootRel rootLevel startIno : Z) : M W bytes :=
  let rec := be_encode 4 startIno ++ be_encode 4 inobtChunkInodes ++ be_encode 8 0xFFFFFFFFFFFFFFFF in
  res ← inobtInsertInto tfuel ag rootRel startIno rec;
  match res with
  | None => mret agiBuf
  | Some (rightKey, rightRel) =>
      newRootAbs ← blockAlloc ag 1;
      let newRootRel := (fsbToAgAgbno sb newRootAbs).2 in
      oldRoot ← readAG partOff sb ag rootRel;
      oldBlockLevel ← lift (be16 oldRoot 4);
      root ← lift (newInobtBlock sb ag newRootRel (oldBlockLevel + 1) 2);
      leftKey ← lift (be32 oldRoot hdrSize);
      root ← lift (put32 root hdrSize leftKey);
      root ← lift (put32 root (hdrSize + inobtKeySize) rightKey);
      let ptrBase := hdrSize + inobtMaxInternal (zlen root) hdrSize * inobtKeySize in
      root ← lift (put32 root ptrBase rootRel);
      root ← lift (put32 root (ptrBase + inobtPtrSize) rightRel);
      writeTree partOff sb ag newRootRel root;;
      agiBuf ← lift (put32 agiBuf agiOffRoot newRootRel);
      lift (put32 agiBuf agiOffLevel (u32 (rootLevel + 1)))
  end.

(** ** Growth *)
(** An aligned run of [bpc] blocks: its packed start and AG-relative base. *)
Definition chunkRun (ag bpc : Z) : M W (Z * Z) :=
  probeStart ← blockAlloc ag bpc;
  let probeBase := (fsbToAgAgbno sb probeStart).2 in
  if probeBase mod bpc =? 0 then mret (probeStart, probeBase)
  else
    blockFree probeStart bpc;;
    let wantBlocks := 2 * bpc - 1 in
    rawStart ← blockAlloc ag wantBlocks;
    let rawBase := (fsbToAgAgbno sb rawStart).2 in
    let alignedBase := u32 (u32 (rawBase + bpc - 1) / bpc * bpc) in
    let headSlack := u32 (alignedBase - rawBase) in
    let absStart := u64 (rawStart + headSlack) in
    let tailSlack := u32 (wantBlocks - headSlack - bpc) in
    (if 0 <? headSlack then blockFree rawStart headSlack else mret tt);;
    (if 0 <? tailSlack then blockFree (u64 (absStart + bpc)) tailSlack else mret tt);;
    mret (absStart, alignedBase).

(** Initialise and write slot [slot] of the chunk at [absStart]. *)
Definition initChunkSlot (ag absStart startIno slot : Z) : M W unit :=
  let ino := inoFromAGRel sb ag (u32 (startIno + slot)) in
  buf ← lift (initInodeV3 (now slot) (make_bytes (inodeSize sb)) ino 0 0 (uuid sb));
  buf ← lift (set_byte buf inoOffFormat inodeFmtExtents);
  buf ← lift (if hasCRC sb then updateCRC buf inoOffCRC (inodeSize sb) else Ret buf);
  let blockIdx := slot / inopBlock sb in
  let slotInBlock := slot mod inopBlock sb in
  writeAt buf (i64 (i64 (partOff + i64 (i64 (u64 (absStart + blockIdx)) * blockSize sb)) + i64 (slotInBlock * inodeSize sb))).

Definition growInobt (ag : Z) : M W unit :=
  if (inopBlock sb =? 0) || (inobtChunkInodes <? inopBlock sb) then failM (Errorf "growInobt: invalid inopBlock")
  else
    run ← chunkRun ag (inobtChunkInodes / inopBlock sb);
    let '(absStart, agBlockBase) := run in
    let startIno := u32 (agBlockBase * inopBlock sb) in
    for_accM (Z.to_nat inobtChunkInodes) 0 tt (fun slot _ => initChunkSlot ag absStart startIno slot);;
    agiBuf ← readD (fun r => agiBlock partOff sb r ag);
    inobtRoot ← lift (be32 agiBuf agiOffRoot);
    inobtLevel ← lift (be32 agiBuf agiOffLevel);
    agiBuf ← inobtInsertChunkRecord ag agiBuf inobtRoot inobtLevel startIno;
    agiCount ← lift (be32 agiBuf agiOffCount);
    agiFree ← lift (be32 agiBuf agiOffFreeCount);
    agiBuf ← lift (put32 agiBuf agiOffCount (u32 (agiCount + inobtChunkInodes)));
    agiBuf ← lift (put32 agiBuf agiOffFreeCount (u32 (agiFree + inobtChunkInodes)));
    writeAGI partOff sb ag agiBuf.

(** ** Allocating and freeing an inode *)
(** The record edit of [allocInode]: the new leaf and the AG-relative inode. *)
Definition takeInode (leaf : bytes) (recIdx : Z) : outcome (bytes * Z) :=
  let recOff := hdrSize + recIdx * inobtRecSize in
  startIno ← be32 leaf recOff;
  irFree ← be64 leaf (recOff + 8);
  failif (bits64 irFree =? 0) (Errorf "inobt record has no free inodes");;
  let bit := firstBit 64 irFree 0 in
  leaf ← put64 leaf (recOff + 8) (Z.ldiff irFree (shl64 1 bit));
  fc ← be32 leaf (recOff + 4);
  leaf ← put32 leaf (recOff + 4) (u32 (fc - 1));
  Ret (leaf, u32 (startIno + bit)).

Definition readAGI (ag : Z) : M W bytes := readD (fun r => agiBlock partOff sb r ag).
Definition findFree (ag : Z) (agiBuf : bytes) : M W (Z * bytes * Z) :=
  inobtRoot ← lift (be32 agiBuf agiOffRoot);
  _ ← lift (be32 agiBuf agiOffLevel);
  readD (fun r => inobtFindFree tfuel r ag inobtRoot).

Definition allocInode (ag : Z) : M W Z :=
  agiBuf ← readAGI ag;
  st ← catchM (findFree ag agiBuf) (fun f => mret (agiBuf, f))
         (fun err => if bool_decide (err = ErrInobtFull) then
                       growInobt ag;;
                       agiBuf ← readAGI ag;
                       f ← findFree ag agiBuf;
                       mret (agiBuf, f)
                     else failM err);
  let '(agiBuf, (leafRel, leaf, recIdx)) := st in
  x ← lift (takeInode leaf recIdx);
  let '(leaf, agRelIno) := x in
  writeTree partOff sb ag leafRel leaf;;
  fc2 ← lift (be32 agiBuf agiOffFreeCount);
  agiBuf ← lift (put32 agiBuf agiOffFreeCount (u32 (fc2 - 1)));
  agiBuf ← lift (put32 agiBuf agiOffNewIno agRelIno);
  writeAGI partOff sb ag agiBuf;;
  mret (inoFromAGRel sb ag agRelIno).

(** The record edit of [freeInode]. *)
Definition returnInode (leaf : bytes) (recIdx agRel : Z) : outcome bytes :=
  let recOff := hdrSize + recIdx * inobtRecSize in
  startIno ← be32 leaf recOff;
  let bit := u32 (agRel - startIno) in
  irFree ← be64 leaf (recOff + 8);
  leaf ← put64 leaf (recOff + 8) (Z.lor irFree (shl64 1 bit));
  fc ← be32 leaf (recOff + 4);
  put32 leaf (recOff + 4) (u32 (fc + 1)).

Definition freeInode (ino : Z) : M W unit :=
  let ag := inoAG sb ino in
  let agRel := inoAGRel sb ino in
  agiBuf ← readAGI ag;
  inobtRoot ← lift (be32 agiBuf agiOffRoot);
  _ ← lift (be32 agiBuf agiOffLevel);
  f ← readD (fun r => inobtFindRecord tfuel r ag inobtRoot agRel);
  let '(leafRel, leaf, recIdx) := f in
  leaf ← lift (returnInode leaf recIdx agRel);
  writeTree partOff sb ag leafRel leaf;;
  freeCount ← lift (be32 agiBuf agiOffFreeCount);
  agiBuf ← lift (put32 agiBuf agiOffFreeCount (u32 (freeCount + 1)));
  writeAGI partOff sb ag agiBuf.
End Inobt.
