(* ===== verification/InodeSpec.v ===== *)
(** * Inode allocation on the image (alloc.go [allocInode], [freeInode])

    An inobt leaf seen as its chunk records (start, free count, bitmap).  The theorems
    describe [allocInode] and [freeInode] on an AG whose inobt is a single leaf. *)
From S2P Require Import Prelude Bytes Crc Device Superblock SafeIO Inode FileRead Dir AgBlocks Zones AllocTree Alloc AllocLeaf AllocSpec InodeAlloc.

(** ** Bitmaps *)
Lemma land_1 v : Z.land v 1 = Z.b2z (Z.odd v).
Proof. change 1 with (Z.ones 1). rewrite Z.land_ones by lia. change (2 ^ 1) with 2. rewrite Zmod_odd. by destruct (Z.odd v). Qed.
Lemma bit_test v b : 0 <= b -> (Z.land (Z.shiftr v b) 1 =? 1) = Z.testbit v b.
Proof. intros. rewrite land_1, Z.testbit_odd. by destruct (Z.odd _). Qed.

Lemma bitsLoop_popcount n v acc : 0 <= v -> bitsLoop n v acc = acc + popcount n v.
Proof.
  revert v acc. induction n as [|n IH]; intros v acc Hv; cbn [bitsLoop popcount]; [lia|].
  destruct (Z.eqb_spec v 0) as [->|].
  - rewrite Z.shiftr_0_l. assert (popcount n 0 = 0) as -> by (apply popcount_0; [lia|done]). cbn. lia.
  - rewrite IH by (by apply Z.shiftr_nonneg). rewrite land_1. lia.
Qed.
Lemma bits64_zero v : 0 <= v < 2 ^ 64 -> (bits64 v =? 0) = (v =? 0).
Proof.
  intros Hv. unfold bits64. rewrite bitsLoop_popcount by lia. apply eq_true_iff_eq. rewrite !Z.eqb_eq.
  rewrite Z.add_0_l. by apply (popcount_0 64).
Qed.

Lemma firstBit_spec n v b m :
  0 <= b -> b <= m < b + Z.of_nat n -> Z.testbit v m = true ->
  b <= firstBit n v b <= m /\ Z.testbit v (firstBit n v b) = true /\
  forall j, b <= j < firstBit n v b -> Z.testbit v j = false.
Proof.
  revert b. induction n as [|n IH]; intros b Hb Hm Ht; cbn [firstBit]; [lia|].
  rewrite bit_test by lia. destruct (Z.testbit v b) eqn:E; [split_and!; (done || lia)|].
  assert (b <> m) by congruence. destruct (IH (b + 1)) as (? & ? & Hl); [lia|lia|done|].
  split_and!; [lia|lia|done|]. intros j Hj. destruct (Z.eq_dec j b) as [->|]; [done|]. apply Hl. lia.
Qed.
Lemma first_free v :
  0 <= v < 2 ^ 64 -> v <> 0 ->
  let b := firstBit 64 v 0 in
  0 <= b < 64 /\ Z.testbit v b = true /\ forall j, 0 <= j < b -> Z.testbit v j = false.
Proof.
  intros Hv Hn b. assert (Z.log2 v < 64) by (apply Z.log2_lt_pow2; lia). pose proof (Z.log2_nonneg v).
  destruct (firstBit_spec 64 v 0 (Z.log2 v)) as (? & ? & ?); [lia|lia|apply Z.bit_log2; lia|].
  unfold b. split_and!; [lia|lia|done|done].
Qed.
Lemma shl64_bit b : 0 <= b < 64 -> shl64 1 b = 2 ^ b.
Proof.
  intros. unfold shl64. rewrite Z.shiftl_mul_pow2, Z.mul_1_l by lia. apply u64_small.
  split; [apply Z.pow_nonneg; lia|]. apply Z.pow_lt_mono_r; lia.
Qed.
Lemma clear_range64 v b : 0 <= v < 2 ^ 64 -> 0 <= b -> 0 <= Z.ldiff v (2 ^ b) < 2 ^ 64.
Proof.
  intros Hv Hb. split; [apply Z.ldiff_nonneg; lia|]. assert (Z.ldiff v (2 ^ b) <= v); [|lia].
  apply Z.ldiff_le; [lia|]. rewrite Z.ldiff_ldiff_l, Z.lor_comm, <- Z.ldiff_ldiff_l, Z.ldiff_diag. apply Z.ldiff_0_l.
Qed.
Lemma set_clear v b : 0 <= b -> Z.testbit v b = true -> Z.lor (Z.ldiff v (2 ^ b)) (2 ^ b) = v.
Proof.
  intros Hb Ht. apply Z.bits_inj'. intros i Hi. rewrite Z.lor_spec, Z.ldiff_spec, Z.pow2_bits_eqb by lia.
  destruct (Z.eqb_spec b i) as [<-|]; [by rewrite Ht|]. by rewrite orb_false_r, andb_true_r.
Qed.

Lemma u32_pred_succ f : 0 <= f < 2 ^ 32 -> u32 (u32 (f - 1) + 1) = f.
Proof. intros. unfold u32. rewrite Zplus_mod_idemp_l, Z.mod_small; lia. Qed.

(** ** Chunk records *)
Record chunk := mkChunk { cstart : Z; cfree : Z; cmap : Z }.
Section Leaf.
Context (sb : superblock).
Definition chunkOff (i : Z) : Z := agBTreeHdrSize sb + i * inobtRecSize.
Definition chunkAt (b : bytes) (i : Z) : chunk :=
  mkChunk (dec 4 b (chunkOff i)) (dec 4 b (chunkOff i + 4)) (dec 8 b (chunkOff i + 8)).

Lemma chunk_wrote b b' lo hi i :
  wrote b b' lo hi -> 0 <= i -> hi <= chunkOff i \/ chunkOff i + 16 <= lo -> chunkAt b' i = chunkAt b i.
Proof.
  intros Wr Hi Hd. pose proof (hdr_pos sb). unfold chunkAt. unfold chunkOff, inobtRecSize in *.
  rewrite !(wrote_dec _ _ _ _ _ _ Wr) by lia. done.
Qed.

Context (leaf : bytes) (i : Z) (Hb : isbytes leaf) (Hi : 0 <= i) (Hin : chunkOff i + 16 <= zlen leaf).
Let c := chunkAt leaf i.

Lemma chunk_ranges : 0 <= cstart c < 2 ^ 32 /\ 0 <= cfree c < 2 ^ 32 /\ 0 <= cmap c < 2 ^ 64.
Proof.
  pose proof (hdr_pos sb). unfold c, chunkAt, chunkOff, inobtRecSize in *. cbn [cstart cfree cmap].
  split_and!; apply dec_range; (done || lia).
Qed.
Lemma takeInode_spec :
  cmap c <> 0 -> cstart c + 64 <= 2 ^ 32 ->
  let b := firstBit 64 (cmap c) 0 in
  exists leaf', takeInode sb leaf i = Ret (leaf', cstart c + b) /\
    wrote leaf leaf' (chunkOff i + 4) (chunkOff i + 16) /\
    chunkAt leaf' i = mkChunk (cstart c) (u32 (cfree c - 1)) (Z.ldiff (cmap c) (2 ^ b)).
Proof.
  intros Hm Hs b. destruct chunk_ranges as (R1 & R2 & R3). destruct (first_free _ R3 Hm) as (Rb & _ & _). fold b in Rb.
  pose proof (hdr_pos sb). assert (16 <= chunkOff i) by (unfold chunkOff, inobtRecSize; lia).
  unfold takeInode. fold (chunkOff i). rewrite (be_get_ok 4 leaf (chunkOff i)), (be_get_ok 8 leaf) by lia. ostep.
  change (dec 8 leaf (chunkOff i + 8)) with (cmap c). change (dec 4 leaf (chunkOff i)) with (cstart c).
  rewrite bits64_zero, (proj2 (Z.eqb_neq _ _) Hm) by done. ostep. fold b. rewrite shl64_bit by done.
  destruct (put_spec 8 leaf (chunkOff i + 8) (Z.ldiff (cmap c) (2 ^ b))) as (l1 & E1 & W1 & D1); [lia..|].
  rewrite E1. ostep. pose proof (wrote_len _ _ _ _ W1). rewrite (be_get_ok 4 l1) by lia. ostep.
  rewrite (wrote_dec _ _ _ _ _ _ W1) by lia. change (dec 4 leaf (chunkOff i + 4)) with (cfree c).
  destruct (put_spec 4 l1 (chunkOff i + 4) (u32 (cfree c - 1))) as (l2 & E2 & W2 & D2); [lia..|]. rewrite E2. ostep.
  exists l2. rewrite u32_small by lia. split; [done|]. split.
  - eapply wrote_trans; (eapply wrote_weaken; [eassumption|lia..]).
  - unfold chunkAt. rewrite D2, !(wrote_dec _ _ _ _ _ _ W2), D1, (wrote_dec _ _ _ _ _ _ W1) by lia.
    change (256 ^ 4) with (2 ^ 32). change (256 ^ 8) with (2 ^ 64). f_equal.
    + apply Z.mod_small, u32_range.
    + apply Z.mod_small, clear_range64; [done|lia].
Qed.
Lemma returnInode_spec b :
  0 <= b < 64 -> cstart c + 64 <= 2 ^ 32 ->
  exists leaf', returnInode sb leaf i (cstart c + b) = Ret leaf' /\
    wrote leaf leaf' (chunkOff i + 4) (chunkOff i + 16) /\
    chunkAt leaf' i = mkChunk (cstart c) (u32 (cfree c + 1)) (u64 (Z.lor (cmap c) (2 ^ b))).
Proof.
  intros Rb Hs. destruct chunk_ranges as (R1 & R2 & R3).
  pose proof (hdr_pos sb). assert (16 <= chunkOff i) by (unfold chunkOff, inobtRecSize; lia).
  unfold returnInode. fold (chunkOff i). rewrite (be_get_ok 4 leaf (chunkOff i)), (be_get_ok 8 leaf) by lia. ostep.
  change (dec 8 leaf (chunkOff i + 8)) with (cmap c). change (dec 4 leaf (chunkOff i)) with (cstart c).
  replace (cstart c + b - cstart c) with b by lia. rewrite (u32_small b), shl64_bit by lia.
  destruct (put_spec 8 leaf (chunkOff i + 8) (Z.lor (cmap c) (2 ^ b))) as (l1 & E1 & W1 & D1); [lia..|].
  rewrite E1. ostep. pose proof (wrote_len _ _ _ _ W1). rewrite (be_get_ok 4 l1) by lia. ostep.
  rewrite (wrote_dec _ _ _ _ _ _ W1) by lia. change (dec 4 leaf (chunkOff i + 4)) with (cfree c).
  destruct (put_spec 4 l1 (chunkOff i + 4) (u32 (cfree c + 1))) as (l2 & E2 & W2 & D2); [lia..|]. rewrite E2.
  exists l2. split; [done|]. split.
  - eapply wrote_trans; (eapply wrote_weaken; [eassumption|lia..]).
  - unfold chunkAt. rewrite D2, !(wrote_dec _ _ _ _ _ _ W2), D1, (wrote_dec _ _ _ _ _ _ W1) by lia.
    change (256 ^ 4) with (2 ^ 32). f_equal. apply Z.mod_small, u32_range.
Qed.
End Leaf.

(** ** The AGI and a one-leaf inobt on the image *)
Record agi_zones (sb : superblock) (partOff ag rootRel lo : Z) : Prop := {
  iz_sect : 512 <= sectSize sb;
  iz_bs : 512 <= blockSize sb <= 65536;
  iz_lo : blockByteOffset partOff sb (agAbsBlock sb ag rootRel) = Ret lo;
  iz_apart : apartZ (agIByteOffset sb partOff ag) (sectSize sb) lo (blockSize sb)
}.
Record agi_view (sb : superblock) (agi : bytes) (rootRel : Z) : Prop := {
  gv_len : zlen agi = sectSize sb;
  gv_bytes : isbytes agi;
  gv_magic : dec 4 agi 0 = magicAGI;
  gv_root : dec 4 agi 20 = rootRel
}.
Record inobt_leaf (sb : superblock) (leaf : bytes) (n : Z) : Prop := {
  il_len : zlen leaf = blockSize sb;
  il_bytes : isbytes leaf;
  il_level : dec 2 leaf 4 = 0;
  il_num : dec 2 leaf 6 = n;
  il_rsib : dec 4 leaf 12 = nullAgb;
  il_fit : agBTreeHdrSize sb + n * inobtRecSize <= zlen leaf
}.
Record inobt_view {D} `{Device D} (sb : superblock) (partOff ag rootRel lo : Z) (d : D) (agi leaf : bytes) (n : Z) : Prop := {
  nv_agi : ReadAt d (agIByteOffset sb partOff ag) (sectSize sb) = Ret agi;
  nv_agiv : agi_view sb agi rootRel;
  nv_leaf : ReadAt d lo (blockSize sb) = Ret leaf;
  nv_leafv : inobt_leaf sb leaf n
}.
Arguments nv_agi {D _ sb partOff ag rootRel lo d agi leaf n}.
Arguments nv_agiv {D _ sb partOff ag rootRel lo d agi leaf n}.
Arguments nv_leaf {D _ sb partOff ag rootRel lo d agi leaf n}.
Arguments nv_leafv {D _ sb partOff ag rootRel lo d agi leaf n}.

(** The first of [0 .. n-1] with property [p]. *)
Definition firstIdx (p : Z -> bool) (n i : Z) : Prop :=
  0 <= i < n /\ p i = true /\ forall j, 0 <= j < i -> p j = false.
Lemma scan_first (f : Z -> outcome (option Z)) (p : Z -> bool) n i :
  (forall j, 0 <= j < n -> f j = Ret (if p j then Some j else None)) -> firstIdx p n i ->
  scan (Z.to_nat n) 0 f = Ret (Some i).
Proof.
  intros Hf (Hi & Hp & Hl).
  assert (forall m k, 0 <= k <= i -> k + Z.of_nat m = n -> scan m k f = Ret (Some i)) as G; [|apply G; lia].
  induction m as [|m IH]; intros k Hk Hm; [lia|]. cbn [scan]. rewrite Hf by lia. ostep.
  destruct (Z.eq_dec k i) as [->|]; [by rewrite Hp|]. rewrite Hl by lia. apply IH; lia.
Qed.

Section OnImage.
Context {SIO : SafeIO} {D : Type} {Dev : Device D} {DL : DeviceLaws D} {DR : DeviceReliable D}.
Context (sb : superblock) (partOff ag rootRel lo : Z) (Zn : agi_zones sb partOff ag rootRel lo).
Context (n : Z).
Abbreviation view := (inobt_view sb partOff ag rootRel lo).

Lemma chunk_in leaf i : inobt_leaf sb leaf n -> 0 <= i < n -> chunkOff sb i + 16 <= zlen leaf.
Proof. intros [_ _ _ _ _ F] Hi. unfold chunkOff, inobtRecSize in *. lia. Qed.
Lemma readAGI_view w agi leaf : view (dev w) agi leaf n -> readAGI partOff sb ag w = (Ret agi, w).
Proof.
  intros [E [L _ M _] _ _]. pose proof (iz_sect _ _ _ _ _ Zn).
  unfold readAGI, readD, agiBlock, readBytes. rewrite E. ostep. unfold agiOffMagic. rewrite be_get_ok by lia. ostep. by rewrite M.
Qed.
Lemma readLeaf_view d agi leaf : view d agi leaf n -> readAGBlock partOff sb d ag rootRel = Ret leaf.
Proof. intros [_ _ E _]. unfold readAGBlock, readRawBlock. by rewrite (iz_lo _ _ _ _ _ Zn). Qed.
Lemma agi_fields agi : agi_view sb agi rootRel ->
  be32 agi agiOffRoot = Ret rootRel /\ be32 agi agiOffLevel = Ret (dec 4 agi 24) /\
  be32 agi agiOffFreeCount = Ret (dec 4 agi 28).
Proof.
  intros [L _ _ R]. pose proof (iz_sect _ _ _ _ _ Zn). unfold agiOffRoot, agiOffLevel, agiOffFreeCount.
  rewrite !be_get_ok by lia. by rewrite R.
Qed.

(** Searches. *)
Lemma findFree_view t d agi leaf i :
  view d agi leaf n -> firstIdx (fun j => 0 <? cfree (chunkAt sb leaf j)) n i ->
  inobtFindFree partOff sb (S t) d ag rootRel = Ret (rootRel, leaf, i).
Proof.
  intros V Hi. pose proof (nv_leafv V) as Lf. pose proof Lf as [L B Lv N Rs F]. pose proof (iz_bs _ _ _ _ _ Zn).
  pose proof (hdr_pos sb). cbn [inobtFindFree]. rewrite (readLeaf_view d agi leaf V). ostep.
  rewrite (be_get_ok 2 leaf 4), (be_get_ok 2 leaf 6) by lia. ostep. rewrite Lv, N. change (0 =? 0) with true. cbv iota.
  rewrite (scan_first _ (fun j => 0 <? cfree (chunkAt sb leaf j)) n i); [done| |done].
  intros j Hj. pose proof (chunk_in leaf j Lf Hj). unfold chunkOff in *. rewrite be_get_ok by (unfold inobtRecSize in *; lia). done.
Qed.
Lemma findRecord_view t d agi leaf i ino :
  view d agi leaf n ->
  firstIdx (fun j => (cstart (chunkAt sb leaf j) <=? ino) && (ino <? u32 (cstart (chunkAt sb leaf j) + 64))) n i ->
  inobtFindRecord partOff sb (S t) d ag rootRel ino = Ret (rootRel, leaf, i).
Proof.
  intros V Hi. pose proof (nv_leafv V) as Lf. pose proof Lf as [L B Lv N Rs F]. pose proof (iz_bs _ _ _ _ _ Zn).
  pose proof (hdr_pos sb). cbn [inobtFindRecord]. rewrite (readLeaf_view d agi leaf V). ostep.
  rewrite (be_get_ok 2 leaf 4), (be_get_ok 2 leaf 6) by lia. ostep. rewrite Lv, N. change (0 =? 0) with true. cbv iota.
  rewrite (fun f E => scan_first f _ n i E Hi); [done|].
  intros j Hj. pose proof (chunk_in leaf j Lf Hj). unfold chunkOff in *. rewrite be_get_ok by (unfold inobtRecSize in *; lia). done.
Qed.

(** Writing the edited leaf and then the AGI. *)
Lemma write_back w agi leaf leaf1 agi1 i :
  view (dev w) agi leaf n -> 0 <= i < n ->
  wrote leaf leaf1 (chunkOff sb i + 4) (chunkOff sb i + 16) -> agi_view sb agi1 rootRel ->
  exists d1 d' agi' leaf',
    writeTree partOff sb ag rootRel leaf1 w = (Ret tt, set_dev d1 w) /\
    writeAGI partOff sb ag agi1 (set_dev d1 w) = (Ret tt, set_dev d' w) /\
    view d' agi' leaf' n /\ wrote leaf1 leaf' 52 (if hasCRC sb then 56 else 52) /\ wrote agi1 agi' 312 316 /\
    keeps [(agIByteOffset sb partOff ag, sectSize sb); (lo, blockSize sb)] (dev w) d'.
Proof.
  intros V Hi W1 Ag. pose proof (nv_leafv V) as Lf. pose proof Lf as [L B Lv N Rs F]. destruct Zn as [Hs Hbs Hlo Hap].
  pose proof (chunk_in leaf i Lf Hi). pose proof (hdr_pos sb). assert (16 <= chunkOff sb i) by (unfold chunkOff, inobtRecSize; lia).
  pose proof (wrote_len _ _ _ _ W1). assert (isbytes leaf1) as B1 by (by apply (wrote_bytes _ _ _ _ W1)).
  destruct (stamp_block sb leaf1 B1 ltac:(lia)) as (leaf' & E1 & W2). pose proof (wrote_len _ _ _ _ W2).
  destruct Ag as [La Ba Ma Ra]. destruct (stamp_sector sb agi1 312 Ba ltac:(lia) ltac:(lia) ltac:(lia)) as (agi' & E2 & W3).
  pose proof (wrote_len _ _ _ _ W3).
  destruct (write_zone w lo (blockSize sb) leaf leaf' (nv_leaf V) ltac:(lia) (wrote_bytes _ _ _ _ W2 B1)) as (d1 & Ew & Er & Fr).
  destruct (write_zone (set_dev d1 w) (agIByteOffset sb partOff ag) (sectSize sb) agi agi') as (d' & Ew' & Er' & Fr');
    [apply Fr; [lia|done|exact (nv_agi V)]|lia|by apply (wrote_bytes _ _ _ _ W3)|].
  exists d1, d', agi', leaf'. split; [|split; [|split; [|split_and!; [done|done|]]]].
  - unfold writeTree, writeAGBTree, writeRawBlock. rewrite (bindM_lift _ _ _ _ E1), (raw_offset _ _ _ _ _ Hlo). exact Ew.
  - unfold writeAGI, agiOffCRC. rewrite (bindM_lift _ _ _ _ E2). exact Ew'.
  - assert (wrote leaf leaf' 16 (blockSize sb)) as Wall.
    { eapply wrote_trans; (eapply wrote_weaken; [eassumption|lia|destruct (hasCRC sb); lia]). }
    constructor; [done| |apply Fr'; [lia|by apply apartZ_sym|exact Er]|].
    + constructor; [lia|by apply (wrote_bytes _ _ _ _ W3)|..]; by rewrite (wrote_dec _ _ _ _ _ _ W3) by lia.
    + constructor; [lia|by apply (wrote_bytes _ _ _ _ Wall)|..|lia]; by rewrite (wrote_dec _ _ _ _ _ _ Wall) by lia.
  - intros o m cs Hm Hz Hr. rewrite !Forall_cons in Hz. cbn [fst snd] in Hz. destruct Hz as (Z1 & Z2 & _). apply Fr'; [done|done|]. by apply Fr.
Qed.
(** Chunks after the write-back: only chunk [i] changed. *)
Lemma chunks_back leaf leaf1 leaf' i j :
  inobt_leaf sb leaf n -> 0 <= i < n -> 0 <= j < n ->
  wrote leaf leaf1 (chunkOff sb i + 4) (chunkOff sb i + 16) -> wrote leaf1 leaf' 52 (if hasCRC sb then 56 else 52) ->
  chunkAt sb leaf' j = if j =? i then chunkAt sb leaf1 i else chunkAt sb leaf j.
Proof.
  intros Lf Hi Hj W1 W2. pose proof (hdr_pos sb) as Hh.
  assert ((if hasCRC sb then 56 else 52) <= chunkOff sb j \/ chunkOff sb j + 16 <= 52 \/ hasCRC sb = false) as Hc.
  { unfold chunkOff, agBTreeHdrSize, btreeHdrSize, inobtRecSize. destruct (hasCRC sb); lia. }
  assert (chunkAt sb leaf' j = chunkAt sb leaf1 j) as ->.
  { destruct (hasCRC sb) eqn:E; [apply (chunk_wrote sb _ _ _ _ _ W2); lia|].
    unfold chunkAt, dec. assert (0 <= chunkOff sb j) by (unfold chunkOff, inobtRecSize; lia).
    assert (forall o k, 0 <= o -> 0 <= k -> slice leaf' o k = slice leaf1 o k) as S; [|by rewrite !S by lia].
    intros o k Ho Hk. destruct (Z.le_gt_cases (o + k) 52); [apply (wrote_slice _ _ _ _ W2); lia|].
    destruct (Z.le_gt_cases 52 o); [apply (wrote_slice _ _ _ _ W2); lia|].
    replace k with (52 - o + (k - (52 - o))) by lia. rewrite !(slice_app_adj _ o) by lia. f_equal; apply (wrote_slice _ _ _ _ W2); lia. }
  destruct (Z.eqb_spec j i) as [->|]; [done|]. apply (chunk_wrote sb _ _ _ _ _ W1); [lia|]. unfold chunkOff, inobtRecSize. lia.
Qed.

(** ** The two operations *)
Definition chunks_apart (leaf : bytes) : Prop :=
  (forall j, 0 <= j < n -> cstart (chunkAt sb leaf j) + 64 < 2 ^ 32) /\
  (forall j k, 0 <= j < k -> k < n -> cstart (chunkAt sb leaf j) + 64 <= cstart (chunkAt sb leaf k)).
Definition updated (leaf leaf' : bytes) (i : Z) (c : chunk) : Prop :=
  forall j, 0 <= j < n -> chunkAt sb leaf' j = if j =? i then c else chunkAt sb leaf j.

Lemma agi_update agi v x :
  agi_view sb agi rootRel ->
  exists a1 a2, put32 agi agiOffFreeCount v = Ret a1 /\ agi_view sb a1 rootRel /\ dec 4 a1 28 = v mod 2 ^ 32 /\
    put32 a1 agiOffNewIno x = Ret a2 /\ agi_view sb a2 rootRel /\ dec 4 a2 28 = v mod 2 ^ 32.
Proof.
  intros [L B M R]. pose proof (iz_sect _ _ _ _ _ Zn). unfold agiOffFreeCount, agiOffNewIno.
  destruct (put_spec 4 agi 28 v) as (a1 & E1 & W1 & D1); [lia..|]. pose proof (wrote_len _ _ _ _ W1).
  destruct (put_spec 4 a1 32 x) as (a2 & E2 & W2 & _); [lia..|]. pose proof (wrote_len _ _ _ _ W2).
  exists a1, a2. split_and!; try done.
  - constructor; [lia|by apply (wrote_bytes _ _ _ _ W1)|..]; by rewrite (wrote_dec _ _ _ _ _ _ W1) by lia.
  - constructor; [lia|by apply (wrote_bytes _ _ _ _ W2), (wrote_bytes _ _ _ _ W1)|..];
      by rewrite (wrote_dec _ _ _ _ _ _ W2), (wrote_dec _ _ _ _ _ _ W1) by lia.
  - by rewrite (wrote_dec _ _ _ _ _ _ W2), D1 by lia.
Qed.

Lemma allocInode_view t ofuel now w agi leaf i :
  view (dev w) agi leaf n -> firstIdx (fun j => 0 <? cfree (chunkAt sb leaf j)) n i ->
  cmap (chunkAt sb leaf i) <> 0 -> cstart (chunkAt sb leaf i) + 64 <= 2 ^ 32 ->
  let c := chunkAt sb leaf i in let b := firstBit 64 (cmap c) 0 in
  exists d' agi' leaf',
    allocInode partOff sb (S t) ofuel now ag w = (Ret (inoFromAGRel sb ag (cstart c + b)), set_dev d' w) /\
    view d' agi' leaf' n /\ updated leaf leaf' i (mkChunk (cstart c) (u32 (cfree c - 1)) (Z.ldiff (cmap c) (2 ^ b))) /\
    dec 4 agi' 28 = u32 (dec 4 agi 28 - 1) /\ keeps [(agIByteOffset sb partOff ag, sectSize sb); (lo, blockSize sb)] (dev w) d'.
Proof.
  intros V Hi Hm Hs c b. pose proof (nv_leafv V) as Lf. pose proof (nv_agiv V) as Ag. pose proof (proj1 Hi) as Hin.
  destruct (takeInode_spec sb leaf i (il_bytes _ _ _ Lf) (proj1 Hin) (chunk_in leaf i Lf Hin) Hm Hs) as (leaf1 & E1 & W1 & C1).
  fold c in E1, C1. fold b in E1, C1. destruct (agi_fields agi Ag) as (F1 & F2 & F3).
  destruct (agi_update agi (u32 (dec 4 agi 28 - 1)) (cstart c + b) Ag) as (a1 & a2 & P1 & _ & _ & P2 & A2 & D2).
  destruct (write_back w agi leaf leaf1 a2 i V Hin W1 A2) as (d1 & d' & agi' & leaf' & Ew1 & Ew2 & V' & W2 & W3 & Kp).
  exists d', agi', leaf'. split; [|split; [done|split; [|split; [|exact Kp]]]].
  - unfold allocInode. rewrite (bindM_Ret _ _ _ _ _ (readAGI_view w agi leaf V)).
    rewrite (bindM_Ret _ _ w (agi, (rootRel, leaf, i)) w).
    2:{ unfold catchM, findFree. rewrite (bindM_lift _ _ _ _ F1), (bindM_lift _ _ _ _ F2).
        unfold readD. by rewrite (findFree_view t _ agi leaf i V Hi). }
    rewrite (bindM_lift _ _ _ _ E1), (bindM_Ret _ _ _ _ _ Ew1), (bindM_lift _ _ _ _ F3), (bindM_lift _ _ _ _ P1), (bindM_lift _ _ _ _ P2).
    by rewrite (bindM_Ret _ _ _ _ _ Ew2).
  - intros j Hj. rewrite (chunks_back leaf leaf1 leaf' i j Lf Hin Hj W1 W2). by rewrite C1.
  - rewrite (wrote_dec _ _ _ _ _ _ W3), D2 by lia. apply Z.mod_small, u32_range.
Qed.

Lemma find_own leaf i b :
  chunks_apart leaf -> 0 <= i < n -> 0 <= b < 64 -> inobt_leaf sb leaf n ->
  firstIdx (fun j => (cstart (chunkAt sb leaf j) <=? cstart (chunkAt sb leaf i) + b) &&
                     (cstart (chunkAt sb leaf i) + b <? u32 (cstart (chunkAt sb leaf j) + 64))) n i.
Proof.
  intros [Hm Ha] Hi Hb Lf. assert (forall j, 0 <= j < n -> 0 <= cstart (chunkAt sb leaf j)) as Hp.
  { intros j Hj. apply (chunk_ranges sb leaf j (il_bytes _ _ _ Lf)); [lia|by apply chunk_in]. }
  pose proof (Hp i Hi). pose proof (Hm i Hi). split; [done|]. cbv beta. split.
  - rewrite u32_small by lia. apply andb_true_iff. split; lia.
  - intros j Hj. pose proof (Ha j i ltac:(lia) ltac:(lia)). pose proof (Hp j ltac:(lia)).
    apply andb_false_iff. right. apply Z.ltb_ge. rewrite u32_small; lia.
Qed.

Lemma freeInode_view t w agi leaf i b :
  sb_width sb -> geometry_ok sb -> inoShift sb <= 32 -> 0 <= ag < 2 ^ 32 ->
  let c := chunkAt sb leaf i in
  view (dev w) agi leaf n -> chunks_apart leaf -> 0 <= i < n -> 0 <= b < 64 -> cstart c + b < 2 ^ inoShift sb ->
  exists d' agi' leaf',
    freeInode partOff sb (S t) (inoFromAGRel sb ag (cstart c + b)) w = (Ret tt, set_dev d' w) /\
    view d' agi' leaf' n /\ updated leaf leaf' i (mkChunk (cstart c) (u32 (cfree c + 1)) (u64 (Z.lor (cmap c) (2 ^ b)))) /\
    dec 4 agi' 28 = u32 (dec 4 agi 28 + 1).
Proof.
  intros Hw Hg H32 Hag c V Hap Hin Hb Hlt. pose proof (nv_leafv V) as Lf. pose proof (nv_agiv V) as Ag.
  destruct (chunk_ranges sb leaf i (il_bytes _ _ _ Lf) (proj1 Hin) (chunk_in leaf i Lf Hin)) as (R1 & _). fold c in R1.
  pose proof (proj1 Hap i Hin) as Hc. fold c in Hc.
  destruct (ino_decode sb Hw Hg H32 ag (cstart c + b) Hag ltac:(lia)) as [Eag Erel].
  destruct (returnInode_spec sb leaf i (il_bytes _ _ _ Lf) (proj1 Hin) (chunk_in leaf i Lf Hin) b Hb ltac:(fold c; lia)) as (leaf1 & E1 & W1 & C1).
  fold c in E1, C1. destruct (agi_fields agi Ag) as (F1 & F2 & F3).
  destruct (agi_update agi (u32 (dec 4 agi 28 + 1)) 0 Ag) as (a1 & a2 & P1 & A1 & D1 & _).
  destruct (write_back w agi leaf leaf1 a1 i V Hin W1 A1) as (d1 & d' & agi' & leaf' & Ew1 & Ew2 & V' & W2 & W3 & _).
  exists d', agi', leaf'. split; [|split; [done|split]].
  - unfold freeInode. rewrite Eag, Erel, (bindM_Ret _ _ _ _ _ (readAGI_view w agi leaf V)), (bindM_lift _ _ _ _ F1), (bindM_lift _ _ _ _ F2).
    rewrite (bindM_Ret _ _ w (rootRel, leaf, i) w) by (unfold readD; by rewrite (findRecord_view t _ agi leaf i (cstart c + b) V (find_own leaf i b Hap Hin Hb Lf))).
    rewrite (bindM_lift _ _ _ _ E1), (bindM_Ret _ _ _ _ _ Ew1), (bindM_lift _ _ _ _ F3), (bindM_lift _ _ _ _ P1). exact Ew2.
  - intros j Hj. rewrite (chunks_back leaf leaf1 leaf' i j Lf Hin Hj W1 W2). by rewrite C1.
  - rewrite (wrote_dec _ _ _ _ _ _ W3), D1 by lia. apply Z.mod_small, u32_range.
Qed.
End OnImage.

(** C15 (functional).  In an AG whose inobt is one leaf, [allocInode] takes the lowest free
    inode of the first chunk with free inodes: the inode it returns was marked free, its
    bit and only its bit is cleared, the chunk's and the AGI's free counts fall by one,
    every other chunk is untouched, and nothing but the AGI and the leaf is written. *)
Theorem allocInode_takes_lowest {SIO : SafeIO} {D} {Dev : Device D} {DL : DeviceLaws D} {DR : DeviceReliable D}
    (sb : superblock) (partOff ag rootRel lo n : Z) (tfuel ofuel : nat) (now : Z -> Z * Z) (w : World D) (agi leaf : bytes) (i : Z) :
  agi_zones sb partOff ag rootRel lo ->
  inobt_view sb partOff ag rootRel lo (dev w) agi leaf n ->
  firstIdx (fun j => 0 <? cfree (chunkAt sb leaf j)) n i ->
  cmap (chunkAt sb leaf i) <> 0 -> cstart (chunkAt sb leaf i) + 64 <= 2 ^ 32 ->
  let c := chunkAt sb leaf i in
  exists b d' agi' leaf',
    0 <= b < 64 /\ Z.testbit (cmap c) b = true /\ (forall j, 0 <= j < b -> Z.testbit (cmap c) j = false) /\
    allocInode partOff sb (S tfuel) ofuel now ag w = (Ret (inoFromAGRel sb ag (cstart c + b)), set_dev d' w) /\
    inobt_view sb partOff ag rootRel lo d' agi' leaf' n /\
    updated sb n leaf leaf' i (mkChunk (cstart c) (u32 (cfree c - 1)) (Z.ldiff (cmap c) (2 ^ b))) /\
    dec 4 agi' agiOffFreeCount = u32 (dec 4 agi agiOffFreeCount - 1) /\
    keeps [(agIByteOffset sb partOff ag, sectSize sb); (lo, blockSize sb)] (dev w) d'.
Proof.
  intros Zn V Hi Hm Hs c. pose proof (nv_leafv V) as Lf. pose proof (proj1 Hi) as Hin.
  destruct (chunk_ranges sb leaf i (il_bytes _ _ _ Lf) (proj1 Hin) (chunk_in sb n leaf i Lf Hin)) as (_ & _ & R3).
  destruct (first_free _ R3 Hm) as (Hb & Ht & Hl).
  destruct (allocInode_view sb partOff ag rootRel lo Zn n tfuel ofuel now w agi leaf i V Hi Hm Hs) as (d' & agi' & leaf' & E & V' & U & F & Kp).
  by exists (firstBit 64 (cmap c) 0), d', agi', leaf'.
Qed.


(** ** A small image: AGI in sector 2, inobt root in block 6 *)
Definition tiny_agi : bytes := bytesOf (
  b ← put32 (make_bytes 512) agiOffMagic magicAGI;
  b ← put32 b agiOffRoot 6; b ← put32 b agiOffLevel 1; put32 b agiOffFreeCount 3).
Definition tiny_inobt : bytes := bytesOf (
  b ← newInobtBlock tiny_sb 0 6 0 2;
  putSlots b 56 16 [be_encode 4 0 ++ be_encode 4 0 ++ be_encode 8 0;
                    be_encode 4 64 ++ be_encode 4 3 ++ be_encode 8 0xE000]).
Definition tiny_inodes : memdev := make_bytes 1024 ++ tiny_agi ++ make_bytes (3 * 512) ++ tiny_inobt ++ make_bytes (57 * 512).
Lemma tiny_agi_zones : agi_zones tiny_sb 0 0 6 3072.
Proof. constructor; try (vm_compute; reflexivity); vm_compute; intuition congruence. Qed.
Lemma tiny_inobt_view : inobt_view tiny_sb 0 0 6 3072 tiny_inodes tiny_agi tiny_inobt 2.
Proof.
  constructor; [vm_compute; reflexivity| |vm_compute; reflexivity|].
  - constructor; try (vm_compute; reflexivity). apply (bool_decide_unpack _). vm_compute. exact I.
  - constructor; try (vm_compute; (reflexivity || congruence)). apply (bool_decide_unpack _). vm_compute. exact I.
Qed.
Lemma tiny_first : firstIdx (fun j => 0 <? cfree (chunkAt tiny_sb tiny_inobt j)) 2 1.
Proof.
  split; [lia|]. split; [vm_compute; reflexivity|]. intros j Hj. assert (j = 0) as -> by lia. vm_compute. reflexivity.
Qed.
Lemma tiny_chunks_apart : chunks_apart tiny_sb 2 tiny_inobt.
Proof.
  split.
  - intros j Hj. assert (j = 0 \/ j = 1) as [-> | ->] by lia; vm_compute; reflexivity.
  - intros j k Hj Hk. assert (j = 0 /\ k = 1) as [-> ->] by lia. vm_compute. congruence.
Qed.
Lemma allocInode_takes_lowest_witness :
  exists b d' agi' leaf',
    0 <= b < 64 /\ Z.testbit (cmap (chunkAt tiny_sb tiny_inobt 1)) b = true /\
    (forall j, 0 <= j < b -> Z.testbit (cmap (chunkAt tiny_sb tiny_inobt 1)) j = false) /\
    allocInode 0 tiny_sb 1 1 (fun _ => (0, 0)) 0 (initWorld tiny_inodes) =
      (Ret (inoFromAGRel tiny_sb 0 (cstart (chunkAt tiny_sb tiny_inobt 1) + b)), set_dev d' (initWorld tiny_inodes)) /\
    inobt_view tiny_sb 0 0 6 3072 d' agi' leaf' 2 /\
    updated tiny_sb 2 tiny_inobt leaf' 1 (mkChunk (cstart (chunkAt tiny_sb tiny_inobt 1))
      (u32 (cfree (chunkAt tiny_sb tiny_inobt 1) - 1)) (Z.ldiff (cmap (chunkAt tiny_sb tiny_inobt 1)) (2 ^ b))) /\
    dec 4 agi' agiOffFreeCount = u32 (dec 4 tiny_agi agiOffFreeCount - 1) /\
    keeps [(agIByteOffset tiny_sb 0 0, sectSize tiny_sb); (3072, blockSize tiny_sb)] tiny_inodes d'.
Proof.
  apply (allocInode_takes_lowest tiny_sb 0 0 6 3072 2 0 1 (fun _ => (0, 0)) (initWorld tiny_inodes) tiny_agi tiny_inobt 1);
    [apply tiny_agi_zones|apply tiny_inobt_view|apply tiny_first|vm_compute; congruence|vm_compute; congruence].
Defined.

(** ** New chunks outside AG 0 *)
(** Two AGs of 6 blocks: agblocks is not a power of two, so packed block numbers
    (AG * 8 + block) and physical ones (AG * 6 + block) differ in AG 1. *)
Definition odd_sb : superblock :=
  {| blockSize := 512; sectorSize := 512; agBlocks := 6; agCount := 2; dBlocks := 12;
     rootIno := 4; inodeSize := 256; inopBlock := 2; inopBLog := 1; agBlkLog := 3; dirBlkLog := 0;
     hasCRC := true; hasFType := true; hasReflink := false; features2 := 0; quotaFlags := 0;
     uQuotino := 0; gQuotino := 0; pQuotino := 0; uuid := replicate 16 0; label := []; maxRead := 0 |}.

(** [growInobt] computes the position of a new inode slot as packed block
    number times block size.  In AG 1 of a filesystem whose agblocks is not a power of
    two that is another block's position: the slot's own inode stays unreadable, and the
    inode header lands on the slot of a different inode. *)
Lemma growInobt_slot_misplaced :
  validateGeometry odd_sb = Ret tt /\
  let ino := inoFromAGRel odd_sb 1 4 in
  let '(o, w') := initChunkSlot 0 odd_sb (fun _ => (0, 0)) 1 (agAbsBlock odd_sb 1 2) 4 0
                    (initWorld (make_bytes (12 * 512) : memdev)) in
  o = Ret tt /\
  readInode (dev w') 0 odd_sb ino = Fail (Errorf "inode bad magic") /\
  exists i, readInode (dev w') 0 odd_sb (inoFromAGRel odd_sb 1 8) = Ret i /\ dec 8 (iraw i) inoOffIno = ino.
Proof.
  split; [vm_compute; reflexivity|]. vm_compute. split; [reflexivity|]. split; [reflexivity|].
  eexists. split; reflexivity.
Qed.
