(* ===== verification/LeafDir.v ===== *)
(** * Leaf- and node-form directories (leafdir.go)

    The one directory writer, [writeWholeDir]: block form when everything fits one block,
    otherwise data blocks ([packDirEntries], [writeDataRegion]) with a hash index in a
    single leaf block ([writeLeaf1Index]) or in a B-tree of leaf and node blocks with a
    free index ([writeNodeIndex]).  [dirNodeBuild] plans the B-tree bottom-up as a flat
    list of [plan]s, numbers it breadth-first from the root, and emits the blocks into
    one region.  Go's [int] arithmetic here is on sizes far below 2^63 and is kept in
    [Z]; uint16/uint32 fields are cut to their width where they are stored. *)
From S2P Require Import Prelude Bytes Crc Extent Device Superblock SafeIO Inode FileRead Dir Lookup AgBlocks AllocTree Alloc Refcount FileWrite.

Definition magicDir3Data := 0x58444433.
Definition magicDir2Data := 0x58443244.
Definition magicDir3Leaf1 := 0x3df1.
Definition magicDir3LeafN := 0x3dff.
Definition magicDa3Node := 0x3ebe.
Definition magicDir3Free := 0x58444633.
Definition dirFreeByteOffset := 2 ^ 36.
Definition dirLeafHdrSize := 64.
Definition dirNodeHdrSize := 64.
Definition dirFreeHdrSize := 64.

(** [l[i]] and [l[lo:hi]] for slices of any type. *)
Definition elt {A} (l : list A) (i : Z) : outcome A :=
  if i <? 0 then Panic else match l !! Z.to_nat i with Some x => Ret x | None => Panic end.
Definition span {A} (l : list A) (lo hi : Z) : outcome (list A) :=
  guardP ((0 <=? lo) && (lo <=? hi) && (hi <=? zlen l));;
  Ret (take (Z.to_nat (hi - lo)) (drop (Z.to_nat lo) l)).
(** Edit block [b] of a region of [bs]-byte blocks: [blk := region[b*bs:(b+1)*bs]; f(blk)]. *)
Definition editBlock (bs : Z) (region : bytes) (b : Z) (f : bytes -> outcome bytes) : outcome bytes :=
  blk ← sub region (b * bs) ((b + 1) * bs);
  blk ← f blk;
  Ret (splice region (b * bs) blk).

(** ** Placing the entries *)
Record placedEnt := mkPlaced { pent : dirEnt; pblk : Z; poff : Z }.

(** The loop of [packDirEntries]: the placed entries, [blockEnd] and the block count. *)
Fixpoint packLoop (sb : superblock) (all : list dirEnt) (curBlk off : Z) : list placedEnt * list Z * Z :=
  match all with
  | [] => ([], [off], curBlk + 1)
  | e :: rest =>
      let hdr := dirDataHdrSize (hasCRC sb) in
      let sz := dirEntrySize (zlen (ename e)) (hasFType sb) in
      if blockSize sb <? off + sz then
        let '(placed, blockEnd, D) := packLoop sb rest (curBlk + 1) (hdr + sz) in
        (mkPlaced e (curBlk + 1) hdr :: placed, off :: blockEnd, D)
      else
        let '(placed, blockEnd, D) := packLoop sb rest curBlk (off + sz) in
        (mkPlaced e curBlk off :: placed, blockEnd, D)
  end.
Definition packDirEntries (sb : superblock) (num parentIno : Z) (entries : list dirEnt) : list placedEnt * list Z * Z :=
  packLoop sb (mkDirEnt dot num 2 :: mkDirEnt dotdot parentIno 2 :: entries) 0 (dirDataHdrSize (hasCRC sb)).

(** bits.TrailingZeros32 *)
Definition trailingZeros32 (x : Z) : Z := if x =? 0 then 32 else Z.log2 (Z.land x (- x)).
Definition leafOf (sb : superblock) (p : placedEnt) : leafEnt :=
  let shift := u64 (trailingZeros32 (blockSize sb) - 3) in
  (xfsDirHash (ename (pent p)), u32 (Z.lor (shl64 (pblk p) shift) (shr64 (poff p) 3))).
Definition leafEntries (sb : superblock) (placed : list placedEnt) : list leafEnt :=
  merge_sort leaf_le (map (leafOf sb) placed).

(** ** Data blocks *)
Definition dataHeader (sb : superblock) (num abs blockEnd : Z) (blk : bytes) : outcome bytes :=
  let blkSize := blockSize sb in
  b ← (if hasCRC sb then
         b ← put32 blk 0 magicDir3Data;
         b ← put64 b 8 (u64 (fsbToPhysBlock sb abs * fmtDaddrPerBlock));
         guardP (40 <=? zlen b);;
         b ← copy_to b 24 (take 16 (uuid sb));
         put64 b 40 num
       else put32 blk 0 magicDir2Data);
  let free := blkSize - blockEnd in
  if 0 <? free then
    let fo := blockEnd in
    b ← put16 b fo 0xFFFF;
    b ← put16 b (fo + 2) (u16 free);
    b ← put16 b (fo + free - 2) (u16 fo);
    b ← put16 b 48 (u16 fo);
    put16 b 50 (u16 free)
  else Ret b.
(** [dataBuf] of [writeDataRegion]: headers, entries, CRCs. *)
Definition dataRegion (sb : superblock) (num dataStart D : Z) (placed : list placedEnt) (blockEnd : list Z) : outcome bytes :=
  let bs := blockSize sb in
  buf ← for_acc (Z.to_nat D) 0 (make_bytes (D * bs)) (fun b buf =>
    editBlock bs buf b (fun blk => fo ← elt blockEnd b; dataHeader sb num (u64 (dataStart + b)) fo blk));
  buf ← range_acc placed buf (fun p buf =>
    editBlock bs buf (pblk p) (fun blk =>
      r ← writeDirEntry blk (poff p) (eino (pent p)) (ename (pent p)) (eftype (pent p)) (hasFType sb);
      Ret r.1));
  if hasCRC sb then for_acc (Z.to_nat D) 0 buf (fun b buf => editBlock bs buf b (fun blk => updateCRC blk 4 bs))
  else Ret buf.

(** ** The single leaf block *)
(** [for b := 0; b < D; b++ { PutUint16(leaf[off+b*2:], blkSize-blockEnd[b]) }] *)
Definition putBests (sb : superblock) (leaf : bytes) (off first n : Z) (blockEnd : list Z) : outcome bytes :=
  for_acc (Z.to_nat n) 0 leaf (fun b leaf =>
    fo ← elt blockEnd (first + b);
    put16 leaf (off + b * 2) (u16 (blockSize sb - fo))).
Definition leaf1Block (sb : superblock) (num leafBlock D : Z) (blockEnd : list Z) (lents : list leafEnt) : outcome bytes :=
  let blkSize := blockSize sb in
  b ← put16 (make_bytes blkSize) 8 magicDir3Leaf1;
  b ← put64 b 16 (u64 (fsbToPhysBlock sb leafBlock * fmtDaddrPerBlock));
  guardP (48 <=? zlen b);;
  b ← copy_to b 32 (take 16 (uuid sb));
  b ← put64 b 48 num;
  b ← put16 b 56 (u16 (zlen lents));
  b ← putLeaves lents 64 b;
  b ← put32 b (blkSize - 4) (u32 D);
  b ← putBests sb b (blkSize - 4 - D * 2) 0 D blockEnd;
  if hasCRC sb then updateCRC b 12 blkSize else Ret b.

(** ** The hash B-tree *)
Record plan := mkPlan { isLeaf : bool; phash : Z; children : list nat; chunk : list leafEnt }.

(** Level 0: leaf [j], [j+1], ..., [n] of them. *)
Fixpoint leafPlans (n : nat) (j perLeaf : Z) (lents : list leafEnt) : outcome (list plan) :=
  match n with
  | O => Ret []
  | S n' =>
      let lo := j * perLeaf in
      let hi := if zlen lents <? lo + perLeaf then zlen lents else lo + perLeaf in
      chunk ← span lents lo hi;
      l ← elt chunk (zlen chunk - 1);
      rest ← leafPlans n' (j + 1) perLeaf lents;
      Ret (mkPlan true l.1 [] chunk :: rest)
  end.
(** The parents [p], [p+1], ... of one level, [n] of them; [nodes] grows by one each. *)
Fixpoint parentPlans (n : nat) (p base extra pos : Z) (level : list nat) (nodes : list plan) (next : list nat) : outcome (list plan * list nat) :=
  match n with
  | O => Ret (nodes, next)
  | S n' =>
      let cnt := if p <? extra then base + 1 else base in
      children ← span level pos (pos + cnt);
      c ← elt children (zlen children - 1);
      last ← elt nodes (Z.of_nat c);
      let idx := length nodes in
      parentPlans n' (p + 1) base extra (pos + cnt) level (nodes ++ [mkPlan false (phash last) children []]) (next ++ [idx])
  end.
(** [for len(level) > 1]: the plan and all levels, leaves first. *)
Fixpoint planLevels (fuel : nat) (maxNodeEnts : Z) (level : list nat) (nodes : list plan) (levels : list (list nat)) : outcome (list plan * list (list nat)) :=
  if zlen level <=? 1 then Ret (nodes, levels)
  else
    match fuel with
    | O => NoFuel
    | S fuel' =>
        guardP (negb (maxNodeEnts =? 0));;
        let m := Z.quot (zlen level + maxNodeEnts - 1) maxNodeEnts in
        guardP (negb (m =? 0));;
        r ← parentPlans (Z.to_nat m) 0 (Z.quot (zlen level) m) (Z.rem (zlen level) m) 0 level nodes [];
        let '(nodes, next) := r in
        planLevels fuel' maxNodeEnts next nodes (levels ++ [next])
    end.

(** The breadth-first walk: [queue] is [order[qi:]]. *)
Fixpoint numberChildren (cs : list nat) (nextLog : Z) (logOf : list Z) : outcome (Z * list Z) :=
  match cs with
  | [] => Ret (nextLog, logOf)
  | c :: rest =>
      guardP (bool_decide (c < length logOf)%nat);;
      numberChildren rest (u32 (nextLog + 1)) (<[c := nextLog]> logOf)
  end.
Fixpoint numberNodes (fuel : nat) (nodes : list plan) (queue : list nat) (nextLog : Z) (logOf : list Z) : outcome (list Z) :=
  match queue with
  | [] => Ret logOf
  | q :: queue =>
      match fuel with
      | O => NoFuel
      | S fuel' =>
          p ← elt nodes (Z.of_nat q);
          r ← numberChildren (children p) nextLog logOf;
          numberNodes fuel' nodes (queue ++ children p) r.1 r.2
      end
  end.

(** Sibling links of one level: (node, back, forw). *)
Fixpoint siblings (logOf : list Z) (back : Z) (level : list nat) : outcome (list (nat * (Z * Z))) :=
  match level with
  | [] => Ret []
  | idx :: rest =>
      self ← elt logOf (Z.of_nat idx);
      forw ← (match rest with [] => Ret 0 | nx :: _ => elt logOf (Z.of_nat nx) end);
      tl ← siblings logOf self rest;
      Ret ((idx, (back, forw)) :: tl)
  end.
Definition setSiblings (logOf : list Z) (lv : list nat) (links : list (Z * Z)) : outcome (list (Z * Z)) :=
  ls ← siblings logOf 0 lv;
  range_acc ls links (fun l links =>
    guardP (bool_decide (l.1 < length links)%nat);; Ret (<[l.1 := l.2]> links)).

(** One block of the region. *)
Definition emitPlan (sb : superblock) (num leafLog : Z) (nodes : list plan) (logOf : list Z) (links : list (Z * Z)) (idx : Z) (p : plan) (region : bytes) : outcome bytes :=
  let bs := blockSize sb in
  log ← elt logOf idx;
  link ← elt links idx;
  childLevel ← (if isLeaf p then Ret 0
                else c0 ← elt (children p) 0;
                     n0 ← elt nodes (Z.of_nat c0);
                     if isLeaf n0 then Ret 1
                     else l0 ← elt logOf (Z.of_nat c0);
                          lv ← be16 region (u32 (l0 - leafLog) * bs + 58);
                          Ret (lv + 1));
  ents ← (if isLeaf p then Ret (chunk p)
          else range_acc (children p) [] (fun c acc =>
                 n ← elt nodes (Z.of_nat c);
                 l ← elt logOf (Z.of_nat c);
                 Ret (acc ++ [(phash n, l)])));
  editBlock bs region (u32 (log - leafLog)) (fun buf =>
    b ← put32 buf 0 link.2;
    b ← put32 b 4 link.1;
    guardP (48 <=? zlen b);;
    b ← copy_to b 32 (take 16 (uuid sb));
    b ← put64 b 48 num;
    b ← put16 b 8 (if isLeaf p then magicDir3LeafN else magicDa3Node);
    b ← put16 b 56 (u16 (zlen ents));
    b ← (if isLeaf p then Ret b else put16 b 58 (u16 childLevel));
    putLeaves ents (if isLeaf p then dirLeafHdrSize else dirNodeHdrSize) b).
Fixpoint emitPlans (sb : superblock) (num leafLog : Z) (nodes : list plan) (logOf : list Z) (links : list (Z * Z)) (idx : Z) (ps : list plan) (region : bytes) : outcome bytes :=
  match ps with
  | [] => Ret region
  | p :: rest =>
      region ← emitPlan sb num leafLog nodes logOf links idx p region;
      emitPlans sb num leafLog nodes logOf links (idx + 1) rest region
  end.

(** The plan: nodes, levels and the logical block of each node. *)
Definition planTree (sb : superblock) (leafLog perLeaf K : Z) (lents : list leafEnt) : outcome (list plan * list (list nat) * list Z) :=
  let maxNodeEnts := Z.quot (blockSize sb - dirNodeHdrSize) 8 in
  leaves ← leafPlans (Z.to_nat K) 0 perLeaf lents;
  let level := seq 0 (length leaves) in
  r ← planLevels (length leaves) maxNodeEnts level leaves [level];
  let '(nodes, levels) := r in
  top ← (match last levels with Some l => Ret l | None => Panic end);
  rootIdx ← elt top 0;
  guardP (bool_decide (rootIdx < length nodes)%nat);;
  logOf ← numberNodes (length nodes) nodes [rootIdx] (u32 (leafLog + 1)) (<[rootIdx := leafLog]> (replicate (length nodes) 0));
  Ret (nodes, levels, logOf).
Definition dirNodeBuild (sb : superblock) (num leafLog perLeaf K : Z) (lents : list leafEnt) : outcome (bytes * Z) :=
  r ← planTree sb leafLog perLeaf K lents;
  let '(nodes, levels, logOf) := r in
  links ← range_acc levels (replicate (length nodes) (0, 0)) (setSiblings logOf);
  region ← emitPlans sb num leafLog nodes logOf links 0 nodes (make_bytes (zlen nodes * blockSize sb));
  Ret (region, leafLog).

(** ** Blocks of the index regions *)
(** [bb_blkno] and CRC of block [b] of the index region. *)
Definition stampIndexBlock (sb : superblock) (leafStart b : Z) (buf : bytes) : outcome bytes :=
  buf ← put64 buf 16 (u64 (fsbToPhysBlock sb (u64 (leafStart + b)) * fmtDaddrPerBlock));
  if hasCRC sb then updateCRC buf 12 (blockSize sb) else Ret buf.
Definition freeIndexBlock (sb : superblock) (num freeStart D bestsPerFree : Z) (blockEnd : list Z) (fi : Z) (buf : bytes) : outcome bytes :=
  let first := fi * bestsPerFree in
  let n := if D <? first + bestsPerFree then D - first else bestsPerFree in
  b ← put32 buf 0 magicDir3Free;
  b ← put64 b 8 (u64 (fsbToPhysBlock sb (u64 (freeStart + fi)) * fmtDaddrPerBlock));
  guardP (40 <=? zlen b);;
  b ← copy_to b 24 (take 16 (uuid sb));
  b ← put64 b 40 num;
  b ← put32 b 48 (u32 first);
  b ← put32 b 52 (u32 n);
  b ← put32 b 56 (u32 n);
  b ← putBests sb b dirFreeHdrSize first n blockEnd;
  if hasCRC sb then updateCRC b 4 (blockSize sb) else Ret b.
Definition freeIndexRegion (sb : superblock) (num freeStart D F bestsPerFree : Z) (blockEnd : list Z) : outcome bytes :=
  for_acc (Z.to_nat F) 0 (make_bytes (F * blockSize sb)) (fun fi region =>
    editBlock (blockSize sb) region fi (freeIndexBlock sb num freeStart D bestsPerFree blockEnd fi)).

(** The inode of a rebuilt directory. *)
Definition setDirExtents (i : inode) (exts : list extent) (nBlocks size : Z) : outcome inode :=
  i ← setInodeFormat i inodeFmtExtents;
  i ← setInodeNBlocks i nBlocks;
  i ← setInodeNExtents i (u32 (zlen exts));
  i ← setInodeSize i size;
  writeExtentList i exts.

(** ** Writing a directory *)
Section LeafDir.
Context {SIO : SafeIO} {D : Type} {Dev : Device D}.
Variables (partOff : Z) (sb : superblock) (tfuel ofuel : nat).
Let W := World D.
Let blockAlloc (ag n : Z) : M W Z := allocBlocks partOff sb tfuel ofuel ag n.
Let blockFree (abs n : Z) : M W unit := freeBlocks partOff sb tfuel ofuel abs n.

Definition dirBlockLayout (r : D) (i : inode) : outcome (list Z * bool) :=
  if iformat i =? inodeFmtLocal then Ret ([], false)
  else
    exts ← dirExtents r partOff sb i;
    let leafLog := dirLeafByteOffset / blockSize sb in
    Ret (fold_left (fun acc e =>
      if leafLog <=? startOff e then (acc.1, true)
      else (acc.1 ++ map (fun b => u64 (startBlock e + Z.of_nat b)) (seq 0 (Z.to_nat (count e))), acc.2)) exts ([], false)).

Definition freeDirBlocks (i : inode) : M W unit :=
  if iformat i =? inodeFmtLocal then mret tt
  else
    exts ← readD (fun r => dirExtents r partOff sb i);
    range_accM exts tt (fun e _ => blockFree (startBlock e) (count e)).

Definition writeDataRegion (i : inode) (dataStart Dn : Z) (placed : list placedEnt) (blockEnd : list Z) : M W unit :=
  buf ← lift (dataRegion sb (inum i) dataStart Dn placed blockEnd);
  writeBlocksData partOff sb dataStart (u32 Dn) buf.

Definition writeLeaf1Index (i : inode) (dataStart Dn : Z) (blockEnd : list Z) (lents : list leafEnt) : M W inode :=
  leafBlock ← blockAlloc (inoAG sb (inum i)) 1;
  leaf ← lift (leaf1Block sb (inum i) leafBlock Dn blockEnd lents);
  writeBlocksData partOff sb leafBlock 1 leaf;;
  let leafLog := dirLeafByteOffset / blockSize sb in
  i ← lift (setDirExtents i [mkExtent 0 dataStart (u32 Dn) false; mkExtent leafLog leafBlock 1 false]
              (u64 (Dn + 1)) (u64 (Dn * blockSize sb)));
  writeInode partOff sb i;;
  mret i.

Definition dirWriteFreeIndex (i : inode) (freeStart Dn F bestsPerFree : Z) (blockEnd : list Z) : M W unit :=
  region ← lift (freeIndexRegion sb (inum i) freeStart Dn F bestsPerFree blockEnd);
  writeBlocksData partOff sb freeStart (u32 F) region.

Definition writeNodeIndex (i : inode) (dataStart Dn : Z) (blockEnd : list Z) (lents : list leafEnt) : M W inode :=
  let blkSize := blockSize sb in
  let leafLog := u32 (dirLeafByteOffset / blkSize) in
  let freeLog := dirFreeByteOffset / blkSize in
  let perLeaf := Z.quot (blkSize - dirLeafHdrSize) 8 in
  lift (guardP (negb (perLeaf =? 0)));;
  let K := Z.max 1 (Z.quot (zlen lents + perLeaf - 1) perLeaf) in
  r ← lift (dirNodeBuild sb (inum i) leafLog perLeaf K lents);
  let region := r.1 in
  let leafBlocks := u32 (Z.quot (zlen region) blkSize) in
  let bestsPerFree := Z.quot (blkSize - dirFreeHdrSize) 2 in
  lift (guardP (negb (bestsPerFree =? 0)));;
  let F := Z.max 1 (Z.quot (Dn + bestsPerFree - 1) bestsPerFree) in
  let ag := inoAG sb (inum i) in
  leafStart ← blockAlloc ag leafBlocks;
  freeStart ← blockAlloc ag (u32 F);
  region ← lift (for_acc (Z.to_nat leafBlocks) 0 region (fun b region =>
    editBlock blkSize region b (stampIndexBlock sb leafStart b)));
  writeBlocksData partOff sb leafStart leafBlocks region;;
  dirWriteFreeIndex i freeStart Dn F bestsPerFree blockEnd;;
  i ← lift (setDirExtents i
       [mkExtent 0 dataStart (u32 Dn) false; mkExtent leafLog leafStart leafBlocks false; mkExtent freeLog freeStart (u32 F) false]
       (u64 (Dn + leafBlocks + F)) (u64 (Dn * blkSize)));
  writeInode partOff sb i;;
  mret i.

Definition buildLeafDir (i : inode) (parentIno : Z) (entries : list dirEnt) : M W inode :=
  let blkSize := blockSize sb in
  let hdr := dirDataHdrSize (hasCRC sb) in
  let '(placed, blockEnd, Dn) := packDirEntries sb (inum i) parentIno entries in
  let lents := leafEntries sb placed in
  dataStart ← blockAlloc (inoAG sb (inum i)) (u32 Dn);
  writeDataRegion i dataStart Dn placed blockEnd;;
  if hdr + zlen lents * 8 + Dn * 2 + 4 <=? blkSize then writeLeaf1Index i dataStart Dn blockEnd lents
  else writeNodeIndex i dataStart Dn blockEnd lents.

(** [fitsOneBlock] of [writeWholeDir]. *)
Definition fitsOneBlock (entries : list dirEnt) : bool :=
  let hdr := dirDataHdrSize (hasCRC sb) in
  let sum := fold_left (fun s e => s + dirEntrySize (zlen (ename e)) (hasFType sb)) entries
               (dirEntrySize 1 (hasFType sb) + dirEntrySize 2 (hasFType sb)) in
  hdr + sum + (zlen entries + 2) * 8 + 8 <=? blockSize sb.

(** Free the current blocks and lay the directory out fresh. *)
Definition rebuildDir (i : inode) (parentIno : Z) (entries : list dirEnt) : M W inode :=
  let blkSize := blockSize sb in
  freeDirBlocks i;;
  if fitsOneBlock entries then
    absBlock ← blockAlloc (inoAG sb (inum i)) 1;
    blk ← lift (buildBlockDirBlock sb (make_bytes blkSize) absBlock (inum i) parentIno entries);
    writeBlocksData partOff sb absBlock 1 blk;;
    i ← lift (setDirExtents i [mkExtent 0 absBlock 1 false] 1 blkSize);
    writeInode partOff sb i;;
    mret i
  else buildLeafDir i parentIno entries.

(** The inode is returned as the calls leave it: callers go on using it. *)
Definition writeWholeDir (i : inode) (parentIno : Z) (entries : list dirEnt) : M W inode :=
  let blkSize := blockSize sb in
  lay ← readD (fun r => dirBlockLayout r i);
  let '(dataBlocks, hasLeaf) := lay in
  match dataBlocks with
  | [b0] =>
      if fitsOneBlock entries && negb hasLeaf then
        blk ← lift (buildBlockDirBlock sb (make_bytes blkSize) b0 (inum i) parentIno entries);
        writeRawBlock partOff sb b0 blk;;
        mret i
      else rebuildDir i parentIno entries
  | _ => rebuildDir i parentIno entries
  end.
End LeafDir.
