(* ===== verification/LeafDirSpec.v ===== *)
(** * Data blocks of leaf- and node-form directories: theorems

    What [packDirEntries], [leafEntries] and [dataRegion] of LeafDir produce: the entries in
    order over blocks the readers list back, and an index whose addresses point at them. *)
From S2P Require Import Prelude Bytes Crc Writers Extent Device Superblock SafeIO Inode FileRead Dir Lookup AgBlocks AllocTree Alloc Refcount FileWrite LeafDir.

(** ** Regions as lists of blocks *)
Definition blocks_ok (bs : Z) (blks : list bytes) : Prop := Forall (fun b => zlen b = bs) blks.
Lemma zlen_concat bs blks : blocks_ok bs blks -> zlen (concat blks) = zlen blks * bs.
Proof. induction 1 as [|b blks Hb _ IH]; cbn [concat]; [done|]. rewrite zlen_app, zlen_cons. lia. Qed.
Lemma blocks_insert bs blks k b : blocks_ok bs blks -> zlen b = bs -> blocks_ok bs (<[k := b]> blks).
Proof. intros. by apply Forall_insert. Qed.
Lemma slice_block bs blks k b :
  0 <= bs -> blocks_ok bs blks -> blks !! k = Some b -> slice (concat blks) (Z.of_nat k * bs) bs = b.
Proof.
  intros Hbs Hb. revert k. induction Hb as [|x blks Hx Hb IH]; intros k Hk; [done|]. cbn [concat]. unfold slice in *.
  destruct k as [|k]; cbn in Hk.
  - injection Hk as ->. change (Z.to_nat (Z.of_nat 0 * bs)) with 0%nat. rewrite drop_0.
    rewrite take_app_le by zl. apply take_ge. zl.
  - rewrite drop_app_ge by zl. rewrite <- (IH k Hk). do 2 f_equal. zl.
Qed.
Lemma splice_block bs blks k b b' :
  0 <= bs -> blocks_ok bs blks -> blks !! k = Some b -> zlen b' = bs ->
  splice (concat blks) (Z.of_nat k * bs) b' = concat (<[k := b']> blks).
Proof.
  intros Hbs Hb Hk Hl. revert k Hk. induction Hb as [|x blks Hx Hb IH]; intros k Hk; [done|]. unfold splice in *.
  destruct k as [|k].
  - change (<[0%nat := b']> (x :: blks)) with (b' :: blks). cbn [concat]. change (Z.to_nat (Z.of_nat 0 * bs)) with 0%nat. rewrite take_0. cbn. f_equal.
    rewrite drop_app_ge by zl. replace (length b' - length x)%nat with 0%nat by zl. done.
  - change (<[S k := b']> (x :: blks)) with (x :: <[k := b']> blks). cbn [concat].
    rewrite take_app_ge by zl. rewrite drop_app_ge by zl. rewrite <- app_assoc. f_equal. cbn in Hk. rewrite <- (IH k Hk).
    f_equal; [f_equal; zl|]. do 2 f_equal. zl.
Qed.
Lemma editBlock_spec bs blks k b f b' :
  0 <= bs -> blocks_ok bs blks -> blks !! k = Some b -> f b = Ret b' -> zlen b' = bs ->
  editBlock bs (concat blks) (Z.of_nat k) f = Ret (concat (<[k := b']> blks)).
Proof.
  intros Hbs Hb Hk Hf Hl. pose proof (lookup_lt_Some _ _ _ Hk). unfold editBlock.
  rewrite sub_ok; [|lia|lia|rewrite (zlen_concat bs) by done; unfold zlen; nia].
  replace ((Z.of_nat k + 1) * bs - Z.of_nat k * bs) with bs by lia.
  rewrite (slice_block bs blks k b) by done. ostep. rewrite Hf. ostep. f_equal. by apply (splice_block bs blks k b).
Qed.
Lemma make_blocks bs n : 0 <= bs -> make_bytes (Z.of_nat n * bs) = concat (replicate n (make_bytes bs)).
Proof.
  intros Hbs. unfold make_bytes. induction n as [|n IH]; [done|]. cbn [replicate concat]. rewrite <- IH, <- replicate_add. f_equal. lia.
Qed.
Lemma blocks_make bs n : 0 <= bs -> blocks_ok bs (replicate n (make_bytes bs)).
Proof. intros. apply Forall_replicate. unfold make_bytes. rewrite zlen_replicate. lia. Qed.

(** Editing every block in turn: block [k] becomes [g k] of itself. *)
Lemma edit_all bs (g : Z -> bytes -> outcome bytes) n blks k0 :
  0 <= bs -> blocks_ok bs blks -> (k0 + n = length blks)%nat ->
  (forall k b, (k0 <= k)%nat -> blks !! k = Some b -> exists b', g (Z.of_nat k) b = Ret b' /\ zlen b' = bs) ->
  exists blks', for_acc n (Z.of_nat k0) (concat blks) (fun b r => editBlock bs r b (g b)) = Ret (concat blks') /\
    blocks_ok bs blks' /\ length blks' = length blks /\
    forall k b, blks !! k = Some b -> exists b', blks' !! k = Some b' /\
      if decide (k0 <= k)%nat then g (Z.of_nat k) b = Ret b' else b' = b.
Proof.
  intros Hbs. revert blks k0. induction n as [|n IH]; intros blks k0 Hb Hn Hg.
  { exists blks. split_and!; [done..|]. intros k b Hk. exists b. split; [done|].
    pose proof (lookup_lt_Some _ _ _ Hk). destruct (decide _); [lia|done]. }
  destruct (lookup_lt_is_Some_2 blks k0 ltac:(lia)) as [b Eb]. destruct (Hg k0 b ltac:(lia) Eb) as (b' & Eg & Lb).
  cbn [for_acc]. rewrite (editBlock_spec bs blks k0 b (g (Z.of_nat k0)) b') by done. ostep.
  replace (Z.of_nat k0 + 1) with (Z.of_nat (S k0)) by lia.
  destruct (IH (<[k0 := b']> blks) (S k0)) as (blks' & -> & Hb' & Ll & Hk').
  - by apply blocks_insert.
  - rewrite length_insert. lia.
  - intros k c Hk Hc. rewrite list_lookup_insert_ne in Hc by lia. apply Hg; [lia|done].
  - exists blks'. split_and!; [done|done|rewrite Ll; apply length_insert|]. intros k c Hc.
    destruct (decide (k = k0)) as [->|Hne].
    + destruct (Hk' k0 b') as (c' & E' & Ec); [apply list_lookup_insert_eq; lia|]. exists c'. split; [done|].
      destruct (decide (S k0 <= k0)%nat); [lia|]. rewrite decide_True by lia. congruence.
    + destruct (Hk' k c) as (c' & E' & Ec); [by rewrite list_lookup_insert_ne by lia|]. exists c'. split; [done|].
      destruct (decide (S k0 <= k)%nat), (decide (k0 <= k)%nat); (done || lia).
Qed.

Lemma Forall2_lookup_intro {A B} (P : A -> B -> Prop) l k :
  length l = length k -> (forall i x y, l !! i = Some x -> k !! i = Some y -> P x y) -> Forall2 P l k.
Proof. intros L H. apply Forall2_same_length_lookup. split; [done|]. eauto. Qed.
(** The same against a list the blocks are made for: [P] of each before, [Q] of each after. *)
Lemma edit_groups {X} (P Q : bytes -> X -> Prop) bs (g : Z -> bytes -> outcome bytes) blks xs :
  0 <= bs -> (forall b x, P b x -> zlen b = bs) ->
  (forall k b x, xs !! k = Some x -> P b x -> exists b', g (Z.of_nat k) b = Ret b' /\ zlen b' = bs /\ Q b' x) ->
  Forall2 P blks xs ->
  exists blks', for_acc (length xs) 0 (concat blks) (fun b r => editBlock bs r b (g b)) = Ret (concat blks') /\ Forall2 Q blks' xs.
Proof.
  intros Hbs HP Hg Hf. pose proof (Forall2_length _ _ _ Hf) as Hl.
  assert (forall k b, blks !! k = Some b -> exists x, xs !! k = Some x /\ P b x) as Hx.
  { intros k b Eb. destruct (Forall2_lookup_l _ _ _ _ _ Hf Eb) as (x & ? & ?). eauto. }
  destruct (edit_all bs g (length xs) blks 0) as (blks' & E & _ & L & H); [done| |lia| |].
  - apply Forall_lookup. intros k b Eb. destruct (Hx k b Eb) as (x & _ & Hp). eauto.
  - intros k b _ Eb. destruct (Hx k b Eb) as (x & Ex & Hp). destruct (Hg k b x Ex Hp) as (b' & ? & ? & _). eauto.
  - exists blks'. split; [exact E|]. apply Forall2_lookup_intro; [lia|]. intros k b' x Eb' Ex.
    destruct (Forall2_lookup_r _ _ _ _ _ Hf Ex) as (b & Eb & Hp). destruct (H k b Eb) as (b1 & Eb1 & Hb1).
    rewrite decide_True in Hb1 by lia. destruct (Hg k b x Ex Hp) as (b2 & E2 & _ & HQ). congruence.
Qed.

(** ** Entries per block *)
(** The entries that still go into the current block, and those of the following blocks. *)
Fixpoint groupEnts (sb : superblock) (all : list dirEnt) (off : Z) : list dirEnt * list (list dirEnt) :=
  match all with
  | [] => ([], [])
  | e :: rest =>
      let sz := esize (hasFType sb) e in
      if blockSize sb <? off + sz then
        let '(g, gs) := groupEnts sb rest (dirDataHdrSize (hasCRC sb) + sz) in ([], (e :: g) :: gs)
      else let '(g, gs) := groupEnts sb rest (off + sz) in (e :: g, gs)
  end.
Fixpoint placeAt (h : bool) (blk off : Z) (g : list dirEnt) : list placedEnt :=
  match g with
  | [] => []
  | e :: rest => mkPlaced e blk off :: placeAt h blk (off + esize h e) rest
  end.
(** The groups [gs] laid into the blocks [k], [k+1], ... *)
Fixpoint placeAll (h : bool) (hdr k : Z) (gs : list (list dirEnt)) : list placedEnt :=
  match gs with
  | [] => []
  | g :: rest => placeAt h k hdr g ++ placeAll h hdr (k + 1) rest
  end.

Section Pack.
Context (sb : superblock).
Let h := hasFType sb.
Let bs := blockSize sb.
Let hdr := dirDataHdrSize (hasCRC sb).

Lemma packLoop_groups all cur off :
  packLoop sb all cur off = let '(g, gs) := groupEnts sb all off in
    (placeAt h cur off g ++ placeAll h hdr (cur + 1) gs,
     (off + dirBytes h g) :: map (fun g => hdr + dirBytes h g) gs, cur + 1 + zlen gs).
Proof.
  revert cur off. induction all as [|e all IH]; intros cur off; cbn [packLoop groupEnts].
  { cbn. rewrite !Z.add_0_r. done. }
  fold h hdr. change (dirEntrySize (zlen (ename e)) h) with (esize h e).
  destruct (Z.ltb_spec (blockSize sb) (off + esize h e)).
  - rewrite IH. destruct (groupEnts sb all (hdr + esize h e)) as [g gs]. cbn [placeAt placeAll app map dirBytes]. rewrite zlen_cons, Z.add_0_r, (Z.add_assoc hdr).
    replace (cur + 1 + 1 + zlen gs) with (cur + 1 + (1 + zlen gs)) by lia. done.
  - rewrite IH. destruct (groupEnts sb all (off + esize h e)) as [g gs]. cbn [placeAt dirBytes app].
    by rewrite Z.add_assoc.
Qed.

Lemma groupEnts_spec all off :
  512 <= bs -> hdr <= 64 -> Forall ent_ok all -> off <= bs ->
  let '(g, gs) := groupEnts sb all off in
  all = g ++ concat gs /\ off + dirBytes h g <= bs /\ Forall (fun g => g <> [] /\ hdr + dirBytes h g <= bs) gs.
Proof.
  intros Hbs Hh Ha. revert off. induction Ha as [|e all He Ha IH]; intros off Ho; cbn [groupEnts].
  { cbn. split_and!; [done|lia|constructor]. }
  fold h hdr. pose proof (esize_range h e He) as (R & _ & _).
  destruct (Z.ltb_spec (blockSize sb) (off + esize h e)).
  - specialize (IH (hdr + esize h e)). destruct (groupEnts sb all (hdr + esize h e)) as [g gs].
    destruct IH as (-> & Hg & Hgs); [fold bs; lia|]. cbn. split_and!; [done|lia|]. constructor; [|done]. split; [done|cbn; lia].
  - specialize (IH (off + esize h e)). destruct (groupEnts sb all (off + esize h e)) as [g gs].
    destruct IH as (-> & Hg & Hgs); [fold bs; lia|]. cbn. split_and!; [done|lia|done].
Qed.

Lemma placeAt_ents blk off g : map pent (placeAt h blk off g) = g.
Proof. revert off. induction g as [|e g IH]; intros off; cbn; [done|]. by rewrite IH. Qed.
Lemma placeAll_ents k gs : map pent (placeAll h hdr k gs) = concat gs.
Proof. revert k. induction gs as [|g gs IH]; intros k; cbn; [done|]. by rewrite map_app, placeAt_ents, IH. Qed.

(** ** Laying the entries *)
Definition putPlaced (p : placedEnt) (buf : bytes) : outcome bytes :=
  editBlock bs buf (pblk p) (fun blk =>
    r ← writeDirEntry blk (poff p) (eino (pent p)) (ename (pent p)) (eftype (pent p)) h; Ret r.1).

Lemma place_group blks k b off g :
  0 <= bs -> blocks_ok bs blks -> blks !! k = Some b -> isbytes b -> Forall ent_ok g -> 0 <= off -> off + dirBytes h g <= bs ->
  exists b', range_acc (placeAt h (Z.of_nat k) off g) (concat blks) putPlaced = Ret (concat (<[k := b']> blks)) /\
    wrote b b' off (off + dirBytes h g) /\ entries_at b' h off g.
Proof.
  intros Hbs Hok Hk Hb Hg. revert blks b off Hok Hk Hb. induction Hg as [|e g He Hg IH]; intros blks b off Hok Hk Hb Ho Hle.
  { exists b. cbn. rewrite list_insert_id by done. split_and!; [done|apply wrote_refl|done]. }
  cbn [placeAt range_acc dirBytes entries_at] in *. pose proof (esize_range h e He). pose proof (dirBytes_range h g Hg). pose proof (zlen_nonneg g).
  assert (zlen b = bs) as Lb by (by eapply Forall_lookup_1 in Hok; [|exact Hk]).
  destruct (writeDirEntry_spec b off e h Hb He) as (b1 & E1 & W1 & A1); [lia..|]. pose proof (wrote_len _ _ _ _ W1) as L1.
  assert (putPlaced (mkPlaced e (Z.of_nat k) off) (concat blks) = Ret (concat (<[k := b1]> blks))) as ->.
  { apply (editBlock_spec bs blks k b); [done..| |lia]. cbn [pent poff]. by rewrite E1. }
  ostep.
  destruct (IH (<[k := b1]> blks) b1 (off + esize h e)) as (b2 & E2 & W2 & A2).
  - apply blocks_insert; [done|lia].
  - apply list_lookup_insert_eq. by eapply lookup_lt_Some.
  - by eapply wrote_bytes.
  - lia.
  - lia.
  - exists b2. rewrite E2, list_insert_insert_eq. split_and!; [done| | |].
    + eapply wrote_trans; (eapply wrote_weaken; [eassumption|lia..]).
    + assert (entries_at b2 h off [e]) as [? _]; [|done].
      eapply (entries_at_slices h b1 b2 off [e] 0 (off + esize h e)); [by constructor| |lia|lia|cbn [dirBytes]; lia|by split].
      intros. apply (wrote_slice _ _ _ _ W2); lia.
    + done.
Qed.

Lemma range_acc_app {X A} (l1 l2 : list X) (a : A) f :
  range_acc (l1 ++ l2) a f = (a' ← range_acc l1 a f; range_acc l2 a' f).
Proof. revert a. induction l1 as [|x l1 IH]; intros a; cbn; [done|]. destruct (f x a); cbn; [apply IH|done..]. Qed.

(** Groups [gs] into the blocks [k], ...: block [k+j] gets the entries of group [j]. *)
Lemma place_groups blks k gs :
  0 <= bs -> 0 <= hdr -> blocks_ok bs blks -> Forall isbytes blks -> (k + length gs = length blks)%nat ->
  Forall (Forall ent_ok) gs -> Forall (fun g => hdr + dirBytes h g <= bs) gs ->
  exists blks', range_acc (placeAll h hdr (Z.of_nat k) gs) (concat blks) putPlaced = Ret (concat blks') /\
    blocks_ok bs blks' /\ length blks' = length blks /\
    (forall j, (j < k)%nat -> blks' !! j = blks !! j) /\
    forall j g b, gs !! j = Some g -> blks !! (k + j)%nat = Some b -> exists b', blks' !! (k + j)%nat = Some b' /\
      wrote b b' hdr (hdr + dirBytes h g) /\ entries_at b' h hdr g.
Proof.
  intros Hbs Hh Hok Hb Hl Hg Hf. revert blks k Hok Hb Hl. induction Hg as [|g gs Hge Hg IH]; intros blks k Hok Hb Hl.
  { exists blks. cbn. split_and!; try done. }
  apply Forall_cons in Hf as [Hfg Hf]. cbn [length] in Hl.
  destruct (lookup_lt_is_Some_2 blks k ltac:(lia)) as [b Eb].
  assert (isbytes b) as Hbb by (by eapply Forall_lookup_1 in Hb; [|exact Eb]).
  assert (zlen b = bs) as Lb by (by eapply Forall_lookup_1 in Hok; [|exact Eb]).
  destruct (place_group blks k b hdr g Hbs Hok Eb Hbb Hge Hh Hfg) as (b' & E1 & W1 & A1).
  cbn [placeAll]. rewrite range_acc_app, E1. ostep. replace (Z.of_nat k + 1) with (Z.of_nat (S k)) by lia.
  destruct (IH Hf (<[k := b']> blks) (S k)) as (blks' & E2 & Hok2 & L2 & Lo2 & H2).
  - apply blocks_insert; [done|]. rewrite (wrote_len _ _ _ _ W1). done.
  - apply Forall_insert; [done|]. by eapply wrote_bytes.
  - rewrite length_insert. lia.
  - exists blks'. rewrite E2. split_and!; [done|done|by rewrite L2, length_insert| |].
    + intros j Hj. rewrite Lo2, list_lookup_insert_ne by lia. done.
    + intros [|j] g' c Hj Hc; cbn in Hj.
      * injection Hj as <-. rewrite Nat.add_0_r in *. exists b'. rewrite Eb in Hc. injection Hc as <-.
        rewrite Lo2, list_lookup_insert_eq by lia. done.
      * replace (k + S j)%nat with (S k + j)%nat in * by lia. apply (H2 j g' c Hj). by rewrite list_lookup_insert_ne by lia.
Qed.
End Pack.

(** ** A data block *)
(** Block [b] shows the entries [g] and, behind them, one free region. *)
Record data_block (sb : superblock) (b : bytes) (g : list dirEnt) : Prop := {
  db_len : zlen b = blockSize sb;
  db_bytes : isbytes b;
  db_entries : entries_at b (hasFType sb) 64 g;
  db_free : 64 + dirBytes (hasFType sb) g < blockSize sb ->
    dec 2 b (64 + dirBytes (hasFType sb) g) = dirFreeTag /\
    dec 2 b (64 + dirBytes (hasFType sb) g + 2) = blockSize sb - (64 + dirBytes (hasFType sb) g);
  db_crc : verifyCRC b 4 (blockSize sb) = Ret true
}.

Section DataBlock.
Context (sb : superblock) (Wsb : sb_width sb) (G : geometry_ok sb) (Hc : hasCRC sb = true).
Let h := hasFType sb.
Let bs := blockSize sb.

Lemma bs_mod8 : bs mod 8 = 0.
Proof.
  unfold bs. destruct (g_bs _ G) as (k & Hk & ->). replace k with (3 + (k - 3)) by lia. rewrite Z.pow_add_r by lia.
  change (2 ^ 3) with 8. rewrite Z.mul_comm. apply Z_mod_mult.
Qed.
Lemma uuid_16 : take 16 (uuid sb) = uuid sb /\ zlen (uuid sb) = 16 /\ isbytes (uuid sb).
Proof. destruct (w_uuid _ Wsb) as [Lu Bu]. split_and!; [|done..]. apply firstn_all2. zl. Qed.

Lemma dataHeader_spec num abs fo b :
  zlen b = bs -> isbytes b -> 64 <= fo <= bs -> fo mod 8 = 0 ->
  exists b', dataHeader sb num abs fo b = Ret b' /\ zlen b' = bs /\ isbytes b' /\
    (fo < bs -> dec 2 b' fo = dirFreeTag /\ dec 2 b' (fo + 2) = bs - fo).
Proof.
  intros L Hb Hfo Hm. pose proof (bs_range sb G) as R. fold bs in R. pose proof bs_mod8. destruct uuid_16 as (Eu & Lu & Bu).
  unfold dataHeader. rewrite Hc, Eu. fold bs. do 4 wstep. wlast.
  destruct (Z.ltb_spec 0 (bs - fo)).
  - assert (8 <= bs - fo) by (Z.div_mod_to_equations; lia).
    do 4 wstep. wlast. eexists. split; [done|]. split_and!; [lia|wbytes|]. intros _. split; rdec; [done|].
    change (256 ^ 2) with (2 ^ 16). unfold u16. rewrite Zmod_mod. apply Z.mod_small. lia.
  - eexists. split; [done|]. split_and!; [lia|wbytes|lia].
Qed.

Definition end_of (g : list dirEnt) : Z := 64 + dirBytes h g.
Lemma elt_map {A B} (f : A -> B) l k x : l !! k = Some x -> elt (map f l) (Z.of_nat k) = Ret (f x).
Proof.
  intros E. unfold elt. rewrite (proj2 (Z.ltb_ge (Z.of_nat k) 0)) by lia. rewrite Nat2Z.id.
  change (map f l !! k) with ((f <$> l) !! k). by rewrite list_lookup_fmap, E.
Qed.
(** A block after the header loop, and after the entries are in. *)
Definition headed (b : bytes) (g : list dirEnt) : Prop :=
  (zlen b = bs /\ isbytes b) /\ (end_of g < bs -> dec 2 b (end_of g) = dirFreeTag /\ dec 2 b (end_of g + 2) = bs - end_of g).
Definition laid (b : bytes) (g : list dirEnt) : Prop := headed b g /\ entries_at b h 64 g.
Definition group_ok (g : list dirEnt) : Prop := Forall ent_ok g /\ end_of g <= bs.
Lemma end_of_range g : group_ok g -> 64 <= end_of g <= bs /\ end_of g mod 8 = 0.
Proof.
  intros [Ho Hf]. pose proof (dirBytes_range h g Ho). pose proof (zlen_nonneg g). unfold end_of in *.
  split_and!; [lia|lia|]. Z.div_mod_to_equations; lia.
Qed.

Lemma headed_wrote b b' g lo hi : wrote b b' lo hi -> 0 <= end_of g -> hi <= end_of g \/ end_of g + 4 <= lo -> headed b g -> headed b' g.
Proof.
  intros W H0 Hle [[L Hb] Hf]. split; [split; [by rewrite (wrote_len _ _ _ _ W)|by eapply wrote_bytes]|].
  intros Hlt. rewrite !(wrote_dec _ _ _ _ _ _ W) by lia. by apply Hf.
Qed.
Lemma header_stage num dataStart gs :
  Forall group_ok gs ->
  exists blks, for_acc (length gs) 0 (make_bytes (Z.of_nat (length gs) * bs)) (fun b buf =>
      editBlock bs buf b (fun blk => fo ← elt (map end_of gs) b; dataHeader sb num (u64 (dataStart + b)) fo blk)) = Ret (concat blks) /\
    Forall2 headed blks gs.
Proof.
  intros Hg. pose proof (bs_range sb G) as R. fold bs in R. rewrite (make_blocks bs (length gs)) by lia.
  eapply (edit_groups (fun b g => b = make_bytes bs)); [lia| | |].
  - intros b _ ->. unfold make_bytes. rewrite zlen_replicate. lia.
  - intros k b g Eg ->. rewrite (elt_map end_of gs k g Eg). ostep.
    destruct (end_of_range g (Forall_lookup_1 _ _ _ _ Hg Eg)) as [? ?].
    destruct (dataHeader_spec num (u64 (dataStart + Z.of_nat k)) (end_of g) (make_bytes bs)) as (b' & E & L & Hb & Hf); [|apply isbytes_replicate|done..|].
    + unfold make_bytes. rewrite zlen_replicate. lia.
    + exists b'. done.
  - apply Forall2_lookup_intro; [apply length_replicate|]. intros k b g Eb _. by apply lookup_replicate in Eb as [-> _].
Qed.
Lemma entry_stage blks gs :
  Forall group_ok gs -> Forall2 headed blks gs ->
  exists blks', range_acc (placeAll h 64 0 gs) (concat blks) (putPlaced sb) = Ret (concat blks') /\ Forall2 laid blks' gs.
Proof.
  intros Hg HB. pose proof (bs_range sb G) as R. fold bs in R. pose proof (Forall2_length _ _ _ HB) as HL.
  destruct (place_groups sb blks 0 gs) as (B2 & E2 & Ok2 & L2 & _ & H2).
  - fold bs. lia.
  - destruct (hdr_cases (hasCRC sb)); lia.
  - eapply Forall2_Forall_l; [exact HB|]. apply Forall_true. intros g b Hh. apply Hh.
  - eapply Forall2_Forall_l; [exact HB|]. apply Forall_true. intros g b Hh. apply Hh.
  - lia.
  - eapply Forall_impl; [exact Hg|]. intros g Hgg. apply Hgg.
  - rewrite Hc. eapply Forall_impl; [exact Hg|]. intros g Hgg. apply Hgg.
  - rewrite Hc in E2, H2. change (dirDataHdrSize true) with 64 in E2, H2. fold h in E2, H2. change (Z.of_nat 0) with 0 in E2.
    exists B2. split; [exact E2|]. apply Forall2_lookup_intro; [lia|]. intros k b2 g Eb2 Eg.
    destruct (Forall2_lookup_r _ _ _ _ _ HB Eg) as (b & Eb & Hh). destruct (H2 k g b Eg Eb) as (b' & Eb' & W & A).
    cbn [Nat.add] in Eb'. rewrite Eb2 in Eb'. injection Eb' as <-. split; [|done].
    pose proof (end_of_range g (Forall_lookup_1 _ _ _ _ Hg Eg)) as [? _]. eapply headed_wrote; [exact W|lia|unfold end_of; lia|done].
Qed.
Lemma crc_stage blks gs :
  Forall group_ok gs -> Forall2 laid blks gs ->
  exists blks', for_acc (length gs) 0 (concat blks) (fun b buf => editBlock bs buf b (fun blk => updateCRC blk 4 bs)) = Ret (concat blks') /\
    Forall2 (data_block sb) blks' gs.
Proof.
  intros Hg HB. pose proof (bs_range sb G) as R. fold bs in R. eapply (edit_groups laid); [lia| | |exact HB].
  - intros b g Hl. apply Hl.
  - intros k b g Eg [Hh A]. pose proof Hh as [[L Hb] _]. pose proof (Forall_lookup_1 _ _ _ _ Hg Eg) as Hgg.
    pose proof (end_of_range g Hgg) as [? ?]. destruct (updateCRC_spec b 4 bs) as (b' & E & V & W); [done|unfold crc_layout_ok; lia|].
    destruct (headed_wrote b b' g 4 8 W) as [[L' Hb'] Hf']; [lia|lia|done|]. exists b'. split_and!; [done..|]. constructor; [done..| |done|done].
    eapply (entries_at_slices h b b' 64 g 8 (end_of g)); [apply Hgg| |lia|lia|unfold end_of; lia|done].
    intros. apply (wrote_slice _ _ _ _ W); lia.
Qed.
(** The region [writeDataRegion] writes: one data block per group. *)
Lemma dataRegion_spec num dataStart gs :
  Forall group_ok gs ->
  exists blks, dataRegion sb num dataStart (zlen gs) (placeAll h 64 0 gs) (map end_of gs) = Ret (concat blks) /\
    Forall2 (data_block sb) blks gs.
Proof.
  intros Hg. unfold dataRegion. fold bs h. assert (zlen gs = Z.of_nat (length gs)) as -> by done. rewrite Nat2Z.id.
  destruct (header_stage num dataStart gs Hg) as (B1 & -> & H1). ostep.
  match goal with |- exists _, (?m ≫= _) = _ /\ _ => change m with (range_acc (placeAll h 64 0 gs) (concat B1) (putPlaced sb)) end.
  destruct (entry_stage B1 gs Hg H1) as (B2 & -> & H2). ostep. rewrite Hc. by apply crc_stage.
Qed.
End DataBlock.

(** ** Reading a data block *)
Section ReadBlock.
Context (sb : superblock) (G : geometry_ok sb) (Hc : hasCRC sb = true).
Let h := hasFType sb.
Let bs := blockSize sb.
Context (b : bytes) (g : list dirEnt) (Db : data_block sb b g) (Hg : Forall ent_ok g) (Hfit : end_of sb g <= bs).

Lemma block_geometry : 512 <= bs <= 65536 /\ zlen b = bs /\ 0 <= dirBytes h g /\ (end_of sb g = bs \/ 8 <= bs - end_of sb g) /\
  scan_fuel b = (length g + S (S (scan_fuel b - length g - 2)))%nat.
Proof.
  pose proof (bs_range sb G) as R. pose proof (bs_mod8 sb G) as M. fold bs in R, M. pose proof (db_len _ _ _ Db) as L. fold bs in L.
  pose proof (dirBytes_range h g Hg) as [D1 D8]. pose proof (zlen_nonneg g). unfold end_of in *. fold h in Hfit |- *.
  split_and!; [lia..| |].
  - Z.div_mod_to_equations; lia.
  - unfold scan_fuel, zlen in *. lia.
Qed.
(** All three scans end behind the entries: at the block's end or across the free region. *)
Lemma scans_stop n name :
  parseLoop (S (S n)) b h (end_of sb g) = Ret [] /\ searchLoop (S (S n)) b name h (end_of sb g) = Ret None /\
  parentLoop (S (S n)) b h (end_of sb g) = Ret 0.
Proof.
  destruct block_geometry as (R & L & D0 & Hend & _). assert (64 <= end_of sb g) by (unfold end_of; fold h; lia).
  cbn [parseLoop searchLoop parentLoop]. destruct (Z.eq_dec (end_of sb g) bs) as [E|Hne].
  { rewrite !(proj2 (Z.ltb_lt (zlen b) _)), !(proj2 (Z.leb_le (zlen b) _)) by lia. done. }
  destruct (db_free _ _ _ Db) as [T1 T2]; [fold h bs; unfold end_of in Hne, Hend, Hfit; fold h in Hne, Hend, Hfit; lia|].
  fold h in T1, T2. change (64 + dirBytes h g) with (end_of sb g) in T1, T2. fold bs in T2.
  assert (be16 b (end_of sb g) = Ret dirFreeTag /\ be16 b (end_of sb g + 2) = Ret (bs - end_of sb g)) as [-> ->].
  { rewrite !be_get_ok, T1, T2 by lia. done. }
  ostep. rewrite Z.eqb_refl. ostep. rewrite (proj2 (Z.ltb_ge (bs - _) 8)) by lia.
  replace (end_of sb g + (bs - end_of sb g)) with bs by lia.
  rewrite (proj2 (Z.ltb_lt (zlen b) (bs + 10))), (proj2 (Z.leb_le (zlen b) (bs + 8))) by lia.
  destruct (Z.ltb_spec (zlen b) (end_of sb g + 10)), (Z.leb_spec (zlen b) (end_of sb g + 8)); try lia; done.
Qed.
Lemma readBlock_spec :
  parseDirBlock b h (hasCRC sb) = Ret (listing h g) /\
  (forall name, searchDirBlock b name h (hasCRC sb) = Ret (firstMatch name g)) /\
  blockDirParent b h (hasCRC sb) = Ret (default 0 (firstMatch dotdot g)).
Proof.
  destruct block_geometry as (R & L & D0 & _ & Fs). unfold parseDirBlock, searchDirBlock, blockDirParent. rewrite Hc.
  change (dirDataHdrSize true) with 64. rewrite (proj2 (Z.leb_gt _ 64)) by lia. rewrite Fs.
  pose proof (db_bytes _ _ _ Db) as Hb. pose proof (db_entries _ _ _ Db) as A. fold h in A.
  assert (64 + dirBytes h g <= zlen b) as Hle by (unfold end_of in Hfit; fold h in Hfit; lia).
  split_and!; [|intros name|].
  - rewrite parseLoop_entries by (done || lia). change (64 + dirBytes h g) with (end_of sb g).
    rewrite (proj1 (scans_stop _ [])). ostep. by rewrite app_nil_r.
  - rewrite searchLoop_entries by (done || lia). destruct (firstMatch name g); [done|].
    apply (proj1 (proj2 (scans_stop _ name))).
  - rewrite parentLoop_entries by (done || lia). destruct (firstMatch dotdot g); [done|].
    apply (proj2 (proj2 (scans_stop _ []))).
Qed.
End ReadBlock.

(** ** The addresses of the index *)
Lemma trailingZeros32_pow k : 9 <= k <= 16 -> trailingZeros32 (2 ^ k) = k.
Proof. intros Hk. assert (In k [9; 10; 11; 12; 13; 14; 15; 16]) as Hin by (cbn; lia). cbn in Hin. repeat destruct Hin as [<-|Hin]; done. Qed.

Section Index.
Context (sb : superblock) (G : geometry_ok sb).
Let h := hasFType sb.
Let bs := blockSize sb.

Lemma leafOf_addr p :
  0 <= pblk p -> 0 <= poff p < bs -> (pblk p + 1) * bs <= 2 ^ 35 ->
  leafOf sb p = (xfsDirHash (ename (pent p)), (pblk p * bs + poff p) / 8).
Proof.
  intros Hb Ho Hm. unfold leafOf. fold bs. unfold bs in *. destruct (g_bs _ G) as (k & Hk & E). rewrite E in *.
  rewrite trailingZeros32_pow by done. f_equal. unfold shl64, shr64. rewrite (u64_small (k - 3)) by lia.
  assert (2 ^ k = 8 * 2 ^ (k - 3)) as Ek by (change 8 with (2 ^ 3); rewrite <- Z.pow_add_r by lia; f_equal; lia).
  assert (0 < 2 ^ (k - 3)) by (apply Z.pow_pos_nonneg; lia). rewrite Ek in *.
  rewrite (u64_small (Z.shiftl _ _)) by (rewrite Z.shiftl_mul_pow2 by lia; nia).
  rewrite Z.shiftr_div_pow2 by lia. change (2 ^ 3) with 8.
  assert (poff p / 8 < 2 ^ (k - 3)) by (apply Z.div_lt_upper_bound; lia). pose proof (Z.div_pos (poff p) 8).
  rewrite lor_shiftl_add by lia.
  replace (pblk p * (8 * 2 ^ (k - 3)) + poff p) with (pblk p * 2 ^ (k - 3) * 8 + poff p) by lia.
  rewrite Z.div_add_l by lia. apply u32_small. nia.
Qed.

(** Leaf record [l] points at entry [e] of the directory's data blocks. *)
Definition points_at (blks : list bytes) (l : leafEnt) (e : dirEnt) : Prop :=
  l.1 = xfsDirHash (ename e) /\
  exists b, blks !! Z.to_nat (l.2 * 8 / bs) = Some b /\ entry_at b h (l.2 * 8 mod bs) e.
Definition placed_ok (blks : list bytes) (p : placedEnt) : Prop :=
  0 <= pblk p < zlen blks /\ 0 <= poff p < bs /\ poff p mod 8 = 0 /\
  exists b, blks !! Z.to_nat (pblk p) = Some b /\ entry_at b h (poff p) (pent p).
Lemma leafOf_points blks p :
  placed_ok blks p -> zlen blks * bs <= 2 ^ 35 -> points_at blks (leafOf sb p) (pent p).
Proof.
  intros (Hb & Ho & Hm & b & Eb & Ee) Hmax. pose proof (bs_range sb G) as R. pose proof (bs_mod8 sb G) as M. fold bs in R, M.
  rewrite leafOf_addr by nia. split; [done|]. cbn [snd]. exists b.
  assert ((pblk p * bs + poff p) / 8 * 8 = pblk p * bs + poff p) as ->.
  { rewrite Z.mul_comm, <- Z_div_exact_2; [done|lia|]. rewrite Z.add_mod, Z.mul_mod, M, Hm, Z.mul_0_r by lia. done. }
  rewrite Z.div_add_l, Z.div_small, Z.add_0_r by lia. split; [done|].
  rewrite Z.add_comm, Z_mod_plus_full, Z.mod_small by lia. done.
Qed.
Lemma placeAt_ok blks k b off g :
  blks !! k = Some b -> Forall ent_ok g -> entries_at b h off g -> 0 <= off -> off mod 8 = 0 -> off + dirBytes h g <= bs ->
  Forall (placed_ok blks) (placeAt h (Z.of_nat k) off g).
Proof.
  intros Hk Hg. pose proof (lookup_lt_Some _ _ _ Hk). revert off. induction Hg as [|e g He Hg IH]; intros off A Ho Hm Hf; cbn [placeAt]; [constructor|].
  cbn [entries_at dirBytes] in A, Hf. destruct A as [Ae A]. pose proof (esize_range h e He). pose proof (dirBytes_range h g Hg). pose proof (zlen_nonneg g).
  constructor; [|apply IH; [done|lia|Z.div_mod_to_equations; lia|lia]].
  unfold placed_ok, zlen. cbn [pblk poff pent]. rewrite Nat2Z.id. split_and!; [lia..|done|eauto].
Qed.
Lemma placeAll_ok blks pre suf gs :
  blks = pre ++ suf -> Forall2 (data_block sb) suf gs -> Forall (group_ok sb) gs ->
  Forall (placed_ok blks) (placeAll h 64 (zlen pre) gs).
Proof.
  intros -> HB. revert pre. induction HB as [|b g suf gs Hb HB IH]; intros pre Hg; cbn [placeAll]; [constructor|].
  apply Forall_cons in Hg as [[Hge Hgf] Hg]. apply Forall_app. split.
  - apply (placeAt_ok _ (length pre) b); [by apply list_lookup_middle|done|apply (db_entries _ _ _ Hb)|lia|done|exact Hgf].
  - specialize (IH (pre ++ [b]) Hg). rewrite zlen_app in IH. change (zlen [b]) with 1 in IH. by rewrite <- app_assoc in IH.
Qed.
(** The index: sorted, and one record per entry, pointing at it. *)
Lemma leafEntries_points blks placed :
  Forall (placed_ok blks) placed -> zlen blks * bs <= 2 ^ 35 ->
  Sorted leaf_le (leafEntries sb placed) /\
  exists es, es ≡ₚ map pent placed /\ Forall2 (points_at blks) (leafEntries sb placed) es.
Proof.
  intros Hp Hmax. split; [apply Sorted_merge_sort, _|]. unfold leafEntries.
  destruct (Permutation_map_inv _ _ (merge_sort_Permutation leaf_le (map (leafOf sb) placed))) as (qs & -> & Pq).
  exists (map pent qs). split; [change (map pent ?l) with (pent <$> l); by rewrite Pq|].
  assert (Forall (placed_ok blks) qs) as Hq by (by rewrite <- Pq).
  clear -Hq Hmax G. induction Hq as [|q qs Hq _ IH]; cbn; constructor; [by apply leafOf_points|done].
Qed.
End Index.

(** ** The directory's data *)
Lemma packDirEntries_groups sb num parent entries :
  geometry_ok sb -> hasCRC sb = true -> Forall ent_ok (allEntries num parent entries) ->
  exists g gs, allEntries num parent entries = concat (g :: gs) /\ firstMatch dotdot g = Some parent /\
    Forall (group_ok sb) (g :: gs) /\
    packDirEntries sb num parent entries =
      (placeAll (hasFType sb) 64 0 (g :: gs), map (end_of sb) (g :: gs), zlen (g :: gs)).
Proof.
  intros G Hc Ha. pose proof (bs_range sb G) as R. unfold packDirEntries. fold (allEntries num parent entries). rewrite packLoop_groups, Hc.
  change (dirDataHdrSize true) with 64. pose proof (groupEnts_spec sb (allEntries num parent entries) 64) as S. rewrite Hc in S.
  specialize (S ltac:(lia) ltac:(done) Ha ltac:(lia)).
  assert ((groupEnts sb (allEntries num parent entries) 64).1 = mkDirEnt dot num 2 :: mkDirEnt dotdot parent 2 :: drop 2 (groupEnts sb (allEntries num parent entries) 64).1) as E.
  { unfold allEntries. cbn [groupEnts]. unfold esize. cbn [ename]. change (zlen dot) with 1. change (zlen dotdot) with 2.
    assert (dirEntrySize 1 (hasFType sb) = 16 /\ dirEntrySize 2 (hasFType sb) = 16) as [-> ->] by (destruct (hasFType sb); done).
    rewrite !(proj2 (Z.ltb_ge _ _)) by lia. by destruct (groupEnts sb entries (64 + 16 + 16)) as [g gs]. }
  destruct (groupEnts sb (allEntries num parent entries) 64) as [g gs]. cbn [fst] in E. destruct S as (Eall & Hg & Hgs).
  exists g, gs. rewrite Eall in Ha |- *. apply Forall_app in Ha as [Hag Hags].
  split_and!; [done|by rewrite E| |].
  - constructor; [by split|]. apply Forall_forall. intros g' Hin. split.
    + rewrite Forall_forall in Hags. apply Forall_forall. intros e He. apply Hags. apply list_elem_of_In, in_concat. exists g'.
      split; by apply list_elem_of_In.
    + rewrite Forall_forall in Hgs. apply (Hgs g' Hin).
  - rewrite zlen_cons. cbn [placeAll map]. do 2 f_equal.
Qed.
Lemma concat_listing h gs : concat (map (listing h) gs) = listing h (concat gs).
Proof. unfold listing. induction gs as [|g gs IH]; cbn; [done|]. by rewrite filter_app, map_app, IH. Qed.

(** C10 (round trip).  The data of a leaf- or node-form directory: [packDirEntries] and
    [writeDataRegion] lay "." , ".." and the entries over [D] blocks (in whole entries, in
    order) so that listing the blocks one after the other gives the entries back, the first
    block's ".." is the parent, searching a block for a name finds exactly the first entry
    of that name it holds and nothing else, and every block's CRC verifies.  The leaf index
    is sorted by hash and has one record per entry, whose address (in 8-byte units) is the
    block and offset at which that very entry is stored. *)
Theorem leafDir_data_roundtrip (sb : superblock) (num parent dataStart : Z) (entries : list dirEnt) :
  sb_width sb -> geometry_ok sb -> hasCRC sb = true ->
  Forall ent_ok (allEntries num parent entries) -> Forall (fun e => is_dots (ename e) = false) entries ->
  let '(placed, blockEnd, D) := packDirEntries sb num parent entries in
  exists blks gs, dataRegion sb num dataStart D placed blockEnd = Ret (concat blks) /\ D = zlen blks /\
    allEntries num parent entries = concat gs /\
    Forall (fun b => zlen b = blockSize sb /\ verifyCRC b 4 (blockSize sb) = Ret true) blks /\
    (exists ls, Forall2 (fun b l => parseDirBlock b (hasFType sb) (hasCRC sb) = Ret l) blks ls /\
       concat ls = map (toDirEntry (hasFType sb)) entries) /\
    (exists b0, head blks = Some b0 /\ blockDirParent b0 (hasFType sb) (hasCRC sb) = Ret parent) /\
    Forall2 (fun b g => forall name, searchDirBlock b name (hasFType sb) (hasCRC sb) = Ret (firstMatch name g)) blks gs /\
    Sorted leaf_le (leafEntries sb placed) /\
    (D * blockSize sb <= 2 ^ 35 ->
     exists es, es ≡ₚ allEntries num parent entries /\ Forall2 (points_at sb blks) (leafEntries sb placed) es).
Proof.
  intros W G Hc Ha Hd. destruct (packDirEntries_groups sb num parent entries G Hc Ha) as (g & gs & Eall & Hp & Hg & ->).
  destruct (dataRegion_spec sb W G Hc num dataStart (g :: gs) Hg) as (blks & E & HB). exists blks, (g :: gs).
  pose proof (Forall2_length _ _ _ HB) as HL.
  assert (Forall2 (fun b g => parseDirBlock b (hasFType sb) (hasCRC sb) = Ret (listing (hasFType sb) g) /\
    (forall name, searchDirBlock b name (hasFType sb) (hasCRC sb) = Ret (firstMatch name g)) /\
    blockDirParent b (hasFType sb) (hasCRC sb) = Ret (default 0 (firstMatch dotdot g))) blks (g :: gs)) as HR.
  { apply Forall2_lookup_intro; [done|]. intros i b g' Eb Eg. destruct (Forall_lookup_1 _ _ _ _ Hg Eg) as [? ?].
    apply (readBlock_spec sb G Hc b g'); [|done..]. destruct (Forall2_lookup_l _ _ _ _ _ HB Eb) as (? & E' & ?). congruence. }
  assert (zlen (g :: gs) = zlen blks) as Ez by (unfold zlen; lia).
  split_and!; [done|done|done| | | | | |].
  - eapply Forall2_Forall_l; [exact HB|]. apply Forall_true. intros g' b [? ? ? ? ?]. done.
  - exists (map (listing (hasFType sb)) (g :: gs)). split.
    + change (map ?f ?l) with (f <$> l). apply Forall2_fmap_r. eapply Forall2_impl; [exact HR|]. cbn. by intros ? ? [? _].
    + rewrite concat_listing, <- Eall. by apply listing_all.
  - inversion HR as [|b ? blks' ? (_ & _ & Hpar)]; subst. exists b. split; [done|]. by rewrite Hpar, Hp.
  - eapply Forall2_impl; [exact HR|]. by intros ? ? (_ & ? & _).
  - apply Sorted_merge_sort, _.
  - intros Hmax. rewrite Ez in Hmax. destruct (leafEntries_points sb G blks (placeAll (hasFType sb) 64 0 (g :: gs))) as (_ & es & P & F);
      [by apply (placeAll_ok sb blks [] blks)|done|].
    exists es. split; [|done]. rewrite P, Eall. pose proof (placeAll_ents sb 0 (g :: gs)) as Ep. rewrite Hc in Ep.
    by rewrite <- Ep.
Qed.

(** Three hundred two-byte names: two data blocks. *)
Definition many_entries : list dirEnt := map (fun k => mkDirEnt [Z.of_nat k / 100 + 65; Z.of_nat k mod 100 + 65] (Z.of_nat k + 131) 1) (seq 0 300).
Lemma leafDir_data_roundtrip_witness :
  hasCRC sample_sb = true /\
  exists blks ls, dataRegion sample_sb 128 9 2 (packDirEntries sample_sb 128 128 many_entries).1.1 (packDirEntries sample_sb 128 128 many_entries).1.2 = Ret (concat blks) /\
    Forall2 (fun b l => parseDirBlock b (hasFType sample_sb) (hasCRC sample_sb) = Ret l) blks ls /\
    concat ls = map (toDirEntry (hasFType sample_sb)) many_entries.
Proof.
  split; [done|].
  pose proof (leafDir_data_roundtrip sample_sb 128 128 9 many_entries sample_sb_width sample_sb_geometry eq_refl
    ltac:(apply (bool_decide_unpack _); vm_compute; exact I) ltac:(apply (bool_decide_unpack _); vm_compute; exact I)) as H.
  destruct (packDirEntries sample_sb 128 128 many_entries) as [[placed blockEnd] D] eqn:E. cbn [fst snd].
  assert (D = 2) as -> by (vm_compute in E; by injection E as _ _ <-).
  destruct H as (blks & gs & Ed & _ & _ & _ & (ls & Hl & Ec) & _). exists blks, ls. split_and!; [exact Ed|exact Hl|exact Ec].
Defined.
