(* ===== verification/LeafTree.v ===== *)
(** * The hash B-tree of node-form directories: theorems

    What [dirNodeBuild] of LeafDir produces: a plan that is a tree over the sorted leaf
    records, numbered level by level from the root, and a region of blocks in which a
    descent by hash from block 0 ends in the leaf block that holds the first record of
    that hash. *)
From S2P Require Import Prelude Bytes Crc Writers Extent Device Superblock SafeIO Inode FileRead Dir Lookup AgBlocks AllocTree Alloc Refcount FileWrite LeafDir LeafDirSpec.

(** ** Slices of lists *)
Lemma elt_ok {A} (l : list A) k x : l !! k = Some x -> elt l (Z.of_nat k) = Ret x.
Proof. intros E. unfold elt. rewrite (proj2 (Z.ltb_ge (Z.of_nat k) 0)), Nat2Z.id, E by lia. done. Qed.
Lemma elt_last {A} (l : list A) x : last l = Some x -> elt l (zlen l - 1) = Ret x.
Proof.
  intros E. rewrite last_lookup in E. destruct l as [|y l]; [done|]. rewrite zlen_cons.
  replace (1 + zlen l - 1) with (Z.of_nat (pred (length (y :: l)))) by (cbn [length]; unfold zlen; lia). by apply elt_ok.
Qed.
Lemma span_rest {A} (l rest : list A) lo n :
  0 <= lo -> drop (Z.to_nat lo) l = rest -> 0 < n <= zlen rest -> span l lo (lo + n) = Ret (take (Z.to_nat n) rest).
Proof.
  intros Hlo <- Hn. unfold span. replace (lo + n - lo) with n by lia. unfold zlen in *. rewrite length_drop in Hn.
  by rewrite !(proj2 (Z.leb_le _ _)) by lia.
Qed.
Lemma take_nonempty {A} (l : list A) n : 0 < n -> l <> [] -> take (Z.to_nat n) l <> [].
Proof. intros Hn Hl. destruct l; [done|]. by destruct (Z.to_nat n) eqn:E; [lia|]. Qed.
Lemma last_nonempty {A} (l : list A) : l <> [] -> exists x, last l = Some x.
Proof. intros Hl. destruct (last l) eqn:E; [eauto|]. by apply last_None in E. Qed.

(** ** Trees over leaf records *)
Definition lasthash (ls : list leafEnt) : Z := default 0 (fst <$> last ls).
Definition leaf_plan (perLeaf : Z) (p : plan) : Prop :=
  isLeaf p = true /\ children p = [] /\ chunk p <> [] /\ zlen (chunk p) <= perLeaf /\ phash p = lasthash (chunk p).
Definition inner_plan (mx : Z) (p : plan) : Prop :=
  isLeaf p = false /\ children p <> [] /\ zlen (children p) <= mx /\ chunk p = [].
(** Node [idx] is the root of a tree of height [d] over the records [ls]. *)
Fixpoint subtree (nodes : list plan) (d : nat) (idx : nat) (ls : list leafEnt) : Prop :=
  exists p, nodes !! idx = Some p /\ phash p = lasthash ls /\ ls <> [] /\
  match d with
  | O => isLeaf p = true /\ chunk p = ls
  | S d' => isLeaf p = false /\ children p <> [] /\ exists lss, Forall2 (subtree nodes d') (children p) lss /\ concat lss = ls
  end.
Lemma subtree_mono nodes ext d idx ls : subtree nodes d idx ls -> subtree (nodes ++ ext) d idx ls.
Proof.
  revert idx ls. induction d as [|d IH]; intros idx ls (p & E & Hh & Hn & H); exists p;
    (split; [by apply lookup_app_l_Some|split; [done|split; [done|]]]); [done|].
  destruct H as (Hl & Hc & lss & HF & HC). split_and!; [done..|]. exists lss. split; [|done]. eapply Forall2_impl; [exact HF|]. auto.
Qed.

Lemma leafPlans_spec n j perLeaf lents rest :
  0 <= j -> 0 < perLeaf -> drop (Z.to_nat (j * perLeaf)) lents = rest ->
  zlen rest <= Z.of_nat n * perLeaf -> (n <> 0%nat -> (Z.of_nat n - 1) * perLeaf < zlen rest) ->
  exists ps, leafPlans n j perLeaf lents = Ret ps /\ length ps = n /\ concat (map chunk ps) = rest /\ Forall (leaf_plan perLeaf) ps.
Proof.
  intros Hj Hp. revert j rest Hj. induction n as [|n IH]; intros j rest Hj Hd Hle Hgt.
  { exists []. split_and!; [done|done| |constructor]. destruct rest; [done|]. rewrite zlen_cons in Hle. pose proof (zlen_nonneg rest). lia. }
  specialize (Hgt ltac:(lia)). assert (0 < zlen rest) as Hpos by nia. assert (rest <> []) as Hne by (intros ->; done).
  assert (zlen lents = j * perLeaf + zlen rest) as Hl.
  { subst rest. unfold zlen in *. rewrite length_drop in *. lia. }
  set (c := Z.min perLeaf (zlen rest)). assert (0 < c) by (unfold c; lia).
  cbn [leafPlans]. assert ((if zlen lents <? j * perLeaf + perLeaf then zlen lents else j * perLeaf + perLeaf) = j * perLeaf + c) as ->.
  { destruct (Z.ltb_spec (zlen lents) (j * perLeaf + perLeaf)); unfold c; lia. }
  rewrite (span_rest lents rest) by (done || nia || (unfold c; lia)). ostep.
  pose proof (take_nonempty rest c ltac:(lia) Hne) as Hne'.
  destruct (last_nonempty _ Hne') as [l El]. rewrite (elt_last _ _ El). ostep.
  destruct (IH (j + 1) (drop (Z.to_nat perLeaf) rest)) as (ps & -> & Lp & Cp & Fp).
  - lia.
  - rewrite <- Hd, drop_drop. f_equal. nia.
  - unfold zlen in *. rewrite length_drop. lia.
  - unfold zlen in *. rewrite length_drop. lia.
  - ostep. eexists. split; [done|]. split_and!; [cbn; lia| |].
    + cbn [map concat chunk]. rewrite Cp. unfold c. destruct (Z.le_gt_cases perLeaf (zlen rest)).
      * rewrite Z.min_l by lia. apply take_drop.
      * rewrite Z.min_r by lia. unfold zlen in *. rewrite (take_ge rest), (drop_ge rest) by lia. apply app_nil_r.
    + constructor; [|done]. unfold leaf_plan. cbn [isLeaf children chunk phash]. split_and!; [done..| |].
      * unfold zlen. rewrite length_take. unfold c. lia.
      * unfold lasthash. by rewrite El.
Qed.
Lemma leaf_subtree nodes perLeaf idx p : nodes !! idx = Some p -> leaf_plan perLeaf p -> subtree nodes 0 idx (chunk p).
Proof. intros E (? & ? & ? & ? & ?). by exists p. Qed.

Lemma lasthash_app l1 l2 : l2 <> [] -> lasthash (l1 ++ l2) = lasthash l2.
Proof. intros Hn. unfold lasthash. rewrite last_app. destruct (last_nonempty l2 Hn) as [x ->]. done. Qed.
Lemma lasthash_concat lss l : last lss = Some l -> l <> [] -> lasthash (concat lss) = lasthash l.
Proof.
  intros El Hn. apply last_Some in El as [lss' ->]. rewrite concat_app. cbn. rewrite app_nil_r. by apply lasthash_app.
Qed.
Lemma Forall2_last {A B} (P : A -> B -> Prop) l k x : Forall2 P l k -> last l = Some x -> exists y, last k = Some y /\ P x y.
Proof.
  intros HF E. rewrite last_lookup in E. destruct (Forall2_lookup_l _ _ _ _ _ HF E) as (y & Ey & ?). exists y.
  by rewrite last_lookup, <- (Forall2_length _ _ _ HF).
Qed.
Lemma subtree_nonempty nodes d idx ls : subtree nodes d idx ls -> ls <> [].
Proof. destruct d; by intros (p & _ & _ & ? & _). Qed.
(** The node made over a non-empty group of trees. *)
Lemma subtree_group nodes d cs lss p c :
  Forall2 (subtree nodes d) cs lss -> last cs = Some c -> nodes !! c = Some p ->
  phash p = lasthash (concat lss) /\ concat lss <> [].
Proof.
  intros HF El Ep. destruct (Forall2_last _ _ _ _ HF El) as (l & El' & Hs).
  assert (phash p = lasthash l /\ l <> []) as [Hh Hn].
  { destruct d; destruct Hs as (p' & Ep' & ? & ? & _); rewrite Ep in Ep'; by injection Ep' as <-. }
  split; [by rewrite (lasthash_concat lss l)|]. apply last_Some in El' as [lss' ->]. rewrite concat_app. cbn. rewrite app_nil_r. by destruct (concat lss').
Qed.

Lemma parentPlans_spec n mx p base extra pos level nodes next rest lss d :
  0 <= pos -> 0 <= p -> 1 <= base -> base + 1 <= mx \/ (base <= mx /\ extra <= p) -> drop (Z.to_nat pos) level = rest -> Forall2 (subtree nodes d) rest lss ->
  zlen rest = Z.of_nat n * base + Z.max 0 (Z.min (Z.of_nat n) (extra - p)) ->
  exists new lss', parentPlans n p base extra pos level nodes next = Ret (nodes ++ new, next ++ seq (length nodes) n) /\
    length new = n /\ concat (map children new) = rest /\ Forall (inner_plan mx) new /\
    Forall2 (subtree (nodes ++ new) (S d)) (seq (length nodes) n) lss' /\ concat lss' = concat lss.
Proof.
  revert p pos nodes next rest lss. induction n as [|n IH]; intros p pos nodes next rest lss Hpos Hp Hb Hmx Hd HF Hz.
  { destruct rest as [|r rest]; [|rewrite zlen_cons in Hz; pose proof (zlen_nonneg rest); lia]. inversion HF; subst.
    exists [], []. cbn. rewrite !app_nil_r. split_and!; constructor. }
  set (cnt := if p <? extra then base + 1 else base).
  assert (base <= cnt <= mx /\ 0 < cnt <= zlen rest /\ zlen rest - cnt = Z.of_nat n * base + Z.max 0 (Z.min (Z.of_nat n) (extra - (p + 1)))) as (Hc1 & Hc2 & Hc3).
  { unfold cnt. destruct (Z.ltb_spec p extra); nia. }
  assert (rest <> []) as Hne by (intros E; rewrite E in Hc2; change (zlen []) with 0 in Hc2; lia). cbn [parentPlans]. fold cnt. rewrite (span_rest level rest) by (done || lia). ostep.
  pose proof (take_nonempty rest cnt ltac:(lia) Hne) as Hne'. set (cs := take (Z.to_nat cnt) rest) in *.
  destruct (last_nonempty cs Hne') as [c Ec]. rewrite (elt_last _ _ Ec). ostep.
  assert (Forall2 (subtree nodes d) cs (take (Z.to_nat cnt) lss)) as HFc by (by apply Forall2_take).
  destruct (Forall2_last _ _ _ _ HFc Ec) as (lc & _ & Hsc).
  assert (exists pc, nodes !! c = Some pc) as [pc Epc] by (destruct d; destruct Hsc as (pc & ? & _); eauto).
  rewrite (elt_ok nodes c pc) by done. ostep. destruct (subtree_group _ _ _ _ _ _ HFc Ec Epc) as [Hph Hcn].
  set (np := mkPlan false (phash pc) cs []).
  destruct (IH (p + 1) (pos + cnt) (nodes ++ [np]) (next ++ [length nodes]) (drop (Z.to_nat cnt) rest) (drop (Z.to_nat cnt) lss))
    as (new & lss' & -> & Ln & Cn & Fi & Fs & Cs).
  - lia.
  - lia.
  - done.
  - destruct Hmx; [by left|]. right. lia.
  - rewrite <- Hd, drop_drop. f_equal. lia.
  - apply Forall2_drop. eapply Forall2_impl; [exact HF|]. intros. by apply subtree_mono.
  - unfold zlen in *. rewrite length_drop. lia.
  - exists (np :: new), (concat (take (Z.to_nat cnt) lss) :: lss'). rewrite <- !app_assoc in *. cbn [app] in *. rewrite length_app in *. cbn [length] in *.
    rewrite Nat.add_1_r in *. split_and!; [done|lia| |constructor; [|done]|constructor; [|done]|].
    + cbn [map concat children np]. rewrite Cn. apply take_drop.
    + unfold inner_plan. cbn. split_and!; [done..| |done]. unfold cs, zlen. rewrite length_take. lia.
    + exists np. split; [by apply list_lookup_middle|]. split_and!; [exact Hph|done|done|done|].
      exists (take (Z.to_nat cnt) lss). split; [|done]. eapply Forall2_impl; [exact HFc|]. intros. by apply subtree_mono.
    + cbn [concat]. rewrite Cs, <- concat_app, take_drop. done.
Qed.

(** ** The levels *)
Definition childrenOf (nodes : list plan) (l : list nat) : list nat :=
  concat (map (fun i => match nodes !! i with Some p => children p | None => [] end) l).
(** Levels from the root down: the children of each level are the next one, in order. *)
Fixpoint chain (nodes : list plan) (rl : list (list nat)) : Prop :=
  match rl with
  | [] => True
  | l :: r => childrenOf nodes l = default [] (head r) /\ chain nodes r
  end.
Lemma childrenOf_ext nodes ext l : Forall (fun i => (i < length nodes)%nat) l -> childrenOf (nodes ++ ext) l = childrenOf nodes l.
Proof. unfold childrenOf. induction 1 as [|i l Hi _ IH]; cbn; [done|]. by rewrite lookup_app_l, IH. Qed.
Lemma childrenOf_seq nodes new : childrenOf (nodes ++ new) (seq (length nodes) (length new)) = concat (map children new).
Proof.
  unfold childrenOf. revert nodes. induction new as [|p new IH]; intros nodes; cbn [length seq map concat]; [done|].
  rewrite list_lookup_middle by done. f_equal. specialize (IH (nodes ++ [p])). rewrite length_app, Nat.add_1_r, <- app_assoc in IH. exact IH.
Qed.
Lemma chain_ext nodes ext rl : Forall (Forall (fun i => (i < length nodes)%nat)) rl -> chain nodes rl -> chain (nodes ++ ext) rl.
Proof. induction 1 as [|l r Hl _ IH]; [done|]. intros [E C]. split; [by rewrite childrenOf_ext|auto]. Qed.
Lemma levels_range n (levels : list (list nat)) :
  concat levels = seq 0 n -> Forall (Forall (fun i => (i < n)%nat)) (rev levels).
Proof.
  intros E. apply Forall_rev, Forall_forall. intros l Hl. apply Forall_forall. intros i Hi.
  assert (i ∈ concat levels) as Hin by (apply list_elem_of_In, in_concat; exists l; split; by apply list_elem_of_In).
  rewrite E in Hin. apply elem_of_seq in Hin. lia.
Qed.
Lemma level_split len mx : 4 <= mx -> 2 <= len ->
  let m := Z.quot (len + mx - 1) mx in
  1 <= m /\ 2 * m <= len /\ 1 <= Z.quot len m /\
  (Z.quot len m + 1 <= mx \/ (Z.quot len m <= mx /\ Z.rem len m <= 0)) /\
  len = m * Z.quot len m + Z.max 0 (Z.min m (Z.rem len m)).
Proof.
  intros Hmx Hl. cbn zeta. rewrite (Z.quot_div_nonneg (len + mx - 1)) by lia. set (m := (len + mx - 1) / mx).
  assert (mx * m <= len + mx - 1 < mx * m + mx) as Hm.
  { unfold m. pose proof (Z.mul_div_le (len + mx - 1) mx). pose proof (Z.mul_succ_div_gt (len + mx - 1) mx). lia. }
  assert (1 <= m) by nia. rewrite Z.quot_div_nonneg, Z.rem_mod_nonneg by lia.
  pose proof (Z.div_mod len m). pose proof (Z.mod_pos_bound len m). set (q := len / m) in *. set (r := len mod m) in *.
  assert (2 * m <= len) by nia. split_and!; [lia|lia|nia|nia|rewrite Z.min_r, Z.max_r by lia; lia].
Qed.

Definition plan_ok (perLeaf mx : Z) (p : plan) : Prop := leaf_plan perLeaf p \/ inner_plan mx p.
Record planned (perLeaf mx : Z) (lents : list leafEnt) (nodes : list plan) (levels : list (list nat)) (d : nat) (level : list nat) : Prop := {
  pl_trees : exists lss, Forall2 (subtree nodes d) level lss /\ concat lss = lents;
  pl_seq : concat levels = seq 0 (length nodes);
  pl_last : last levels = Some level;
  pl_chain : chain nodes (rev levels);
  pl_ok : Forall (plan_ok perLeaf mx) nodes;
  pl_down : forall i p, nodes !! i = Some p -> Forall (fun c => (c < i)%nat) (children p);
  pl_sub : Forall (fun p => chunk p ⊆ lents) nodes;
  pl_leaves : exists k, levels !! 0%nat = Some (seq 0 k) /\ (k <= length nodes)%nat /\ concat (map chunk (take k nodes)) = lents;
  pl_height : length levels = S d /\ forall i lv, levels !! i = Some lv -> Forall (fun idx => exists ls, subtree nodes i idx ls) lv
}.
Lemma planLevels_spec fuel perLeaf mx lents level nodes levels d :
  4 <= mx -> level <> [] -> (length level <= S fuel)%nat -> planned perLeaf mx lents nodes levels d level ->
  exists nodes' levels' root d', planLevels fuel mx level nodes levels = Ret (nodes', levels') /\
    planned perLeaf mx lents nodes' levels' d' [root] /\ (length nodes' < length nodes + length level)%nat.
Proof.
  intros Hmx. revert level nodes levels d. induction fuel as [|fuel IH]; intros level nodes levels d Hne Hf P; cbn [planLevels].
  all: destruct (Z.leb_spec (zlen level) 1) as [Hle|Hgt]; [|try (unfold zlen in Hgt; lia)].
  1,2: destruct level as [|root [|? ?]]; [done| |unfold zlen in Hle; cbn [length] in Hle; lia];
       exists nodes, levels, root, d; split_and!; [done|done|cbn; lia].
  destruct (level_split (zlen level) mx Hmx ltac:(lia)) as (Hm1 & Hm2 & Hb & Hbm & Hz).
  set (m := Z.quot (zlen level + mx - 1) mx) in *. rewrite (proj2 (Z.eqb_neq mx 0)), (proj2 (Z.eqb_neq m 0)) by lia.
  destruct P as [(lss & HF & HC) Ps Pl Pc Po Pd Pu (k0 & Pk0 & Pk1 & Pk2) [Ph Pt]].
  destruct (parentPlans_spec (Z.to_nat m) mx 0 (Z.quot (zlen level) m) (Z.rem (zlen level) m) 0 level nodes [] level lss d)
    as (new & lss' & -> & Ln & Cn & Fi & Fs & Cs); try (done || lia).
  unfold guardP. cbn [negb]. ostep. cbn [app]. set (next := seq (length nodes) (Z.to_nat m)) in *.
  destruct (IH next (nodes ++ new) (levels ++ [next]) (S d)) as (nodes' & levels' & root & d' & -> & P' & Hlen).
  - unfold next. intros E. apply (f_equal length) in E. rewrite length_seq in E. cbn in E. lia.
  - unfold next. rewrite length_seq. unfold zlen in *. lia.
  - constructor.
    + exists lss'. by rewrite Cs.
    + rewrite concat_app, Ps, length_app, seq_app. cbn [concat]. by rewrite app_nil_r, Ln.
    + apply last_snoc.
    + rewrite rev_app_distr. cbn [rev app chain]. split.
      * unfold next. rewrite <- Ln, childrenOf_seq, Cn. apply last_Some in Pl as [l' ->]. by rewrite rev_app_distr.
      * apply chain_ext; [by apply levels_range|done].
    + apply Forall_app. split; [done|]. eapply Forall_impl; [exact Fi|]. intros p ?. by right.
    + intros i p Ei. apply lookup_app_Some in Ei as [Ei|[Hi Ei]]; [eauto|].
      assert (Forall (fun c => (c < length nodes)%nat) level) as Hr.
      { pose proof (levels_range _ _ Ps) as R. apply last_Some in Pl as [l' ->]. rewrite rev_app_distr in R. by apply Forall_cons in R as [? _]. }
      rewrite <- Cn in Hr. apply Forall_forall. intros c Hc. rewrite Forall_forall in Hr. enough (c < length nodes)%nat by lia. apply Hr.
      apply list_elem_of_In, in_concat. exists (children p). split; [|by apply list_elem_of_In]. apply in_map, list_elem_of_In.
      by eapply list_elem_of_lookup_2.
    + apply Forall_app. split; [done|]. eapply Forall_impl; [exact Fi|]. intros p (_ & _ & _ & ->). by intros x ?%not_elem_of_nil.
    + exists k0. split_and!; [by apply lookup_app_l_Some|rewrite length_app; lia|by rewrite take_app_le].
    + split; [rewrite length_app; cbn; lia|]. intros i lv Ei. apply lookup_app_Some in Ei as [Ei|[Hi Ei]].
      * eapply Forall_impl; [by apply (Pt i)|]. intros idx [ls Hs]. exists ls. by apply subtree_mono.
      * apply list_lookup_singleton_Some in Ei as [Ei <-]. replace i with (S d) by lia.
        apply Forall_lookup. intros j idx Ej. destruct (Forall2_lookup_l _ _ _ _ _ Fs Ej) as (ls & _ & ?). eauto.
  - exists nodes', levels', root, d'. split_and!; [done|done|]. rewrite length_app in Hlen. unfold next in Hlen. rewrite length_seq in Hlen. unfold zlen in *. lia.
Qed.

(** ** The numbering *)
Fixpoint assign (cs : list nat) (next : Z) (logOf : list Z) : list Z :=
  match cs with
  | [] => logOf
  | c :: r => assign r (next + 1) (<[c := next]> logOf)
  end.
Lemma assign_app a b next l : assign (a ++ b) next l = assign b (next + zlen a) (assign a next l).
Proof.
  revert next l. induction a as [|c a IH]; intros next l; cbn [app assign]; [by rewrite Z.add_0_r|].
  rewrite IH, zlen_cons. f_equal. lia.
Qed.
Lemma assign_length cs next l : length (assign cs next l) = length l.
Proof. revert next l. induction cs as [|c cs IH]; intros next l; cbn [assign]; [done|]. by rewrite IH, length_insert. Qed.
Lemma assign_other cs next l i : i ∉ cs -> assign cs next l !! i = l !! i.
Proof.
  revert next l. induction cs as [|c cs IH]; intros next l Hi; cbn [assign]; [done|].
  apply not_elem_of_cons in Hi as [? ?]. by rewrite IH, list_lookup_insert_ne by done.
Qed.
Lemma assign_lookup cs next l j c :
  NoDup cs -> Forall (fun c => (c < length l)%nat) cs -> cs !! j = Some c -> assign cs next l !! c = Some (next + Z.of_nat j).
Proof.
  intros Hn. revert next l j. induction Hn as [|x cs Hx Hn IH]; intros next l j Hl Hj; [done|]. apply Forall_cons in Hl as [Hlx Hl].
  cbn [assign]. destruct j as [|j]; cbn in Hj.
  - injection Hj as ->. rewrite assign_other, list_lookup_insert_eq by done. f_equal. lia.
  - rewrite (IH _ _ j) by (by rewrite ?length_insert). f_equal. lia.
Qed.

Lemma numberChildren_spec cs next l :
  0 <= next -> next + zlen cs < 2 ^ 32 -> Forall (fun c => (c < length l)%nat) cs ->
  numberChildren cs next l = Ret (next + zlen cs, assign cs next l).
Proof.
  intros Hn Hm Hl. revert next l Hn Hm Hl. induction cs as [|c cs IH]; intros next l Hn Hm Hl; cbn [numberChildren assign]; [by rewrite Z.add_0_r|].
  apply Forall_cons in Hl as [Hc Hl]. rewrite zlen_cons in *. pose proof (zlen_nonneg cs). rewrite bool_decide_true by done. ostep.
  rewrite u32_small by lia. rewrite IH by (rewrite ?length_insert; (done || lia)). do 2 f_equal. lia.
Qed.
Lemma number_level fuel nodes q acc next l :
  Forall (fun i => (i < length nodes)%nat) q -> Forall (fun c => (c < length l)%nat) (childrenOf nodes q) ->
  0 <= next -> next + zlen (childrenOf nodes q) < 2 ^ 32 ->
  numberNodes (length q + fuel) nodes (q ++ acc) next l =
  numberNodes fuel nodes (acc ++ childrenOf nodes q) (next + zlen (childrenOf nodes q)) (assign (childrenOf nodes q) next l).
Proof.
  intros Hq. revert acc next l. induction Hq as [|i q Hi Hq IH]; intros acc next l Hc Hn Hm; cbn [length app Nat.add].
  { unfold childrenOf. cbn. by rewrite Z.add_0_r, app_nil_r. }
  destruct (lookup_lt_is_Some_2 nodes i Hi) as [p Ep]. unfold childrenOf in Hc, Hm |- *. cbn [map concat] in *. rewrite Ep in *.
  fold (childrenOf nodes q) in *. apply Forall_app in Hc as [Hcp Hc]. rewrite zlen_app in *.
  pose proof (zlen_nonneg (children p)). pose proof (zlen_nonneg (childrenOf nodes q)).
  cbn [numberNodes]. rewrite (elt_ok nodes i p Ep). ostep. rewrite numberChildren_spec by (done || lia). ostep. cbn [fst snd].
  rewrite <- app_assoc, IH by (rewrite ?assign_length; (done || lia)).
  rewrite assign_app, <- app_assoc. by rewrite Z.add_assoc.
Qed.
Lemma number_chain nodes l r fuel next logOf :
  chain nodes (l :: r) -> Forall (Forall (fun i => (i < length nodes)%nat)) (l :: r) -> length logOf = length nodes ->
  0 <= next -> next + zlen (concat r) < 2 ^ 32 ->
  numberNodes (length (concat (l :: r)) + fuel) nodes l next logOf = Ret (assign (concat r) next logOf).
Proof.
  intros C R. revert l next logOf C R. induction r as [|l0 r IH]; intros l next logOf C R L Hn Hm.
  all: apply Forall_cons in R as [Rl R]; destruct C as [Ec C]; cbn in Ec.
  - cbn [concat]. rewrite app_nil_r. rewrite <- (app_nil_r l) at 2. rewrite number_level; rewrite ?Ec; [|done|by apply Forall_nil|lia|change (zlen (concat [])) with 0 in Hm; change (zlen []) with 0; lia]. by destruct fuel.
  - cbn [concat] in *. rewrite !zlen_app in Hm. pose proof (zlen_nonneg (concat r)). pose proof (zlen_nonneg l0).
    rewrite (length_app l), <- Nat.add_assoc. rewrite <- (app_nil_r l) at 2. rewrite number_level; rewrite ?Ec; [|done| |lia|lia].
    + cbn [app]. rewrite assign_app. apply (IH l0); [done|done|by rewrite assign_length|lia|lia].
    + apply Forall_cons in R as [Rl0 _]. by rewrite L.
Qed.

(** ** The plan *)
Section Plan.
Context (sb : superblock) (G : geometry_ok sb) (leafLog perLeaf K : Z) (lents : list leafEnt).
Let mx := Z.quot (blockSize sb - dirNodeHdrSize) 8.
Context (Hlog : 0 < leafLog) (Hper : 0 < perLeaf) (HK : 1 <= K) (Hlo : (K - 1) * perLeaf < zlen lents) (Hhi : zlen lents <= K * perLeaf)
  (Hmax : leafLog + 2 * K < 2 ^ 32).

Lemma mx_range : 56 <= mx.
Proof. pose proof (bs_range sb G). unfold mx, dirNodeHdrSize. rewrite Z.quot_div_nonneg by lia. apply Z.div_le_lower_bound; lia. Qed.

(** The finished plan: a tree under [root], all levels, and block numbers by breadth-first position. *)
Record numbered (nodes : list plan) (levels : list (list nat)) (logOf : list Z) (root d : nat) : Prop := {
  nm_plan : planned perLeaf mx lents nodes levels d [root];
  nm_len : zlen nodes < 2 * K;
  nm_log : logOf = assign (concat (rev levels)) leafLog (replicate (length nodes) 0)
}.
Lemma leaves_planned ps :
  length ps = Z.to_nat K -> concat (map chunk ps) = lents -> Forall (leaf_plan perLeaf) ps ->
  planned perLeaf mx lents ps [seq 0 (length ps)] 0 (seq 0 (length ps)).
Proof.
  intros Lp Cp Fp. constructor.
  - exists (map chunk ps). split; [|done]. apply Forall2_lookup_intro; [by rewrite length_map, length_seq|].
    intros i x y Ex Ey. apply lookup_seq in Ex as [-> Hi]. cbn [Nat.add] in *. change (map chunk ps) with (chunk <$> ps) in Ey.
    rewrite list_lookup_fmap in Ey. destruct (ps !! i) as [p|] eqn:Ep; [|done]. injection Ey as <-.
    eapply leaf_subtree; [done|]. by eapply Forall_lookup_1.
  - cbn. apply app_nil_r.
  - done.
  - cbn. split; [|done]. pose proof (childrenOf_seq [] ps) as E. cbn in E. rewrite E. clear -Fp. induction Fp as [|p ps (_ & Ep & _) _ IH]; cbn; [done|by rewrite Ep].
  - eapply Forall_impl; [exact Fp|]. intros. by left.
  - intros i p Ep. pose proof (Forall_lookup_1 _ _ _ _ Fp Ep) as (_ & -> & _). by apply Forall_nil.
  - apply Forall_forall. intros p Hp x Hx. rewrite <- Cp. apply list_elem_of_In, in_concat. exists (chunk p).
    split; [|by apply list_elem_of_In]. by apply in_map, list_elem_of_In.
  - exists (length ps). split_and!; [done|lia|]. by rewrite firstn_all.
  - split; [done|]. intros i lv Ei. apply list_lookup_singleton_Some in Ei as [-> <-]. apply Forall_lookup. intros j idx Ej.
    apply lookup_seq in Ej as [-> Hj]. destruct (lookup_lt_is_Some_2 ps j Hj) as [p Ep]. exists (chunk p).
    eapply leaf_subtree; [exact Ep|]. by eapply Forall_lookup_1.
Qed.
Lemma planTree_spec : exists nodes levels logOf root d,
  planTree sb leafLog perLeaf K lents = Ret (nodes, levels, logOf) /\ numbered nodes levels logOf root d.
Proof.
  pose proof mx_range. unfold planTree. fold mx.
  destruct (leafPlans_spec (Z.to_nat K) 0 perLeaf lents lents) as (ps & -> & Lp & Cp & Fp); [lia|lia|by rewrite Z.mul_0_l|lia|intros; lia|]. ostep.
  destruct (planLevels_spec (length ps) perLeaf mx lents (seq 0 (length ps)) ps [seq 0 (length ps)] 0) as (nodes & levels & root & d & -> & P & Hl);
    [lia|intros E; apply (f_equal length) in E; rewrite length_seq in E; cbn in E; lia|rewrite length_seq; lia|by apply leaves_planned|].
  ostep. rewrite length_seq in Hl. rewrite (pl_last _ _ _ _ _ _ _ P). ostep. change (elt [root] 0) with (Ret root). ostep.
  assert (exists rl, levels = rl ++ [[root]]) as [rl El] by (by apply last_Some, P).
  assert (rev levels = [root] :: rev rl) as Er by (rewrite El; apply rev_app_distr).
  pose proof (pl_seq _ _ _ _ _ _ _ P) as Ps. pose proof (levels_range _ _ Ps) as R. pose proof (pl_chain _ _ _ _ _ _ _ P) as C. rewrite Er in R, C.
  assert (root < length nodes)%nat as Hroot by (apply Forall_cons in R as [R _]; by apply Forall_cons in R as [? _]).
  assert (length (concat ([root] :: rev rl)) = length nodes) as Hlen.
  { rewrite <- Er. rewrite <- (length_seq (length nodes) 0), <- Ps. apply Permutation_length. by rewrite <- Permutation_rev. }
  rewrite bool_decide_true by done. ostep. rewrite u32_small by lia.
  pose proof (number_chain nodes [root] (rev rl) 0 (leafLog + 1) (<[root := leafLog]> (replicate (length nodes) 0)) C R) as E.
  rewrite Nat.add_0_r, Hlen in E. cbn [concat app length] in Hlen.
  rewrite E; [|by rewrite length_insert, length_replicate|lia|unfold zlen in *; lia]. ostep.
  eexists nodes, levels, _, root, d. split; [done|]. constructor; [done|unfold zlen; lia|]. by rewrite Er.
Qed.
End Plan.

(** ** Sibling links *)
Definition logAt (logOf : list Z) (o : option nat) : Z := match o with Some i => default 0 (logOf !! i) | None => 0 end.
(** The neighbours of position [j] of a level: back, forw; 0 at the ends. *)
Definition linkOf (logOf : list Z) (lv : list nat) (j : nat) : Z * Z :=
  (match j with O => 0 | S j' => logAt logOf (lv !! j') end, logAt logOf (lv !! S j)).
Lemma siblings_spec logOf back lv :
  Forall (fun i => (i < length logOf)%nat) lv ->
  exists ls, siblings logOf back lv = Ret ls /\ map fst ls = lv /\
    forall j i, lv !! j = Some i -> ls !! j = Some (i, (match j with O => back | S j' => logAt logOf (lv !! j') end, logAt logOf (lv !! S j))).
Proof.
  intros H. revert back. induction H as [|i lv Hi H IH]; intros back; cbn [siblings].
  { exists []. split_and!; [done|done|]. intros j i Hj. done. }
  destruct (lookup_lt_is_Some_2 logOf i Hi) as [self Es]. rewrite (elt_ok _ _ _ Es). ostep.
  assert ((match lv with [] => Ret 0 | nx :: _ => elt logOf (Z.of_nat nx) end) = Ret (logAt logOf (lv !! 0%nat))) as ->.
  { destruct lv as [|nx lv]; [done|]. apply Forall_cons in H as [Hn _]. destruct (lookup_lt_is_Some_2 logOf nx Hn) as [y Ey].
    rewrite (elt_ok _ _ _ Ey). cbn. by rewrite Ey. }
  ostep. destruct (IH self) as (ls & -> & Hm & Hl). ostep. eexists. split; [done|]. split; [cbn; by rewrite Hm|].
  intros [|j] k Hj; [by injection Hj as <-|]. etransitivity; [exact (Hl j k Hj)|]. destruct j as [|j]; cbn; [by rewrite Es|done].
Qed.
(** Storing the links of the nodes of [ls], all different. *)
Lemma store_links (ls : list (nat * (Z * Z))) links :
  NoDup (map fst ls) -> Forall (fun i => (i < length links)%nat) (map fst ls) ->
  exists links', range_acc ls links (fun l links => guardP (bool_decide (l.1 < length links)%nat);; Ret (<[l.1 := l.2]> links)) = Ret links' /\
    length links' = length links /\ (forall i, i ∉ map fst ls -> links' !! i = links !! i) /\
    (forall j x, ls !! j = Some x -> links' !! x.1 = Some x.2).
Proof.
  revert links. induction ls as [|x ls IH]; intros links Hn Hr; cbn [range_acc map] in *.
  { exists links. split_and!; [done..|]. intros j y Hj. done. }
  apply NoDup_cons in Hn as [Hx Hn]. apply Forall_cons in Hr as [Hrx Hr]. rewrite bool_decide_true by done. ostep.
  destruct (IH (<[x.1 := x.2]> links) Hn) as (links' & -> & L & Ho & Hs); [by rewrite length_insert|].
  exists links'. rewrite length_insert in L. split_and!; [done|done| |].
  - intros i Hi. apply not_elem_of_cons in Hi as [? ?]. by rewrite Ho, list_lookup_insert_ne by done.
  - intros [|j] y Hj; cbn in Hj; [injection Hj as <-; by rewrite Ho, list_lookup_insert_eq by done|eauto].
Qed.
Lemma setSiblings_spec logOf lv links :
  NoDup lv -> Forall (fun i => (i < length logOf)%nat) lv -> length links = length logOf ->
  exists links', setSiblings logOf lv links = Ret links' /\ length links' = length logOf /\
    (forall i, i ∉ lv -> links' !! i = links !! i) /\ (forall j i, lv !! j = Some i -> links' !! i = Some (linkOf logOf lv j)).
Proof.
  intros Hn Hr Hl. unfold setSiblings. destruct (siblings_spec logOf 0 lv Hr) as (ls & -> & Hm & Hs). ostep. subst lv.
  destruct (store_links ls links Hn) as (links' & -> & L & Ho & Hst); [by rewrite Hl|]. exists links'. split_and!; [done|lia|done|].
  intros j i Hj. exact (Hst j _ (Hs j i Hj)).
Qed.
Lemma allSiblings_spec logOf levels links :
  NoDup (concat levels) -> Forall (fun i => (i < length logOf)%nat) (concat levels) -> length links = length logOf ->
  exists links', range_acc levels links (setSiblings logOf) = Ret links' /\ length links' = length logOf /\
    (forall i, i ∉ concat levels -> links' !! i = links !! i) /\
    (forall lv j i, lv ∈ levels -> lv !! j = Some i -> links' !! i = Some (linkOf logOf lv j)).
Proof.
  revert links. induction levels as [|lv levels IH]; intros links Hn Hr Hl; cbn [range_acc concat] in *.
  { exists links. split_and!; [done..|]. intros lv j i Hin. by apply not_elem_of_nil in Hin. }
  apply NoDup_app in Hn as (Hn1 & Hd & Hn2). apply Forall_app in Hr as [Hr1 Hr2].
  destruct (setSiblings_spec logOf lv links Hn1 Hr1 Hl) as (l1 & -> & L1 & O1 & S1). ostep.
  destruct (IH l1 Hn2 Hr2 L1) as (l2 & -> & L2 & O2 & S2). exists l2. split_and!; [done|done| |].
  - intros i Hi. apply not_elem_of_app in Hi as [? ?]. by rewrite O2, O1.
  - intros lv' j i Hin Hj. apply elem_of_cons in Hin as [->|Hin]; [|eauto]. rewrite O2; [by eapply S1|].
    apply Hd. by eapply list_elem_of_lookup_2.
Qed.

(** ** The blocks *)
(** Node [p], its neighbours and its height as the block [b] shows them. *)
Record node_block (sb : superblock) (num : Z) (p : plan) (ents : list leafEnt) (link : Z * Z) (hgt : nat) (b : bytes) : Prop := {
  nb_len : zlen b = blockSize sb;
  nb_bytes : isbytes b;
  nb_forw : dec 4 b 0 = link.2;
  nb_back : dec 4 b 4 = link.1;
  nb_magic : dec 2 b 8 = if isLeaf p then magicDir3LeafN else magicDa3Node;
  nb_owner : dec 8 b 48 = num;
  nb_count : dec 2 b 56 = zlen ents;
  nb_level : isLeaf p = false -> dec 2 b 58 = u16 (Z.of_nat hgt);
  nb_ents : leaves_at b 64 ents
}.
Section Block.
Context (sb : superblock) (Wsb : sb_width sb) (G : geometry_ok sb) (num : Z) (Hnum : 0 <= num < 2 ^ 64).
Let bs := blockSize sb.

Lemma emit_block p ents link hgt buf :
  zlen buf = bs -> isbytes buf -> 0 <= link.1 < 2 ^ 32 -> 0 <= link.2 < 2 ^ 32 ->
  Forall leaf_ok ents -> 64 + 8 * zlen ents <= bs ->
  exists b, (b ← put32 buf 0 link.2;
    b ← put32 b 4 link.1;
    guardP (48 <=? zlen b);;
    b ← copy_to b 32 (take 16 (uuid sb));
    b ← put64 b 48 num;
    b ← put16 b 8 (if isLeaf p then magicDir3LeafN else magicDa3Node);
    b ← put16 b 56 (u16 (zlen ents));
    b ← (if isLeaf p then Ret b else put16 b 58 (u16 (Z.of_nat hgt)));
    putLeaves ents (if isLeaf p then dirLeafHdrSize else dirNodeHdrSize) b) = Ret b /\ node_block sb num p ents link hgt b.
Proof.
  intros L Hb Hl1 Hl2 Hok Hfit. pose proof (bs_range sb G) as R. fold bs in R. destruct (uuid_16 sb Wsb) as (Eu & Lu & Bu). rewrite Eu.
  pose proof (zlen_nonneg ents). do 7 wstep.
  match goal with Hb : dec 2 ?bb 56 = _ |- context [if isLeaf p then Ret ?bb else _] => set (b7 := bb) in * end.
  assert (exists b8, (if isLeaf p then Ret b7 else put16 b7 58 (u16 (Z.of_nat hgt))) = Ret b8 /\ wrote b7 b8 58 60 /\
    (isLeaf p = false -> dec 2 b8 58 = u16 (Z.of_nat hgt))) as (b8 & -> & W8 & V8).
  { destruct (isLeaf p); [exists b7; split_and!; [done|apply wrote_refl|done]|].
    destruct (put_spec 2 b7 58 (u16 (Z.of_nat hgt))) as (b8 & E8 & W8 & V8); [lia..|]. exists b8. split_and!; [done|done|]. intros _. rewrite V8.
    change (256 ^ 2) with (2 ^ 16). unfold u16. by rewrite Zmod_mod. }
  pose proof (wrote_len _ _ _ _ W8). ostep.
  replace (if isLeaf p then dirLeafHdrSize else dirNodeHdrSize) with 64 by (by destruct (isLeaf p)).
  destruct (putLeaves_spec ents 64 b8 Hok) as (b9 & -> & W9 & E9); [lia|lia|]. pose proof (wrote_len _ _ _ _ W9).
  exists b9. split; [done|]. unfold b7 in *. clear b7. constructor.
  - fold bs. lia.
  - wbytes.
  - rdec. apply Z.mod_small. change (256 ^ 4) with (2 ^ 32). lia.
  - rdec. apply Z.mod_small. change (256 ^ 4) with (2 ^ 32). lia.
  - rdec. by destruct (isLeaf p).
  - rdec. apply Z.mod_small. change (256 ^ 8) with (2 ^ 64). lia.
  - rdec. rewrite u16_small by lia. apply Z.mod_small. lia.
  - intros Hi. specialize (V8 Hi). rdec. done.
  - done.
Qed.
End Block.

Lemma subtree_height nodes d d' idx ls ls' : subtree nodes d idx ls -> subtree nodes d' idx ls' -> d = d'.
Proof.
  revert d' idx ls ls'. induction d as [|d IH]; intros [|d'] idx ls ls' (p & E & _ & _ & H) (p' & E' & _ & _ & H');
    rewrite E in E'; injection E' as <-; [done|destruct H, H'; congruence..|].
  destruct H as (_ & Hn & lss & HF & _), H' as (_ & _ & lss' & HF' & _). f_equal. destruct (children p) as [|c cs]; [done|].
  inversion HF; inversion HF'; subst. eauto.
Qed.
Lemma be_get_block n bs blks k b o :
  0 <= bs -> blocks_ok bs blks -> blks !! k = Some b -> 0 <= o -> 0 < n -> o + n <= bs ->
  be_get n (concat blks) (Z.of_nat k * bs + o) = Ret (dec n b o).
Proof.
  intros Hbs Hok Hk Ho Hn Hle. pose proof (lookup_lt_Some _ _ _ Hk).
  rewrite be_get_ok by (rewrite ?(zlen_concat bs blks Hok); unfold zlen; nia). f_equal. unfold dec.
  rewrite <- (slice_block bs blks k b) by done. f_equal. unfold slice. rewrite skipn_firstn_comm, firstn_firstn, skipn_skipn. do 2 f_equal; lia.
Qed.

Section Emit.
Context (sb : superblock) (Wsb : sb_width sb) (G : geometry_ok sb) (num : Z) (Hnum : 0 <= num < 2 ^ 64).
Let bs := blockSize sb.
Let perLeaf := Z.quot (bs - dirLeafHdrSize) 8.
Context (leafLog K : Z) (lents : list leafEnt) (Hlog : 0 < leafLog) (Hmax : leafLog + 2 * K < 2 ^ 32) (Hents : Forall leaf_ok lents).
Context (nodes : list plan) (levels : list (list nat)) (logOf : list Z) (root d : nat)
  (N : numbered sb leafLog perLeaf K lents nodes levels logOf root d).
Let order := concat (rev levels).
Let n := length nodes.

Lemma order_perm : order ≡ₚ seq 0 n.
Proof.
  unfold order, n. rewrite <- (pl_seq _ _ _ _ _ _ _ (nm_plan _ _ _ _ _ _ _ _ _ _ N)).
  clear. induction levels as [|l ls IH]; [done|]. cbn [rev concat]. rewrite concat_app. cbn. rewrite app_nil_r, IH. apply Permutation_app_comm.
Qed.
Lemma order_nodup : NoDup order.
Proof. rewrite order_perm. apply NoDup_seq. Qed.
Lemma order_length : length order = n.
Proof. rewrite order_perm. apply length_seq. Qed.
Lemma order_lt k idx : order !! k = Some idx -> (k < n)%nat /\ (idx < n)%nat.
Proof.
  intros E. split; [rewrite <- order_length; by eapply lookup_lt_Some|].
  assert (idx ∈ seq 0 n) as Hi by (rewrite <- order_perm; by eapply list_elem_of_lookup_2). apply elem_of_seq in Hi. lia.
Qed.
(** Node [idx] has position [k] in the breadth-first order, and that is its block. *)
Lemma position idx : (idx < n)%nat -> exists k, order !! k = Some idx /\ (k < n)%nat.
Proof.
  intros H. assert (idx ∈ order) as Hi by (rewrite order_perm; apply elem_of_seq; lia). apply list_elem_of_lookup in Hi as [k Ek].
  exists k. split; [done|]. by apply order_lt in Ek as [? _].
Qed.
Lemma n_bound : leafLog + Z.of_nat n < 2 ^ 32.
Proof. pose proof (nm_len _ _ _ _ _ _ _ _ _ _ N). unfold n, zlen in *. lia. Qed.
Lemma logOf_pos k idx : order !! k = Some idx -> logOf !! idx = Some (leafLog + Z.of_nat k).
Proof.
  intros E. rewrite (nm_log _ _ _ _ _ _ _ _ _ _ N). apply assign_lookup; [apply order_nodup| |done].
  apply Forall_forall. intros c Hc. rewrite length_replicate. fold order in Hc. apply list_elem_of_lookup in Hc as [j Ej]. by apply order_lt in Ej as [_ ?].
Qed.
Lemma logOf_length : length logOf = n.
Proof. rewrite (nm_log _ _ _ _ _ _ _ _ _ _ N), assign_length. apply length_replicate. Qed.
Lemma logAt_range o : 0 <= logAt logOf o < 2 ^ 32.
Proof.
  destruct o as [i|]; cbn; [|lia]. pose proof n_bound. destruct (logOf !! i) as [l|] eqn:E; cbn; [|lia].
  destruct (position i) as (k & Ek & Hk); [rewrite <- logOf_length; by eapply lookup_lt_Some|]. rewrite (logOf_pos k i Ek) in E. injection E as <-. lia.
Qed.
Lemma linkOf_range lv j : 0 <= (linkOf logOf lv j).1 < 2 ^ 32 /\ 0 <= (linkOf logOf lv j).2 < 2 ^ 32.
Proof. unfold linkOf. cbn. split; [destruct j; [lia|apply logAt_range]|apply logAt_range]. Qed.

(** The records of node [p]. *)
Definition entsOf (p : plan) : list leafEnt :=
  if isLeaf p then chunk p
  else map (fun c => (match nodes !! c with Some q => phash q | None => 0 end, logAt logOf (Some c))) (children p).
Lemma subtree_sub dd idx ls : subtree nodes dd idx ls -> ls ⊆ lents.
Proof.
  pose proof (pl_sub _ _ _ _ _ _ _ (nm_plan _ _ _ _ _ _ _ _ _ _ N)) as Hs. rewrite Forall_forall in Hs.
  revert idx ls. induction dd as [|dd IH]; intros idx ls (p & E & _ & _ & H).
  - destruct H as [_ <-]. apply Hs. by eapply list_elem_of_lookup_2.
  - destruct H as (_ & _ & lss & HF & <-). intros x Hx. apply list_elem_of_In, in_concat in Hx as (l & Hl & Hx).
    apply list_elem_of_In, list_elem_of_lookup in Hl as [j Ej]. destruct (Forall2_lookup_r _ _ _ _ _ HF Ej) as (c & _ & Hc).
    apply (IH c l Hc). by apply list_elem_of_In.
Qed.
Lemma subtree_phash dd idx ls p : subtree nodes dd idx ls -> nodes !! idx = Some p -> phash p = lasthash ls /\ 0 <= phash p < 2 ^ 32.
Proof.
  intros Hs Ep. assert (phash p = lasthash ls /\ ls <> []) as [E Hn].
  { destruct dd; destruct Hs as (q & Eq & Hq & Hn & _); rewrite Ep in Eq; by injection Eq as <-. }
  split; [done|]. rewrite E. unfold lasthash. destruct (last_nonempty ls Hn) as [x Ex]. rewrite Ex. cbn.
  apply subtree_sub in Hs. rewrite Forall_forall in Hents. apply Hents, Hs. rewrite last_lookup in Ex. by eapply list_elem_of_lookup_2.
Qed.
Let P := nm_plan _ _ _ _ _ _ _ _ _ _ N.
Lemma node_at idx : (idx < n)%nat -> exists p, nodes !! idx = Some p.
Proof. apply lookup_lt_is_Some_2. Qed.
(** The level a node is on is its height. *)
Lemma at_level idx : (idx < n)%nat -> exists i lv j ls, levels !! i = Some lv /\ lv !! j = Some idx /\ subtree nodes i idx ls.
Proof.
  intros Hi. assert (idx ∈ concat levels) as Hin by (rewrite (pl_seq _ _ _ _ _ _ _ P); apply elem_of_seq; fold n; lia).
  apply list_elem_of_In, in_concat in Hin as (lv & Hlv & Hx). apply list_elem_of_In, list_elem_of_lookup in Hlv as [i Ei].
  apply list_elem_of_In, list_elem_of_lookup in Hx as [j Ej]. destruct (pl_height _ _ _ _ _ _ _ P) as [_ Ht].
  destruct (Forall_lookup_1 _ _ _ _ (Ht i lv Ei) Ej) as [ls Hs]. eauto 10.
Qed.
Lemma child_lt idx p c : nodes !! idx = Some p -> c ∈ children p -> (c < idx)%nat /\ (c < n)%nat.
Proof.
  intros Ep Hc. pose proof (pl_down _ _ _ _ _ _ _ P idx p Ep) as Hd. rewrite Forall_forall in Hd. specialize (Hd c Hc). cbn in Hd.
  pose proof (lookup_lt_Some _ _ _ Ep). unfold n. lia.
Qed.
Lemma logAt_pos c k : order !! k = Some c -> logAt logOf (Some c) = leafLog + Z.of_nat k.
Proof. intros E. cbn. by rewrite (logOf_pos k c E). Qed.

Lemma ents_acc cs acc :
  Forall (fun c => (c < n)%nat) cs ->
  range_acc cs acc (fun c acc => q ← elt nodes (Z.of_nat c); l ← elt logOf (Z.of_nat c); Ret (acc ++ [(phash q, l)])) =
  Ret (acc ++ map (fun c => (match nodes !! c with Some q => phash q | None => 0 end, logAt logOf (Some c))) cs).
Proof.
  intros H. revert acc. induction H as [|c cs Hc H IH]; intros acc; cbn [range_acc map]; [by rewrite app_nil_r|].
  destruct (node_at c Hc) as [q Eq]. destruct (position c Hc) as (k & Ek & _). rewrite (elt_ok _ _ _ Eq), (elt_ok _ _ _ (logOf_pos k c Ek)).
  ostep. rewrite IH, Eq, (logAt_pos c k Ek), <- app_assoc. done.
Qed.
Lemma entsOf_ok idx p : nodes !! idx = Some p -> Forall leaf_ok (entsOf p) /\ 64 + 8 * zlen (entsOf p) <= bs.
Proof.
  intros Ep. pose proof (bs_range sb G) as R. fold bs in R. pose proof (Forall_lookup_1 _ _ _ _ (pl_ok _ _ _ _ _ _ _ P) Ep) as Hok.
  assert (forall x, x <= Z.quot (bs - 64) 8 -> 64 + 8 * x <= bs) as Hq.
  { intros x Hx. rewrite Z.quot_div_nonneg in Hx by lia. pose proof (Z.mul_div_le (bs - 64) 8). lia. }
  unfold entsOf. destruct Hok as [(-> & _ & _ & Hc & _)|(-> & _ & Hc & _)].
  - split; [|by apply Hq]. pose proof (Forall_lookup_1 _ _ _ _ (pl_sub _ _ _ _ _ _ _ P) Ep) as Hs. cbn in Hs.
    apply Forall_forall. intros x Hx. rewrite Forall_forall in Hents. auto.
  - split; [|unfold zlen; rewrite length_map; by apply Hq]. change (map ?f ?l) with (f <$> l). apply Forall_fmap, Forall_forall. intros c Hcc.
    destruct (child_lt idx p c Ep Hcc) as [_ Hcn]. destruct (node_at c Hcn) as [q Eq]. destruct (at_level c Hcn) as (i & _ & _ & ls & _ & _ & Hs).
    destruct (position c Hcn) as (k & Ek & Hk). unfold compose, leaf_ok. rewrite Eq, (logAt_pos c k Ek). cbn [fst snd].
    pose proof n_bound. split; [by apply (subtree_phash i c ls q)|lia].
Qed.
(** Block [b] is what the loop wrote for node [idx]. *)
Definition emitted (idx : nat) (b : bytes) : Prop :=
  exists p i lv j, nodes !! idx = Some p /\ levels !! i = Some lv /\ lv !! j = Some idx /\
    node_block sb num p (entsOf p) (linkOf logOf lv j) i b.
Lemma emitted_level idx b i ls : emitted idx b -> subtree nodes (S i) idx ls -> dec 2 b 58 = u16 (Z.of_nat (S i)).
Proof.
  intros (p & i' & lv & j & Ep & Ei & Ej & B) Hs. destruct (pl_height _ _ _ _ _ _ _ P) as [_ Ht].
  destruct (Forall_lookup_1 _ _ _ _ (Ht i' lv Ei) Ej) as [ls' Hs']. rewrite <- (subtree_height _ _ _ _ _ _ Hs Hs') in B.
  apply B. destruct Hs as (q & Eq & _ & _ & Hl & _). congruence.
Qed.

Context (links : list (Z * Z)) (Hlinks : forall lv j i, lv ∈ levels -> lv !! j = Some i -> links !! i = Some (linkOf logOf lv j)).
(** The region while node [idx] is next. *)
Record emitting (idx : nat) (blks : list bytes) : Prop := {
  em_len : length blks = n;
  em_ok : blocks_ok bs blks;
  em_bytes : Forall isbytes blks;
  em_done : forall i k, (i < idx)%nat -> order !! k = Some i -> exists b, blks !! k = Some b /\ emitted i b
}.
(** [childLevel] of node [p] at height [i]. *)
Lemma childLevel_spec idx p i ls blks :
  emitting idx blks -> nodes !! idx = Some p -> subtree nodes i idx ls ->
  exists v, (if isLeaf p then Ret 0
             else c0 ← elt (children p) 0;
                  n0 ← elt nodes (Z.of_nat c0);
                  if isLeaf n0 then Ret 1
                  else l0 ← elt logOf (Z.of_nat c0);
                       lv ← be16 (concat blks) (u32 (l0 - leafLog) * bs + 58);
                       Ret (lv + 1)) = Ret v /\ (isLeaf p = false -> u16 v = u16 (Z.of_nat i)).
Proof.
  intros Em Ep Hs. pose proof (bs_range sb G) as R. fold bs in R. destruct i as [|i]; destruct Hs as (q & Eq & _ & _ & H); rewrite Ep in Eq; injection Eq as <-.
  { destruct H as [-> _]. exists 0. done. }
  destruct H as (Hl & Hn & lss & HF & _). rewrite Hl. destruct (children p) as [|c0 cs] eqn:Ec; [done|]. change (elt (c0 :: cs) 0) with (Ret c0). ostep.
  inversion HF as [|? l0 ? ? Hs0 _]; subst. destruct (child_lt idx p c0 Ep) as [Hci Hcn]; [rewrite Ec; left|].
  destruct (node_at c0 Hcn) as [q Eq]. rewrite (elt_ok _ _ _ Eq). ostep. destruct i as [|i].
  { destruct Hs0 as (q' & Eq' & _ & _ & Hq & _). rewrite Eq in Eq'. injection Eq' as <-. rewrite Hq. exists 1. done. }
  assert (isLeaf q = false) as -> by (destruct Hs0 as (q' & Eq' & _ & _ & Hq & _); rewrite Eq in Eq'; by injection Eq' as <-).
  destruct (position c0 Hcn) as (k & Ek & Hk). rewrite (elt_ok _ _ _ (logOf_pos k c0 Ek)). ostep.
  pose proof n_bound. replace (leafLog + Z.of_nat k - leafLog) with (Z.of_nat k) by lia. rewrite u32_small by lia.
  destruct (em_done _ _ Em c0 k Hci Ek) as (b & Eb & He). rewrite (be_get_block 2 bs blks k b 58) by (done || lia || apply Em). ostep.
  rewrite (emitted_level c0 b i l0 He Hs0). eexists. split; [done|]. intros _. unfold u16. rewrite Zplus_mod_idemp_l. f_equal. lia.
Qed.
Lemma emitPlan_spec idx p blks :
  emitting idx blks -> nodes !! idx = Some p ->
  exists blks', emitPlan sb num leafLog nodes logOf links (Z.of_nat idx) p (concat blks) = Ret (concat blks') /\ emitting (S idx) blks'.
Proof.
  intros Em Ep. pose proof (bs_range sb G) as R. fold bs in R. pose proof n_bound as Nb. pose proof (lookup_lt_Some _ _ _ Ep) as Hi. fold n in Hi.
  destruct (position idx Hi) as (k & Ek & Hk). destruct (at_level idx Hi) as (i & lv & j & ls & Ei & Ej & Hs).
  unfold emitPlan. fold bs. rewrite (elt_ok _ _ _ (logOf_pos k idx Ek)). ostep.
  assert (links !! idx = Some (linkOf logOf lv j)) as El by (apply Hlinks; [by eapply list_elem_of_lookup_2|done]).
  rewrite (elt_ok _ _ _ El). ostep. destruct (childLevel_spec idx p i ls blks Em Ep Hs) as (v & -> & Hv). ostep.
  assert ((if isLeaf p then Ret (chunk p) else range_acc (children p) [] (fun c acc => q ← elt nodes (Z.of_nat c); l ← elt logOf (Z.of_nat c); Ret (acc ++ [(phash q, l)])))
    = Ret (entsOf p)) as ->.
  { unfold entsOf. destruct (isLeaf p); [done|]. apply ents_acc. apply Forall_forall. intros c Hc. by apply (child_lt idx p c). }
  ostep. replace (leafLog + Z.of_nat k - leafLog) with (Z.of_nat k) by lia. rewrite u32_small by lia.
  destruct (lookup_lt_is_Some_2 blks k) as [b Eb]; [rewrite (em_len _ _ Em); done|].
  pose proof (Forall_lookup_1 _ _ _ _ (em_ok _ _ Em) Eb) as Lb. pose proof (Forall_lookup_1 _ _ _ _ (em_bytes _ _ Em) Eb) as Bb. cbn in Lb.
  destruct (entsOf_ok idx p Ep) as [Oe Fe]. destruct (linkOf_range lv j) as [R1 R2].
  destruct (emit_block sb Wsb G num Hnum p (entsOf p) (linkOf logOf lv j) i b) as (b' & E' & B'); [done..|].
  exists (<[k := b']> blks). split.
  - apply (editBlock_spec bs blks k b); [lia|apply Em|done| |apply B']. cbn beta. rewrite <- E'.
    destruct (isLeaf p); [done|]. by rewrite Hv.
  - constructor; [rewrite length_insert; apply Em|apply blocks_insert; [apply Em|apply B']|apply Forall_insert; [apply Em|apply B']|].
    intros i' k' Hi' Ek'. destruct (decide (i' = idx)) as [->|Hne].
    + assert (k' = k) as -> by (eapply NoDup_lookup; [apply order_nodup|done|done]). exists b'.
      rewrite list_lookup_insert_eq by (rewrite (em_len _ _ Em); done). split; [done|]. by exists p, i, lv, j.
    + destruct (em_done _ _ Em i' k') as (b2 & E2 & He2); [lia|done|]. exists b2. rewrite list_lookup_insert_ne; [done|]. congruence.
Qed.
Lemma emitPlans_spec idx ps blks :
  drop idx nodes = ps -> emitting idx blks ->
  exists blks', emitPlans sb num leafLog nodes logOf links (Z.of_nat idx) ps (concat blks) = Ret (concat blks') /\ emitting n blks'.
Proof.
  revert idx blks. induction ps as [|p ps IH]; intros idx blks Hd Em; cbn [emitPlans].
  { exists blks. split; [done|]. assert (n <= idx)%nat by (apply (f_equal length) in Hd; rewrite length_drop in Hd; cbn in Hd; unfold n; lia).
    destruct Em as [? ? ? Hdn]. constructor; [done..|]. intros i k Hi. apply Hdn. lia. }
  assert (nodes !! idx = Some p) as Ep by (rewrite <- (Nat.add_0_r idx), <- lookup_drop, Hd; done).
  destruct (emitPlan_spec idx p blks Em Ep) as (blks' & -> & Em'). ostep. replace (Z.of_nat idx + 1) with (Z.of_nat (S idx)) by lia.
  apply IH; [|done]. rewrite <- Nat.add_1_r, <- drop_drop, Hd. done.
Qed.
End Emit.

(** ** Searching the region *)
(** The first of [n] (hash, address) records at [p] whose hash is at least [h]. *)
Fixpoint firstGE (n : nat) (b : bytes) (p h : Z) : option Z :=
  match n with
  | O => None
  | S n' => if h <=? dec 4 b p then Some (dec 4 b (p + 4)) else firstGE n' b (p + 8) h
  end.
(** Descend from block [blk] by hash; the leaf block reached. *)
Fixpoint daSearch (fuel : nat) (bs leafLog : Z) (region : bytes) (blk h : Z) : option Z :=
  match fuel with
  | O => None
  | S fuel' =>
      let b := slice region (blk * bs) bs in
      if dec 2 b 8 =? magicDir3LeafN then Some blk
      else match firstGE (Z.to_nat (dec 2 b 56)) b 64 h with
           | Some child => daSearch fuel' bs leafLog region (child - leafLog) h
           | None => None
           end
  end.
Fixpoint records (n : nat) (b : bytes) (p : Z) : list leafEnt :=
  match n with
  | O => []
  | S n' => (dec 4 b p, dec 4 b (p + 4)) :: records n' b (p + 8)
  end.
Definition blockRecords (bs : Z) (region : bytes) (blk : Z) : list leafEnt :=
  let b := slice region (blk * bs) bs in records (Z.to_nat (dec 2 b 56)) b 64.
(** The records of the leaf [blk] and of its right neighbours. *)
Fixpoint leafWalk (fuel : nat) (bs leafLog : Z) (region : bytes) (blk : Z) : list leafEnt :=
  match fuel with
  | O => []
  | S fuel' =>
      let forw := dec 4 (slice region (blk * bs) bs) 0 in
      blockRecords bs region blk ++ (if forw =? 0 then [] else leafWalk fuel' bs leafLog region (forw - leafLog))
  end.

Lemma records_at b p ls : leaves_at b p ls -> records (length ls) b p = ls.
Proof. revert p. induction ls as [|l ls IH]; intros p H; cbn; [done|]. destruct H as (-> & -> & H). rewrite IH by done. by destruct l. Qed.
Lemma firstGE_at b p ls h : leaves_at b p ls -> firstGE (length ls) b p h = snd <$> List.find (fun l => h <=? l.1) ls.
Proof.
  revert p. induction ls as [|l ls IH]; intros p H; cbn; [done|]. destruct H as (-> & -> & H). rewrite IH by done. by destruct (h <=? l.1).
Qed.
Definition hash_le (a b : leafEnt) : Prop := a.1 <= b.1.
Lemma sorted_last ls : StronglySorted hash_le ls -> Forall (fun l => l.1 <= lasthash ls) ls.
Proof.
  induction 1 as [|x ls Hs IH Hx]; [constructor|]. destruct ls as [|y ls]; [by constructor; [|constructor]|].
  assert (lasthash (x :: y :: ls) = lasthash (y :: ls)) as -> by done. constructor; [|done].
  apply Forall_cons in IH as [Hy _]. apply Forall_cons in Hx as [Hxy _]. unfold hash_le in Hxy. lia.
Qed.
Lemma sorted_app l1 l2 : StronglySorted hash_le (l1 ++ l2) -> StronglySorted hash_le l1 /\ StronglySorted hash_le l2.
Proof. intros H. split; [by eapply StronglySorted_app_1_l|by eapply StronglySorted_app_1_r]. Qed.

Section Search.
Context (sb : superblock) (G : geometry_ok sb) (num leafLog K : Z) (lents : list leafEnt) (Hlog : 0 < leafLog).
Let bs := blockSize sb.
Let perLeaf := Z.quot (bs - dirLeafHdrSize) 8.
Context (nodes : list plan) (levels : list (list nat)) (logOf : list Z) (root d : nat)
  (N : numbered sb leafLog perLeaf K lents nodes levels logOf root d).
Let order := concat (rev levels).
Context (blks : list bytes) (HB : Forall2 (fun b idx => emitted sb num nodes levels logOf idx b) blks order).
Let region := concat blks.

Lemma region_ok : blocks_ok bs blks.
Proof.
  apply Forall_lookup. intros k b Eb. destruct (Forall2_lookup_l _ _ _ _ _ HB Eb) as (idx & _ & (p & i & lv & j & _ & _ & _ & B)). apply B.
Qed.
(** The block of the node at position [k]. *)
Lemma node_of k idx : order !! k = Some idx -> exists p i lv j b, nodes !! idx = Some p /\ levels !! i = Some lv /\ lv !! j = Some idx /\
  slice region (Z.of_nat k * bs) bs = b /\ node_block sb num p (entsOf nodes logOf p) (linkOf logOf lv j) i b.
Proof.
  intros Ek. pose proof (bs_range sb G) as R. destruct (Forall2_lookup_r _ _ _ _ _ HB Ek) as (b & Eb & (p & i & lv & j & Ep & Ei & Ej & B)).
  exists p, i, lv, j, b. split_and!; [done..| |done]. apply slice_block; [unfold bs; lia|apply region_ok|done].
Qed.
Lemma node_records p i lv j b : node_block sb num p (entsOf nodes logOf p) (linkOf logOf lv j) i b ->
  Z.to_nat (dec 2 b 56) = length (entsOf nodes logOf p).
Proof. intros B. rewrite (nb_count _ _ _ _ _ _ _ B). unfold zlen. lia. Qed.

(** Which child the search takes. *)
Lemma find_child dd cs lss h :
  Forall2 (subtree nodes dd) cs lss -> StronglySorted hash_le (concat lss) -> cs <> [] -> h <= lasthash (concat lss) ->
  exists c l pre post, List.find (fun l => h <=? l.1) (map (fun c => (match nodes !! c with Some q => phash q | None => 0 end, logAt logOf (Some c))) cs)
      = Some (lasthash l, logAt logOf (Some c)) /\ c ∈ cs /\ subtree nodes dd c l /\ concat lss = pre ++ l ++ post /\
    Forall (fun x => x.1 < h) pre /\ h <= lasthash l.
Proof.
  intros HF. induction HF as [|c l cs lss Hs HF IH]; intros Hsort Hn Hh; [done|]. cbn [map List.find fst concat] in *.
  assert (match nodes !! c with Some q => phash q | None => 0 end = lasthash l) as ->.
  { destruct dd; destruct Hs as (q & -> & ? & _); done. }
  apply sorted_app in Hsort as [Hsl Hsr]. destruct (Z.leb_spec h (lasthash l)).
  - exists c, l, [], (concat lss). split_and!; [done|left|done|done|by apply Forall_nil|done].
  - destruct cs as [|c' cs]. { inversion HF; subst. cbn in Hh. rewrite app_nil_r in Hh. lia. }
    assert (h <= lasthash (concat lss)) as Hh'.
    { inversion HF as [|? l' ? lss' Hs' HF']; subst. rewrite lasthash_app in Hh; [done|]. cbn. apply subtree_nonempty in Hs'. by destruct l'. }
    destruct (IH Hsr ltac:(done) Hh') as (c2 & l2 & pre & post & E & Hin & Hs2 & Ec & Hp & Hle).
    exists c2, l2, (l ++ pre), post. rewrite Ec, <- app_assoc. split_and!; [done|by right|done|done| |done].
    apply Forall_app. split; [|done]. eapply Forall_impl; [by apply sorted_last|]. cbn. intros x Hx. lia.
Qed.

Lemma search_subtree dd idx ls k fuel h :
  subtree nodes dd idx ls -> order !! k = Some idx -> (dd < fuel)%nat -> StronglySorted hash_le ls -> h <= lasthash ls ->
  exists k' idx' pre c post, daSearch fuel bs leafLog region (Z.of_nat k) h = Some (Z.of_nat k') /\ order !! k' = Some idx' /\
    subtree nodes 0 idx' c /\ ls = pre ++ c ++ post /\ Forall (fun x => x.1 < h) pre /\ h <= lasthash c.
Proof.
  revert idx ls k fuel. induction dd as [|dd IH]; intros idx ls k [|fuel] Hs Ek Hf Hsort Hh; [lia| |lia|].
  all: cbn [daSearch]; destruct (node_of k idx Ek) as (p & i & lv & j & b & Ep & Ei & Ej & -> & B);
    rewrite (nb_magic _ _ _ _ _ _ _ B).
  - destruct Hs as (q & Eq & _ & _ & Hq). rewrite Ep in Eq. injection Eq as <-. pose proof Hq as [-> Hc]. rewrite Z.eqb_refl.
    exists k, idx, [], ls, []. rewrite app_nil_r. split_and!; [done|done| |done|by apply Forall_nil|done].
    exists p. split; [done|]. destruct (pl_height _ _ _ _ _ _ _ (nm_plan _ _ _ _ _ _ _ _ _ _ N)) as [_ Ht].
    destruct (Forall_lookup_1 _ _ _ _ (pl_ok _ _ _ _ _ _ _ (nm_plan _ _ _ _ _ _ _ _ _ _ N)) Ep) as [(Hl & _ & Hcn & _ & Hph)|(Hl & _)]; [|destruct Hq; congruence].
    subst ls. done.
  - destruct Hs as (q & Eq & _ & _ & Hl & Hn & lss & HF & <-). rewrite Ep in Eq. injection Eq as <-. rewrite Hl. cbn [Z.eqb].
    change (magicDa3Node =? magicDir3LeafN) with false. cbn iota.
    rewrite (node_records _ _ _ _ _ B), (firstGE_at _ _ _ _ (nb_ents _ _ _ _ _ _ _ B)). unfold entsOf at 1. rewrite Hl.
    destruct (find_child dd (children p) lss h HF Hsort Hn Hh) as (c & l & pre & post & -> & Hin & Hsc & Ec & Hp & Hle).
    cbn [fmap option_fmap option_map snd].
    destruct (child_lt sb leafLog K lents nodes levels logOf root d N idx p c Ep Hin) as [_ Hcn].
    destruct (position sb leafLog K lents nodes levels logOf root d N c Hcn) as (kc & Ekc & Hkc).
    rewrite (logAt_pos sb leafLog K lents nodes levels logOf root d N c kc Ekc).
    replace (leafLog + Z.of_nat kc - leafLog) with (Z.of_nat kc) by lia.
    assert (StronglySorted hash_le l) as Hsl by (rewrite Ec in Hsort; apply sorted_app in Hsort as [_ Hsort]; by apply sorted_app in Hsort as [? _]).
    destruct (IH c l kc fuel Hsc Ekc ltac:(lia) Hsl Hle) as (k' & idx' & pre' & ch & post' & E & Ek' & Hs0 & -> & Hp' & Hle').
    exists k', idx', (pre ++ pre'), ch, (post' ++ post). rewrite Ec. split_and!; [done..|by rewrite <- !app_assoc|by apply Forall_app|done].
Qed.

(** Walking right from leaf [j]. *)
Lemma leaf_walk kk j fuel pos :
  levels !! 0%nat = Some (seq 0 kk) -> (kk <= length nodes)%nat -> (j < kk)%nat -> order !! pos = Some j -> (kk - j <= fuel)%nat ->
  leafWalk fuel bs leafLog region (Z.of_nat pos) = concat (map chunk (drop j (take kk nodes))).
Proof.
  intros E0 Hkk. revert j pos. induction fuel as [|fuel IH]; intros j pos Hj Epos Hf; [lia|]. cbn [leafWalk]. unfold blockRecords.
  destruct (node_of pos j Epos) as (p & i & lv & jj & b & Ep & Ei & Ej & -> & B).
  destruct (pl_height _ _ _ _ _ _ _ (nm_plan _ _ _ _ _ _ _ _ _ _ N)) as [_ Ht].
  assert (exists ls, subtree nodes 0 j ls) as [ls Hs] by (apply (Forall_lookup_1 _ _ j j (Ht _ _ E0)); by apply lookup_seq_lt).
  destruct (Forall_lookup_1 _ _ _ _ (Ht _ _ Ei) Ej) as [ls' Hs']. rewrite <- (subtree_height _ _ _ _ _ _ Hs Hs') in *.
  rewrite E0 in Ei. injection Ei as <-. apply lookup_seq in Ej as [-> _]. cbn [Nat.add] in *.
  destruct Hs as (q & Eq & _ & _ & Hl & _). rewrite Ep in Eq. injection Eq as <-.
  rewrite (node_records _ _ _ _ _ B), (records_at _ _ _ (nb_ents _ _ _ _ _ _ _ B)), (nb_forw _ _ _ _ _ _ _ B). unfold entsOf. rewrite Hl. unfold linkOf. cbn [snd].
  assert (drop jj (take kk nodes) = p :: drop (S jj) (take kk nodes)) as -> by (apply drop_S; by rewrite lookup_take_lt).
  cbn [map concat]. f_equal. destruct (Nat.eq_dec (S jj) kk) as [Hk|Hk].
  - rewrite (lookup_ge_None_2 (seq 0 kk)) by (rewrite length_seq; lia). cbn. rewrite drop_ge; [done|]. rewrite length_take. lia.
  - rewrite (lookup_seq_lt 0 kk (S jj)) by lia. cbn [Nat.add].
    destruct (position sb leafLog K lents nodes levels logOf root d N (S jj)) as (k' & Ek' & Hk'); [lia|].
    rewrite (logAt_pos sb leafLog K lents nodes levels logOf root d N (S jj) k' Ek'). rewrite (proj2 (Z.eqb_neq _ 0)) by lia.
    replace (leafLog + Z.of_nat k' - leafLog) with (Z.of_nat k') by lia. apply IH; [lia|done|lia].
Qed.
Lemma height_lt dd idx ls : subtree nodes dd idx ls -> (dd <= idx)%nat.
Proof.
  revert idx ls. induction dd as [|dd IH]; intros idx ls H; [lia|]. destruct H as (p & Ep & _ & _ & _ & Hn & lss & HF & _).
  destruct (children p) as [|c cs] eqn:Ec; [done|]. inversion HF as [|? l ? ? Hs _]; subst.
  destruct (child_lt sb leafLog K lents nodes levels logOf root d N idx p c Ep) as [? _]; [rewrite Ec; left|]. specialize (IH c l Hs). lia.
Qed.
Lemma split_unique {A} (a c b a' b' : list A) : NoDup (a ++ c ++ b) -> c <> [] -> a ++ c ++ b = a' ++ c ++ b' -> a = a' /\ b = b'.
Proof.
  intros Hn Hc E. destruct c as [|x c]; [done|]. assert (length a = length a') as Hl.
  { eapply (NoDup_lookup (a ++ (x :: c) ++ b)); [done| |rewrite E]; by apply list_lookup_middle. }
  apply app_inj_1 in E as [-> E]; [|done]. split; [done|]. by apply app_inv_head in E.
Qed.
(** The whole descent: from the root block to the leaf, and right from there. *)
Lemma search_root h :
  StronglySorted hash_le lents -> NoDup lents -> h <= lasthash lents ->
  exists k pre c post, daSearch (length nodes) bs leafLog region 0 h = Some (Z.of_nat k) /\ (k < length nodes)%nat /\
    blockRecords bs region (Z.of_nat k) = c /\ leafWalk (length nodes) bs leafLog region (Z.of_nat k) = c ++ post /\
    lents = pre ++ c ++ post /\ Forall (fun x => x.1 < h) pre /\ h <= lasthash c.
Proof.
  intros Hsort Hnd Hh. pose proof (nm_plan _ _ _ _ _ _ _ _ _ _ N) as P. destruct (pl_trees _ _ _ _ _ _ _ P) as (lss & HF & HC).
  apply Forall2_cons_inv_l in HF as (l & lss' & Hs & HF' & ->). apply Forall2_nil_inv_l in HF' as ->. cbn in HC. rewrite app_nil_r in HC. rewrite HC in Hs. clear l HC.
  assert (order !! 0%nat = Some root) as E0.
  { pose proof (pl_last _ _ _ _ _ _ _ P) as El. apply last_Some in El as [rl El]. unfold order. rewrite El, rev_app_distr. done. }
  pose proof (order_lt sb leafLog K _ nodes levels logOf root d N 0 root E0) as [_ Hroot].
  destruct (search_subtree d root lents 0 (length nodes) h Hs E0) as (k & idx & pre & c & post & E & Ek & Hs0 & El & Hp & Hle);
    [pose proof (height_lt d root lents Hs); lia|done|done|].
  pose proof (order_lt sb leafLog K _ nodes levels logOf root d N k idx Ek) as [Hk Hidx].
  destruct (pl_leaves _ _ _ _ _ _ _ P) as (kk & Ekk & Hkk & Ckk).
  (* the leaf found is on level 0 *)
  assert (idx < kk)%nat as Hlt.
  { destruct (at_level sb leafLog K _ nodes levels logOf root d N idx Hidx) as (i & lv & j & ls' & Ei & Ej & Hs').
    rewrite <- (subtree_height _ _ _ _ _ _ Hs0 Hs') in Ei. rewrite Ekk in Ei. injection Ei as <-. apply lookup_seq in Ej. lia. }
  pose proof (leaf_walk kk idx (length nodes) k Ekk Hkk Hlt Ek ltac:(lia)) as Hw.
  destruct Hs0 as (p & Ep & _ & Hcn & Hl & Hc). pose proof (drop_S (take kk nodes) p idx ltac:(by rewrite lookup_take_lt)) as Ed.
  rewrite Ed in Hw. cbn [map concat] in Hw. rewrite Hc in Hw.
  rewrite <- (take_drop idx (take kk nodes)), map_app, concat_app, Ed in Ckk. cbn [map concat] in Ckk. rewrite Hc in Ckk. pose proof Hnd as Hnd'. rewrite <- Ckk in Hnd'. pose proof El as El'. rewrite <- Ckk in El' at 1.
  destruct (split_unique _ _ _ _ _ Hnd' Hcn El') as [E1 E2].
  exists k, pre, c, post. rewrite <- E2 at 1. split_and!; [done|done| |done|done|done|done].
  unfold blockRecords. destruct (node_of k idx Ek) as (p' & i & lv & j & b & Ep' & _ & _ & -> & B). rewrite Ep in Ep'. injection Ep' as <-.
  rewrite (node_records _ _ _ _ _ B), (records_at _ _ _ (nb_ents _ _ _ _ _ _ _ B)). unfold entsOf. by rewrite Hl.
Qed.
End Search.

(** ** The finished index *)
Lemma leaves_at_wrote b b' lo hi p ls : wrote b b' lo hi -> 0 <= p -> hi <= p -> leaves_at b p ls -> leaves_at b' p ls.
Proof.
  intros W. revert p. induction ls as [|l ls IH]; intros p Hp Hh H; [done|]. destruct H as (E1 & E2 & H). cbn [leaves_at].
  rewrite !(wrote_dec _ _ _ _ _ _ W) by lia. split_and!; [done..|]. apply IH; [lia..|done].
Qed.
Lemma stampIndexBlock_spec sb num leafStart k p ents link hgt b :
  geometry_ok sb -> node_block sb num p ents link hgt b ->
  exists b', stampIndexBlock sb leafStart k b = Ret b' /\ node_block sb num p ents link hgt b' /\
    (hasCRC sb = true -> verifyCRC b' 12 (blockSize sb) = Ret true).
Proof.
  intros G B. pose proof (bs_range sb G) as R. pose proof (nb_len _ _ _ _ _ _ _ B) as L. unfold stampIndexBlock. wstep.
  assert (forall b1, wrote b b1 12 24 -> node_block sb num p ents link hgt b1) as Hk.
  { intros b1 W1. destruct B as [? Hb ? ? ? ? ? Hl ?]. constructor; rewrite ?(wrote_len _ _ _ _ W1), ?(wrote_dec _ _ _ _ _ _ W1) by lia; try done.
    - by eapply wrote_bytes.
    - eapply leaves_at_wrote; [exact W1|lia..|done]. }
  destruct (hasCRC sb).
  - destruct (updateCRC_spec b0 12 (blockSize sb)) as (b2 & E & V2 & W2); [eapply wrote_bytes; [exact W|apply B]|unfold crc_layout_ok; lia|].
    exists b2. split_and!; [done| |done]. apply Hk. eapply wrote_trans; (eapply wrote_weaken; [eassumption|lia..]).
  - exists b0. split_and!; [done| |done]. apply Hk. eapply wrote_weaken; [exact W|lia..].
Qed.

Section Build.
Context (sb : superblock) (Wsb : sb_width sb) (G : geometry_ok sb) (num leafLog : Z) (lents : list leafEnt).
Let bs := blockSize sb.
Let perLeaf := Z.quot (bs - dirLeafHdrSize) 8.
Let K := Z.max 1 (Z.quot (zlen lents + perLeaf - 1) perLeaf).
Context (Hnum : 0 <= num < 2 ^ 64) (Hlog : 0 < leafLog) (Hne : lents <> []) (Hents : Forall leaf_ok lents)
  (Hmax : leafLog + 2 * zlen lents < 2 ^ 32).

Lemma K_range : 0 < perLeaf /\ 1 <= K <= zlen lents /\ (K - 1) * perLeaf < zlen lents /\ zlen lents <= K * perLeaf.
Proof.
  pose proof (bs_range sb G) as R. fold bs in R. assert (56 <= perLeaf).
  { unfold perLeaf, dirLeafHdrSize. rewrite Z.quot_div_nonneg by lia. apply Z.div_le_lower_bound; lia. }
  assert (1 <= zlen lents) by (destruct lents; [done|]; rewrite zlen_cons; pose proof (zlen_nonneg l0); lia).
  unfold K. rewrite Z.quot_div_nonneg by lia. set (q := (zlen lents + perLeaf - 1) / perLeaf).
  assert (perLeaf * q <= zlen lents + perLeaf - 1 < perLeaf * q + perLeaf).
  { unfold q. pose proof (Z.mul_div_le (zlen lents + perLeaf - 1) perLeaf). pose proof (Z.mul_succ_div_gt (zlen lents + perLeaf - 1) perLeaf). lia. }
  assert (1 <= q) by nia. rewrite Z.max_r by lia. split_and!; nia.
Qed.
Lemma dirNodeBuild_blocks : exists nodes levels logOf root d blks,
  numbered sb leafLog perLeaf K lents nodes levels logOf root d /\
  dirNodeBuild sb num leafLog perLeaf K lents = Ret (concat blks, leafLog) /\
  Forall2 (fun b idx => emitted sb num nodes levels logOf idx b) blks (concat (rev levels)).
Proof.
  pose proof (bs_range sb G) as R. fold bs in R. destruct K_range as (Hper & HK & Hlo & Hhi).
  destruct (planTree_spec sb G leafLog perLeaf K lents) as (nodes & levels & logOf & root & d & E & N); [lia..|].
  pose proof (nm_plan _ _ _ _ _ _ _ _ _ _ N) as P. pose proof (pl_seq _ _ _ _ _ _ _ P) as Ps.
  destruct (allSiblings_spec logOf levels (replicate (length nodes) (0, 0))) as (links & El & _ & _ & Hl).
  - rewrite Ps. apply NoDup_seq.
  - rewrite Ps. apply Forall_forall. intros i Hi%elem_of_seq. rewrite (logOf_length sb leafLog K lents nodes levels logOf root d N). lia.
  - by rewrite length_replicate, (logOf_length sb leafLog K lents nodes levels logOf root d N).
  - destruct (emitPlans_spec sb Wsb G num Hnum leafLog K lents Hlog ltac:(lia) Hents nodes levels logOf root d N links Hl 0 nodes
      (replicate (length nodes) (make_bytes bs))) as (blks & Eb & Em); [done| |].
    { constructor; [apply length_replicate|apply blocks_make; lia|apply Forall_replicate, isbytes_replicate|intros; lia]. }
    exists nodes, levels, logOf, root, d, blks. split_and!; [done| |].
    + unfold dirNodeBuild. rewrite E. ostep. rewrite El. ostep. assert (zlen nodes = Z.of_nat (length nodes)) as -> by done.
      fold bs. rewrite make_blocks by lia. change 0 with (Z.of_nat 0). rewrite Eb. done.
    + apply Forall2_lookup_intro.
      * rewrite (em_len _ _ _ _ _ _ _ Em). symmetry. apply (order_length sb leafLog K lents nodes levels logOf root d N).
      * intros k b idx Eb' Ek. destruct (em_done _ _ _ _ _ _ _ Em idx k) as (b' & E' & He); [|done|congruence].
        by apply (order_lt sb leafLog K lents nodes levels logOf root d N) in Ek as [_ ?].
Qed.
End Build.

(** C9 (refinement).  The hash index of a node-form directory: for any non-empty sorted
    list of distinct leaf records, [dirNodeBuild] and the stamping loop of [writeNodeIndex]
    return a region of blocks whose CRCs verify.  In it, a descent by hash from block 0
    (first separator not below the hash) reaches, for every hash up to the largest, a leaf
    block [k] whose records contain the first record with that hash or more; everything
    left of that leaf is smaller, and following the leaf's forward links lists exactly the
    remaining records in order.  Building takes at most twice as many nodes as leaves, so
    planning and numbering always finish. *)
Theorem dirNodeBuild_search (sb : superblock) (num leafLog leafStart : Z) (lents : list leafEnt) :
  sb_width sb -> geometry_ok sb -> 0 <= num < 2 ^ 64 -> 0 < leafLog ->
  lents <> [] -> Sorted leaf_le lents -> NoDup lents -> Forall leaf_ok lents -> leafLog + 2 * zlen lents < 2 ^ 32 ->
  let bs := blockSize sb in
  let perLeaf := Z.quot (bs - dirLeafHdrSize) 8 in
  let K := Z.max 1 (Z.quot (zlen lents + perLeaf - 1) perLeaf) in
  exists n built region,
    dirNodeBuild sb num leafLog perLeaf K lents = Ret (built, leafLog) /\ zlen built = Z.of_nat n * bs /\ Z.of_nat n < 2 * K /\
    for_acc (Z.to_nat (u32 (Z.quot (zlen built) bs))) 0 built (fun b r => editBlock bs r b (stampIndexBlock sb leafStart b)) = Ret region /\
    zlen region = zlen built /\
    (hasCRC sb = true -> forall b, 0 <= b < Z.of_nat n -> verifyCRC (slice region (b * bs) bs) 12 bs = Ret true) /\
    forall h, h <= lasthash lents -> exists k pre c post,
      daSearch n bs leafLog region 0 h = Some (Z.of_nat k) /\ (k < n)%nat /\
      blockRecords bs region (Z.of_nat k) = c /\ leafWalk n bs leafLog region (Z.of_nat k) = c ++ post /\
      lents = pre ++ c ++ post /\ Forall (fun x => x.1 < h) pre /\ h <= lasthash c.
Proof.
  intros W G Hnum Hlog Hne Hsort Hnd Hents Hmax bs perLeaf K. pose proof (bs_range sb G) as R. fold bs in R.
  destruct (dirNodeBuild_blocks sb W G num leafLog lents Hnum Hlog Hne Hents Hmax) as (nodes & levels & logOf & root & d & blks & N & E & HB).
  fold bs in N, E. fold perLeaf in N, E. fold K in N, E. set (order := concat (rev levels)) in *.
  pose proof (order_length sb leafLog K lents nodes levels logOf root d N) as Lo. fold order in Lo.
  pose proof (nm_len _ _ _ _ _ _ _ _ _ _ N) as Hn. pose proof (Forall2_length _ _ _ HB) as Lb. rewrite Lo in Lb.
  destruct (K_range sb G leafLog lents Hlog Hne Hents Hmax) as (_ & HK & _). fold bs perLeaf K in HK.
  destruct (edit_groups (fun b idx => emitted sb num nodes levels logOf idx b)
    (fun b idx => emitted sb num nodes levels logOf idx b /\ (hasCRC sb = true -> verifyCRC b 12 bs = Ret true))
    bs (stampIndexBlock sb leafStart) blks order) as (blks' & E' & HB'); [lia| | |done|].
  { intros b idx (p & i & lv & j & _ & _ & _ & B). apply B. }
  { intros k b idx _ (p & i & lv & j & Ep & Ei & Ej & B). destruct (stampIndexBlock_spec sb num leafStart (Z.of_nat k) _ _ _ _ b G B) as (b' & E1 & B1 & V1).
    exists b'. split_and!; [done|apply B1|by exists p, i, lv, j|done]. }
  assert (Forall2 (fun b idx => emitted sb num nodes levels logOf idx b) blks' order) as HB1 by (eapply Forall2_impl; [exact HB'|]; by intros ? ? [? _]).
  pose proof (region_ok sb num nodes levels logOf blks HB) as O. pose proof (region_ok sb num nodes levels logOf blks' HB1) as O'. fold bs in O, O'.
  pose proof (Forall2_length _ _ _ HB') as Lb'. rewrite Lo in Lb'.
  assert (zlen (concat blks) = Z.of_nat (length nodes) * bs /\ zlen (concat blks') = Z.of_nat (length nodes) * bs) as [Z1 Z2].
  { rewrite (zlen_concat bs blks O), (zlen_concat bs blks' O'). unfold zlen. rewrite Lb, Lb'. done. }
  exists (length nodes), (concat blks), (concat blks'). split_and!; [done|done|exact Hn| |lia| |].
  - rewrite Z1, Z.quot_mul, u32_small by (unfold zlen in *; lia). rewrite Nat2Z.id, <- Lo. exact E'.
  - intros Hc b Hb. destruct (lookup_lt_is_Some_2 blks' (Z.to_nat b) ltac:(lia)) as [bb Ebb].
    rewrite <- (Z2Nat.id b), (slice_block bs blks' (Z.to_nat b) bb) by (done || lia).
    destruct (Forall2_lookup_l _ _ _ _ _ HB' Ebb) as (idx & _ & _ & V). auto.
  - intros h Hh. apply (search_root sb G num leafLog K lents Hlog nodes levels logOf root d N blks' HB1 h); [|done|done].
    apply (Sorted_StronglySorted leaf_le) in Hsort. clear -Hsort. induction Hsort as [|x l _ IH Hx]; constructor; [done|].
    eapply Forall_impl; [exact Hx|]. unfold hash_le, leaf_le. intros; lia.
Qed.

(** Six hundred records: two leaves under one node. *)
Definition sample_leaves : list leafEnt := map (fun k => (Z.of_nat k * 3, Z.of_nat k + 1)) (seq 0 600).
Lemma dirNodeBuild_search_witness :
  lasthash sample_leaves = 1797 /\
  exists n built region k c, dirNodeBuild sample_sb 128 8388608 504 2 sample_leaves = Ret (built, 8388608) /\ zlen built = zlen region /\
    daSearch n 4096 8388608 region 0 1600 = Some (Z.of_nat k) /\ blockRecords 4096 region (Z.of_nat k) = c /\ 1600 <= lasthash c.
Proof.
  split; [vm_compute; reflexivity|].
  destruct (dirNodeBuild_search sample_sb 128 8388608 77 sample_leaves sample_sb_width sample_sb_geometry ltac:(lia) ltac:(lia)
    ltac:(discriminate) ltac:(apply (bool_decide_unpack _); vm_compute; exact I) ltac:(apply (bool_decide_unpack _); vm_compute; exact I)
    ltac:(apply (bool_decide_unpack _); vm_compute; exact I) ltac:(vm_compute; reflexivity))
    as (n & built & region & E & _ & _ & _ & Hl & _ & Hs).
  destruct (Hs 1600 ltac:(vm_compute; discriminate)) as (k & pre & c & post & E1 & _ & E2 & _ & _ & _ & E3).
  exists n, built, region, k, c. split_and!; [exact E|by symmetry|exact E1|exact E2|exact E3].
Defined.
