(* ===== verification/DirUpdate.v ===== *)
(** * Changing directories (write.go, delete.go, rename.go)

    Adding and removing an entry of a directory in any form, through [writeWholeDir] once
    the short form is left, and redirecting "..".  The operations edit the caller's inode
    in place; it is returned. *)
From S2P Require Import Prelude Bytes Crc Extent Device Superblock SafeIO Inode FileRead Dir Delete Lookup AgBlocks AllocTree Alloc Refcount FileWrite LeafDir.

(** [findEntryInBlock]: offset and size of the entry, or (-1, 0). *)
Fixpoint findEntryLoop (fuel : nat) (blk name : bytes) (hasFType : bool) (off : Z) : outcome (Z * Z) :=
  match fuel with
  | O => NoFuel
  | S fuel' =>
      if zlen blk <? off + 10 then Ret (-1, 0)
      else
        freetag ← be16 blk off;
        if freetag =? dirFreeTag then
          length ← be16 blk (off + 2);
          if length <? 8 then Ret (-1, 0)
          else findEntryLoop fuel' blk name hasFType (off + length)
        else
          ino ← be64 blk off;
          if ino =? 0 then findEntryLoop fuel' blk name hasFType (off + 8)
          else
            namelen ← byte_at blk (off + 8);
            if namelen =? 0 then Ret (-1, 0)
            else
              let nameEnd := off + 9 + namelen in
              if zlen blk <? nameEnd then Ret (-1, 0)
              else
                let entSize := dirEntrySize namelen hasFType in
                n ← sub blk (off + 9) nameEnd;
                if bool_decide (n = name) then Ret (off, entSize)
                else findEntryLoop fuel' blk name hasFType (off + entSize)
  end.
Definition findEntryInBlock (blk name : bytes) (hasFType hasCRC : bool) : outcome (Z * Z) :=
  findEntryLoop (scan_fuel blk) blk name hasFType (dirDataHdrSize hasCRC).

(** The entry scan of [xfsUpdateDotDot]: the block with ".." redirected, [None] when it
    holds no "..". *)
Fixpoint dotDotLoop (fuel : nat) (blk : bytes) (hasFType : bool) (newParentIno off : Z) : outcome (option bytes) :=
  match fuel with
  | O => NoFuel
  | S fuel' =>
      if zlen blk <? off + 10 then Ret None
      else
        freetag ← be16 blk off;
        if freetag =? dirFreeTag then
          l ← be16 blk (off + 2);
          if l <? 8 then Ret None
          else dotDotLoop fuel' blk hasFType newParentIno (off + l)
        else
          ino ← be64 blk off;
          if ino =? 0 then dotDotLoop fuel' blk hasFType newParentIno (off + 8)
          else
            namelen ← byte_at blk (off + 8);
            if namelen =? 0 then Ret None
            else
              let nameEnd := off + 9 + namelen in
              if zlen blk <? nameEnd then Ret None
              else
                n ← sub blk (off + 9) nameEnd;
                if bool_decide (n = dotdot) then blk' ← put64 blk off newParentIno; Ret (Some blk')
                else dotDotLoop fuel' blk hasFType newParentIno (off + dirEntrySize namelen hasFType)
  end.
Definition dotDotBlock (sb : superblock) (blk : bytes) (newParentIno : Z) : outcome (option bytes) :=
  r ← dotDotLoop (scan_fuel blk) blk (hasFType sb) newParentIno (dirDataHdrSize (hasCRC sb));
  match r with
  | None => Ret None
  | Some blk' =>
      b ← (if hasCRC sb && (dir3DataHdrSize <=? zlen blk') then updateCRC blk' 4 (zlen blk') else Ret blk');
      Ret (Some b)
  end.
(** The short-form case. *)
Definition dotDotInode (i : inode) (newParentIno : Z) : outcome inode :=
  fork ← dataFork i;
  if zlen fork <? 6 then Fail (Errorf "updateDotDot: short fork")
  else
    i8count ← byte_at fork 1;
    if 0 <? i8count then
      if zlen fork <? 10 then Fail (Errorf "updateDotDot: fork too short for 8-byte parent")
      else raw ← put64 (iraw i) (inodeCoreSize + 2) newParentIno; Ret (set_raw i raw)
    else raw ← put32 (iraw i) (inodeCoreSize + 2) (u32 newParentIno); Ret (set_raw i raw).

Definition fromEntry (e : DirEntry) : dirEnt := mkDirEnt (deName e) (deInode e) (deFileType e).
Definition isDots (e : DirEntry) : bool := bool_decide (deName e = dot) || bool_decide (deName e = dotdot).
(** The parent inode in the short-form header. *)
Definition sfParent (fork : bytes) : outcome Z :=
  i8 ← byte_at fork 1;
  if 0 <? i8 then be64 fork 2 else be32 fork 2.

Section DirUpdate.
Context {SIO : SafeIO} {D : Type} {Dev : Device D}.
Variables (partOff : Z) (sb : superblock) (tfuel ofuel : nat).
Let W := World D.
Let wholeDir (i : inode) (parentIno : Z) (es : list dirEnt) : M W inode := writeWholeDir partOff sb tfuel ofuel i parentIno es.

Definition convertSFToBlock (i : inode) (newIno : Z) (newName : bytes) (newFtype : Z) : M W inode :=
  fork ← lift (dataFork i);
  parentIno ← lift (sfParent fork);
  existing ← lift (sfReadDir fork (hasFType sb));
  let entries := map fromEntry (List.filter (fun e => negb (isDots e)) existing) in
  wholeDir i parentIno (entries ++ [mkDirEnt newName newIno newFtype]).

Definition addEntryToBlockDir (i : inode) (childIno : Z) (name : bytes) (ftype : Z) : M W inode :=
  parentIno ← readD (fun r => dirParentIno r partOff sb i);
  existing ← readD (fun r => readDir r partOff sb i);
  if existsb (fun e => bool_decide (deName e = name)) existing then failM (Errorf "already exists")
  else wholeDir i parentIno (map fromEntry existing ++ [mkDirEnt name childIno ftype]).

Definition addDirEntry (i : inode) (childIno : Z) (name : bytes) (ftype : Z) : M W inode :=
  if iformat i =? inodeFmtLocal then
    r ← lift (addEntryToSFDir i childIno name ftype sb);
    match r with
    | Some i' => writeInode partOff sb i';; mret i'
    | None => convertSFToBlock i childIno name ftype
    end
  else if (iformat i =? inodeFmtExtents) || (iformat i =? inodeFmtBtree) then addEntryToBlockDir i childIno name ftype
  else failM (Errorf "unsupported dir format").

Definition removeBlockDirEntry (i : inode) (name : bytes) : M W inode :=
  parentIno ← readD (fun r => dirParentIno r partOff sb i);
  current ← readD (fun r => readDir r partOff sb i);
  let entries := map fromEntry (List.filter (fun e => negb (bool_decide (deName e = name))) current) in
  if negb (existsb (fun e => bool_decide (deName e = name)) current) then failM ErrNotFound
  else wholeDir i parentIno entries.

Definition removeDirEntry (i : inode) (name : bytes) : M W inode :=
  if iformat i =? inodeFmtLocal then removeSFEntry partOff sb i name
  else if (iformat i =? inodeFmtExtents) || (iformat i =? inodeFmtBtree) then removeBlockDirEntry i name
  else failM (Errorf "unsupported dir format").

(** [for b := 0; b < e.count; b++]: whether ".." was found and redirected. *)
Fixpoint dotDotRun (n : nat) (e : extent) (b newParentIno : Z) : M W bool :=
  match n with
  | O => mret false
  | S n' =>
      let abs := u64 (startBlock e + b) in
      blk ← readD (fun r => readRawBlock r partOff sb abs);
      r ← lift (dotDotBlock sb blk newParentIno);
      match r with
      | Some blk' => writeRawBlock partOff sb abs blk';; mret true
      | None => dotDotRun n' e (b + 1) newParentIno
      end
  end.
Fixpoint dotDotExts (exts : list extent) (newParentIno : Z) : M W unit :=
  match exts with
  | [] => mret tt
  | e :: rest =>
      if dirLeafByteOffset / blockSize sb <=? startOff e then dotDotExts rest newParentIno
      else
        found ← dotDotRun (Z.to_nat (count e)) e 0 newParentIno;
        if (found : bool) then mret tt else dotDotExts rest newParentIno
  end.
Definition xfsUpdateDotDot (i : inode) (newParentIno : Z) : M W unit :=
  if iformat i =? inodeFmtLocal then
    i' ← lift (dotDotInode i newParentIno);
    writeInode partOff sb i'
  else if (iformat i =? inodeFmtExtents) || (iformat i =? inodeFmtBtree) then
    exts ← (if iformat i =? inodeFmtExtents then lift (inlineExtents i)
            else readD (fun r => btreeExtents r partOff sb i));
    dotDotExts exts newParentIno
  else failM (Errorf "updateDotDot: unsupported dir format").
End DirUpdate.
