(* ===== verification/DirUpdateSpec.v ===== *)
(** * Changing block-form directories: theorems

    A directory in block form is, to its callers, a parent and a list of entries.  Adding
    and removing an entry on the image act on that list as the abstract operations do. *)
From S2P Require Import Prelude Bytes Crc Extent Device Superblock SafeIO Inode FileRead Dir Delete Lookup AgBlocks Zones AllocTree Alloc AllocLeaf AllocSpec Refcount FileWrite FileWriteSpec LeafDir LeafDirSpec DirUpdate.

(** ** The fit test of [writeWholeDir] *)
Lemma sum_sizes h es s :
  fold_left (fun s e => s + dirEntrySize (zlen (ename e)) h) es s = s + dirBytes h es.
Proof. revert s. induction es as [|e es IH]; intros s; cbn [fold_left dirBytes]; [lia|]. rewrite IH. unfold esize. lia. Qed.
Lemma fitsOneBlock_spec sb blk owner parent es :
  zlen blk = blockSize sb -> fitsOneBlock sb es = true <-> fitsBlock sb blk owner parent es.
Proof.
  intros L. unfold fitsOneBlock, fitsBlock. rewrite sum_sizes, L. unfold allEntries. cbn [dirBytes esize ename]. rewrite !zlen_cons.
  unfold esize. cbn [ename]. change (zlen dot) with 1. change (zlen dotdot) with 2. rewrite Z.leb_le. split; lia.
Qed.
Lemma dirBytes_filter h (P : dirEnt -> bool) es :
  Forall ent_ok es -> dirBytes h (List.filter P es) <= dirBytes h es /\ zlen (List.filter P es) <= zlen es.
Proof.
  induction 1 as [|e es He _ IH]; cbn [List.filter dirBytes]; [lia|]. pose proof (esize_range h e He).
  destruct (P e); cbn [dirBytes]; rewrite ?zlen_cons; lia.
Qed.
Lemma fitsOneBlock_filter sb (P : dirEnt -> bool) es : Forall ent_ok es -> fitsOneBlock sb es = true -> fitsOneBlock sb (List.filter P es) = true.
Proof.
  intros Hok. unfold fitsOneBlock. rewrite !sum_sizes, !Z.leb_le. pose proof (dirBytes_filter (hasFType sb) P es Hok). lia.
Qed.

(** ** Entries as the listing shows them *)
Definition shown (h : bool) (e : dirEnt) : dirEnt := fromEntry (toDirEntry h e).
Lemma shown_again h e : toDirEntry h (shown h e) = toDirEntry h e.
Proof. destruct h; done. Qed.
Lemma shown_ok h e : ent_ok e -> ent_ok (shown h e).
Proof. intros (? & ? & ? & ? & ?). unfold ent_ok, shown. cbn. split_and!; try done; try lia; destruct h; lia. Qed.
Lemma shown_size h g e : esize g (shown h e) = esize g e.
Proof. done. Qed.
Lemma dirBytes_shown h g es : dirBytes g (map (shown h) es) = dirBytes g es.
Proof. induction es as [|e es IH]; cbn [map dirBytes]; [done|]. by rewrite IH. Qed.
Lemma fitsOneBlock_shown sb h es : fitsOneBlock sb (map (shown h) es) = fitsOneBlock sb es.
Proof. unfold fitsOneBlock. rewrite !sum_sizes, dirBytes_shown. unfold zlen. by rewrite length_map. Qed.
Lemma map_shown_again h es : map (toDirEntry h) (map (shown h) es) = map (toDirEntry h) es.
Proof. rewrite map_map. apply map_ext. intros. apply shown_again. Qed.
Lemma firstMatch_shown h name es : firstMatch name (map (shown h) es) = firstMatch name es.
Proof. induction es as [|e es IH]; cbn [map firstMatch]; [done|]. by rewrite IH. Qed.

(** ** The directory on the image *)
(** Inode [i] is a block-form directory with parent [parent] and the entries [es], its
    block at byte [o]. *)
Record dir_view {D} `{Device D} (partOff : Z) (sb : superblock) (i : inode) (o : Z) (d : D) (parent : Z) (es : list dirEnt) : Prop := {
  dv_format : iformat i = inodeFmtExtents;
  dv_block : exists b0 u, inlineExtents i = Ret [mkExtent 0 b0 1 u] /\ 0 <= b0 < 2 ^ 64 /\ blockByteOffset partOff sb b0 = Ret o;
  dv_read : exists blk, ReadAt d o (blockSize sb) = Ret blk /\
    parseDirBlock blk (hasFType sb) (hasCRC sb) = Ret (map (toDirEntry (hasFType sb)) es) /\
    blockDirParent blk (hasFType sb) (hasCRC sb) = Ret parent /\
    forall name ino, firstMatch name (allEntries (inum i) parent es) = Some ino ->
      searchDirBlock blk name (hasFType sb) (hasCRC sb) = Ret (Some ino);
  dv_ok : Forall ent_ok (allEntries (inum i) parent es);
  dv_nodots : Forall (fun e => is_dots (ename e) = false) es;
  dv_fits : fitsOneBlock sb es = true
}.
(** Everything apart from the block reads as before. *)
Definition untouched {D} `{Device D} (o n : Z) (d d' : D) : Prop :=
  forall o' n' cs, 0 <= n' -> apartZ o' n' o n -> ReadAt d o' n' = Ret cs -> ReadAt d' o' n' = Ret cs.

Section Update.
Context {SIO : SafeIO} {D : Type} {Dev : Device D} {DL : DeviceLaws D} {DR : DeviceReliable D}.
Context (partOff : Z) (sb : superblock) (Wsb : sb_width sb) (G : geometry_ok sb) (tfuel ofuel : nat).
Let bs := blockSize sb.

Section View.
Context (i : inode) (o : Z) (d : D) (parent : Z) (es : list dirEnt) (V : dir_view partOff sb i o d parent es).

Lemma leafLog_pos : (dirLeafByteOffset / blockSize sb <=? 0) = false.
Proof.
  pose proof (bs_range sb G). apply Z.leb_gt. unfold dirLeafByteOffset. apply Z.div_str_pos. lia.
Qed.
Lemma view_extents : exists b0 u, dirExtents d partOff sb i = Ret [mkExtent 0 b0 1 u] /\ 0 <= b0 < 2 ^ 64 /\ blockByteOffset partOff sb b0 = Ret o.
Proof. destruct (dv_block _ _ _ _ _ _ _ V) as (b0 & u & E & H). exists b0, u. unfold dirExtents. by rewrite (dv_format _ _ _ _ _ _ _ V), Z.eqb_refl. Qed.
Lemma view_readDir : readDir d partOff sb i = Ret (map (toDirEntry (hasFType sb)) es).
Proof.
  destruct view_extents as (b0 & u & E & Hb & Ho). destruct (dv_read _ _ _ _ _ _ _ V) as (blk & Er & Ep & _).
  unfold readDir. rewrite (dv_format _ _ _ _ _ _ _ V). change (inodeFmtExtents =? inodeFmtLocal) with false. rewrite Z.eqb_refl. cbn [orb].
  unfold blockReadDir. rewrite E. ostep. cbn [range_acc startOff count startBlock]. rewrite leafLog_pos. change (Z.to_nat 1) with 1%nat. cbn [readDirRun startBlock].
  rewrite Z.add_0_r, u64_small by lia. unfold readRawBlock. rewrite Ho. ostep. rewrite Er. ostep. rewrite Ep. ostep. by rewrite app_nil_r.
Qed.
Lemma view_parent : dirParentIno d partOff sb i = Ret parent.
Proof.
  destruct view_extents as (b0 & u & E & Hb & Ho). destruct (dv_read _ _ _ _ _ _ _ V) as (blk & Er & _ & Ep & _).
  unfold dirParentIno. rewrite E. ostep. cbn [parentExts startOff startBlock]. rewrite leafLog_pos. cbn [Z.eqb negb orb].
  unfold readRawBlock. rewrite Ho. ostep. by rewrite Er.
Qed.
Lemma view_lookup name ino : firstMatch name (allEntries (inum i) parent es) = Some ino -> lookupInDir d partOff sb i name = Ret ino.
Proof.
  intros Hm. destruct view_extents as (b0 & u & E & Hb & Ho). destruct (dv_read _ _ _ _ _ _ _ V) as (blk & Er & _ & _ & Es).
  unfold lookupInDir. rewrite (dv_format _ _ _ _ _ _ _ V). change (inodeFmtExtents =? inodeFmtLocal) with false. rewrite Z.eqb_refl. cbn [orb].
  unfold blockDirLookup. rewrite E. ostep. cbn [lookupExts startOff count startBlock]. rewrite leafLog_pos. change (Z.to_nat 1) with 1%nat. cbn [lookupRun startBlock].
  rewrite Z.add_0_r, u64_small by lia. unfold readRawBlock. rewrite Ho. ostep. rewrite Er. ostep. by rewrite (Es name ino Hm).
Qed.
Lemma view_layout : exists b0, dirBlockLayout partOff sb d i = Ret ([b0], false) /\ 0 <= b0 < 2 ^ 64 /\ blockByteOffset partOff sb b0 = Ret o.
Proof.
  destruct view_extents as (b0 & u & E & Hb & Ho). exists b0. split; [|done]. unfold dirBlockLayout. rewrite (dv_format _ _ _ _ _ _ _ V).
  change (inodeFmtExtents =? inodeFmtLocal) with false. cbn iota. rewrite E. ostep. cbn [fold_left startOff count startBlock]. rewrite leafLog_pos.
  change (Z.to_nat 1) with 1%nat. cbn. by rewrite Z.add_0_r, u64_small by lia.
Qed.
End View.

Lemma raw_offset_any b0 o : blockByteOffset partOff sb b0 = Ret o -> i64 (partOff + i64 (i64 (fsbToPhysBlock sb b0) * blockSize sb)) = o.
Proof. unfold blockByteOffset. case_match; [done|]. intros [= <-]. by rewrite i64_mul. Qed.
(** Rewriting the block in place with the entries [es']. *)
Lemma writeWholeDir_inplace i o w parent es es' :
  dir_view partOff sb i o (dev w) parent es -> Forall ent_ok (allEntries (inum i) parent es') ->
  Forall (fun e => is_dots (ename e) = false) es' -> fitsOneBlock sb es' = true ->
  exists d', writeWholeDir partOff sb tfuel ofuel i parent es' w = (Ret i, set_dev d' w) /\
    dir_view partOff sb i o d' parent es' /\ untouched o bs (dev w) d'.
Proof.
  intros V Hok Hd Hfit. pose proof (bs_range sb G) as R. pose proof (bs_mod8 sb G) as M8. fold bs in R, M8.
  destruct (view_layout i o (dev w) parent es V) as (b0 & El & Hb & Ho). destruct (dv_read _ _ _ _ _ _ _ V) as (old & Eo & _).
  assert (zlen (make_bytes bs) = bs) as Lm by (unfold make_bytes; rewrite zlen_replicate; lia).
  destruct (build_reads sb (make_bytes bs) b0 (inum i) parent es' Wsb (isbytes_replicate _)) as (b & Eb & Lb & Bb & Ep & Epar & Es & _ & _);
    [lia|by rewrite Lm|done|done|by apply fitsOneBlock_spec|].
  destruct (write_zone w o bs old b Eo ltac:(lia) Bb) as (d' & Ew & Er & Fr). exists d'. split_and!.
  - unfold writeWholeDir. rewrite (bindM_Ret _ _ w ([b0], false) w) by (unfold readD; by rewrite El). cbn iota. rewrite Hfit. cbn [negb andb]. fold bs.
    rewrite (bindM_lift _ _ _ _ Eb). unfold writeRawBlock. rewrite (raw_offset_any b0 o Ho). by rewrite (bindM_Ret _ _ _ _ _ Ew).
  - destruct V as [Vf Vb Vr Vo Vn Vt]. constructor; [done|done| |done|done|done]. exists b. done.
  - exact Fr.
Qed.

Lemma fromEntry_listing h es : map fromEntry (map (toDirEntry h) es) = map (shown h) es.
Proof. apply map_map. Qed.
Lemma has_name h name es : existsb (fun e => bool_decide (deName e = name)) (map (toDirEntry h) es) = existsb (fun e => bool_decide (ename e = name)) es.
Proof. induction es as [|e es IH]; cbn; [done|]. by rewrite IH. Qed.
Lemma listing_filter h name es :
  map fromEntry (List.filter (fun e => negb (bool_decide (deName e = name))) (map (toDirEntry h) es)) =
  map (shown h) (List.filter (fun e => negb (bool_decide (ename e = name))) es).
Proof. induction es as [|e es IH]; cbn; [done|]. destruct (bool_decide (ename e = name)); cbn; by rewrite IH. Qed.
(** Two lists with the same listing describe the same directory. *)
Lemma same_shown (h : bool) l es : map (toDirEntry h) l = map (toDirEntry h) es -> map (shown h) l = map (shown h) es.
Proof. intros E. rewrite <- !fromEntry_listing. by rewrite E. Qed.
Lemma view_same i o d parent l es :
  dir_view partOff sb i o d parent l -> map (toDirEntry (hasFType sb)) l = map (toDirEntry (hasFType sb)) es ->
  Forall ent_ok (allEntries (inum i) parent es) -> dir_view partOff sb i o d parent es.
Proof.
  intros [Vf Vb (blk & Er & Ep & Epar & Es) Vo Vn Vt] El Hok. pose proof (same_shown _ _ _ El) as Esh.
  constructor; [done|done| |done| |by rewrite <- (fitsOneBlock_shown sb (hasFType sb)), <- Esh, fitsOneBlock_shown].
  - exists blk. rewrite <- El. split_and!; [done..|]. intros name ino Hm. apply Es. unfold allEntries in *. cbn [firstMatch] in *.
    by rewrite <- (firstMatch_shown (hasFType sb)), Esh, firstMatch_shown.
  - assert (forall l, Forall (fun e => is_dots (ename e) = false) (map (shown (hasFType sb)) l) <-> Forall (fun e => is_dots (ename e) = false) l) as Hs.
    { intros k. change (map (shown (hasFType sb)) k) with (shown (hasFType sb) <$> k). by rewrite Forall_fmap. }
    by rewrite <- Hs, <- Esh, Hs.
Qed.
(** Rewriting the block with a list that shows as [es']. *)
Lemma writeWholeDir_view i o w parent es l es' :
  dir_view partOff sb i o (dev w) parent es -> map (toDirEntry (hasFType sb)) l = map (toDirEntry (hasFType sb)) es' ->
  Forall ent_ok l -> Forall ent_ok es' -> Forall (fun e => is_dots (ename e) = false) l -> fitsOneBlock sb es' = true ->
  exists d', writeWholeDir partOff sb tfuel ofuel i parent l w = (Ret i, set_dev d' w) /\
    dir_view partOff sb i o d' parent es' /\ untouched o bs (dev w) d'.
Proof.
  intros V El Hl Ho Hn Hf. pose proof (dv_ok _ _ _ _ _ _ _ V) as Hok. unfold allEntries in Hok. rewrite !Forall_cons in Hok. destruct Hok as (H1 & H2 & Hes).
  destruct (writeWholeDir_inplace i o w parent es l V) as (d' & E & V' & F).
  - unfold allEntries. by rewrite !Forall_cons.
  - done.
  - by rewrite <- (fitsOneBlock_shown sb (hasFType sb)), (same_shown _ _ _ El), fitsOneBlock_shown.
  - exists d'. split_and!; [done| |done]. eapply view_same; [done|done|]. unfold allEntries. by rewrite !Forall_cons.
Qed.
Lemma shown_list_ok h es : Forall ent_ok es -> Forall ent_ok (map (shown h) es).
Proof. intros H. change (map (shown h) es) with (shown h <$> es). apply Forall_fmap. eapply Forall_impl; [exact H|]. intros. by apply shown_ok. Qed.
Lemma shown_list_nodots h es : Forall (fun e => is_dots (ename e) = false) es -> Forall (fun e => is_dots (ename e) = false) (map (shown h) es).
Proof. intros H. change (map (shown h) es) with (shown h <$> es). by apply Forall_fmap. Qed.
Lemma filter_Forall {A} (P : A -> Prop) f (l : list A) : Forall P l -> Forall P (List.filter f l).
Proof. induction 1; cbn; [done|]. case_match; auto. Qed.
End Update.

(** ** The abstract directory *)
Definition absAdd (es : list dirEnt) (e : dirEnt) : list dirEnt := es ++ [e].
Definition absRemove (es : list dirEnt) (name : bytes) : list dirEnt := List.filter (fun e => negb (bool_decide (ename e = name))) es.
Definition absHas (es : list dirEnt) (name : bytes) : bool := existsb (fun e => bool_decide (ename e = name)) es.

(** C8 (refinement).  A block-form directory on the image is a parent and a list of
    entries: listing it returns exactly the entries, looking up a name that is present returns its
    inode (the lookup of an absent name is not covered: its scan runs on into the leaf
    array, see [searchDirBlock_false_match]).  Adding an entry that fits appends it,
    removing a name drops its entry; both rewrite the one directory block in place, leave
    the inode and the rest of the image as they were and keep the parent.  Adding a name that is
    already there, or removing one that is not, is refused and nothing changes. *)
Theorem blockDir_update_refines {SIO : SafeIO} {D} {Dev : Device D} {DL : DeviceLaws D} {DR : DeviceReliable D}
    (partOff : Z) (sb : superblock) (tfuel ofuel : nat) (w : World D) (i : inode) (o parent : Z) (es : list dirEnt) :
  sb_width sb -> geometry_ok sb -> dir_view partOff sb i o (dev w) parent es ->
  readDir (dev w) partOff sb i = Ret (map (toDirEntry (hasFType sb)) es) /\
  (forall name ino, firstMatch name (allEntries (inum i) parent es) = Some ino -> lookupInDir (dev w) partOff sb i name = Ret ino) /\
  (forall e, ent_ok e -> is_dots (ename e) = false ->
     if absHas es (ename e) then addEntryToBlockDir partOff sb tfuel ofuel i (eino e) (ename e) (eftype e) w = (Fail (Errorf "already exists"), w)
     else fitsOneBlock sb (absAdd es e) = true ->
       exists d', addEntryToBlockDir partOff sb tfuel ofuel i (eino e) (ename e) (eftype e) w = (Ret i, set_dev d' w) /\
         dir_view partOff sb i o d' parent (absAdd es e) /\ untouched o (blockSize sb) (dev w) d') /\
  (forall name,
     if absHas es name then
       exists d', removeBlockDirEntry partOff sb tfuel ofuel i name w = (Ret i, set_dev d' w) /\
         dir_view partOff sb i o d' parent (absRemove es name) /\ untouched o (blockSize sb) (dev w) d'
     else removeBlockDirEntry partOff sb tfuel ofuel i name w = (Fail ErrNotFound, w)).
Proof.
  intros W G V. split; [by eapply view_readDir|]. split; [intros; by eapply view_lookup|].
  pose proof (view_readDir partOff sb G i o (dev w) parent es V) as Er. pose proof (view_parent partOff sb G i o (dev w) parent es V) as Ep.
  pose proof (dv_ok _ _ _ _ _ _ _ V) as Hok. pose proof (dv_nodots _ _ _ _ _ _ _ V) as Hd. unfold allEntries in Hok. rewrite !Forall_cons in Hok. destruct Hok as (H1 & H2 & Hes).
  split.
  - intros e He Hde. unfold addEntryToBlockDir.
    rewrite !(bindM_Ret _ _ w _ w) by (unfold readD; rewrite ?Er, ?Ep; reflexivity). rewrite has_name. fold (absHas es (ename e)).
    destruct (absHas es (ename e)); [done|]. intros Hfit. rewrite fromEntry_listing. unfold absAdd.
    apply (writeWholeDir_view partOff sb W G tfuel ofuel i o w parent es); [done| | | | |done].
    + rewrite !map_app, map_shown_again. by destruct e.
    + apply Forall_app. split; [by apply shown_list_ok|]. apply Forall_singleton. by destruct e.
    + apply Forall_app. split; [done|by apply Forall_singleton].
    + apply Forall_app. split; [by apply shown_list_nodots|by apply Forall_singleton].
  - intros name. unfold removeBlockDirEntry.
    rewrite !(bindM_Ret _ _ w _ w) by (unfold readD; rewrite ?Er, ?Ep; reflexivity). rewrite has_name. fold (absHas es name).
    destruct (absHas es name); [|done]. cbn [negb]. rewrite listing_filter. fold (absRemove es name).
    assert (Forall ent_ok (absRemove es name) /\ Forall (fun e => is_dots (ename e) = false) (absRemove es name)) as [Ho Hn] by (split; by apply filter_Forall).
    apply (writeWholeDir_view partOff sb W G tfuel ofuel i o w parent es); [done|apply map_shown_again|by apply shown_list_ok|done|by apply shown_list_nodots|].
    apply fitsOneBlock_filter; [done|]. apply (dv_fits _ _ _ _ _ _ _ V).
Qed.

(** A directory of two entries in block 20 of a small image. *)
Definition block_dir_inode : inode := Eval vm_compute in decodeInode 16 (tiny_file [mkExtent 0 20 1 false] 512).
Definition block_dir_image : memdev :=
  make_bytes (20 * 512) ++ bytesOf (buildBlockDirBlock tiny_sb (make_bytes 512) 20 16 16 sample_entries) ++ make_bytes (43 * 512).
Lemma sample_view : dir_view 0 tiny_sb block_dir_inode 10240 (dev (initWorld block_dir_image)) 16 sample_entries.
Proof.
  assert (Forall ent_ok (allEntries 16 16 sample_entries)) as Hok by (by apply (bool_decide_unpack _)).
  constructor; [done|exists 20, false; split_and!; [vm_compute; reflexivity|lia|lia|vm_compute; reflexivity]| |exact Hok|repeat constructor|vm_compute; reflexivity].
  destruct (build_reads tiny_sb (make_bytes 512) 20 16 16 sample_entries tiny_sb_width (isbytes_replicate _) ltac:(vm_compute; split; discriminate)
    eq_refl Hok ltac:(repeat constructor) ltac:(vm_compute; discriminate)) as (b & E & _ & _ & Ep & Epar & Es & _).
  exists b. split_and!; [|exact Ep|exact Epar|exact Es].
  assert (b = bytesOf (buildBlockDirBlock tiny_sb (make_bytes 512) 20 16 16 sample_entries)) as -> by (by rewrite E). vm_compute. reflexivity.
Qed.
Lemma blockDir_update_refines_witness :
  exists d', addEntryToBlockDir 0 tiny_sb 5 5 block_dir_inode 133 [99; 100] 1 (initWorld block_dir_image) = (Ret block_dir_inode, set_dev d' (initWorld block_dir_image)) /\
    dir_view 0 tiny_sb block_dir_inode 10240 d' 16 (sample_entries ++ [mkDirEnt [99; 100] 133 1]).
Proof.
  destruct (blockDir_update_refines 0 tiny_sb 5 5 (initWorld block_dir_image) block_dir_inode 10240 16 sample_entries tiny_sb_width tiny_sb_geometry sample_view)
    as (_ & _ & Ha & _).
  destruct (Ha (mkDirEnt [99; 100] 133 1) ltac:(by apply (bool_decide_unpack _)) eq_refl ltac:(vm_compute; reflexivity)) as (d' & E & V & _).
  exists d'. split; [exact E|exact V].
Defined.
