(* ===== verification/Namespace.v ===== *)
(** * Creating, linking, removing and renaming (write.go, link.go, mkdir.go, delete.go, rename.go, reflink.go)

    The operations that change the directory tree, each from its path arguments to the last
    write.  The function variables of these files ([writePathLookup], ...) always hold
    the functions of the same name outside the tests and are modelled by them; [clk] is
    the clock reading of the call and [now] that of each inode a chunk growth stamps.
    [deleteDir] recurses on the tree it removes and takes the bound [dfuel] on its depth. *)
From S2P Require Import Prelude Bytes Crc Extent Device Superblock SafeIO Inode FileRead Dir Delete Lookup AgBlocks AllocTree Alloc InodeAlloc Refcount FileWrite LeafDir DirUpdate.

(** path.Split: up to and including the last slash, and the rest. *)
Fixpoint pathSplit (p : bytes) : bytes * bytes :=
  match p with
  | [] => ([], [])
  | c :: rest =>
      let '(d, f) := pathSplit rest in
      match d with
      | [] => if c =? slash then ([c], f) else ([], c :: f)
      | _ => (c :: d, f)
      end
  end.
(** [strings.TrimSuffix(p, "/")] *)
Definition trimSuffixSlash (p : bytes) : bytes :=
  match rev p with c :: rest => if c =? slash then rev rest else p | [] => [] end.
(** Parent path and last component of a cleaned path. *)
Definition parentAndName (p : bytes) : bytes * bytes :=
  let '(parentPath, name) := pathSplit p in
  let parentPath := trimSuffixSlash parentPath in
  (if bool_decide (parentPath = []) then [slash] else parentPath, name).

Definition fileMode (perm typ : Z) : Z := Z.lor (u16 (Z.land perm 0x1FF)) typ.
(** A fresh in-memory inode over an initialised buffer. *)
Definition freshInode (ino mode : Z) (raw : bytes) : inode := mkInode ino mode 0 0 0 0 0 raw.
Definition bumpCTime (clk : Z * Z) (i : inode) : outcome inode :=
  raw ← stampLegacy clk (iraw i) inoOffCTime; Ret (set_raw i raw).
(** [nlink += delta] on the raw buffer. *)
Definition addNLink (i : inode) (delta : Z) : outcome inode :=
  nl ← be32 (iraw i) inoOffNLink;
  raw ← put32 (iraw i) inoOffNLink (u32 (nl + delta));
  Ret (set_raw i raw).
(** The short-form header of an empty directory (makeDir). *)
Definition emptyDirFork (i : inode) (parent : Z) : outcome inode :=
  raw ← set_byte (iraw i) inodeCoreSize 0;
  raw ← set_byte raw (inodeCoreSize + 1) 0;
  if 0xFFFFFFFF <? parent then
    raw ← put64 raw (inodeCoreSize + 2) parent;
    setInodeSize (set_raw i raw) 10
  else
    raw ← put32 raw (inodeCoreSize + 2) (u32 parent);
    setInodeSize (set_raw i raw) 6.

Section Namespace.
Context {SIO : SafeIO} {D : Type} {Dev : Device D}.
Variables (partOff : Z) (sb : superblock) (tfuel ofuel : nat) (now : Z -> Z * Z) (clk : Z * Z).
Let W := World D.
Let blockAlloc (ag n : Z) : M W Z := allocBlocks partOff sb tfuel ofuel ag n.
Let blockFree (abs n : Z) : M W unit := freeBlocks partOff sb tfuel ofuel abs n.
Let inodeAlloc (ag : Z) : M W Z := allocInode partOff sb tfuel ofuel now ag.
Let inodeFree (ino : Z) : M W unit := freeInode partOff sb tfuel ino.
Let addEntry (i : inode) (ino : Z) (name : bytes) (ft : Z) : M W inode := addDirEntry partOff sb tfuel ofuel i ino name ft.
Let removeEntry (i : inode) (name : bytes) : M W inode := removeDirEntry partOff sb tfuel ofuel i name.
Let readIno (ino : Z) : M W inode := readD (fun r => readInode r partOff sb ino).
Let lookupPath (p : bytes) : M W inode := readD (fun r => pathLookup r partOff sb p).
Let lookupName (i : inode) (name : bytes) : M W Z := readD (fun r => lookupInDir r partOff sb i name).
Let putInode (i : inode) : M W unit := writeInode partOff sb i.

(** [if err == nil {exists} else if !errors.Is(err, ErrNotFound) {return err}] *)
Definition mustBeAbsent (i : inode) (name : bytes) : M W unit :=
  catchM (lookupName i name) (fun _ => failM (Errorf "already exists"))
    (fun e => if bool_decide (e = ErrNotFound) then mret tt else failM e).
(** The parent directory of a path to be created, checked. *)
Definition parentDir (parentPath : bytes) : M W inode :=
  dirIn ← lookupPath parentPath;
  lift (failif (negb (isDir dirIn)) (Errorf "not a directory"));;
  mret dirIn.

(** ** Creation *)
Definition createInodeWithData (dirIn : inode) (name data : bytes) (mode ftype : Z) : M W unit :=
  let ag := inoAG sb (inum dirIn) in
  ino ← allocAnyAG sb ag inodeAlloc;
  let nBlocks := blocksFor sb (zlen data) in
  buf ← lift (initInodeV3 clk (make_bytes (inodeSize sb)) ino mode 1 (uuid sb));
  let newIn := freshInode ino mode buf in
  newIn ← (if zlen data =? 0 then
             newIn ← lift (setInodeFormat newIn inodeFmtLocal);
             lift (setInodeSize newIn 0)
           else
             absBlock ← allocAnyAG sb ag (fun a => blockAlloc a nBlocks);
             newIn ← lift (setInodeFormat newIn inodeFmtExtents);
             newIn ← lift (setInodeSize newIn (zlen data));
             newIn ← lift (setInodeNBlocks newIn nBlocks);
             newIn ← lift (setInodeNExtents newIn 1);
             newIn ← lift (writeExtentList newIn [mkExtent 0 absBlock nBlocks false]);
             writeBlocksData partOff sb absBlock nBlocks data;;
             mret newIn);
  putInode newIn;;
  addEntry dirIn ino name ftype;;
  mret tt.
Definition createFile (dirIn : inode) (name data : bytes) (perm : Z) : M W unit :=
  createInodeWithData dirIn name data (fileMode perm 0x8000) 1.
Definition createSymlink (dirIn : inode) (name target : bytes) : M W unit :=
  createInodeWithData dirIn name target (Z.lor 0x1FF 0xA000) 7.

Definition writeFile (p data : bytes) (perm : Z) : M W unit :=
  let p := pathClean p in
  let '(parentPath, name) := parentAndName p in
  lift (failif (bool_decide (name = [])) (Errorf "invalid path"));;
  dirIn ← parentDir parentPath;
  existIno ← catchM (lookupName dirIn name) mret
               (fun e => if bool_decide (e = ErrNotFound) then mret 0 else failM e);
  if negb (existIno =? 0) then overwriteFile partOff sb tfuel ofuel existIno data
  else createFile dirIn name data perm.

Definition symlinkInode (target linkPath : bytes) : M W unit :=
  let linkPath := pathClean linkPath in
  let '(parentPath, name) := parentAndName linkPath in
  lift (failif (bool_decide (name = [])) (Errorf "invalid symlink path"));;
  dirIn ← parentDir parentPath;
  mustBeAbsent dirIn name;;
  createSymlink dirIn name target.

Definition makeDir (p : bytes) (perm : Z) : M W unit :=
  let p := pathClean p in
  let '(parentPath, name) := parentAndName p in
  lift (failif (bool_decide (name = [])) (Errorf "invalid path"));;
  dirIn ← parentDir parentPath;
  mustBeAbsent dirIn name;;
  ino ← allocAnyAG sb (inoAG sb (inum dirIn)) inodeAlloc;
  let mode := fileMode perm 0x4000 in
  buf ← lift (initInodeV3 clk (make_bytes (inodeSize sb)) ino mode 2 (uuid sb));
  let newIn := mkInode ino mode inodeFmtLocal 0 0 0 0 buf in
  newIn ← lift (emptyDirFork newIn (inum dirIn));
  newIn ← lift (setInodeFormat newIn inodeFmtLocal);
  putInode newIn;;
  dirIn ← addEntry dirIn ino name 2;
  dirIn ← lift (addNLink dirIn 1);
  putInode dirIn.

Definition linkInode (oldPath newPath : bytes) : M W unit :=
  src ← lookupPath oldPath;
  lift (failif (isDir src) (Errorf "hardlinks to directories are not allowed"));;
  let newPath := pathClean newPath in
  let '(parentPath, name) := parentAndName newPath in
  lift (failif (bool_decide (name = [])) (Errorf "invalid destination"));;
  parentIn ← parentDir parentPath;
  mustBeAbsent parentIn name;;
  src ← lift (addNLink src 1);
  src ← lift (bumpCTime clk src);
  putInode src;;
  let ftype := if isSymlink src then 7 else 1 in
  addEntry parentIn (inum src) name ftype;;
  mret tt.

(** ** Sharing *)
Definition reflinkCopyLocal (srcIn dirIn : inode) (name : bytes) : M W unit :=
  fork ← lift (dataFork srcIn);
  if zlen fork <? isize srcIn then failM ErrOutOfBounds
  else createFile dirIn name (slice fork 0 (isize srcIn)) (Z.land (imode srcIn) 0x1FF).
Definition reflinkFile (srcPath dstPath : bytes) : M W unit :=
  lift (failif (negb (hasReflink sb)) (Errorf "filesystem was not formatted with reflink support"));;
  let srcPath := pathClean srcPath in
  let dstPath := pathClean dstPath in
  srcIn ← lookupPath srcPath;
  lift (failif (negb (isRegular srcIn)) (Errorf "not a regular file"));;
  let '(parentPath, name) := parentAndName dstPath in
  lift (failif (bool_decide (name = [])) (Errorf "invalid destination"));;
  dirIn ← parentDir parentPath;
  mustBeAbsent dirIn name;;
  if iformat srcIn =? inodeFmtLocal then reflinkCopyLocal srcIn dirIn name
  else if negb (iformat srcIn =? inodeFmtExtents) then failM (Errorf "unsupported fork format")
  else
    exts ← lift (inlineExtents srcIn);
    dstIno ← allocAnyAG sb (inoAG sb (inum dirIn)) inodeAlloc;
    dstBuf ← lift (initInodeV3 clk (make_bytes (inodeSize sb)) dstIno (imode srcIn) 1 (uuid sb));
    dstIn ← lift (setInodeFormat (freshInode dstIno (imode srcIn) dstBuf) inodeFmtExtents);
    dstIn ← lift (setInodeSize dstIn (isize srcIn));
    dstIn ← lift (setInodeNBlocks dstIn (inBlocks srcIn));
    dstIn ← lift (setInodeNExtents dstIn (u32 (zlen exts)));
    dstIn ← lift (writeExtentList dstIn exts);
    dstIn ← lift (setInodeReflinkFlag dstIn);
    putInode dstIn;;
    srcIn ← lift (setInodeReflinkFlag srcIn);
    putInode srcIn;;
    range_accM exts tt (fun e _ => refcountShareExtent partOff sb (startBlock e) (count e));;
    addEntry dirIn dstIno name 1;;
    mret tt.

(** ** Removal *)
(** [if errors.Is(err, ErrNotFound) { return nil }] *)
Definition ignoreNotFound {A} (m : M W A) (k : A -> M W unit) : M W unit :=
  catchM m k (fun e => if bool_decide (e = ErrNotFound) then mret tt else failM e).
Definition fileExtentsOf (i : inode) : M W (list extent) :=
  if iformat i =? inodeFmtExtents then lift (inlineExtents i)
  else readD (fun r => btreeExtents r partOff sb i).
Definition hasExtentFork (i : inode) : bool := (iformat i =? inodeFmtExtents) || (iformat i =? inodeFmtBtree).
(** The block release of [deleteFile]; the inode comes back with its fork reset if shared. *)
Definition releaseFileBlocks (i : inode) : M W inode :=
  if hasExtentFork i then
    exts ← fileExtentsOf i;
    reflinked ← lift (inodeIsReflinked i);
    range_accM exts tt (fun e _ =>
      if (reflinked : bool) then refcountFreeExtent partOff sb tfuel ofuel (startBlock e) (count e)
      else blockFree (startBlock e) (count e));;
    if (reflinked : bool) then lift (resetFreedInodeFork i) else mret i
  else mret i.

Definition deleteFile (p : bytes) : M W unit :=
  let p := pathClean p in
  let '(parentPath, name) := parentAndName p in
  ignoreNotFound (lookupPath parentPath) (fun dirIn =>
  ignoreNotFound (lookupName dirIn name) (fun childIno =>
    i ← readIno childIno;
    lift (failif (negb (isRegular i)) (Errorf "not a regular file"));;
    removeEntry dirIn name;;
    i ← releaseFileBlocks i;
    i ← lift (zeroInode i);
    putInode i;;
    inodeFree childIno)).

(** [if nl > 0 { nlink--; write }] on the parent of a removed directory. *)
Definition dropParentLink (dirIn : inode) : M W unit :=
  nl ← lift (be32 (iraw dirIn) inoOffNLink);
  if 0 <? nl then dirIn ← lift (addNLink dirIn (-1)); putInode dirIn else mret tt.
Fixpoint deleteDir (dfuel : nat) (p : bytes) : M W unit :=
  match dfuel with
  | O => lift NoFuel
  | S dfuel' =>
      let p := pathClean p in
      let '(parentPath, name) := parentAndName p in
      ignoreNotFound (lookupPath parentPath) (fun dirIn =>
      ignoreNotFound (lookupName dirIn name) (fun childInoNum =>
        targetIn ← readIno childInoNum;
        lift (failif (negb (isDir targetIn)) (Errorf "not a directory"));;
        children ← readD (fun r => readDir r partOff sb targetIn);
        range_accM children tt (fun e _ =>
          let childPath := p ++ slash :: deName e in
          if deFileType e =? 2 then deleteDir dfuel' childPath else deleteFile childPath);;
        dirIn ← lookupPath parentPath;
        dirIn ← removeEntry dirIn name;
        dropParentLink dirIn;;
        targetIn ← readIno childInoNum;
        (if hasExtentFork targetIn then
           exts ← fileExtentsOf targetIn;
           range_accM exts tt (fun e _ => blockFree (startBlock e) (count e))
         else mret tt);;
        targetIn ← lift (zeroInode targetIn);
        putInode targetIn;;
        inodeFree childInoNum))
  end.

(** ** Renaming *)
Definition ftypeOf (i : inode) : Z := if isDir i then 2 else if isSymlink i then 7 else 1.
(** The existing destination of a rename, removed if its kind matches. *)
Definition replaceTarget (dfuel : nat) (srcIn newParIn : inode) (newName newPath : bytes) : M W unit :=
  ignoreNotFound (lookupName newParIn newName) (fun dstInoNum =>
    dstIn ← readIno dstInoNum;
    lift (failif (isDir srcIn && negb (isDir dstIn)) (Errorf "cannot replace non-directory with a directory"));;
    lift (failif (negb (isDir srcIn) && isDir dstIn) (Errorf "cannot replace directory with a non-directory"));;
    if isDir dstIn then deleteDir dfuel newPath else deleteFile newPath).
Definition renameEntry (dfuel : nat) (oldPath newPath : bytes) : M W unit :=
  let oldPath := pathClean oldPath in
  let newPath := pathClean newPath in
  let '(oldParPath, oldName) := parentAndName oldPath in
  let '(newParPath, newName) := parentAndName newPath in
  oldParIn ← lookupPath oldParPath;
  newParIn ← lookupPath newParPath;
  srcInoNum ← lookupName oldParIn oldName;
  srcIn ← readIno srcInoNum;
  if (inum oldParIn =? inum newParIn) && bool_decide (oldName = newName) then mret tt
  else
    replaceTarget dfuel srcIn newParIn newName newPath;;
    lookupPath oldParPath;;
    newParIn ← lookupPath newParPath;
    newParIn ← addEntry newParIn srcInoNum newName (ftypeOf srcIn);
    oldParIn ← lookupPath oldParPath;
    removeEntry oldParIn oldName;;
    if isDir srcIn && negb (inum oldParIn =? inum newParIn) then
      srcIn ← readIno srcInoNum;
      xfsUpdateDotDot partOff sb srcIn (inum newParIn)
    else mret tt.
End Namespace.
