(* ===== verification/Attr.v ===== *)
(** * Truncation, attributes and extended stat (truncate.go, setattr.go, extended_stat.go)

    [truncateInode], the setters of owner, mode and times, and the reads of [ExtendedStat].
    [clk] is the clock reading of the call; a [time.Time] is its (seconds, nanoseconds). *)
From S2P Require Import Prelude Bytes Crc Extent Device Superblock SafeIO Inode FileRead Dir Lookup AgBlocks AllocTree Alloc InodeAlloc Refcount FileWrite LeafDir DirUpdate Namespace.

Definition inoOffUID := 8.
Definition inoOffGID := 12.
Definition inoOffGen := 92.

(** ** Pure edits of the inode *)
Definition bumpMTimeCTime (clk : Z * Z) (i : inode) : outcome inode :=
  raw ← stampLegacy clk (iraw i) inoOffMTime;
  raw ← stampLegacy clk raw inoOffCTime;
  Ret (set_raw i raw).
Definition chownRaw (clk : Z * Z) (i : inode) (uid gid : Z) : outcome inode :=
  raw ← put32 (iraw i) inoOffUID uid;
  raw ← put32 raw inoOffGID gid;
  bumpCTime clk (set_raw i raw).
Definition chmodRaw (clk : Z * Z) (i : inode) (perm : Z) : outcome inode :=
  cur ← be16 (iraw i) inoOffMode;
  let newMode := Z.lor (Z.ldiff cur 0xFFF) (Z.land (u16 perm) 0xFFF) in
  raw ← put16 (iraw i) inoOffMode newMode;
  bumpCTime clk (mkInode (inum i) newMode (iformat i) (isize i) (inBlocks i) (inExts i) (iforkOff i) raw).
Definition chtimesRaw (clk : Z * Z) (i : inode) (atime mtime : Z * Z) : outcome inode :=
  raw ← stampLegacy atime (iraw i) inoOffATime;
  raw ← stampLegacy mtime raw inoOffMTime;
  bumpCTime clk (set_raw i raw).

(** The extents kept by a shrink to [newSize], the block runs given back, in order, and the
    number of blocks kept. *)
Fixpoint shrinkExtents (sb : superblock) (newSize : Z) (exts : list extent) : list extent * list (Z * Z) * Z :=
  match exts with
  | [] => ([], [], 0)
  | e :: rest =>
      let '(kept, freed, total) := shrinkExtents sb newSize rest in
      let extStart := u64 (startOff e * blockSize sb) in
      let extEnd := u64 (extStart + u64 (count e * blockSize sb)) in
      if extEnd <=? newSize then (e :: kept, freed, u64 (count e + total))
      else if newSize <=? extStart then (kept, (startBlock e, count e) :: freed, total)
      else
        let keepBytes := u64 (newSize - extStart) in
        let keepBlocks := u32 (u64 (keepBytes + blockSize sb - 1) / blockSize sb) in
        (mkExtent (startOff e) (startBlock e) keepBlocks (unwritten e) :: kept,
         (if keepBlocks <? count e then [(u64 (startBlock e + keepBlocks), u32 (count e - keepBlocks))] else []) ++ freed,
         u64 (keepBlocks + total))
  end.
(** The inode after a shrink of an extent-list file. *)
Definition shrinkInode (clk : Z * Z) (i : inode) (kept : list extent) (total newSize : Z) : outcome inode :=
  i ← setInodeSize i newSize;
  i ← setInodeNBlocks i total;
  i ← setInodeNExtents i (u32 (zlen kept));
  i ← (if zlen kept =? 0 then setInodeFormat i inodeFmtLocal else writeExtentList i kept);
  bumpMTimeCTime clk i.

Record InodeStat := mkStat {
  sInode : Z; sMode : Z; sSize : Z; sNBlocks : Z; sNLink : Z; sUID : Z; sGID : Z; sGeneration : Z;
  sATime : Z * Z; sCTime : Z * Z; sMTime : Z * Z; sCRTime : option (Z * Z)   (* the zero Time when absent *)
}.
Definition statInode (sb : superblock) (i : inode) : outcome InodeStat :=
  bigtime ← inodeHasBigtime (iraw i);
  nl ← be32 (iraw i) inoOffNLink;
  uid ← be32 (iraw i) inoOffUID;
  gid ← be32 (iraw i) inoOffGID;
  gen ← be32 (iraw i) inoOffGen;
  at_ ← decodeInodeTime (iraw i) inoOffATime bigtime;
  mt ← decodeInodeTime (iraw i) inoOffMTime bigtime;
  ct ← decodeInodeTime (iraw i) inoOffCTime bigtime;
  cr ← (if hasCRC sb then t ← decodeInodeTime (iraw i) inoOffCRTime bigtime; Ret (Some t) else Ret None);
  Ret (mkStat (inum i) (imode i) (isize i) (inBlocks i) nl uid gid gen at_ ct mt cr).

Section Attr.
Context {SIO : SafeIO} {D : Type} {Dev : Device D}.
Variables (partOff : Z) (sb : superblock) (tfuel ofuel : nat) (clk : Z * Z).
Let W := World D.
Let lookupPath (p : bytes) : M W inode := readD (fun r => pathLookup r partOff sb p).
Let putInode (i : inode) : M W unit := writeInode partOff sb i.
(** Resolve, edit, write back. *)
Definition updateInode (p : bytes) (f : inode -> outcome inode) : M W unit :=
  i ← lookupPath p;
  i ← lift (f i);
  putInode i.

Definition chownInode (p : bytes) (uid gid : Z) : M W unit := updateInode p (fun i => chownRaw clk i uid gid).
Definition chmodInode (p : bytes) (perm : Z) : M W unit := updateInode p (fun i => chmodRaw clk i perm).
Definition chtimesInode (p : bytes) (atime mtime : Z * Z) : M W unit := updateInode p (fun i => chtimesRaw clk i atime mtime).

Definition resizeOnly (i : inode) (newSize : Z) : M W unit :=
  i ← lift (setInodeSize i newSize);
  i ← lift (bumpMTimeCTime clk i);
  putInode i.
Definition truncateInode (p : bytes) (newSize : Z) : M W unit :=
  i ← lookupPath p;
  lift (failif (negb (isRegular i)) (Errorf "not a regular file"));;
  if newSize =? isize i then i ← lift (bumpMTimeCTime clk i); putInode i
  else if isize i <? newSize then resizeOnly i newSize
  else if iformat i =? inodeFmtLocal then resizeOnly i newSize
  else if iformat i =? inodeFmtExtents then
    exts ← lift (inlineExtents i);
    let '(kept, freed, total) := shrinkExtents sb newSize exts in
    range_accM freed tt (fun run _ => freeBlocks partOff sb tfuel ofuel run.1 run.2);;
    i ← lift (shrinkInode clk i kept total newSize);
    putInode i
  else failM (Errorf "unsupported fork format").

Definition lstatLookup (r : D) (p : bytes) : outcome inode :=
  let p := pathClean p in
  if bool_decide (p = [slash]) || bool_decide (p = dot) then pathLookup r partOff sb p
  else
    let '(parentPath, name) := parentAndName p in
    parentIn ← pathLookup r partOff sb parentPath;
    failif (negb (isDir parentIn)) (Errorf "not a directory");;
    childIno ← lookupInDir r partOff sb parentIn name;
    readInode r partOff sb childIno.
Definition ExtendedStat (r : D) (p : bytes) : outcome InodeStat :=
  i ← lstatLookup r p;
  statInode sb i.
End Attr.
