(* ===== verification/AttrSpec.v ===== *)
(** * Attributes: theorems

    The attribute setters against [statInode]. *)
From S2P Require Import Prelude Bytes Crc Writers Extent Device Superblock SafeIO Inode FileRead Dir Lookup AgBlocks AllocTree Alloc AllocLeaf AllocSpec InodeAlloc Refcount FileWrite FileWriteSpec LeafDir DirUpdate Namespace Attr.

(** ** [statInode] as a function of the buffer *)
Definition bigtimeOf (raw : bytes) : bool := (3 <=? dec 1 raw 4) && negb (Z.land (dec 8 raw 120) xfsDiflag2Bigtime =? 0).
Definition timeAt (big : bool) (raw : bytes) (off : Z) : Z * Z :=
  if big then (i64 (dec 8 raw off / 1000000000) - xfsBigtimeEpochOffset, dec 8 raw off mod 1000000000)
  else (i32 (dec 4 raw off), i32 (dec 4 raw (off + 4))).
Definition statOf (sb : superblock) (i : inode) : InodeStat :=
  let raw := iraw i in let big := bigtimeOf raw in
  mkStat (inum i) (imode i) (isize i) (inBlocks i) (dec 4 raw 16) (dec 4 raw 8) (dec 4 raw 12) (dec 4 raw 92)
    (timeAt big raw 32) (timeAt big raw 48) (timeAt big raw 40) (if hasCRC sb then Some (timeAt big raw 144) else None).
Lemma bigtime_eq raw : 176 <= zlen raw -> inodeHasBigtime raw = Ret (bigtimeOf raw).
Proof.
  intros L. unfold inodeHasBigtime, inoOffVersion, inoOffFlags2, bigtimeOf. rewrite byte_at_ok by lia. ostep.
  destruct (3 <=? dec 1 raw 4); [|done]. rewrite be_get_ok by lia. done.
Qed.
Lemma time_eq big raw off : 176 <= zlen raw -> 0 <= off -> off + 8 <= 176 -> decodeInodeTime raw off big = Ret (timeAt big raw off).
Proof. intros. unfold decodeInodeTime, timeAt. destruct big; rewrite !be_get_ok by lia; done. Qed.
Lemma statInode_eq sb i : 176 <= zlen (iraw i) -> statInode sb i = Ret (statOf sb i).
Proof.
  intros L. unfold statInode, inoOffNLink, inoOffUID, inoOffGID, inoOffGen, inoOffATime, inoOffMTime, inoOffCTime, inoOffCRTime.
  rewrite bigtime_eq by lia. ostep. rewrite !be_get_ok by lia. ostep. rewrite !time_eq by lia. ostep. unfold statOf. by destruct (hasCRC sb).
Qed.
(** Two inodes whose buffers agree outside the CRC have the same attributes. *)
Lemma statOf_crc sb i raw' :
  (forall o n, 0 <= o -> 0 <= n -> o + n <= 100 \/ 104 <= o -> slice raw' o n = slice (iraw i) o n) -> statOf sb (set_raw i raw') = statOf sb i.
Proof.
  intros H. assert (forall n o, 0 <= o -> 0 <= n -> o + n <= 100 \/ 104 <= o -> dec n raw' o = dec n (iraw i) o) as Hd by (intros; unfold dec; by rewrite H).
  unfold statOf, bigtimeOf, timeAt. cbn [iraw set_raw inum imode isize inBlocks]. rewrite !Hd by lia. done.
Qed.

(** ** The edits *)
(** A time a legacy (32-bit) timestamp can hold. *)
Definition legacy_time (t : Z * Z) : Prop := - 2 ^ 31 <= t.1 < 2 ^ 31 /\ 0 <= t.2 < 2 ^ 31.
Lemma i32_u32 x : - 2 ^ 31 <= x < 2 ^ 31 -> i32 (u32 x mod 256 ^ 4) = x.
Proof.
  intros H. change (256 ^ 4) with (2 ^ 32). unfold u32. rewrite Zmod_mod. unfold i32.
  rewrite Zplus_mod_idemp_l, Z.mod_small by lia. lia.
Qed.
(** [stampLegacy] writes a time that reads back. *)
Lemma stamp_spec t b o :
  0 <= o -> o + 8 <= zlen b -> legacy_time t ->
  exists b', stampLegacy t b o = Ret b' /\ wrote b b' o (o + 8) /\ timeAt false b' o = t.
Proof.
  intros Ho Hl [H1 H2]. unfold stampLegacy. wstep. wlast. eexists. split; [done|]. split; [wchain|].
  unfold timeAt. rdec. rewrite !i32_u32 by lia. by destruct t.
Qed.

Section Edit.
Context (i : inode) (Hs : inode_sync i) (Hb : isbytes (iraw i)) (clk : Z * Z) (Hclk : legacy_time clk).

Lemma sync_len : 176 <= zlen (iraw i).
Proof. apply inode_sync_iff in Hs as (L & _). exact L. Qed.
(** An edit of the core that keeps the fields [decodeInode] caches, mode apart. *)
Lemma edit_sync raw mode :
  zlen raw = zlen (iraw i) -> dec 2 raw 2 = mode ->
  (forall n o, In (n, o) [(2, 0); (1, 4); (1, 5); (8, 24); (8, 56); (8, 64); (4, 76); (1, 82); (8, 120)] -> dec n raw o = dec n (iraw i) o) ->
  inode_sync (mkInode (inum i) mode (iformat i) (isize i) (inBlocks i) (inExts i) (iforkOff i) raw).
Proof.
  intros L Em Hf. pose proof Hs as (L0 & Hm & Hi)%inode_sync_iff. apply sync_intro; cbn [iraw inum]; [by rewrite L|by rewrite Hf by (cbn; tauto)|].
  unfold decodeInode, nrext64. rewrite Em, !Hf by (cbn; tauto). rewrite Hi. cbn. done.
Qed.

Ltac fields := intros nn oo Hin; cbn in Hin; repeat destruct Hin as [[= <- <-]|Hin]; try done; rdec; done.
Ltac slots := unfold statOf, bigtimeOf; cbn [iraw inum imode isize inBlocks set_raw]; unfold timeAt.

(** What each edit leaves: a synchronised inode of the same number, in a buffer of the same length,
    with the given attributes. *)
Definition edited (sb : superblock) (j : inode) (st : InodeStat) : Prop :=
  inode_sync j /\ isbytes (iraw j) /\ zlen (iraw j) = zlen (iraw i) /\ inum j = inum i /\ statOf sb j = st.
Lemma chown_spec sb uid gid :
  bigtimeOf (iraw i) = false -> 0 <= uid < 2 ^ 32 -> 0 <= gid < 2 ^ 32 ->
  let s := statOf sb i in
  exists j, chownRaw clk i uid gid = Ret j /\
    edited sb j (mkStat (sInode s) (sMode s) (sSize s) (sNBlocks s) (sNLink s) uid gid (sGeneration s) (sATime s) clk (sMTime s) (sCRTime s)).
Proof.
  intros Hbig Hu Hg s. pose proof sync_len as L. unfold chownRaw, bumpCTime, inoOffUID, inoOffGID, inoOffCTime. do 2 wstep. cbn [iraw set_raw].
  destruct (stamp_spec clk b0 48) as (b1 & -> & W1 & T1); [lia|lia|done|]. ostep. pose proof (wrote_len _ _ _ _ W1).
  eexists. split; [done|]. unfold set_raw. cbn [inum imode iformat isize inBlocks inExts iforkOff]. split_and!.
  - apply edit_sync; [lia|rdec|fields]. pose proof Hs as (_ & _ & Hi)%inode_sync_iff. by rewrite Hi.
  - cbn [iraw]. wbytes.
  - cbn [iraw]. lia.
  - done.
  - unfold s. unfold bigtimeOf in Hbig. revert T1. slots. rdec. rewrite Hbig. intros T1. rewrite T1. rdec.
    change (256 ^ 4) with (2 ^ 32). rewrite !Z.mod_small by lia. done.
Qed.
(** The file type stays, the twelve permission bits are replaced. *)
Definition newModeOf (cur perm : Z) : Z := cur / 4096 * 4096 + perm mod 4096.
Lemma newMode_eq cur perm : Z.lor (Z.ldiff cur 0xFFF) (Z.land (u16 perm) 0xFFF) = newModeOf cur perm.
Proof.
  unfold newModeOf. change 0xFFF with (Z.ones 12). rewrite Z.ldiff_ones_r, Z.land_ones, Z.shiftr_div_pow2 by lia. change (2 ^ 12) with 4096.
  assert (u16 perm mod 4096 = perm mod 4096) as -> by (unfold u16; change (2 ^ 16) with (4096 * 16); rewrite Z.rem_mul_r by lia; rewrite Z.mul_comm, Z_mod_plus_full; apply Zmod_mod).
  rewrite lor_shiftl_add; [change (2 ^ 12) with 4096; lia|lia|]. change (2 ^ 12) with 4096. apply Z.mod_pos_bound. lia.
Qed.
Lemma newModeOf_range cur perm : 0 <= cur < 2 ^ 16 -> 0 <= newModeOf cur perm < 2 ^ 16.
Proof. intros. unfold newModeOf. pose proof (Z.mod_pos_bound perm 4096). assert (0 <= cur / 4096 < 16) by (split; [apply Z.div_pos; lia|apply Z.div_lt_upper_bound; lia]). lia. Qed.
Lemma chmod_spec sb perm :
  bigtimeOf (iraw i) = false ->
  let s := statOf sb i in
  exists j, chmodRaw clk i perm = Ret j /\
    edited sb j (mkStat (sInode s) (newModeOf (sMode s) perm) (sSize s) (sNBlocks s) (sNLink s) (sUID s) (sGID s) (sGeneration s) (sATime s) clk (sMTime s) (sCRTime s)).
Proof.
  intros Hbig s. pose proof sync_len as L. pose proof Hs as (_ & _ & Hi)%inode_sync_iff. unfold chmodRaw, bumpCTime, inoOffMode, inoOffCTime. rewrite be_get_ok by lia. ostep. rewrite newMode_eq.
  assert (0 <= dec 2 (iraw i) 2 < 2 ^ 16) as Hm by (pose proof (dec_range 2 (iraw i) 2 Hb ltac:(lia) ltac:(lia) ltac:(lia)); done).
  assert (sMode s = dec 2 (iraw i) 2) as -> by (unfold s, statOf; cbn [sMode]; rewrite Hi; done).
  pose proof (newModeOf_range _ perm Hm) as Rm. set (m := newModeOf (dec 2 (iraw i) 2) perm) in *.
  wstep. unfold set_raw. cbn [iraw inum imode iformat isize inBlocks inExts iforkOff].
  destruct (stamp_spec clk b 48) as (b1 & -> & W1 & T1); [lia|lia|done|]. ostep. pose proof (wrote_len _ _ _ _ W1).
  eexists. split; [done|]. split_and!.
  - apply edit_sync; [lia|rdec; apply Z.mod_small; done|fields].
  - cbn [iraw]. wbytes.
  - cbn [iraw]. lia.
  - done.
  - unfold s. unfold bigtimeOf in Hbig. revert T1. slots. rdec. rewrite Hbig. intros T1. rewrite T1. done.
Qed.
Lemma chtimes_spec sb atime mtime :
  bigtimeOf (iraw i) = false -> legacy_time atime -> legacy_time mtime ->
  let s := statOf sb i in
  exists j, chtimesRaw clk i atime mtime = Ret j /\
    edited sb j (mkStat (sInode s) (sMode s) (sSize s) (sNBlocks s) (sNLink s) (sUID s) (sGID s) (sGeneration s) atime clk mtime (sCRTime s)).
Proof.
  intros Hbig Ha Hm s. pose proof sync_len as L. unfold chtimesRaw, bumpCTime, inoOffATime, inoOffMTime, inoOffCTime.
  destruct (stamp_spec atime (iraw i) 32) as (b1 & -> & W1 & T1); [lia|lia|done|]. ostep. pose proof (wrote_len _ _ _ _ W1).
  destruct (stamp_spec mtime b1 40) as (b2 & -> & W2 & T2); [lia|lia|done|]. ostep. pose proof (wrote_len _ _ _ _ W2). cbn [iraw set_raw].
  destruct (stamp_spec clk b2 48) as (b3 & -> & W3 & T3); [lia|lia|done|]. ostep. pose proof (wrote_len _ _ _ _ W3).
  eexists. split; [done|]. unfold set_raw. cbn [inum imode iformat isize inBlocks inExts iforkOff]. split_and!.
  - apply edit_sync; [lia|rdec|fields]. pose proof Hs as (_ & _ & Hi)%inode_sync_iff. by rewrite Hi.
  - cbn [iraw]. wbytes.
  - cbn [iraw]. lia.
  - done.
  - unfold s. unfold bigtimeOf in Hbig. revert T1 T2 T3. slots. rdec. rewrite Hbig. intros <- <- T3. rewrite T3. done.
Qed.
End Edit.

(** ** On the image *)
Section Image.
Context {SIO : SafeIO} {D : Type} {Dev : Device D} {DL : DeviceLaws D} {DR : DeviceReliable D}.
Context (partOff : Z) (sb : superblock) (Hcrc : hasCRC sb = true) (Hsz : inodeCoreSize <= inodeSize sb).

Lemma readInode_sync (d : D) ino i :
  readInode d partOff sb ino = Ret i ->
  ReadAt d (inodeByteOff sb partOff ino) (inodeSize sb) = Ret (iraw i) /\ inum i = ino /\ inode_sync i /\ isbytes (iraw i) /\ zlen (iraw i) = inodeSize sb.
Proof.
  unfold readInode, readBytes. destruct (ReadAt d (inodeByteOff sb partOff ino) (inodeSize sb)) as [buf| | |] eqn:E; ostep; try done.
  intros H. unfold inodeCoreSize in Hsz. assert (zlen buf = inodeSize sb) as L by (eapply ReadAt_len; [|exact E]; lia).
  pose proof H as H'. rewrite parseInode_eq in H' by (unfold inodeCoreSize; lia). destruct (dec 2 buf 0 =? magicInode); [|done]. injection H' as <-. cbn [iraw inum decodeInode].
  split_and!; [done|done| |by eapply ReadAt_isbytes|done]. split; [unfold inodeCoreSize; cbn [iraw decodeInode]; lia|exact H].
Qed.
(** An edit written back is what a later stat sees. *)
Lemma updateInode_stat w p i f j st :
  pathLookup (dev w) partOff sb p = Ret i -> readInode (dev w) partOff sb (inum i) = Ret i -> f i = Ret j -> edited i sb j st ->
  exists d' i', updateInode partOff sb p f w = (Ret tt, set_dev d' w) /\ readInode d' partOff sb (inum i) = Ret i' /\ statInode sb i' = Ret st.
Proof.
  intros Hl Hr Hf (Sj & Bj & Lj & Nj & Tj). destruct (readInode_sync (dev w) (inum i) i Hr) as (Eo & _ & _ & _ & Li).
  unfold inodeCoreSize in Hsz. destruct (writeInode_read partOff sb j w (iraw i)) as (d' & raw' & Ew & Er & _ & Hraw & _);
    [done|unfold inodeCoreSize; lia|lia|done|apply Sj|by rewrite Nj|].
  rewrite Nj in Er. exists d', (set_raw j raw'). split_and!; [|done|].
  - unfold updateInode. rewrite (bindM_Ret _ _ w i w) by (unfold readD; by rewrite Hl). rewrite (bindM_lift _ _ _ _ Hf). exact Ew.
  - rewrite statInode_eq; [by rewrite statOf_crc, Tj|].
    destruct (readInode_sync d' (inum i) (set_raw j raw') Er) as (_ & _ & _ & _ & L'). cbn [iraw set_raw] in *. lia.
Qed.
End Image.

(** C22 (round trip).  Owner, mode and times: on a device without I/O faults and an inode with
    legacy timestamps, [chown], [chmod] and [chtimes] of a path succeed, and a stat of the
    inode read back shows the new owner, the new permission bits under the old file type,
    the new access and modification times, the clock's change time, and every
    other attribute as it was. *)
Theorem setattr_stat {SIO : SafeIO} {D} {Dev : Device D} {DL : DeviceLaws D} {DR : DeviceReliable D}
    (partOff : Z) (sb : superblock) (clk : Z * Z) (w : World D) (p : bytes) (i : inode) (s : InodeStat) :
  hasCRC sb = true -> inodeCoreSize <= inodeSize sb -> legacy_time clk ->
  pathLookup (dev w) partOff sb p = Ret i -> readInode (dev w) partOff sb (inum i) = Ret i ->
  statInode sb i = Ret s -> inodeHasBigtime (iraw i) = Ret false ->
  (forall uid gid, 0 <= uid < 2 ^ 32 -> 0 <= gid < 2 ^ 32 ->
     exists d' i', chownInode partOff sb clk p uid gid w = (Ret tt, set_dev d' w) /\ readInode d' partOff sb (inum i) = Ret i' /\
       statInode sb i' = Ret (mkStat (sInode s) (sMode s) (sSize s) (sNBlocks s) (sNLink s) uid gid (sGeneration s) (sATime s) clk (sMTime s) (sCRTime s))) /\
  (forall perm,
     exists d' i', chmodInode partOff sb clk p perm w = (Ret tt, set_dev d' w) /\ readInode d' partOff sb (inum i) = Ret i' /\
       statInode sb i' = Ret (mkStat (sInode s) (sMode s / 4096 * 4096 + perm mod 4096) (sSize s) (sNBlocks s) (sNLink s) (sUID s) (sGID s) (sGeneration s)
         (sATime s) clk (sMTime s) (sCRTime s))) /\
  (forall atime mtime, legacy_time atime -> legacy_time mtime ->
     exists d' i', chtimesInode partOff sb clk p atime mtime w = (Ret tt, set_dev d' w) /\ readInode d' partOff sb (inum i) = Ret i' /\
       statInode sb i' = Ret (mkStat (sInode s) (sMode s) (sSize s) (sNBlocks s) (sNLink s) (sUID s) (sGID s) (sGeneration s) atime clk mtime (sCRTime s))).
Proof.
  intros Hc Hsz Hclk Hl Hr Hst Hbig. destruct (readInode_sync partOff sb Hsz (dev w) (inum i) i Hr) as (_ & _ & Hs & Hb & Li). unfold inodeCoreSize in Hsz.
  rewrite statInode_eq in Hst by lia. injection Hst as <-. rewrite bigtime_eq in Hbig by lia. injection Hbig as Hbig.
  split_and!.
  - intros uid gid Hu Hg. destruct (chown_spec i Hs Hb clk Hclk sb uid gid Hbig Hu Hg) as (j & Ej & Ed). by eapply updateInode_stat.
  - intros perm. destruct (chmod_spec i Hs Hb clk Hclk sb perm Hbig) as (j & Ej & Ed). by eapply updateInode_stat.
  - intros atime mtime Ha Hm. destruct (chtimes_spec i Hs Hb clk Hclk sb atime mtime Hbig Ha Hm) as (j & Ej & Ed). by eapply updateInode_stat.
Qed.
(** The root directory of a small image: inode 16, in block 8. *)
Definition root_image : memdev :=
  make_bytes 4096 ++ bytesOf (initInodeV3 (7, 0) (make_bytes 256) 16 0x41ED 2 (replicate 16 0)) ++ make_bytes 28416.
Lemma setattr_stat_witness :
  exists d' i', chmodInode 0 tiny_sb (99, 5) [slash] 0x1C0 (initWorld root_image) = (Ret tt, set_dev d' (initWorld root_image)) /\
    readInode d' 0 tiny_sb 16 = Ret i' /\ (s ← statInode tiny_sb i'; Ret (sMode s)) = Ret 0x41C0.
Proof.
  destruct (pathLookup root_image 0 tiny_sb [slash]) as [i| | |] eqn:E; [|exfalso; vm_compute in E; discriminate..].
  assert (inum i = 16) as Hn by (vm_compute in E; injection E as <-; reflexivity).
  assert (exists s, statInode tiny_sb i = Ret s /\ sMode s = 0x41ED) as (s & Es & Em)
    by (vm_compute in E; injection E as <-; eexists; split; [vm_compute; reflexivity|reflexivity]).
  destruct (setattr_stat 0 tiny_sb (99, 5) (initWorld root_image) [slash] i s eq_refl ltac:(discriminate) ltac:(unfold legacy_time; cbn; lia) E)
    as (_ & Hm & _); [vm_compute in E; injection E as <-; vm_compute; reflexivity|exact Es|vm_compute in E; injection E as <-; vm_compute; reflexivity|].
  destruct (Hm 0x1C0) as (d' & i' & E1 & E2 & E3). rewrite Hn in E2. exists d', i'. split_and!; [exact E1|exact E2|].
  rewrite E3. cbn. rewrite Em. reflexivity.
Defined.
