(* ===== verification/TruncateSpec.v ===== *)
(** * Truncation: theorems (truncate.go)

    What a shrinking truncate keeps and frees, first for the extent list and the inode, then on
    the image. *)
From S2P Require Import Prelude Bytes Crc Writers Extent Device Superblock SafeIO Inode FileRead Dir SfDir Lookup AgBlocks Zones AllocTree Alloc AllocLeaf AllocSpec FreeSpec InodeAlloc Refcount FileWrite FileWriteSpec LeafDir DirUpdate Namespace Attr AttrSpec.

(** ** Shrinking an extent list *)
(** The physical block of file block [fb]. *)
Fixpoint mapped (exts : list extent) (fb : Z) : option Z :=
  match exts with
  | [] => None
  | e :: rest => if (startOff e <=? fb) && (fb <? startOff e + count e) then Some (startBlock e + (fb - startOff e)) else mapped rest fb
  end.
Definition runBlocks (run : Z * Z) : list Z := map (fun k => run.1 + Z.of_nat k) (seq 0 (Z.to_nat run.2)).
Definition extBlocks (exts : list extent) : list Z := concat (map (fun e => runBlocks (startBlock e, count e)) exts).
Definition sumCounts (exts : list extent) : Z := fold_right (fun e n => count e + n) 0 exts.
(** [k'] is [k] with some records dropped and the counts of others lowered. *)
Inductive shrunk : list extent -> list extent -> Prop :=
  | shrunk_nil : shrunk [] []
  | shrunk_drop e k k' : shrunk k k' -> shrunk (e :: k) k'
  | shrunk_keep e n k k' : 0 <= n <= count e -> shrunk k k' -> shrunk (e :: k) (mkExtent (startOff e) (startBlock e) n (unwritten e) :: k').

Lemma runBlocks_split s k c : 0 <= k <= c -> runBlocks (s, c) = runBlocks (s, k) ++ runBlocks (s + k, c - k).
Proof.
  intros Hk. unfold runBlocks. cbn [fst snd]. replace (Z.to_nat c) with (Z.to_nat k + Z.to_nat (c - k))%nat by lia.
  rewrite seq_app, map_app. f_equal.
  replace (seq (0 + Z.to_nat k) (Z.to_nat (c - k))) with (Nat.add (Z.to_nat k) <$> seq 0 (Z.to_nat (c - k))) by (rewrite fmap_add_seq; f_equal; lia).
  change (map ?f ?l) with (f <$> l). rewrite <- list_fmap_compose.
  apply list_fmap_ext. intros j x _. unfold compose. lia.
Qed.
Lemma shrunk_forall (P : extent -> Prop) k k' :
  (forall e n, 0 <= n <= count e -> P e -> P (mkExtent (startOff e) (startBlock e) n (unwritten e))) -> shrunk k k' -> Forall P k -> Forall P k'.
Proof. intros HP. induction 1 as [|e k k' _ IH|e n k k' Hn _ IH]; intros H; [done|apply Forall_cons in H as [_ ?]; auto|apply Forall_cons in H as [? ?]; constructor; auto]. Qed.
Lemma shrunk_disjoint start k k' :
  (forall a s b n u, start (mkExtent a s b u) = start (mkExtent a s n u)) -> Forall (fun e => 0 <= count e) k ->
  shrunk k k' -> runs_disjoint start k -> runs_disjoint start k'.
Proof.
  intros Hst Hc Hs. assert (forall a c, apart start a c -> forall n, 0 <= n <= count c -> apart start a (mkExtent (startOff c) (startBlock c) n (unwritten c))) as Ha.
  { intros a c Hac n Hn. unfold apart in *. assert (start (mkExtent (startOff c) (startBlock c) n (unwritten c)) = start c) as -> by (destruct c; apply Hst). cbn [count]. lia. }
  induction Hs as [|e k k' Hs IH|e n k k' Hn Hs IH]; intros H; [done|apply Forall_cons in Hc as [_ Hc]; inversion H; subst; auto|].
  apply Forall_cons in Hc as [Hce Hc]. inversion H as [|? ? H1 H2]; subst. constructor; [|by apply IH].
  assert (Forall (apart start e) k') as F by (eapply shrunk_forall; [|exact Hs|exact H1]; intros; by apply Ha).
  eapply Forall_impl; [exact F|]. intros x Hx. apply apart_sym, Ha; [by apply apart_sym|done].
Qed.

Section Shrink.
Context (sb : superblock) (G : geometry_ok sb) (newSize : Z) (Hnew : 0 <= newSize < 2 ^ 63).
Let bs := blockSize sb.
Let nb := (newSize + bs - 1) / bs.
Definition ext_fits (e : extent) : Prop := extent_wf e /\ (startOff e + count e) * bs < 2 ^ 64.
(** The blocks of [e] below the new end. *)
Definition keepCount (e : extent) : Z := Z.min (count e) (Z.max 0 (nb - startOff e)).

Lemma nb_spec x : 0 <= x -> (x < nb <-> x * bs < newSize).
Proof.
  intros Hx. pose proof (bs_range sb G) as R. fold bs in R. unfold nb. split; intros H.
  - assert (x + 1 <= (newSize + bs - 1) / bs) as H1 by lia. pose proof (Z.mul_div_le (newSize + bs - 1) bs ltac:(lia)). nia.
  - enough (x + 1 <= (newSize + bs - 1) / bs) by lia. apply Z.div_le_lower_bound; nia.
Qed.
(** A non-empty tail of [e]. *)
Definition cut_of (e : extent) (run : Z * Z) : Prop :=
  run = (startBlock e + keepCount e, count e - keepCount e) /\ 0 <= keepCount e /\ (0 < count e -> 0 < run.2).
(** The three branches keep [keepCount e] blocks of [e] and free the others. *)
Lemma shrink_step e rest kept freed T :
  ext_fits e -> shrinkExtents sb newSize rest = (kept, freed, u64 T) ->
  exists kept1 freed1, shrinkExtents sb newSize (e :: rest) = (kept1 ++ kept, freed1 ++ freed, u64 (sumCounts kept1 + T)) /\
    (kept1 = [] /\ keepCount e = 0 \/ kept1 = [mkExtent (startOff e) (startBlock e) (keepCount e) (unwritten e)]) /\
    concat (map runBlocks freed1) = runBlocks (startBlock e + keepCount e, count e - keepCount e) /\
    zlen freed1 <= 1 /\ Forall (cut_of e) freed1.
Proof.
  intros [(Ho & Hb & Hc) Hf] E. pose proof (bs_range sb G) as R. fold bs in R. cbn [shrinkExtents]. rewrite E. fold bs.
  rewrite (u64_small (startOff e * bs)), (u64_small (count e * bs)), (u64_small (startOff e * bs + _)) by nia.
  assert (forall x, u64 (x + u64 T) = u64 (x + T)) as HT by (intros; unfold u64; apply Zplus_mod_idemp_r).
  pose proof (nb_spec (startOff e) ltac:(lia)) as N1. pose proof (nb_spec (startOff e + count e - 1)) as N2.
  destruct (Z.leb_spec (startOff e * bs + count e * bs) newSize) as [H1|H1].
  { assert (keepCount e = count e) as K.
    { unfold keepCount. destruct (Z.eq_dec (count e) 0); [lia|]. assert (startOff e + count e - 1 < nb) by (apply N2; nia). lia. }
    exists [e], []. rewrite K, Z.sub_diag, HT. split_and!; [cbn; by rewrite Z.add_0_r|right; by destruct e|done|done|constructor]. }
  destruct (Z.leb_spec newSize (startOff e * bs)) as [H2|H2].
  { assert (keepCount e = 0) as K by (unfold keepCount; assert (~ startOff e < nb) by (rewrite N1; lia); lia).
    exists [], [(startBlock e, count e)]. split_and!; [done|by left| |done|].
    - rewrite K, Z.add_0_r, Z.sub_0_r. apply app_nil_r.
    - apply Forall_singleton. unfold cut_of. rewrite K, Z.add_0_r, Z.sub_0_r. split_and!; [done|lia|done]. }
  assert (~ startOff e + count e < nb) as N3 by (rewrite nb_spec by lia; nia). assert (startOff e < nb) as N4 by (apply N1; lia).
  rewrite (u64_small (newSize - _)), (u64_small (_ + bs - 1)) by nia.
  assert ((newSize - startOff e * bs + bs - 1) / bs = nb - startOff e) as ->.
  { unfold nb. replace (newSize - startOff e * bs + bs - 1) with (newSize + bs - 1 + (- startOff e) * bs) by lia. rewrite Z.div_add by lia. lia. }
  rewrite (u32_small (nb - _)) by lia. assert (keepCount e = nb - startOff e) as K by (unfold keepCount; lia). rewrite <- K, HT.
  exists [mkExtent (startOff e) (startBlock e) (keepCount e) (unwritten e)],
    (if keepCount e <? count e then [(u64 (startBlock e + keepCount e), u32 (count e - keepCount e))] else []).
  split; [cbn; by rewrite Z.add_0_r|]. split; [by right|]. destruct (Z.ltb_spec (keepCount e) (count e)).
  - rewrite u64_small, u32_small by lia. split_and!; [apply app_nil_r|done|]. apply Forall_singleton. split_and!; [done|lia|cbn; lia].
  - replace (count e - keepCount e) with 0 by lia. split_and!; [done|done|constructor].
Qed.
Lemma keepCount_range e : ext_fits e -> 0 <= keepCount e <= count e /\ (0 < keepCount e -> startOff e + keepCount e <= nb).
Proof. intros [(Ho & Hb & Hc) _]. unfold keepCount. lia. Qed.
Lemma shrink_spec exts :
  Forall ext_fits exts ->
  exists kept freed, shrinkExtents sb newSize exts = (kept, freed, u64 (sumCounts kept)) /\ shrunk exts kept /\
    (forall fb, 0 <= fb -> mapped kept fb = if fb <? nb then mapped exts fb else None) /\
    extBlocks exts ≡ₚ extBlocks kept ++ concat (map runBlocks freed) /\
    zlen freed <= zlen exts /\ Forall (fun run => Exists (fun e => cut_of e run) exts) freed.
Proof.
  induction 1 as [|e exts He _ IH].
  { exists [], []. split_and!; [done|constructor|by intros; case_match|done|done|constructor]. }
  destruct IH as (kept & freed & E & Sh & Hm & Hp & Hl & Hcuts). destruct (shrink_step e exts kept freed (sumCounts kept) He E) as (kept1 & freed1 & E1 & Hk & Hf & Hl1 & Hc1).
  destruct (keepCount_range e He) as [Kr Kn]. exists (kept1 ++ kept), (freed1 ++ freed).
  assert (zlen (freed1 ++ freed) <= zlen (e :: exts) /\ Forall (fun run => Exists (fun e => cut_of e run) (e :: exts)) (freed1 ++ freed)) as HC.
  { split; [rewrite zlen_app, zlen_cons; lia|]. apply Forall_app. split; (eapply Forall_impl; [eassumption|]); intros run Hr; [by left|by right]. }
  assert (extBlocks (e :: exts) = runBlocks (startBlock e, keepCount e) ++ runBlocks (startBlock e + keepCount e, count e - keepCount e) ++ extBlocks exts) as Hx.
  { unfold extBlocks at 1. cbn [map concat]. rewrite (runBlocks_split (startBlock e) (keepCount e)) by lia. by rewrite <- app_assoc. }
  rewrite Hx, map_app, concat_app, Hf, Hp. destruct Hk as [[-> K0]| ->].
  - split; [exact E1|]. split; [by constructor|]. split; [|split; [|exact HC]].
    + intros fb Hfb. cbn [app]. rewrite Hm by done. destruct (Z.ltb_spec fb nb); [|done]. cbn [mapped].
      destruct He as [(Ho & _ & Hc) _]. unfold keepCount in K0. destruct (Z.leb_spec (startOff e) fb), (Z.ltb_spec fb (startOff e + count e)); cbn; try done. lia.
    + rewrite K0 at 1. change (runBlocks (startBlock e, 0)) with (@nil Z). cbn [app]. rewrite !app_assoc. apply Permutation_app_tail, Permutation_app_comm.
  - split; [rewrite E1; unfold sumCounts; cbn [fold_right app count]; by rewrite Z.add_0_r|]. split; [by constructor|]. split; [|split; [|exact HC]].
    + intros fb Hfb. cbn [app mapped startOff startBlock count]. rewrite Hm by done. destruct He as [(Ho & _ & Hc) _]. unfold keepCount in *.
      destruct (Z.ltb_spec fb nb), (Z.leb_spec (startOff e) fb), (Z.ltb_spec fb (startOff e + count e)); cbn [andb];
        destruct (Z.ltb_spec fb (startOff e + Z.min (count e) (Z.max 0 (nb - startOff e)))); try done; lia.
    + unfold extBlocks at 2. cbn [app map concat startBlock count]. fold (extBlocks kept). rewrite <- app_assoc. apply Permutation_app_head.
      rewrite !app_assoc. apply Permutation_app_tail, Permutation_app_comm.
Qed.
End Shrink.

Lemma shrunk_length k k' : shrunk k k' -> zlen k' <= zlen k.
Proof. induction 1; rewrite ?zlen_cons; lia. Qed.
Lemma decodeRecs_length fork n k exts : decodeRecs fork n k = Ret exts -> length exts = n.
Proof.
  revert k exts. induction n as [|n IH]; intros k exts; cbn [decodeRecs]; [by intros [= <-]|].
  repeat (match goal with |- context [?m ≫= _] => destruct m eqn:?; ostep; try done end). intros [= <-]. cbn. f_equal. by eapply IH.
Qed.
Lemma inlineExtents_inv sb i exts :
  geometry_ok sb -> inode_wf sb i -> inlineExtents i = Ret exts ->
  Forall extent_wf exts /\ validateExtents exts = Ret tt /\ 176 + zlen exts * 16 <= zlen (iraw i).
Proof.
  intros G Hi H. destruct (post_Ret_inv _ _ _ (inlineExtents_post sb G i Hi) H) as [We _]. split; [done|].
  pose proof (inode_fields sb G i Hi) as Hf. pose proof Hi as (_ & Li & _). destruct (dataFork_ok sb G i Hi) as (fork & Ef & _ & Lf). unfold inlineExtents in H. rewrite Ef in H. cbn [mbind outcome_bind] in H.
  destruct (Z.ltb_spec (zlen fork) (inExts i * 16)); [done|]. destruct (decodeRecs fork _ 0) as [l| | |] eqn:Ed; cbn [mbind outcome_bind] in H; try done.
  destruct (validateExtents l) as [[]| | |] eqn:Ev; cbn [mbind outcome_bind] in H; try done. injection H as ->. split; [done|].
  apply decodeRecs_length in Ed. unfold zlen at 1. rewrite Ed. lia.
Qed.
(** The inode a shrink leaves: the kept records, or an inline file when none is kept. *)
Definition shrunkFormat (i : inode) (kept : list extent) : Z := if zlen kept =? 0 then inodeFmtLocal else iformat i.
Lemma sync_of i raw fmt size total n :
  inode_sync i -> zlen raw = zlen (iraw i) -> nrext64 (iraw i) = false ->
  (forall k o, In (k, o) [(2, 0); (2, 2); (1, 4); (1, 82); (8, 120)] -> dec k raw o = dec k (iraw i) o) ->
  dec 1 raw 5 = fmt -> dec 8 raw 56 = size -> dec 8 raw 64 = total -> dec 4 raw 76 = n ->
  inode_sync (mkInode (inum i) (imode i) fmt size total n (iforkOff i) raw).
Proof.
  intros Hs L Hn Hf <- <- <- <-. pose proof Hs as (L0 & Hm & Hi)%inode_sync_iff. unfold nrext64 in Hn.
  apply sync_intro; cbn [iraw inum]; [by rewrite L|by rewrite Hf by (cbn; tauto)|].
  unfold decodeInode, nrext64. rewrite !(Hf 1 4), !(Hf 8 120), Hn, (Hf 2 2), (Hf 1 82) by (cbn; tauto). rewrite Hi. done.
Qed.
(** The fork is rewritten, or the format set. *)
Lemma shrinkFork_spec j kept :
  isbytes (iraw j) -> 176 + zlen kept * 16 <= zlen (iraw j) -> dec 1 (iraw j) 5 = iformat j ->
  exists raw, (if zlen kept =? 0 then setInodeFormat j inodeFmtLocal else writeExtentList j kept) =
      Ret (mkInode (inum j) (imode j) (shrunkFormat j kept) (isize j) (inBlocks j) (inExts j) (iforkOff j) raw) /\
    isbytes raw /\ zlen raw = zlen (iraw j) /\ dec 1 raw 5 = shrunkFormat j kept /\ forkHolds raw 0 kept /\
    (forall k o, 0 <= k -> 0 <= o -> o + k <= 5 \/ 6 <= o -> o + k <= 176 -> dec k raw o = dec k (iraw j) o) /\
    (kept = [] -> forall n, 0 <= n -> slice raw 176 n = slice (iraw j) 176 n).
Proof.
  intros Hb L Hf. unfold shrunkFormat. destruct kept as [|e kept].
  - change (zlen (@nil extent) =? 0) with true. unfold setInodeFormat, inoOffFormat. change (zlen (@nil extent)) with 0 in L.
    destruct (set_byte_spec (iraw j) 5 inodeFmtLocal) as (r & -> & W & V); [lia|]. ostep. exists r. pose proof (wrote_len _ _ _ _ W).
    split_and!; [done|by apply W|done|exact V|intros [|? ?] ? ? [=]|intros k o ? ? ? ?; by rewrite (wrote_dec _ _ _ _ _ _ W) by lia|].
    intros _ n Hn. by rewrite (wrote_slice _ _ _ _ W) by lia.
  - rewrite (proj2 (Z.eqb_neq (zlen (e :: kept)) 0)) by (rewrite zlen_cons; pose proof (zlen_nonneg kept); lia).
    destruct (writeExtentList_spec j (e :: kept) Hb L) as (r & -> & W & H). exists r. pose proof (wrote_len _ _ _ _ W).
    split_and!; [done|by apply W|done|by rewrite (wrote_dec _ _ _ _ _ _ W) by lia|done|intros k o ? ? ? ?; by rewrite (wrote_dec _ _ _ _ _ _ W) by lia|done].
Qed.
Lemma shrinkInode_spec clk i kept total newSize :
  inode_sync i -> nrext64 (iraw i) = false -> isbytes (iraw i) ->
  176 + zlen kept * 16 <= zlen (iraw i) -> zlen kept < 2 ^ 32 -> 0 <= total < 2 ^ 64 -> 0 <= newSize < 2 ^ 64 ->
  Forall extent_wf kept -> validateExtents kept = Ret tt ->
  exists i', shrinkInode clk i kept total newSize = Ret i' /\
    inode_sync i' /\ isbytes (iraw i') /\ zlen (iraw i') = zlen (iraw i) /\ inum i' = inum i /\
    inlineExtents i' = Ret kept /\ isize i' = newSize /\ inBlocks i' = total /\ iformat i' = shrunkFormat i kept /\
    (kept = [] -> forall n, 0 <= n -> slice (iraw i') 176 n = slice (iraw i) 176 n).
Proof.
  intros Hs Hn Hb L Hl Ht Hz Hw Hv. pose proof (zlen_nonneg kept). pose proof Hs as (L0 & _ & Hi)%inode_sync_iff. unfold inodeCoreSize in L0.
  assert (dec 1 (iraw i) 5 = iformat i) as Hfm by (by rewrite Hi).
  unfold shrinkInode, setInodeSize, setInodeNBlocks, setInodeNExtents, inoOffSize, inoOffNBlocks, inoOffNExtents.
  wstep. cbn [iraw]. wstep. cbn [iraw]. wstep. cbn [iraw].
  match goal with |- context [writeExtentList ?j kept] => destruct (shrinkFork_spec j kept) as (r & -> & Br & Lr & Fr & Hr & Dr & Sr); cbn [iraw iformat] in *; [wbytes|lia|rdec; done|] end.
  cbn [inum imode iformat isize inBlocks inExts iforkOff shrunkFormat] in *. ostep. unfold bumpMTimeCTime, stampLegacy, inoOffMTime, inoOffCTime. cbn [iraw set_raw].
  wstep. wlast. cbn [iraw set_raw]. wstep. wlast. eexists. split; [done|]. unfold set_raw. cbn [inum imode iformat isize inBlocks inExts iforkOff iraw].
  split_and!; [|wbytes|lia|done| |done|done|done|].
  - apply sync_of; [done|lia|done| | | | |].
    + intros k o Hin. cbn in Hin. repeat destruct Hin as [[= <- <-]|Hin]; try done; rdec; rewrite Dr by lia; rdec; done.
    + rdec. done.
    + rdec. rewrite Dr by lia. rdec. by apply Z.mod_small.
    + rdec. rewrite Dr by lia. rdec. by apply Z.mod_small.
    + rdec. rewrite Dr by lia. rdec. rewrite u32_small by lia. by apply Z.mod_small.
  - apply inlineExtents_of; cbn [iraw inExts]; [|lia|by rewrite u32_small by lia|done|done].
    intros l1 e l2 E'. rewrite <- (Hr l1 e l2 E'). pose proof (zlen_nonneg l1). rslice. done.
  - intros Hk n Hn0. rslice. rewrite (Sr Hk n Hn0). rslice. done.
Qed.

(** ** Freeing blocks of one allocation group *)
Lemma in_runBlocks x s n : In x (runBlocks (s, n)) <-> s <= x < s + n.
Proof.
  unfold runBlocks. cbn [fst snd]. rewrite in_map_iff. split.
  - intros (k & <- & Hk%in_seq). lia.
  - intros Hx. exists (Z.to_nat (x - s)). split; [lia|]. apply in_seq. lia.
Qed.
Lemma in_runs x (runs : list (Z * Z)) : In x (concat (map runBlocks runs)) <-> exists r, In r runs /\ r.1 <= x < r.1 + r.2.
Proof.
  rewrite in_concat. split.
  - intros (l & (r & <- & Hr)%in_map_iff & Hx). exists r. split; [done|]. destruct r. by apply in_runBlocks in Hx.
  - intros (r & Hr & Hx). exists (runBlocks r). split; [by apply in_map|]. destruct r. by apply in_runBlocks.
Qed.
Lemma runBlocks_nodup run : NoDup (runBlocks run).
Proof. unfold runBlocks. apply (NoDup_fmap_2_strong (fun k => run.1 + Z.of_nat k)); [intros x y _ _ ?; lia|apply NoDup_seq]. Qed.
(** Physically disjoint records have no block twice. *)
Lemma extBlocks_nodup exts : Forall (fun e => 0 <= count e) exts -> runs_disjoint startBlock exts -> NoDup (extBlocks exts).
Proof.
  intros Hc Hd. induction Hd as [|e exts Ha _ IH]; [constructor|]. apply Forall_cons in Hc as [Hce Hc]. unfold extBlocks. cbn [map concat].
  apply NoDup_app. split_and!; [apply runBlocks_nodup| |by apply IH].
  intros x Hx%list_elem_of_In%in_runBlocks Hy%list_elem_of_In. fold (extBlocks exts) in Hy. unfold extBlocks in Hy. rewrite in_concat in Hy.
  destruct Hy as (l & (e' & <- & He')%in_map_iff & Hy%in_runBlocks). rewrite List.Forall_forall in Ha. specialize (Ha e' He'). unfold apart in Ha. lia.
Qed.

Section OneGroup.
Context {SIO : SafeIO} {SL : SafeIOLaws SIO} {D : Type} {Dev : Device D} {DL : DeviceLaws D} {DR : DeviceReliable D}.
Context (sb : superblock) (Wd : sb_width sb) (G : geometry_ok sb) (partOff ag bnoRel cntRel bo co : Z) (Hag : 0 <= ag < 2 ^ 32).

(** A run of blocks inside the group. *)
Definition run_in_ag (run : Z * Z) : Prop :=
  0 < run.2 /\ exists s, run.1 = agAbsBlock sb ag s /\ 0 <= s /\ s + run.2 <= agBlocks sb.
Definition in_ag (e : extent) : Prop := run_in_ag (startBlock e, count e).
Lemma abs_eq x : 0 <= x < agBlocks sb -> agAbsBlock sb ag x = ag * 2 ^ agBlkLog sb + x.
Proof. intros Hx. destruct (g_abl _ G) as (_ & ? & _). apply (agAbsBlock_eq sb Wd G ag x Hag); lia. Qed.
Lemma run_tail s n k : run_in_ag (s, n) -> 0 <= k < n -> run_in_ag (s + k, n - k).
Proof.
  intros (_ & r & E & H1 & H2) Hk. cbn [fst snd] in *. split; [cbn; lia|]. exists (r + k). cbn [fst snd]. split; [|lia].
  rewrite E, !abs_eq by lia. lia.
Qed.
Lemma runs_relative freed : Forall run_in_ag freed ->
  exists runs : list arec, freed = map (fun r => (agAbsBlock sb ag r.1, r.2)) runs /\ zlen runs = zlen freed /\
    Forall (fun r => 0 <= r.1 /\ 0 < r.2 /\ r.1 + r.2 <= agBlocks sb) runs.
Proof.
  induction 1 as [|[a n] freed (Hn & s & E & Hs & Hl) _ (runs & -> & L & Hr)]; [by exists []|]. cbn [fst snd] in *. subst a.
  exists ((s, n) :: runs). split_and!; [done|rewrite !zlen_cons; lia|by constructor].
Qed.
Lemma covers_abs (runs : list arec) x :
  Forall (fun r => 0 <= r.1 /\ 0 < r.2 /\ r.1 + r.2 <= agBlocks sb) runs -> 0 <= x < agBlocks sb ->
  coveredBy runs x <-> In (agAbsBlock sb ag x) (concat (map runBlocks (map (fun r => (agAbsBlock sb ag r.1, r.2)) runs))).
Proof.
  intros Hr Hx. rewrite List.Forall_forall in Hr. rewrite in_runs. unfold coveredBy. rewrite Exists_exists. setoid_rewrite list_elem_of_In. split.
  - intros ([s n] & Hin & Hc). exists (agAbsBlock sb ag s, n). split; [by apply (in_map (fun r => (agAbsBlock sb ag r.1, r.2)) runs (s, n))|].
    specialize (Hr _ Hin). cbn [fst snd] in *. rewrite !abs_eq by lia. lia.
  - intros (r & (q & <- & Hin)%in_map_iff & Hc). exists q. split; [done|]. specialize (Hr _ Hin). cbn [fst snd] in *. rewrite !abs_eq in Hc by lia. lia.
Qed.
Lemma nodup_disjoint (runs : list arec) :
  Forall (fun r => 0 <= r.1 /\ 0 < r.2 /\ r.1 + r.2 <= agBlocks sb) runs ->
  NoDup (concat (map runBlocks (map (fun r => (agAbsBlock sb ag r.1, r.2)) runs))) -> disjoint_runs runs.
Proof.
  induction 1 as [|[s n] runs (Hs & Hn & Hl) Hr IH]; intros Hd; [constructor|]. cbn [map concat fst snd] in *. apply NoDup_app in Hd as (_ & Hd & Hd').
  constructor; [|by apply IH]. apply Forall_forall. intros [s' n'] Hin. unfold apartZ. cbn [fst snd].
  destruct (Z_le_gt_dec (s + n) s'); [by left|]. destruct (Z_le_gt_dec (s' + n') s); [by right|]. exfalso.
  pose proof Hr as Hr2. rewrite Forall_forall in Hr2. specialize (Hr2 _ Hin) as (? & ? & ?). cbn [fst snd] in *.
  apply (Hd (agAbsBlock sb ag (Z.max s s'))).
  - apply list_elem_of_In, in_runBlocks. rewrite !abs_eq by lia. lia.
  - apply list_elem_of_In, (covers_abs runs); [done|lia|]. apply Exists_exists. exists (s', n'). split; [done|cbn; lia].
Qed.
(** Freeing absolute runs of the group. *)
Lemma freeFileRuns tfuel fuel (freed : list (Z * Z)) (d : D) (agf : bytes) (B C : list arec) :
  ag_zones sb partOff ag bnoRel cntRel bo co ->
  ag_view sb partOff ag bnoRel cntRel bo co d agf B C -> free_ok B C -> (forall x, free_in B x -> x < agBlocks sb) ->
  Forall run_in_ag freed -> NoDup (concat (map runBlocks freed)) ->
  (forall x, free_in B x -> ~ In (agAbsBlock sb ag x) (concat (map runBlocks freed))) ->
  zlen B + 3 * zlen freed < allocMaxLeaf (blockSize sb) (agBTreeHdrSize sb) ->
  exists d' agf' B' C',
    range_accM freed tt (fun run _ => freeBlocks partOff sb (S tfuel) (S (S fuel)) run.1 run.2) (initWorld d) = (Ret tt, initWorld d') /\
    ag_view sb partOff ag bnoRel cntRel bo co d' agf' B' C' /\ free_ok B' C' /\ (forall x, free_in B' x -> 0 <= x < agBlocks sb) /\
    (forall x, 0 <= x < agBlocks sb -> free_in B' x <-> free_in B x \/ In (agAbsBlock sb ag x) (concat (map runBlocks freed))) /\
    framed sb partOff ag bo co d d'.
Proof.
  intros Zn V F Hin Hr Hd Hc Hroom. destruct (runs_relative freed Hr) as (runs & -> & L & Hb).
  assert (forall x, coveredBy runs x -> 0 <= x < agBlocks sb) as Hcr.
  { intros x (r & Hrr & Hx)%Exists_exists. rewrite Forall_forall in Hb. specialize (Hb r Hrr). lia. }
  destruct (freeRuns_view sb partOff ag bnoRel cntRel bo co tfuel fuel runs d agf B C) as (d' & agf' & B' & C' & E & V' & F' & HB & Fr); try done.
  { by apply nodup_disjoint. }
  { intros x Hx Hcx. apply (Hc x Hx), covers_abs; [done|by apply Hcr|done]. }
  { rewrite L. done. }
  exists d', agf', B', C'. split_and!; try done.
  - intros x Hx. split.
    + destruct Hx as (r & Hrr & Hx). destruct F' as [R _ _ _]. rewrite List.Forall_forall in R. specialize (R r Hrr) as (? & _). lia.
    + apply HB in Hx as [Hx|Hx]; [by apply Hin|apply (Hcr x Hx)].
  - intros x Hx. rewrite HB, (covers_abs runs x Hb Hx). done.
Qed.
End OneGroup.

(** ** On the image *)
Lemma inlineExtents_fork i raw :
  zlen raw = zlen (iraw i) -> slice raw 176 (zlen (iraw i) - 176) = slice (iraw i) 176 (zlen (iraw i) - 176) ->
  inlineExtents (set_raw i raw) = inlineExtents i.
Proof.
  intros L E. unfold inlineExtents, dataFork, from, sub, inodeCoreSize. cbn [iraw set_raw inExts]. rewrite L. change (Z.sub ?a 176) with (a - 176).
  by rewrite E.
Qed.
Lemma ag_view_keeps {D} {Dev : Device D} (sb : superblock) (partOff ag bnoRel cntRel bo co : Z) zs (d d' : D) agf B C :
  keeps zs d d' -> 0 <= sectSize sb -> 0 <= blockSize sb ->
  Forall (fun z => apartZ (agFByteOffset sb partOff ag) (sectSize sb) z.1 z.2 /\ apartZ bo (blockSize sb) z.1 z.2 /\ apartZ co (blockSize sb) z.1 z.2) zs ->
  ag_view sb partOff ag bnoRel cntRel bo co d agf B C -> ag_view sb partOff ag bnoRel cntRel bo co d' agf B C.
Proof.
  intros K Hs Hb Hz [V1 V2 (bb & Vb & Vb') (cb & Vc & Vc')].
  constructor; [|done|exists bb; split; [|done]|exists cb; split; [|done]]; apply K; try done; (eapply Forall_impl; [exact Hz|]); by intros z (? & ? & ?).
Qed.

Lemma keeps_framed {D} {Dev : Device D} (sb : superblock) (partOff ag bo co off n : Z) (d d1 d' : D) :
  framed sb partOff ag bo co d d1 -> keeps [(off, n)] d1 d' ->
  keeps [(off, n); (agFByteOffset sb partOff ag, sectSize sb); (bo, blockSize sb); (co, blockSize sb)] d d'.
Proof.
  intros Fr K o m cs Hm [Z1 [Z2 [Z3 [Z4 _]%Forall_cons]%Forall_cons]%Forall_cons]%Forall_cons Ho. apply K; [exact Hm|by constructor|]. by apply Fr.
Qed.
Lemma framed_read {D} {Dev : Device D} (sb : superblock) (partOff ag bo co off n : Z) (d d1 : D) cs :
  framed sb partOff ag bo co d d1 -> 0 <= n ->
  Forall (fun z => apartZ off n z.1 z.2) [(agFByteOffset sb partOff ag, sectSize sb); (bo, blockSize sb); (co, blockSize sb)] ->
  ReadAt d off n = Ret cs -> ReadAt d1 off n = Ret cs.
Proof. intros Fr Hn [Z1 [Z2 [Z3 _]%Forall_cons]%Forall_cons]%Forall_cons Ho. by apply Fr. Qed.

Section WriteBack.
Context {SIO : SafeIO} {SL : SafeIOLaws SIO} {D : Type} {Dev : Device D} {DL : DeviceLaws D} {DR : DeviceReliable D}.
Context (sb : superblock) (Wd : sb_width sb) (G : geometry_ok sb) (Hcrc : hasCRC sb = true).
Context (partOff : Z).

(** The extents a shrink keeps are again an extent list. *)
Lemma kept_valid exts kept :
  Forall extent_wf exts -> validateExtents exts = Ret tt -> shrunk exts kept -> Forall extent_wf kept /\ validateExtents kept = Ret tt.
Proof.
  intros Hw Hv Sh. assert (Forall extent_wf kept) as Hwk.
  { eapply shrunk_forall; [|exact Sh|exact Hw]. intros e n ? (? & ? & ?). unfold extent_wf. cbn. lia. }
  split; [done|]. apply validateExtents_iff in Hv as [V1 V2]; [|done]. apply validateExtents_iff; [done|].
  assert (Forall (fun e => 0 <= count e) exts) by (eapply Forall_impl; [exact Hw|]; intros e (? & ? & ?); lia).
  split; (eapply shrunk_disjoint; [|done|exact Sh|done]); done.
Qed.
Lemma slot_size : 256 <= inodeSize sb <= 2048.
Proof. destruct (g_isz _ G) as (k & Hk & ->). change 256 with (2 ^ 8). change 2048 with (2 ^ 11). split; apply Z.pow_le_mono_r; lia. Qed.

(** Writing back the inode: what is read afterwards, and the frame. *)
Lemma writeInode_back i i' (d : D) :
  ReadAt d (inodeByteOff sb partOff (inum i)) (inodeSize sb) = Ret (iraw i) -> zlen (iraw i) = inodeSize sb ->
  inode_sync i' -> isbytes (iraw i') -> zlen (iraw i') = zlen (iraw i) -> inum i' = inum i ->
  exists d' raw, writeInode partOff sb i' (initWorld d) = (Ret tt, initWorld d') /\ readInode d' partOff sb (inum i) = Ret (set_raw i' raw) /\
    inlineExtents (set_raw i' raw) = inlineExtents i' /\ (forall n, 0 <= n -> slice raw 176 n = slice (iraw i') 176 n) /\ keeps [(inodeByteOff sb partOff (inum i), inodeSize sb)] d d'.
Proof.
  intros Hr Li Hs Hb L Hn. pose proof slot_size. unfold inodeCoreSize in *.
  destruct (writeInode_read partOff sb i' (initWorld d) (iraw i)) as (d' & raw & Ew & Er & _ & Hraw & Hk);
    [done|unfold inodeCoreSize; lia|lia|done|apply Hs|by rewrite Hn|].
  rewrite Hn in Er, Hk. exists d', raw. split_and!; [exact Ew|exact Er| | |].
  - assert (inodeCoreSize <= inodeSize sb) as Hsz by (unfold inodeCoreSize; lia).
    destruct (readInode_sync partOff sb Hsz d' (inum i) _ Er) as (_ & _ & _ & _ & L'). cbn [iraw set_raw] in L'.
    apply inlineExtents_fork; [lia|]. apply Hraw; unfold inoOffCRC; lia.
  - intros n Hn0. apply Hraw; unfold inoOffCRC; lia.
  - clear -Hk. revert Hk. generalize (inodeByteOff sb partOff (inum i)). intros off Hk o n cs Hn0 Ha Hro. apply Forall_cons in Ha as [Ha _]. cbn [fst snd] in Ha. unfold apartZ in Ha. apply Hk; [exact Hn0|exact Ha|exact Hro].
Qed.
End WriteBack.

(** A regular file about to be cut to [newSize] bytes: its inode and extents, the
    single-leaf free-space trees of the allocation group they lie in, and where things are. *)
Record shrinkable {SIO : SafeIO} {D} {Dev : Device D} (sb : superblock) (partOff ag bnoRel cntRel bo co : Z) (d : D) (agf : bytes) (B C : list arec)
    (p : bytes) (i : inode) (exts : list extent) (newSize : Z) : Prop := {
  sh_width : sb_width sb;
  sh_geometry : geometry_ok sb;
  sh_crc : hasCRC sb = true;
  sh_ag : 0 <= ag < 2 ^ 32;
  sh_zones : ag_zones sb partOff ag bnoRel cntRel bo co;
  sh_view : ag_view sb partOff ag bnoRel cntRel bo co d agf B C;
  sh_free : free_ok B C;
  sh_inside : forall x, free_in B x -> x < agBlocks sb;
  sh_room : zlen B + 3 * zlen exts < allocMaxLeaf (blockSize sb) (agBTreeHdrSize sb);
  sh_path : pathLookup d partOff sb p = Ret i;
  sh_inode : readInode d partOff sb (inum i) = Ret i;
  sh_regular : isRegular i = true;
  sh_unshared : inodeIsReflinked i = Ret false;
  sh_legacy : nrext64 (iraw i) = false;
  sh_format : iformat i = inodeFmtExtents;
  sh_extents : inlineExtents i = Ret exts;
  sh_size : 0 <= newSize < isize i /\ newSize < 2 ^ 63;
  sh_fits : Forall (fun e => (startOff e + count e) * blockSize sb < 2 ^ 64) exts;
  sh_in_ag : Forall (in_ag sb ag) exts;
  sh_used : forall x, free_in B x -> ~ In (agAbsBlock sb ag x) (extBlocks exts);
  sh_slot : Forall (fun z => apartZ (inodeByteOff sb partOff (inum i)) (inodeSize sb) z.1 z.2)
    [(agFByteOffset sb partOff ag, sectSize sb); (bo, blockSize sb); (co, blockSize sb)]
}.
Lemma truncate_image {SIO : SafeIO} {SL : SafeIOLaws SIO} {D} {Dev : Device D} {DL : DeviceLaws D} {DR : DeviceReliable D}
    (sb : superblock) (partOff ag bnoRel cntRel bo co : Z) (tfuel fuel : nat) (clk : Z * Z) (d : D) (agf : bytes) (B C : list arec)
    (p : bytes) (i : inode) (exts : list extent) (newSize : Z) :
  shrinkable sb partOff ag bnoRel cntRel bo co d agf B C p i exts newSize ->
  exists d' agf' B' C' i' kept,
    truncateInode partOff sb (S tfuel) (S (S fuel)) clk p newSize (initWorld d) = (Ret tt, initWorld d') /\
    readInode d' partOff sb (inum i) = Ret i' /\ isize i' = newSize /\ inlineExtents i' = Ret kept /\
    inBlocks i' = u64 (sumCounts kept) /\ iformat i' = shrunkFormat i kept /\
    (forall fb, 0 <= fb -> mapped kept fb = if fb <? (newSize + blockSize sb - 1) / blockSize sb then mapped exts fb else None) /\
    ag_view sb partOff ag bnoRel cntRel bo co d' agf' B' C' /\ free_ok B' C' /\
    (forall x, 0 <= x < agBlocks sb -> free_in B' x <->
       free_in B x \/ (In (agAbsBlock sb ag x) (extBlocks exts) /\ ~ In (agAbsBlock sb ag x) (extBlocks kept))) /\
    keeps [(inodeByteOff sb partOff (inum i), inodeSize sb); (agFByteOffset sb partOff ag, sectSize sb); (bo, blockSize sb); (co, blockSize sb)] d d' /\
    (exists freed total, shrinkExtents sb newSize exts = (kept, freed, total)) /\
    (kept = [] -> forall n, 0 <= n -> slice (iraw i') 176 n = slice (iraw i) 176 n).
Proof.
  intros [Wd G Hcrc Hag Zn V F Hin Hroom Hl Hr Hreg Hsh Hnx Hfm He [Hns Hn63] Hfit Hia Hfree Hap].
  pose proof (slot_size sb G) as Hsz. assert (inodeCoreSize <= inodeSize sb) as Hcs by (unfold inodeCoreSize; lia).
  destruct (readInode_sync partOff sb Hcs d (inum i) i Hr) as (Hslot & _ & Hs & Hb & Li).
  destruct (inlineExtents_inv sb i exts G ltac:(done) He) as (Hw & Hv & Hle).
  destruct (shrink_spec sb G newSize ltac:(lia) exts) as (kept & freed & E & Sh & Hm & Hp & Hlf & Hcut).
  { rewrite Forall_forall in Hw, Hfit. apply Forall_forall. intros e Hine. split; auto. }
  destruct (kept_valid exts kept Hw Hv Sh) as [Hwk Hvk]. pose proof (shrunk_length _ _ Sh). pose proof (zlen_nonneg kept).
  assert (NoDup (extBlocks kept ++ concat (map runBlocks freed))) as Hnd.
  { rewrite <- Hp. apply validateExtents_iff in Hv as [_ V2]; [|done]. apply extBlocks_nodup; [|done]. eapply Forall_impl; [exact Hw|]. intros e (? & ? & ?); lia. }
  apply NoDup_app in Hnd as (_ & Hsep & Hnd).
  destruct (freeFileRuns sb Wd G partOff ag bnoRel cntRel bo co Hag tfuel fuel freed d agf B C Zn V F Hin) as (d1 & agf' & B' & C' & E1 & V1 & F1 & _ & HB & Fr1); [|done| |lia|].
  { eapply Forall_impl; [exact Hcut|]. intros run (e & Hine & Hrun & Hk0 & Hpos)%Exists_exists. rewrite Forall_forall in Hia. specialize (Hia e Hine).
    subst run. apply run_tail; [done..|]. destruct Hia as [Hc0 _]. cbn [snd] in *. lia. }
  { intros x Hx Hc. apply (Hfree x Hx). rewrite Hp. apply in_or_app. by right. }
  destruct (shrinkInode_spec clk i kept (u64 (sumCounts kept)) newSize Hs Hnx Hb ltac:(lia) ltac:(lia) (u64_range _) ltac:(lia) Hwk Hvk)
    as (i1 & Ei & S1 & Bi & Ln & Nm & X1 & Sz & Nb & Fm & Hfork).
  destruct (writeInode_back sb G Hcrc partOff i i1 d1) as (d' & raw & Ew & Er & X2 & Hfk & Kw); [eapply framed_read; [exact Fr1|lia|exact Hap|exact Hslot]|exact Li|exact S1|exact Bi|exact Ln|exact Nm|].
  exists d', agf', B', C', (set_raw i1 raw), kept. split_and!.
  - unfold truncateInode. rewrite (bindM_Ret _ _ _ i (initWorld d)) by (unfold readD; cbn [dev initWorld]; by rewrite Hl). rewrite Hreg. cbn [negb].
    rewrite (bindM_Ret _ _ _ tt (initWorld d)) by reflexivity. rewrite (proj2 (Z.eqb_neq newSize (isize i))), (proj2 (Z.ltb_ge (isize i) newSize)) by lia.
    rewrite Hfm. change (inodeFmtExtents =? inodeFmtLocal) with false. change (inodeFmtExtents =? inodeFmtExtents) with true. cbv iota.
    rewrite (bindM_lift _ _ _ _ He), E. rewrite (bindM_Ret _ _ _ _ _ E1), (bindM_lift _ _ _ _ Ei). exact Ew.
  - exact Er.
  - exact Sz.
  - by rewrite X2.
  - exact Nb.
  - exact Fm.
  - exact Hm.
  - eapply ag_view_keeps; [exact Kw|pose proof (z_sect _ _ _ _ _ _ _ Zn); lia|pose proof (z_bs _ _ _ _ _ _ _ Zn); lia| |exact V1].
    apply Forall_singleton. revert Hap. clear. generalize (inodeByteOff sb partOff (inum i)). intros off [A1 [A2 [A3 _]%Forall_cons]%Forall_cons]%Forall_cons. split_and!; apply apartZ_sym; assumption.
  - exact F1.
  - intros x Hx. rewrite (HB x Hx). rewrite Hp, in_app_iff. specialize (Hsep (agAbsBlock sb ag x)). rewrite !list_elem_of_In in Hsep. tauto.
  - eapply keeps_framed; [exact Fr1|exact Kw].
  - exists freed, (u64 (sumCounts kept)). exact E.
  - intros Hk n Hn0. cbn [iraw set_raw]. rewrite Hfk by lia. by apply Hfork.
Qed.

(** C21 (functional).  Truncating a regular file to a smaller size, on a v5 image without I/O
    faults.  The file is in extents format, not reflinked, with its extent count in the legacy field; its extents lie
    in one allocation group (whose free-space trees are single leaves with room) and end
    below file byte 2^64.  [truncateInode] then succeeds.  The inode read back has the new size
    and an extent list that maps every file block below [ceil (newSize / blockSize)] to the
    physical block it had, and none from there on; if no record is left, the inode becomes
    inline (see [truncate_into_hole_exposes_records]).
    Exactly the file's blocks that are no longer mapped become free.  Nothing but the AGF, the
    two leaves and the inode is written, so the kept blocks hold what they held. *)
Theorem truncate_keeps_prefix {SIO : SafeIO} {SL : SafeIOLaws SIO} {D} {Dev : Device D} {DL : DeviceLaws D} {DR : DeviceReliable D}
    (sb : superblock) (partOff ag bnoRel cntRel bo co : Z) (tfuel fuel : nat) (clk : Z * Z) (d : D) (agf : bytes) (B C : list arec)
    (p : bytes) (i : inode) (exts : list extent) (newSize : Z) :
  shrinkable sb partOff ag bnoRel cntRel bo co d agf B C p i exts newSize ->
  exists d' agf' B' C' i' kept,
    truncateInode partOff sb (S tfuel) (S (S fuel)) clk p newSize (initWorld d) = (Ret tt, initWorld d') /\
    readInode d' partOff sb (inum i) = Ret i' /\ isize i' = newSize /\ inlineExtents i' = Ret kept /\
    inBlocks i' = u64 (sumCounts kept) /\ iformat i' = shrunkFormat i kept /\
    (forall fb, 0 <= fb -> mapped kept fb = if fb <? (newSize + blockSize sb - 1) / blockSize sb then mapped exts fb else None) /\
    ag_view sb partOff ag bnoRel cntRel bo co d' agf' B' C' /\ free_ok B' C' /\
    (forall x, 0 <= x < agBlocks sb -> free_in B' x <->
       free_in B x \/ (In (agAbsBlock sb ag x) (extBlocks exts) /\ ~ In (agAbsBlock sb ag x) (extBlocks kept))) /\
    keeps [(inodeByteOff sb partOff (inum i), inodeSize sb); (agFByteOffset sb partOff ag, sectSize sb); (bo, blockSize sb); (co, blockSize sb)] d d'.
Proof.
  intros H. destruct (truncate_image sb partOff ag bnoRel cntRel bo co tfuel fuel clk d agf B C p i exts newSize H)
    as (d' & agf' & B' & C' & i' & kept & H1 & H2 & H3 & H4 & H5 & H6 & H7 & H8 & H9 & H10 & H11 & _).
  exists d', agf', B', C', i', kept. by split_and!.
Qed.
(** A small image: the root directory in inode 16 with one entry "f", the file in inode 12 (with
    [exts] and [size]), free runs 10-17 and 56-60. *)
Definition f_root : bytes := bytesOf (
  i ← setInodeSize (decodeInode 16 (bytesOf (initInodeV3 (0, 0) (make_bytes 256) 16 0x41ED 2 (replicate 16 0)))) 15;
  copy_to (iraw i) inodeCoreSize [1; 0; 0; 0; 0; 16; 1; 0; 96; 102; 1; 0; 0; 0; 12]).
Definition f_image (exts : list extent) (size : Z) : memdev :=
  make_bytes 512 ++ tiny_agf 4 5 1 1 13 8 ++ make_bytes 1024 ++ tiny_leaf 4 nullAgb [(10, 8); (56, 5)] ++ tiny_leaf 5 nullAgb [(56, 5); (10, 8)]
  ++ tiny_file exts size ++ make_bytes 768 ++ f_root ++ make_bytes (55 * 512 + 256).
Definition f_inode (exts : list extent) (size : Z) : inode := decodeInode 12 (tiny_file exts size).
Definition f_path : bytes := [slash; 102].
Definition cut_exts : list extent := [mkExtent 0 20 2 false; mkExtent 5 30 1 false].
Definition cut_image : memdev := f_image cut_exts 3000.
Definition cut_inode : inode := Eval vm_compute in f_inode cut_exts 3000.
Definition f_B : list arec := [(10, 8); (56, 5)].
Definition f_C : list arec := [(56, 5); (10, 8)].
Definition f_agf : bytes := tiny_agf 4 5 1 1 13 8.
Lemma f_free : free_ok f_B f_C.
Proof.
  constructor.
  - repeat constructor; cbn; lia.
  - unfold before. repeat constructor; cbn; lia.
  - apply perm_swap.
  - repeat constructor.
Qed.
Lemma f_leaf_view rel l : l = f_B \/ l = f_C -> rel = 4 \/ rel = 5 -> leaf_view tiny_sb (tiny_leaf rel nullAgb l) l.
Proof.
  intros [-> | ->] [-> | ->]; (constructor; [vm_compute; reflexivity|apply (bool_decide_unpack _); vm_compute; exact I|vm_compute; (reflexivity || congruence)..|]);
    repeat constructor; cbn; lia.
Qed.
Lemma f_view (d : memdev) :
  ReadAt d 512 512 = Ret f_agf -> ReadAt d 2048 512 = Ret (tiny_leaf 4 nullAgb f_B) -> ReadAt d 2560 512 = Ret (tiny_leaf 5 nullAgb f_C) ->
  ag_view tiny_sb 0 0 4 5 2048 2560 d f_agf f_B f_C.
Proof.
  intros H1 H2 H3. constructor; [exact H1| |eexists; split; [exact H2|apply f_leaf_view; tauto]|eexists; split; [exact H3|apply f_leaf_view; tauto]].
  constructor; try (vm_compute; reflexivity). apply (bool_decide_unpack _); vm_compute; exact I.
Qed.
Lemma f_inside x : free_in f_B x -> 10 <= x < 18 \/ 56 <= x < 61.
Proof. intros (r & [<-|[<-|[]]] & Hx); cbn in Hx; lia. Qed.
Lemma f_abs x : agAbsBlock tiny_sb 0 x = x.
Proof. unfold agAbsBlock, shl64. cbn. done. Qed.
Ltac each_extent := apply List.Forall_forall; intros e He; cbn in He; repeat destruct He as [<-|He]; try done.
Ltac f_shrinkable := constructor;
  [apply tiny_sb_width|apply tiny_sb_geometry|reflexivity|lia|apply tiny_zones|apply f_view; vm_compute; reflexivity|apply f_free
  |intros x Hx%f_inside; cbn; lia|vm_compute; reflexivity|vm_compute; reflexivity|vm_compute; reflexivity|reflexivity|vm_compute; reflexivity|vm_compute; reflexivity
  |reflexivity|vm_compute; reflexivity|cbn; lia|each_extent; cbn; lia
  |each_extent; (split; [cbn; lia|]; eexists; split; [symmetry; apply f_abs|cbn; lia])
  |intros x Hx%f_inside Hi; rewrite f_abs in Hi; vm_compute in Hi; lia
  |repeat constructor; vm_compute; intuition congruence].
Lemma cut_shrinkable : shrinkable tiny_sb 0 0 4 5 2048 2560 cut_image f_agf f_B f_C f_path cut_inode cut_exts 300.
Proof. f_shrinkable. Qed.
(** Cut to 300 bytes, the file keeps block 20; 21 and 30 become free. *)
Lemma truncate_keeps_prefix_witness :
  exists d' B' i' kept, truncateInode 0 tiny_sb 1 2 (7, 0) f_path 300 (initWorld cut_image) = (Ret tt, initWorld d') /\
    readInode d' 0 tiny_sb 12 = Ret i' /\ isize i' = 300 /\ inlineExtents i' = Ret kept /\ mapped kept 0 = Some 20 /\ mapped kept 1 = None /\
    (free_in B' 30 <-> free_in f_B 30 \/ (In (agAbsBlock tiny_sb 0 30) (extBlocks cut_exts) /\ ~ In (agAbsBlock tiny_sb 0 30) (extBlocks kept))).
Proof.
  destruct (truncate_keeps_prefix tiny_sb 0 0 4 5 2048 2560 0 0 (7, 0) cut_image f_agf f_B f_C f_path cut_inode cut_exts 300 cut_shrinkable)
    as (d' & agf' & B' & C' & i' & kept & H1 & H2 & H3 & H4 & _ & _ & Hm & _ & _ & Hf & _).
  exists d', B', i', kept. split_and!; [exact H1|exact H2|exact H3|exact H4|rewrite (Hm 0) by lia; reflexivity|rewrite (Hm 1) by lia; reflexivity|apply Hf; cbn; lia].
Defined.

(** ** Cutting into a leading hole *)
(** No record starts below the new size: all are dropped. *)
Lemma shrink_hole sb newSize exts :
  geometry_ok sb -> 0 <= newSize -> Forall (fun e => extent_wf e /\ 0 < count e /\ (startOff e + count e) * blockSize sb < 2 ^ 64 /\ newSize <= startOff e * blockSize sb) exts ->
  exists freed total, shrinkExtents sb newSize exts = ([], freed, total).
Proof.
  intros G Hn. pose proof (bs_range sb G). induction 1 as [|e exts ((Ho & _ & Hc) & Hp & Hf & Hs) _ (freed & total & IH)]; [by exists [], 0|].
  cbn [shrinkExtents]. rewrite IH. rewrite (u64_small (startOff e * _)), (u64_small (count e * _)), u64_small by nia.
  rewrite (proj2 (Z.leb_gt _ _)) by nia. rewrite (proj2 (Z.leb_le _ _)) by lia. eauto.
Qed.
Lemma inlineData_spec i n :
  isize i = n -> 0 <= n -> 176 + n <= zlen (iraw i) -> inlineData i = Ret (slice (iraw i) 176 n).
Proof.
  intros Hn H0 L. unfold inlineData, dataFork, from, inodeCoreSize. rewrite sub_ok by lia. ostep. rewrite zlen_slice, Hn, (proj2 (Z.ltb_ge _ _)) by lia.
  by rewrite slice_slice by lia.
Qed.
(** The first bytes of the fork of an extents-format inode are its first record. *)
Lemma fork_first_record i e exts n : 16 <= n -> 176 + n <= zlen (iraw i) -> inlineExtents i = Ret (e :: exts) -> decodeExtent (slice (iraw i) 176 n) = Ret e.
Proof.
  intros Hn L H. unfold inlineExtents, dataFork, from, inodeCoreSize in H. rewrite sub_ok in H by lia. cbn [mbind outcome_bind] in H.
  destruct (_ <? _); [done|]. destruct (Z.to_nat (inExts i)) as [|k]; cbn [decodeRecs] in H; [done|].
  unfold from in H. change (0 * 16) with 0 in H. rewrite sub_ok in H by (rewrite ?zlen_slice by lia; lia). cbn [mbind outcome_bind] in H.
  rewrite zlen_slice, slice_slice in H by lia. rewrite decodeExtent_take in H |- * by (rewrite ?zlen_slice by lia; lia). rewrite slice_slice in H |- * by lia.
  rewrite !Z.add_0_r in *. destruct (decodeExtent (slice (iraw i) 176 16)) as [e'| | |]; cbn [mbind outcome_bind] in H; try done.
  destruct (decodeRecs _ k _) as [l| | |]; cbn [mbind outcome_bind] in H; try done. destruct (validateExtents _); cbn [mbind outcome_bind] in H; try done. by injection H as -> _.
Qed.
(** C39 (error).  A sparse file whose extents all start at or after [newSize], cut to [newSize]
    bytes (at least 16, within the fork), under the conditions of [shrinkable]: no record is kept, the inode becomes inline, and the
    contents turn from [newSize] zero bytes into the bytes of the old fork, which begin
    with the file's first extent record. *)
Theorem truncate_into_hole_exposes_records {SIO : SafeIO} {SL : SafeIOLaws SIO} {D} {Dev : Device D} {DL : DeviceLaws D} {DR : DeviceReliable D}
    (sb : superblock) (partOff ag bnoRel cntRel bo co : Z) (tfuel fuel : nat) (clk : Z * Z) (d : D) (agf : bytes) (B C : list arec)
    (p : bytes) (i : inode) (e : extent) (exts : list extent) (newSize : Z) (before : bytes) :
  shrinkable sb partOff ag bnoRel cntRel bo co d agf B C p i (e :: exts) newSize -> 0 <= partOff < 2 ^ 63 ->
  16 <= newSize -> inodeCoreSize + newSize <= inodeSize sb -> Forall (fun e => newSize <= startOff e * blockSize sb) (e :: exts) ->
  readFileData d partOff sb i = Ret before ->
  slice before 0 newSize = make_bytes newSize /\
  exists d' i', truncateInode partOff sb (S tfuel) (S (S fuel)) clk p newSize (initWorld d) = (Ret tt, initWorld d') /\
    readInode d' partOff sb (inum i) = Ret i' /\ readFileData d' partOff sb i' = Ret (slice (iraw i) inodeCoreSize newSize) /\
    decodeExtent (slice (iraw i) inodeCoreSize newSize) = Ret e.
Proof.
  intros H Hp H16 Hfit Hhole Hb. unfold inodeCoreSize in *.
  destruct (truncate_image sb partOff ag bnoRel cntRel bo co tfuel fuel clk d agf B C p i (e :: exts) newSize H)
    as (d' & _ & _ & _ & i' & kept & Et & Er & Es & _ & _ & Ef & _ & _ & _ & _ & _ & (freed & total & Ek) & Hfork).
  destruct H as [Wd G _ _ _ _ _ _ _ _ Hi _ _ _ Hfm He [Hns _] Hfits Hia _ _]. pose proof (bs_range sb G) as Hbs. pose proof (slot_size sb G) as Hsz.
  assert (inodeCoreSize <= inodeSize sb) as Hcs by (unfold inodeCoreSize; lia).
  destruct (readInode_sync partOff sb Hcs d (inum i) i Hi) as (_ & _ & Hs & Hbi & Li).
  destruct (readInode_sync partOff sb Hcs d' (inum i) i' Er) as (_ & _ & _ & _ & Li').
  assert (inode_wf sb i) as Hwf by done. destruct (inlineExtents_inv sb i (e :: exts) G Hwf He) as (Hw & _ & _).
  assert (kept = []) as ->.
  { destruct (shrink_hole sb newSize (e :: exts) G ltac:(lia)) as (fr & tt' & E); [|congruence].
    rewrite List.Forall_forall in *. intros x Hx. split_and!; [by apply Hw|apply (Hia x Hx)|by apply Hfits|by apply Hhole]. }
  split.
  - apply (readFileData_records d partOff sb i (e :: exts) before); try assumption; try lia.
    + rewrite List.Forall_forall in *. intros x Hx. unfold nowrap. specialize (Hw x Hx) as (? & ? & ?). specialize (Hfits x Hx). cbn beta in Hfits. nia.
    + rewrite List.Forall_forall in *. intros x Hx. right. right. left. specialize (Hhole x Hx). specialize (Hw x Hx) as (? & ? & ?). specialize (Hfits x Hx). cbn beta in Hfits, Hhole.
      unfold run_start. rewrite u64_small by nia. lia.
  - exists d', i'. split_and!; [exact Et|exact Er| |].
    + unfold readFileData. rewrite Ef. change (shrunkFormat i [] =? inodeFmtLocal) with true. cbv iota.
      rewrite (inlineData_spec i' newSize Es) by lia. f_equal. apply Hfork; [done|lia].
    + by apply (fork_first_record i e exts); [lia|lia|].
Qed.
(** A 1000-byte file that starts with a hole of one block. *)
Definition hole_exts : list extent := [mkExtent 1 20 1 false].
Definition hole_image : memdev := f_image hole_exts 1000.
Definition hole_inode : inode := Eval vm_compute in f_inode hole_exts 1000.
Lemma hole_shrinkable : shrinkable tiny_sb 0 0 4 5 2048 2560 hole_image f_agf f_B f_C f_path hole_inode hole_exts 64.
Proof. f_shrinkable. Qed.
Lemma truncate_into_hole_exposes_records_witness :
  exists d' i', truncateInode 0 tiny_sb 1 2 (7, 0) f_path 64 (initWorld hole_image) = (Ret tt, initWorld d') /\
    readInode d' 0 tiny_sb 12 = Ret i' /\ readFileData d' 0 tiny_sb i' = Ret (slice (iraw hole_inode) 176 64) /\
    decodeExtent (slice (iraw hole_inode) 176 64) = Ret (mkExtent 1 20 1 false).
Proof.
  apply (truncate_into_hole_exposes_records tiny_sb 0 0 4 5 2048 2560 0 0 (7, 0) hole_image f_agf f_B f_C f_path hole_inode (mkExtent 1 20 1 false) [] 64
    (replicate 1000 0) hole_shrinkable); [lia|lia|vm_compute; congruence|each_extent; cbn; lia|vm_compute; reflexivity].
Defined.
