(* ===== verification/OverwriteSpec.v ===== *)
(** * Overwriting files: what can go wrong (write.go)

    [overwriteFile] on a sparse file, and on a filesystem without room for the new contents. *)
From S2P Require Import Prelude Bytes Crc Writers Extent Device Superblock SafeIO Inode FileRead Dir Lookup AgBlocks Zones AllocTree Alloc AllocLeaf AllocSpec FreeSpec InodeAlloc Refcount FileWrite FileWriteSpec LeafDir DirUpdate Namespace Attr AttrSpec TruncateSpec.

Lemma range_accM_map {S X Y A} (f : X -> Y) (l : list X) (acc : A) (g : Y -> A -> M S A) (s : S) :
  range_accM (map f l) acc g s = range_accM l acc (fun x => g (f x)) s.
Proof.
  revert acc s. induction l as [|x l IH]; intros acc s; [done|]. cbn [map range_accM]. unfold mbind, M_bind. destruct (g (f x) acc s) as [[a| | |] s']; [apply IH|done..].
Qed.

(** ** Writing in place *)
Section InPlace.
Context {D : Type} {Dev : Device D} {DL : DeviceLaws D} {DR : DeviceReliable D}.
Context (partOff : Z) (sb : superblock) (W : sb_width sb) (G : geometry_ok sb) (Hp : 0 <= partOff < 2 ^ 63).
Context (data : bytes) (Hb : isbytes data).
Let bs := blockSize sb.

Lemma dataBlock_spec start : 0 <= start -> zlen (dataBlock sb data start) = bs /\ isbytes (dataBlock sb data start).
Proof.
  intros Hs. pose proof (bs_range sb G) as Hbs. fold bs in Hbs. unfold dataBlock. fold bs. destruct (Z.leb_spec (zlen data) start).
  { split; [apply zlen_make; lia|apply isbytes_replicate]. }
  set (x := slice data start _). pose proof (zlen_make bs ltac:(lia)) as Lm. split.
  - unfold zlen. rewrite length_take, length_app. unfold zlen in Lm. lia.
  - apply Forall_take, Forall_app. split; [by apply isbytes_slice|apply isbytes_replicate].
Qed.
(** Extent [e] lies in byte range [z] of the image. *)
Definition placed (d : D) (e : extent) (z : Z * Z) : Prop :=
  blockByteOffset partOff sb (startBlock e) = Ret z.1 /\ z.2 = count e * bs /\ z.1 + z.2 < 2 ^ 63 /\ exists old, ReadAt d z.1 z.2 = Ret old.
Lemma ext_off e z d b : extent_wf e -> placed d e z -> 0 <= b < count e ->
  i64 (i64 (partOff + i64 (i64 (fsbToPhysBlock sb (startBlock e)) * bs)) + i64 (b * bs)) = z.1 + b * bs.
Proof.
  intros (_ & _ & Hc) (Ho & Hz & He & _) Hbc. pose proof (bs_range sb G) as Hbs. fold bs in Hbs.
  rewrite (blockByteOffset_Ret partOff sb _ W G Hp) in Ho. fold bs in Ho. destruct (Z.ltb_spec (partOff + fsbToPhysBlock sb (startBlock e) * bs) (2 ^ 63)); [|done]. injection Ho as E.
  assert (0 <= fsbToPhysBlock sb (startBlock e)) by apply u64_range. set (p := fsbToPhysBlock sb (startBlock e)) in *.
  assert (p < 2 ^ 63) by nia. rewrite (i64_small p), (i64_small (p * bs)), (i64_small (partOff + _)), (i64_small (b * bs)) by nia. rewrite E. apply i64_small. nia.
Qed.
Lemma writeExtent_loop e z d0 k b written w :
  extent_wf e -> placed d0 e z -> 0 <= b -> b + Z.of_nat k = count e -> 0 <= written -> written + Z.of_nat k * bs < 2 ^ 63 ->
  (forall c, b <= c < count e -> exists old, ReadAt (dev w) (z.1 + c * bs) bs = Ret old) ->
  exists d', for_accM k b written (fun b written => writeAt (dataBlock sb data written)
      (i64 (i64 (partOff + i64 (i64 (fsbToPhysBlock sb (startBlock e)) * blockSize sb)) + i64 (b * blockSize sb)));; mret (i64 (written + blockSize sb))) w =
      (Ret (written + Z.of_nat k * bs), set_dev d' w) /\ keeps [(z.1, z.2)] (dev w) d'.
Proof.
  intros He Hz. pose proof (bs_range sb G) as Hbs. fold bs in Hbs |- *. revert b written w. induction k as [|k IH]; intros b written w Hb0 Hk Hw Hmax Hr; cbn [for_accM].
  { exists (dev w). split; [|apply keeps_refl]. rewrite Z.mul_0_l, Z.add_0_r. by destruct w. }
  destruct (Hr b ltac:(lia)) as (old & Eo). destruct (dataBlock_spec written Hw) as [Ld Bd].
  destruct (write_zone w (z.1 + b * bs) bs old (dataBlock sb data written) Eo Ld Bd) as (d1 & E1 & _ & F1).
  rewrite (ext_off e z d0 b He Hz) by lia. rewrite (bindM_Ret _ _ w (i64 (written + bs)) (set_dev d1 w)) by (rewrite (bindM_Ret _ _ _ _ _ E1); reflexivity).
  rewrite i64_small by nia. destruct (IH (b + 1) (written + bs) (set_dev d1 w)) as (d' & E' & K'); [lia|lia|lia|nia| |].
  { intros c Hc. destruct (Hr c ltac:(lia)) as (o & Ho). exists o. apply F1; [lia|right; nia|exact Ho]. }
  exists d'. split; [rewrite E'; do 2 f_equal; lia|]. intros o n cs Hn Ha Ho. pose proof Ha as [Ha1 _]%Forall_cons. apply K'; [done|done|]. apply F1; [done| |done].
  destruct Hz as (_ & Hz2 & _). unfold apartZ in *. cbn [fst snd] in Ha1. rewrite Hz2 in Ha1. assert (b * bs + bs <= count e * bs) by nia. assert (0 <= b * bs) by nia. lia.
Qed.
Lemma writeExtentBlocks_spec e z written w :
  extent_wf e -> placed (dev w) e z -> 0 <= written -> written + count e * bs < 2 ^ 63 ->
  exists d', writeExtentBlocks partOff sb data e written w = (Ret (written + count e * bs), set_dev d' w) /\ keeps [(z.1, z.2)] (dev w) d'.
Proof.
  intros He Hz Hw Hmax. pose proof He as (_ & _ & Hc). pose proof (bs_range sb G) as Hbs. fold bs in Hbs. pose proof Hz as (_ & Hz2 & _ & old & Eo). rewrite Hz2 in Eo.
  destruct (writeExtent_loop e z (dev w) (Z.to_nat (count e)) 0 written w He Hz) as (d' & E & K); [lia|lia|lia|rewrite Z2Nat.id by lia; lia| |].
  { intros c Hcc. eexists. apply (ReadAt_sub (dev w) z.1 (count e * bs) old (c * bs) bs Eo); nia. }
  rewrite Z2Nat.id in E by lia. exists d'. split; [exact E|exact K].
Qed.
(** All extents of a file: the zones are apart, so each is still readable when its turn comes. *)
Lemma writeExtents_spec exts zs written w :
  Forall extent_wf exts -> Forall2 (placed (dev w)) exts zs -> ForallOrdPairs (fun z z' => apartZ z.1 z.2 z'.1 z'.2) zs -> 0 <= written -> written + sumCounts exts * bs < 2 ^ 63 ->
  exists n d', range_accM exts written (writeExtentBlocks partOff sb data) w = (Ret n, set_dev d' w) /\ keeps zs (dev w) d'.
Proof.
  intros Hw H2. revert zs written w H2. induction Hw as [|e exts He Hw IH]; intros zs written w H2 Hd Hn Hm.
  { inversion H2; subst. exists written, (dev w). split; [by destruct w|apply keeps_refl]. }
  inversion H2 as [|? z ? zs' Hz H2']; subst. inversion Hd as [|? ? Ha Hd']; subst. cbn [sumCounts fold_right] in Hm. fold (sumCounts exts) in Hm.
  pose proof He as (_ & _ & Hc). pose proof (bs_range sb G) as Hbs. fold bs in Hbs.
  assert (0 <= sumCounts exts) as Hs by (clear -Hw; induction Hw as [|x l (_ & _ & ?) _ IH]; cbn; [lia|]; fold (sumCounts l); lia).
  destruct (writeExtentBlocks_spec e z written w He Hz Hn ltac:(nia)) as (d1 & E1 & K1).
  destruct (IH zs' (written + count e * bs) (set_dev d1 w)) as (n & d' & E' & K'); [|done|nia|nia|].
  { clear -H2' Ha K1 Hbs Hw. induction H2' as [|x y xs ys (P1 & P2 & P3 & old & P4) _ IH2]; constructor.
    - split_and!; try done. exists old. apply Forall_cons in Hw as [(_ & _ & ?) _]. apply Forall_cons in Ha as [Ha _]. apply K1; [rewrite P2; nia| |exact P4].
      constructor; [|constructor]. by apply apartZ_sym.
    - apply Forall_cons in Ha as [_ Ha], Hw as [_ Hw]. by apply IH2. }
  exists n, d'. cbn [range_accM]. rewrite (bindM_Ret _ _ _ _ _ E1). split; [exact E'|]. destruct z as [zo zn]. exact (keeps_trans [(zo, zn)] zs' _ _ _ K1 K').
Qed.
End InPlace.

(** Runs that start past the end of the file are skipped. *)
Lemma readRuns_skip {D} {Dev : Device D} (d : D) partOff sb exts size out :
  geometry_ok sb -> Forall extent_wf exts -> 0 <= size < 2 ^ 63 -> zlen out = size -> Forall (fun e => size <= run_start sb e) exts ->
  readRuns d partOff sb exts size out = Ret out.
Proof.
  intros G Hw Hs L. induction Hw as [|e exts He Hw IH]; intros H; [done|]. apply Forall_cons in H as [H1 H]. rewrite (readRuns_cons d partOff sb G) by done.
  rewrite (proj2 (Z.leb_le _ _) H1). by apply IH.
Qed.
(** [setInodeSize] leaves the extent list. *)
Lemma setSize_spec i n : inode_sync i -> isbytes (iraw i) -> 0 <= n < 2 ^ 64 ->
  exists j, setInodeSize i n = Ret j /\ inode_sync j /\ isbytes (iraw j) /\ zlen (iraw j) = zlen (iraw i) /\ inum j = inum i /\
    isize j = n /\ iformat j = iformat i /\ inBlocks j = inBlocks i /\ inlineExtents j = inlineExtents i.
Proof.
  intros Hs Hb Hn. pose proof Hs as (L0 & _)%inode_sync_iff. unfold inodeCoreSize in L0. destruct (setInodeSize_sync i Hs n Hn) as (j & Ej & Sz & Sj & Wj). exists j. pose proof (wrote_len _ _ _ _ Wj) as Lj.
  split_and!; [done|done|by apply Wj|done| |done| | |]; unfold setInodeSize in Ej; destruct (put64 (iraw i) inoOffSize n) as [raw| | |]; try discriminate Ej; injection Ej as <-; try done.
  rewrite <- (inlineExtents_fork i raw Lj); [done|]. apply (wrote_slice _ _ _ _ Wj); lia.
Qed.

(** C36 (error).  [writeExtentsInPlace] fills the mapped blocks in list order and ignores their
    file offsets.  On a v5 image without I/O faults, take a sparse file (in extents format, not
    reflinked) with enough blocks, in byte ranges [zs] of the image apart from each other and from
    the inode, all of whose extents start at or after byte [len data] and below 2^64, and a length
    the file's read limit admits.  Overwriting it reports success, but afterwards it reads
    as [len data] zero bytes, whatever [data] was. *)
Theorem overwrite_sparse_loses_data {SIO : SafeIO} {SL : SafeIOLaws SIO} {D} {Dev : Device D} {DL : DeviceLaws D} {DR : DeviceReliable D}
    (partOff : Z) (sb : superblock) (tfuel ofuel : nat) (d : D) (i : inode) (exts : list extent) (zs : list (Z * Z)) (data : bytes) :
  sb_width sb -> geometry_ok sb -> hasCRC sb = true -> 0 <= partOff < 2 ^ 63 -> isbytes data ->
  readInode d partOff sb (inum i) = Ret i -> isRegular i = true -> inodeIsReflinked i = Ret false ->
  iformat i = inodeFmtExtents -> inlineExtents i = Ret exts ->
  Forall (fun e => zlen data <= startOff e * blockSize sb < 2 ^ 64) exts -> sumCounts exts * blockSize sb < 2 ^ 63 ->
  u64 (zlen data + blockSize sb - 1) / blockSize sb <= totalBlocks exts -> zlen data < 2 ^ 63 -> zlen data <= fileCeiling sb i ->
  Forall2 (placed partOff sb d) exts zs -> ForallOrdPairs (fun z z' => apartZ z.1 z.2 z'.1 z'.2) zs ->
  Forall (fun z => apartZ (inodeByteOff sb partOff (inum i)) (inodeSize sb) z.1 z.2) zs ->
  exists d' i', overwriteFile partOff sb tfuel ofuel (inum i) data (initWorld d) = (Ret tt, initWorld d') /\
    readInode d' partOff sb (inum i) = Ret i' /\ readFileData d' partOff sb i' = Ret (make_bytes (zlen data)).
Proof.
  intros Wd G Hcrc Hp Hb Hr Hreg Hsh Hfm He Hhole Hsum Hroom Hl Hceil H2 Hd Hslot. pose proof (zlen_nonneg data) as Hl0. pose proof (bs_range sb G) as Hbs.
  pose proof (slot_size sb G) as Hsz. assert (inodeCoreSize <= inodeSize sb) as Hcs by (unfold inodeCoreSize; lia).
  destruct (readInode_sync partOff sb Hcs d (inum i) i Hr) as (Hraw & _ & Hs & Hbi & Li).
  destruct (inlineExtents_inv sb i exts G ltac:(done) He) as (Hw & _ & _).
  destruct (writeExtents_spec partOff sb Wd G Hp data Hb exts zs 0 (initWorld d) Hw H2 Hd ltac:(lia) ltac:(lia)) as (n & d1 & E1 & K1).
  destruct (setSize_spec i (zlen data) Hs Hbi ltac:(lia)) as (j & Ej & Sj & Bj & Lj & Nj & Zj & Fj & Mj & Xj).
  destruct (writeInode_back sb G Hcrc partOff i j d1) as (d' & raw & Ew & Er & X2 & _ & _); [apply K1; [lia|exact Hslot|exact Hraw]|exact Li|exact Sj|exact Bj|exact Lj|exact Nj|].
  exists d', (set_raw j raw). split_and!; [|exact Er|].
  - unfold overwriteFile. rewrite (bindM_Ret _ _ _ i (initWorld d)) by (unfold readD; cbn [dev initWorld]; by rewrite Hr). rewrite Hreg. cbn [negb].
    rewrite (bindM_lift _ _ _ _ Hsh), Hfm. change (inodeFmtExtents =? inodeFmtLocal) with false. change (inodeFmtExtents =? inodeFmtExtents) with true. cbv iota.
    rewrite (bindM_lift _ _ _ _ He). unfold overwriteExtents. rewrite (proj2 (Z.leb_le _ _) Hroom). unfold writeExtentsInPlace.
    rewrite (bindM_Ret _ _ _ _ _ E1), (bindM_lift _ _ _ _ Ej). exact Ew.
  - unfold readFileData. cbn [iformat set_raw isize]. rewrite Fj, Hfm. change (inodeFmtExtents =? inodeFmtLocal) with false. change (inodeFmtExtents =? inodeFmtExtents) with true. cbv iota.
    rewrite X2, Xj, He. ostep. unfold readExtents. rewrite Zj, i64_small by lia.
    assert (fileCeiling sb (set_raw j raw) = fileCeiling sb i) as -> by (unfold fileCeiling, inodeMaxBytes; cbn [inBlocks set_raw]; by rewrite Mj).
    rewrite MakeBytes_ok by lia. ostep. apply readRuns_skip; [done|done|lia|apply zlen_make; lia|].
    eapply Forall_impl; [exact Hhole|]. intros e Hx. cbn beta in Hx. unfold run_start. rewrite u64_small by lia. lia.
Qed.
Lemma overwrite_sparse_loses_data_witness :
  exists d' i', overwriteFile 0 tiny_sb 1 2 12 [1; 2; 3] (initWorld hole_image) = (Ret tt, initWorld d') /\
    readInode d' 0 tiny_sb 12 = Ret i' /\ readFileData d' 0 tiny_sb i' = Ret [0; 0; 0].
Proof.
  apply (overwrite_sparse_loses_data 0 tiny_sb 1 2 hole_image hole_inode hole_exts [(10240, 512)] [1; 2; 3]);
    [apply tiny_sb_width|apply tiny_sb_geometry|reflexivity|lia|by apply (bool_decide_unpack _)|vm_compute; reflexivity|reflexivity|vm_compute; reflexivity|reflexivity
    |vm_compute; reflexivity|each_extent; cbn; lia|vm_compute; reflexivity|vm_compute; congruence|vm_compute; reflexivity|vm_compute; congruence| |repeat constructor|].
  - constructor; [|constructor]. split_and!; [vm_compute; reflexivity|reflexivity|vm_compute; reflexivity|eexists; vm_compute; reflexivity].
  - constructor; [|constructor]. vm_compute. left. congruence.
Defined.

(** ** Reallocating *)
(** C37 (error).  [reallocAndWrite] frees a file's blocks before it has new ones.  On a filesystem
    of one allocation group (its free-space trees single leaves with room), take a file in extents
    format, not reflinked, whose extents have too few blocks for [data], and no run of free and
    own blocks long enough for it.  Overwriting the file fails with an error; all its blocks are then free, while the inode
    on the image still maps them. *)
Theorem realloc_failure_frees_live_blocks {SIO : SafeIO} {SL : SafeIOLaws SIO} {D} {Dev : Device D} {DL : DeviceLaws D} {DR : DeviceReliable D}
    (sb : superblock) (partOff bnoRel cntRel bo co : Z) (tfuel fuel : nat) (d : D) (agf : bytes) (B C : list arec)
    (i : inode) (exts : list extent) (data : bytes) :
  let n := blocksFor sb (zlen data) in
  sb_width sb -> geometry_ok sb -> agCount sb = 1 -> ag_zones sb partOff 0 bnoRel cntRel bo co ->
  ag_view sb partOff 0 bnoRel cntRel bo co d agf B C -> free_ok B C -> (forall x, free_in B x -> x < agBlocks sb) ->
  zlen B + 3 * zlen exts < allocMaxLeaf (blockSize sb) (agBTreeHdrSize sb) ->
  readInode d partOff sb (inum i) = Ret i -> inoAG sb (inum i) = 0 -> isRegular i = true -> inodeIsReflinked i = Ret false ->
  iformat i = inodeFmtExtents -> inlineExtents i = Ret exts ->
  Forall (in_ag sb 0) exts -> (forall x, free_in B x -> ~ In (agAbsBlock sb 0 x) (extBlocks exts)) ->
  Forall (fun z => apartZ (inodeByteOff sb partOff (inum i)) (inodeSize sb) z.1 z.2)
    [(agFByteOffset sb partOff 0, sectSize sb); (bo, blockSize sb); (co, blockSize sb)] ->
  totalBlocks exts < u64 (zlen data + blockSize sb - 1) / blockSize sb ->
  (forall s, exists x, s <= x < s + n /\ ~ free_in B x /\ ~ In (agAbsBlock sb 0 x) (extBlocks exts)) ->
  exists d' agf' B' C',
    overwriteFile partOff sb (S tfuel) (S (S fuel)) (inum i) data (initWorld d) = (Fail (Errorf "realloc: no space"), initWorld d') /\
    ag_view sb partOff 0 bnoRel cntRel bo co d' agf' B' C' /\ free_ok B' C' /\
    (forall x, 0 <= x < agBlocks sb -> In (agAbsBlock sb 0 x) (extBlocks exts) -> free_in B' x) /\
    readInode d' partOff sb (inum i) = Ret i.
Proof.
  intros n Wd G Hone Zn V F Hin Hroom Hr Hino Hreg Hsh Hfm He Hia Hfree Hslot Hbig Hno.
  pose proof (slot_size sb G) as Hsz. assert (inodeCoreSize <= inodeSize sb) as Hcs by (unfold inodeCoreSize; lia).
  destruct (readInode_sync partOff sb Hcs d (inum i) i Hr) as (Hraw & _ & Hs & Hbi & Li).
  destruct (inlineExtents_inv sb i exts G ltac:(done) He) as (Hw & Hv & _).
  set (runs := map (fun e => (startBlock e, count e)) exts).
  assert (concat (map runBlocks runs) = extBlocks exts) as Eb by (unfold runs, extBlocks; by rewrite map_map).
  destruct (freeFileRuns sb Wd G partOff 0 bnoRel cntRel bo co ltac:(lia) tfuel fuel runs d agf B C Zn V F Hin) as (d' & agf' & B' & C' & E1 & V' & F' & Hin' & HB & Fr).
  { by apply Forall_map. }
  { rewrite Eb. apply validateExtents_iff in Hv as [_ V2]; [|done]. apply extBlocks_nodup; [|done]. eapply Forall_impl; [exact Hw|]. intros e (? & ? & ?); lia. }
  { by rewrite Eb. }
  { unfold runs. rewrite zlen_map. done. }
  rewrite Eb in HB.
  assert (Forall (fun r => r.2 < n) B') as Hshort.
  { apply List.Forall_forall. intros r Hrr. destruct (Z_lt_le_dec r.2 n); [done|]. exfalso. destruct (Hno r.1) as (x & Hx & Hx1 & Hx2).
    assert (free_in B' x) as Hxf by (exists r; split; [done|lia]). apply HB in Hxf as [?|?]; [done|done|by apply Hin']. }
  exists d', agf', B', C'. split_and!; [|done|done|intros x Hx Hi; apply HB; [done|by right]|].
  - unfold overwriteFile. rewrite (bindM_Ret _ _ _ i (initWorld d)) by (unfold readD; cbn [dev initWorld]; by rewrite Hr). rewrite Hreg. cbn [negb].
    rewrite (bindM_lift _ _ _ _ Hsh), Hfm. change (inodeFmtExtents =? inodeFmtLocal) with false. change (inodeFmtExtents =? inodeFmtExtents) with true. cbv iota.
    rewrite (bindM_lift _ _ _ _ He). unfold overwriteExtents. rewrite (proj2 (Z.leb_gt _ _) Hbig). unfold reallocAndWrite.
    unfold runs in E1. rewrite range_accM_map in E1. rewrite (bindM_Ret _ _ _ _ _ E1). apply bindM_Fail. unfold catchM, allocAnyAG. unfold catchM. rewrite Hino.
    fold n. rewrite (allocBlocks_exhausted sb partOff 0 bnoRel cntRel bo co (S tfuel) (S fuel) d' agf' B' C' n Zn V' F' Hshort).
    rewrite Hone. reflexivity.
  - assert (0 <= inodeSize sb) as Hn0 by lia. pose proof (framed_read _ _ _ _ _ _ _ d d' _ Fr Hn0 Hslot Hraw) as R. revert Hr. unfold readInode, readBytes. by rewrite Hraw, R.
Qed.
(** A one-block file rewritten with 9 blocks of data, on an image whose longest free run is 8. *)
Definition full_exts : list extent := [mkExtent 0 40 1 false].
Definition full_image : memdev := f_image full_exts 5.
Definition full_inode : inode := Eval vm_compute in f_inode full_exts 5.
Lemma realloc_failure_frees_live_blocks_witness :
  exists d' B', (overwriteFile 0 tiny_sb 1 2 12 (replicate 4600 9) (initWorld full_image)) = (Fail (Errorf "realloc: no space"), initWorld d') /\
    free_in B' 40 /\ readInode d' 0 tiny_sb 12 = Ret full_inode.
Proof.
  destruct (realloc_failure_frees_live_blocks tiny_sb 0 4 5 2048 2560 0 0 full_image f_agf f_B f_C full_inode full_exts (replicate 4600 9))
    as (d' & agf' & B' & C' & E & _ & _ & Hf & Hr);
    [apply tiny_sb_width|apply tiny_sb_geometry|reflexivity|apply tiny_zones|apply f_view; vm_compute; reflexivity|apply f_free|intros x Hx%f_inside; cbn; lia
    |vm_compute; reflexivity|vm_compute; reflexivity|vm_compute; reflexivity|reflexivity|vm_compute; reflexivity|reflexivity|vm_compute; reflexivity
    |each_extent; (split; [cbn; lia|]; eexists; split; [symmetry; apply f_abs|cbn; lia])|intros x Hx%f_inside Hi; rewrite f_abs in Hi; vm_compute in Hi; lia
    |repeat constructor; vm_compute; intuition congruence|vm_compute; reflexivity| |].
  - assert (blocksFor tiny_sb (zlen (replicate 4600 9)) = 9) as -> by (vm_compute; reflexivity). intros s.
    exists (if decide (10 <= s < 18) then 18 else if decide (s = 40) then 41 else if decide (56 <= s < 61) then 61 else s).
    repeat case_decide; (split; [lia|]); (split; [intros Hx%f_inside; lia|]); rewrite f_abs; intros Hi; vm_compute in Hi; lia.
  - exists d', B'. split_and!; [exact E| |exact Hr]. apply Hf; [cbn; lia|]. rewrite f_abs. left. reflexivity.
Defined.
