(* ===== verification/Quota.v ===== *)
(** * Quota (quota.go, quota_setup.go, quotacheck.go)

    On-disk dquots, the scan of all allocated inodes that recomputes them, and the creation
    of the quota inodes.  The Go maps from id to usage are [gmap]s. *)
From stdpp Require Import gmap.
From S2P Require Import Prelude Bytes Crc Extent Device Superblock SafeIO Inode FileRead Dir Lookup AgBlocks AllocTree Alloc InodeAlloc Refcount FileWrite LeafDir DirUpdate Namespace Attr.

Definition dqMagic := 0x4451.
Definition dqVersion := 1.
Definition dqBlkSize := 136.
Definition dqOffMagic := 0.
Definition dqOffVersion := 2.
Definition dqOffType := 3.
Definition dqOffID := 4.
Definition dqOffBCount := 40.
Definition dqOffICount := 48.
Definition dqOffCRC := 104 + 4.
Definition dqOffUUID := 120.
Definition dqTypeUser := 0x01.
Definition dqTypeProj := 0x02.
Definition dqTypeGroup := 0x04.
Definition inoOffProjidLo := 20.
Definition inoOffProjidHi := 24.

Definition xfsUQuotaAcct := 0x0001.
Definition xfsUQuotaEnfd := 0x0002.
Definition xfsUQuotaChkd := 0x0004.
Definition xfsPQuotaAcct := 0x0008.
Definition xfsGQuotaAcct := 0x0040.
Definition xfsGQuotaEnfd := 0x0080.
Definition xfsGQuotaChkd := 0x0100.
Definition xfsPQuotaEnfd := 0x0200.
Definition xfsPQuotaChkd := 0x0400.

Record QuotaConfig := mkQuotaConfig { qUser : bool; qGroup : bool; qProject : bool; qEnforce : bool }.
Definition isZero (q : QuotaConfig) : bool := negb (qUser q) && negb (qGroup q) && negb (qProject q).
Definition qflags (q : QuotaConfig) : Z :=
  let f := 0 in
  let f := if qUser q then
             let f := Z.lor f (Z.lor xfsUQuotaAcct xfsUQuotaChkd) in
             if qEnforce q then Z.lor f xfsUQuotaEnfd else f
           else f in
  let f := if qGroup q then
             let f := Z.lor f (Z.lor xfsGQuotaAcct xfsGQuotaChkd) in
             if qEnforce q then Z.lor f xfsGQuotaEnfd else f
           else f in
  if qProject q then
    let f := Z.lor f (Z.lor xfsPQuotaAcct xfsPQuotaChkd) in
    if qEnforce q then Z.lor f xfsPQuotaEnfd else f
  else f.

(** ** Dquot records *)
(** [buildDquot(dst[off:], ...)] on a buffer: the record at [off]. *)
Definition buildDquot (dst : bytes) (off : Z) (sb : superblock) (dqType id bcount icount : Z) : outcome bytes :=
  b ← clear_range dst off (off + dqBlkSize);
  b ← put16 b (off + dqOffMagic) dqMagic;
  b ← set_byte b (off + dqOffVersion) dqVersion;
  b ← set_byte b (off + dqOffType) dqType;
  b ← put32 b (off + dqOffID) id;
  b ← put64 b (off + dqOffBCount) bcount;
  b ← put64 b (off + dqOffICount) icount;
  if hasCRC sb then
    b ← copy_to b (off + dqOffUUID) (take 16 (uuid sb));
    rec ← sub b off (off + dqBlkSize);
    rec ← updateCRC rec dqOffCRC dqBlkSize;
    Ret (splice b off rec)
  else Ret b.
Definition dquotsPerBlock (sb : superblock) : Z := Z.quot (blockSize sb) dqBlkSize.

Definition acctMap : Type := gmap Z (Z * Z).   (* id -> (bcount, icount) *)
Definition usage (m : acctMap) (id : Z) : Z * Z := default (0, 0) (m !! id).
(** [add] of [quotaRecompute]. *)
Definition addUsage (m : acctMap) (id blocks : Z) : acctMap :=
  let '(b, c) := usage m id in <[id := (u64 (b + blocks), u64 (c + 1))]> m.
(** Dquots [0 .. perBlock) with the usage of [m]. *)
Definition dquotBlock (sb : superblock) (dqType : Z) (m : acctMap) (block : bytes) : outcome bytes :=
  for_acc (Z.to_nat (dquotsPerBlock sb)) 0 block (fun i block =>
    buildDquot block (i * dqBlkSize) sb dqType (u32 i) (usage m i).1 (usage m i).2).
Definition buildDquotBlock (sb : superblock) (dqType : Z) (block : bytes) : outcome bytes :=
  for_acc (Z.to_nat (dquotsPerBlock sb)) 0 block (fun i block =>
    buildDquot block (i * dqBlkSize) sb dqType (u32 i) 0 0).

Definition inodeProjid (raw : bytes) : outcome Z :=
  hi ← be16 raw inoOffProjidHi;
  lo ← be16 raw inoOffProjidLo;
  Ret (Z.lor (u32 (Z.shiftl hi 16)) lo).

(** The three accounts, and the charge of one inode to them. *)
Definition accounts : Type := acctMap * acctMap * acctMap.
Definition chargeInode (i : inode) (a : accounts) : outcome accounts :=
  let '(user, group, proj) := a in
  if imode i =? 0 then Ret a
  else
    uid ← be32 (iraw i) inoOffUID;
    gid ← be32 (iraw i) inoOffGID;
    pid ← inodeProjid (iraw i);
    Ret (addUsage user uid (inBlocks i), addUsage group gid (inBlocks i), addUsage proj pid (inBlocks i)).

Section Quota.
Context {SIO : SafeIO} {D : Type} {Dev : Device D}.
Variables (partOff : Z) (sb : superblock) (tfuel ofuel : nat) (now : Z -> Z * Z) (clk : Z * Z).
Let W := World D.

(** ** The scan *)
(** [n] bounds the remaining steps, as the code's counters do. *)
Fixpoint enumDescend (n : nat) (r : D) (ag agRel : Z) : outcome Z :=
  match n with
  | O => Fail (Errorf "inobt descent too deep")
  | S n' =>
      blk ← readAGBlock partOff sb r ag agRel;
      level ← be16 blk 4;
      if level =? 0 then Ret agRel
      else
        let hdrSize := agBTreeHdrSize sb in
        child ← be32 blk (hdrSize + inobtMaxInternal (zlen blk) hdrSize * inobtKeySize);
        enumDescend n' r ag child
  end.
Fixpoint enumLeaves {A} (n : nat) (r : D) (ag agRel : Z) (fn : Z * Z -> A -> outcome A) (acc : A) : outcome A :=
  if agRel =? nullAgb then Ret acc
  else
    match n with
    | O => Fail (Errorf "inobt leaf chain too long")
    | S n' =>
        blk ← readAGBlock partOff sb r ag agRel;
        numrecs ← be16 blk 6;
        let hdrSize := agBTreeHdrSize sb in
        failif (zlen blk <? hdrSize + numrecs * inobtRecSize) (Errorf "inobt numrecs overflows block");;
        acc ← for_acc (Z.to_nat numrecs) 0 acc (fun i acc =>
          let off := hdrSize + i * inobtRecSize in
          startIno ← be32 blk off;
          irFree ← be64 blk (off + 8);
          fn (startIno, irFree) acc);
        next ← be32 blk 12;
        enumLeaves n' r ag next fn acc
    end.
Definition inobtEnumerate {A} (r : D) (ag : Z) (fn : Z * Z -> A -> outcome A) (acc : A) : outcome A :=
  let steps := Z.to_nat (allocBTreeMaxSteps + 1) in
  agi ← agiBlock partOff sb r ag;
  root ← be32 agi agiOffRoot;
  leaf ← enumDescend steps r ag root;
  enumLeaves steps r ag leaf fn acc.

(** The callback of [quotaRecompute]: the 64 slots of one chunk record. *)
Definition exemptIno (ino : Z) : bool := (ino =? uQuotino sb) || (ino =? gQuotino sb) || (ino =? pQuotino sb).
Definition chargeChunk (r : D) (ag : Z) (rec : Z * Z) (a : accounts) : outcome accounts :=
  for_acc (Z.to_nat inobtChunkInodes) 0 a (fun bit a =>
    if Z.testbit rec.2 bit then Ret a
    else
      let ino := inoFromAGRel sb ag (u32 (rec.1 + bit)) in
      if exemptIno ino then Ret a
      else i ← readInode r partOff sb ino; chargeInode i a).
Definition quotaScan (r : D) : outcome accounts :=
  for_acc (Z.to_nat (agCount sb)) 0 (∅, ∅, ∅) (fun ag a => inobtEnumerate r ag (chargeChunk r ag) a).

Definition quotaWriteDquots (qino dqType : Z) (m : acctMap) : M W unit :=
  let perBlock := dquotsPerBlock sb in
  if existsb (fun kv => perBlock <=? kv.1) (map_to_list m) then failM (Errorf "quota id exceeds single dquot block")
  else
    i ← readD (fun r => readInode r partOff sb qino);
    exts ← lift (inlineExtents i);
    match exts with
    | [] => failM (Errorf "quota inode has no data block")
    | e :: _ =>
        block ← lift (dquotBlock sb dqType m (make_bytes (blockSize sb)));
        writeBlocksData partOff sb (startBlock e) 1 block
    end.
Definition quotaRecompute : M W unit :=
  if quotaFlags sb =? 0 then mret tt
  else
    a ← readD quotaScan;
    let '(user, group, proj) := a in
    (if negb (uQuotino sb =? 0) then quotaWriteDquots (uQuotino sb) dqTypeUser user else mret tt);;
    (if negb (gQuotino sb =? 0) then quotaWriteDquots (gQuotino sb) dqTypeGroup group else mret tt);;
    (if negb (pQuotino sb =? 0) then quotaWriteDquots (pQuotino sb) dqTypeProj proj else mret tt).

(** [mkQuotaInode] of [setupQuota]. *)
Definition mkQuotaInode (dqType : Z) : M W Z :=
  ino ← allocInode partOff sb tfuel ofuel now 0;
  blk ← allocBlocks partOff sb tfuel ofuel 0 1;
  let mode := 0x8000 in
  buf ← lift (initInodeV3 clk (make_bytes (inodeSize sb)) ino mode 1 (uuid sb));
  i ← lift (setInodeFormat (freshInode ino mode buf) inodeFmtExtents);
  i ← lift (setInodeSize i 0);
  i ← lift (setInodeNBlocks i 1);
  i ← lift (setInodeNExtents i 1);
  i ← lift (writeExtentList i [mkExtent 0 blk 1 false]);
  writeInode partOff sb i;;
  data ← lift (buildDquotBlock sb dqType (make_bytes (blockSize sb)));
  writeBlocksData partOff sb blk 1 data;;
  mret ino.
End Quota.
