(* ===== verification/Format.v ===== *)
(** * Creating an image (format.go)

    The layout of an allocation group, the sectors and B-tree roots of each group, the first
    inode chunk, the log record and the superblock.  Go's uint32 arithmetic on layout
    constants stays far below 2^32 and is kept in [Z], except where a caller's length
    enters ([freeCount]). *)
From S2P Require Import Prelude Bytes Crc Extent Device Superblock SafeIO Inode FileRead Dir AgBlocks AllocTree Alloc Refcount FileWrite Quota.

Definition fmtBlockSize := 4096.
Definition fmtBlockLog := 12.
Definition fmtSectorSize := 512.
Definition fmtSectorLog := 9.
Definition fmtInodeSize := 512.
Definition fmtInodeLog := 9.
Definition fmtInopBlock := 8.
Definition fmtInopBLog := 3.
Definition fmtAgBlocks := 16384.
Definition fmtAgBlkLog := 14.
Definition fmtLogBlocks := 2560.
Definition fmtBnoRoot := 1.
Definition fmtCntRoot := 2.
Definition fmtInobtRoot := 3.
Definition fmtFirstData := 4.
Definition fmtAGFLCount := 4.
Definition fmtInodesPerChunk := 64.
Definition fmtChunkBlocks := fmtInodesPerChunk / fmtInopBlock.
Definition fmtInoAlignmt := 4.
Definition fmtMinSize := fmtAgBlocks * fmtBlockSize.
Definition btreeHdrSizeV5 := 56.

Definition magicAGFL := 0x5841464C.
Definition magicABTB := 0x41423342.
Definition magicABTC := 0x41423343.
Definition agfOffVersion := 4.
Definition agfOffSeqNo := 8.
Definition agfOffLength := 12.
Definition agfOffFLFirst := 40.
Definition agfOffFLLast := 44.
Definition agfOffUUID := 64.
Definition agfOffRefcntBlks := 84.
Definition agiOffVersion := 4.
Definition agiOffSeqNo := 8.
Definition agiOffLength := 12.
Definition agiOffDirIno := 36.
Definition agiOffUUID := 296.
Definition aglOffMagic := 0.
Definition aglOffSeqNo := 4.
Definition aglOffUUID := 8.
Definition aglOffCRC := 32.
Definition aglOffBno := 36.
Definition sbOffRbmino := 64.
Definition sbOffRsumino := 72.
Definition sbOffRExtSize := 80.
Definition sbOffSectLog := 121.
Definition sbOffLogStart := 48.
Definition sbOffLogBlocks := 96.
Definition sbOffBlockLog := 120.
Definition sbOffInodeLog := 122.
Definition sbOffImaxPct := 127.
Definition sbOffInoAlignmt := 180.
Definition sbOffBadFeatures2 := 204.
Definition xfsSBVersionV5 := 0xb4a5.
Definition xfsSBVersionQuotaBit := 0x0040.
Definition xfsSBFeatures2 := 0x18a.

(** ** Layout of an allocation group *)
Record agLayout := mkLayout {
  agflBlocks : list Z; freeStart : Z; freeCount : Z;
  hasLog : bool; logStartRel : Z;
  hasInodeChunk : bool; inodeChunkBlock : Z;
  hasRefcount : bool; refcountRoot : Z
}.
Definition fmtLogBlocksFor (reflink : bool) : Z := if reflink then fmtLogBlocks + fmtInoAlignmt - 1 else fmtLogBlocks.
Definition fmtLogAG (agCount : Z) : Z := 0.
Definition setAGFL (first : Z) : list Z := map (fun i => first + Z.of_nat i) (seq 0 (Z.to_nat fmtAGFLCount)).
(** [reserveRefcount]: the refcount root from the front of the free extent. *)
Definition plainLayout (reflink : bool) (agfl : list Z) (free : Z) (hasLog : bool) (logRel : Z) : agLayout :=
  let free' := if reflink then free + 1 else free in
  mkLayout agfl free' (fmtAgBlocks - free') hasLog logRel false 0 reflink (if reflink then free else 0).
Definition fmtAGLayoutFor (ag agCount : Z) (reflink : bool) : agLayout :=
  let logAG := fmtLogAG agCount in
  let logBlocks := fmtLogBlocksFor reflink in
  if (ag =? 0) && (logAG =? 0) then
    let logStart := fmtFirstData + fmtAGFLCount in
    let refc := logStart + logBlocks in
    let chunk := if reflink then refc + 1 else refc in
    let free := chunk + fmtChunkBlocks in
    mkLayout (setAGFL fmtFirstData) free (fmtAgBlocks - free) true logStart true chunk reflink (if reflink then refc else 0)
  else if ag =? 0 then
    let base := fmtFirstData + fmtAGFLCount in
    let chunk := if reflink then base + 1 else base in
    let free := chunk + fmtChunkBlocks in
    mkLayout (setAGFL fmtFirstData) free (fmtAgBlocks - free) false 0 true chunk reflink (if reflink then base else 0)
  else if ag =? logAG then
    plainLayout reflink (setAGFL (fmtFirstData + logBlocks)) (fmtFirstData + logBlocks + fmtAGFLCount) true fmtFirstData
  else plainLayout reflink (setAGFL fmtFirstData) (fmtFirstData + fmtAGFLCount) false 0.

Definition fmtRootIno (agCount : Z) (reflink : bool) : Z := inodeChunkBlock (fmtAGLayoutFor 0 agCount reflink) * fmtInopBlock.
Definition fmtLogStartAbs (agCount : Z) (reflink : bool) : Z :=
  let logAG := fmtLogAG agCount in
  logAG * fmtAgBlocks + logStartRel (fmtAGLayoutFor logAG agCount reflink).
(** The sum over AGs [ag], [ag+1], ..., [n] of them. *)
Fixpoint freeBlocksLoop (n : nat) (ag agCount : Z) (reflink : bool) (dblocks : Z) (total : Z) : Z :=
  match n with
  | O => total
  | S n' =>
      let l := fmtAGLayoutFor ag agCount reflink in
      let full := dblocks / fmtAgBlocks in
      let agLen := if full <=? ag then u64 (dblocks - full * fmtAgBlocks) else fmtAgBlocks in
      freeBlocksLoop n' (ag + 1) agCount reflink dblocks (u64 (total + (u64 (agLen - freeStart l) + fmtAGFLCount)))
  end.
Definition fmtTotalFreeBlocks (agCount : Z) (reflink : bool) (dblocks : Z) : Z :=
  let dblocks := if dblocks =? 0 then agCount * fmtAgBlocks else dblocks in
  freeBlocksLoop (Z.to_nat agCount) 0 agCount reflink dblocks 0.

(** ** Sectors and blocks *)
(** [for i := lo; i+4 <= hi; i += 4 { PutUint32(b[i:], 0xFFFFFFFF) }], [n] words. *)
Definition fillNull (b : bytes) (lo n : Z) : outcome bytes :=
  for_acc (Z.to_nat n) 0 b (fun i b => put32 b (lo + i * 4) 0xFFFFFFFF).
Definition fmtAGF (l : agLayout) (ag agLen freeCount : Z) (uu : bytes) : outcome bytes :=
  b ← put32 (make_bytes fmtSectorSize) agfOffMagic magicAGF;
  b ← put32 b agfOffVersion 1;
  b ← put32 b agfOffSeqNo ag;
  b ← put32 b agfOffLength agLen;
  b ← put32 b agfOffBnoRoot fmtBnoRoot;
  b ← put32 b agfOffCntRoot fmtCntRoot;
  b ← put32 b agfOffBnoLevel 1;
  b ← put32 b agfOffCntLevel 1;
  b ← put32 b agfOffFLFirst 1;
  b ← put32 b agfOffFLLast fmtAGFLCount;
  b ← put32 b agfOffFLCount fmtAGFLCount;
  b ← put32 b agfOffFreeBlks freeCount;
  b ← put32 b agfOffLongest freeCount;
  b ← put32 b agfOffBtreeBlks 0;
  b ← copy_to b agfOffUUID (take 16 uu);
  b ← (if hasRefcount l then
         b ← put32 b agfOffRefcntRoot (refcountRoot l);
         b ← put32 b agfOffRefcntLevel 1;
         put32 b agfOffRefcntBlks 1
       else Ret b);
  updateCRC b agfOffCRC fmtSectorSize.
Definition fmtAGI (l : agLayout) (ag agLen rootIno : Z) (uu : bytes) : outcome bytes :=
  b ← put32 (make_bytes fmtSectorSize) agiOffMagic magicAGI;
  b ← put32 b agiOffVersion 1;
  b ← put32 b agiOffSeqNo ag;
  b ← put32 b agiOffLength agLen;
  b ← put32 b agiOffRoot fmtInobtRoot;
  b ← put32 b agiOffLevel 1;
  b ← put32 b agiOffDirIno 0xFFFFFFFF;
  b ← fillNull b 40 64;
  b ← (if hasInodeChunk l then
         b ← put32 b agiOffCount fmtInodesPerChunk;
         b ← put32 b agiOffFreeCount (fmtInodesPerChunk - 3);
         put32 b agiOffNewIno (u32 rootIno)
       else put32 b agiOffNewIno 0xFFFFFFFF);
  b ← copy_to b agiOffUUID (take 16 uu);
  updateCRC b agiOffCRC fmtSectorSize.
Definition fmtAGFL (l : agLayout) (ag : Z) (uu : bytes) : outcome bytes :=
  b ← put32 (make_bytes fmtSectorSize) aglOffMagic magicAGFL;
  b ← put32 b aglOffSeqNo ag;
  b ← copy_to b aglOffUUID (take 16 uu);
  b ← fillNull b aglOffBno 119;
  b ← for_acc (Z.to_nat fmtAGFLCount) 0 b (fun i b =>
        v ← (match agflBlocks l !! Z.to_nat i with Some v => Ret v | None => Panic end);
        put32 b (aglOffBno + (i + 1) * 4) v);
  updateCRC b aglOffCRC fmtSectorSize.
Definition fmtBtreeHeader (absBase : Z) (uu : bytes) (ag magic agRelBlock : Z) : outcome bytes :=
  b ← put32 (make_bytes fmtBlockSize) 0 magic;
  b ← put16 b 4 0;
  b ← put16 b 6 0;
  b ← put32 b 8 0xFFFFFFFF;
  b ← put32 b 12 0xFFFFFFFF;
  b ← put64 b 16 (u64 ((absBase + agRelBlock) * fmtDaddrPerBlock));
  b ← copy_to b 32 (take 16 uu);
  put32 b 48 ag.
Definition freeBtreeBlock (absBase : Z) (uu : bytes) (ag magic agRelBlock start count : Z) : outcome bytes :=
  b ← fmtBtreeHeader absBase uu ag magic agRelBlock;
  b ← put16 b 6 1;
  b ← put32 b btreeHdrSizeV5 start;
  b ← put32 b (btreeHdrSizeV5 + 4) count;
  updateCRC b btreeCRCOff fmtBlockSize.
Definition inobtBlock (l : agLayout) (absBase : Z) (uu : bytes) (ag rootIno : Z) : outcome bytes :=
  b ← fmtBtreeHeader absBase uu ag magicIAB3 fmtInobtRoot;
  b ← (if hasInodeChunk l then
         b ← put16 b 6 1;
         b ← put32 b btreeHdrSizeV5 (u32 rootIno);
         b ← put32 b (btreeHdrSizeV5 + 4) (fmtInodesPerChunk - 3);
         put64 b (btreeHdrSizeV5 + 8) 0xFFFFFFFFFFFFFFF8
       else Ret b);
  updateCRC b btreeCRCOff fmtBlockSize.
Definition refcountRootBlock (absBase : Z) (uu : bytes) (ag rel : Z) : outcome bytes :=
  b ← fmtBtreeHeader absBase uu ag magicRefcnt rel;
  updateCRC b btreeCRCOff fmtBlockSize.

(** ** The first inode chunk *)
Definition fmtBuildRootInode (clk : Z * Z) (buf : bytes) (ino : Z) (uu : bytes) : outcome bytes :=
  b ← initInodeV3 clk buf ino 0x41ED 2 uu;
  b ← set_byte b inoOffFormat inodeFmtLocal;
  b ← set_byte b inodeCoreSize 0;
  b ← set_byte b (inodeCoreSize + 1) 0;
  b ← put32 b (inodeCoreSize + 2) (u32 ino);
  put64 b inoOffSize 6.
Definition fmtBuildEmptyReg (clk : Z * Z) (buf : bytes) (ino : Z) (uu : bytes) : outcome bytes :=
  b ← initInodeV3 clk buf ino 0x8000 1 uu;
  b ← set_byte b inoOffFormat inodeFmtExtents;
  put64 b inoOffSize 0.
Definition chunkSlot (clk : Z -> Z * Z) (rootIno slot : Z) (uu : bytes) : outcome bytes :=
  let ino := rootIno + slot in
  let buf := make_bytes fmtInodeSize in
  b ← (if slot =? 0 then fmtBuildRootInode (clk slot) buf ino uu
       else if (slot =? 1) || (slot =? 2) then fmtBuildEmptyReg (clk slot) buf ino uu
       else b ← initInodeV3 (clk slot) buf ino 0 0 uu; set_byte b inoOffFormat inodeFmtExtents);
  updateCRC b inoOffCRC fmtInodeSize.

(** ** The log *)
Definition xlogHeaderMagic := 0xFEEDBABE.
Definition xlogUnmountType := 0x556E.
Definition logHeader : outcome bytes :=
  b ← put32 (make_bytes fmtSectorSize) 0 xlogHeaderMagic;
  b ← put32 b 4 1;
  b ← put32 b 8 2;
  b ← put32 b 12 fmtSectorSize;
  b ← put64 b 16 (2 ^ 32);
  b ← put64 b 24 (2 ^ 32);
  b ← put32 b 36 0xFFFFFFFF;
  b ← put32 b 40 1;
  put32 b 44 0xB0C0D0D0.
Definition logUnmount : outcome bytes :=
  b ← put32 (make_bytes fmtSectorSize) 0 1;
  b ← put32 b 4 8;
  b ← set_byte b 8 0xAA;
  b ← set_byte b 9 0x20;
  b ← set_byte b 12 (Z.land xlogUnmountType 0xFF);
  set_byte b 13 (Z.shiftr xlogUnmountType 8).

(** ** The superblock sector *)
Definition buildSuperblockBuffer (sb : superblock) (agc : Z) (uu lbl : bytes) : outcome bytes :=
  let root := fmtRootIno agc (hasReflink sb) in
  b ← put32 (make_bytes 512) sbOffMagic magicSB;
  b ← put32 b sbOffBlockSize (blockSize sb);
  b ← put64 b sbOffRootIno root;
  b ← put64 b sbOffRbmino (root + 1);
  b ← put64 b sbOffRsumino (root + 2);
  b ← put32 b sbOffAgBlocks (agBlocks sb);
  b ← put32 b sbOffAgCount agc;
  b ← put16 b sbOffVersionNum (if quotaFlags sb =? 0 then xfsSBVersionV5 else Z.lor xfsSBVersionV5 xfsSBVersionQuotaBit);
  b ← put16 b sbOffSectSize fmtSectorSize;
  b ← put16 b sbOffInodeSize (inodeSize sb);
  b ← put16 b sbOffInopBlock (inopBlock sb);
  b ← set_byte b sbOffSectLog fmtSectorLog;
  b ← set_byte b sbOffBlockLog fmtBlockLog;
  b ← set_byte b sbOffInodeLog fmtInodeLog;
  b ← set_byte b sbOffInopBLog (inopBLog sb);
  b ← set_byte b sbOffAgBlkLog (agBlkLog sb);
  b ← set_byte b sbOffDirBlkLog 0;
  b ← put32 b sbOffFeatIncompat xfsSBFeatFType;
  b ← put32 b sbOffFeatures2 xfsSBFeatures2;
  b ← put32 b sbOffBadFeatures2 xfsSBFeatures2;
  b ← (if hasReflink sb then put32 b sbOffFeatRoCompat xfsSBFeatRoReflink else Ret b);
  b ← put32 b sbOffInoAlignmt fmtInoAlignmt;
  b ← set_byte b sbOffImaxPct 25;
  b ← put16 b sbOffQFlags (quotaFlags sb);
  b ← put64 b sbOffUQuotino (uQuotino sb);
  b ← put64 b sbOffGQuotino (gQuotino sb);
  b ← put64 b sbOffPQuotino (pQuotino sb);
  let dblocks := if dBlocks sb =? 0 then agc * agBlocks sb else dBlocks sb in
  b ← put64 b sbOffDBlocks dblocks;
  b ← put64 b sbOffIcount fmtInodesPerChunk;
  b ← put64 b sbOffIfree (fmtInodesPerChunk - 3);
  b ← put64 b sbOffFdblocks (fmtTotalFreeBlocks agc (hasReflink sb) dblocks);
  b ← put64 b sbOffLogStart (fmtLogStartAbs agc (hasReflink sb));
  b ← put32 b sbOffLogBlocks (fmtLogBlocksFor (hasReflink sb));
  b ← put32 b sbOffRExtSize 1;
  b ← copy_to b 32 (take 16 uu);
  b ← copy_to b 108 lbl;
  updateCRC b sbOffCRC sbCRCLen.

(** ** Writing the image *)
Section Format.
Context {D : Type} {Dev : Device D}.
Variables (sb : superblock) (clk : Z -> Z * Z).
Let W := World D.
Let bs := blockSize sb.

Definition agBase (ag : Z) : Z := i64 (i64 (ag * agBlocks sb) * blockSize sb).
Definition fmtWriteFreeBtree (agBase absBase : Z) (uu : bytes) (ag magic agRelBlock start count : Z) : M W unit :=
  b ← lift (freeBtreeBlock absBase uu ag magic agRelBlock start count);
  writeAt b (i64 (agBase + agRelBlock * fmtBlockSize)).
Definition fmtWriteAGLen (ag agLen : Z) (uu : bytes) : M W unit :=
  let base := agBase ag in
  let l := fmtAGLayoutFor ag (agCount sb) (hasReflink sb) in
  let absBase := u64 (ag * agBlocks sb) in
  let free := u32 (agLen - freeStart l) in
  let root := fmtRootIno (agCount sb) (hasReflink sb) in
  agf ← lift (fmtAGF l ag agLen free uu);
  writeAt agf (agFByteOffset sb 0 ag);;
  agi ← lift (fmtAGI l ag agLen root uu);
  writeAt agi (agIByteOffset sb 0 ag);;
  agfl ← lift (fmtAGFL l ag uu);
  writeAt agfl (agFLByteOffset sb 0 ag);;
  fmtWriteFreeBtree base absBase uu ag magicABTB fmtBnoRoot (freeStart l) free;;
  fmtWriteFreeBtree base absBase uu ag magicABTC fmtCntRoot (freeStart l) free;;
  inobt ← lift (inobtBlock l absBase uu ag root);
  writeAt inobt (i64 (base + fmtInobtRoot * bs));;
  if hasRefcount l then
    refc ← lift (refcountRootBlock absBase uu ag (refcountRoot l));
    writeAt refc (i64 (base + refcountRoot l * bs))
  else mret tt.
Definition fmtWriteAG (ag : Z) (uu : bytes) : M W unit := fmtWriteAGLen ag (agLength sb ag) uu.

Definition fmtWriteInodeChunk (uu : bytes) : M W unit :=
  for_accM (Z.to_nat fmtInodesPerChunk) 0 tt (fun slot _ =>
    b ← lift (chunkSlot clk (rootIno sb) slot uu);
    writeAt b (inodeByteOff sb 0 (u64 (rootIno sb + slot)))).
Definition fmtWriteLog (agc : Z) : M W unit :=
  let logByte := i64 (fmtLogStartAbs agc (hasReflink sb) * bs) in
  hdr ← lift logHeader;
  writeAt hdr logByte;;
  data ← lift logUnmount;
  writeAt data (i64 (logByte + fmtSectorSize)).
Definition fmtWriteSuperblock (agc : Z) (uu lbl : bytes) : M W unit :=
  buf ← lift (buildSuperblockBuffer sb agc uu lbl);
  for_accM (Z.to_nat agc) 0 tt (fun ag _ => writeAt buf (agBase ag)).
Definition fmtWriteSecondarySB (partOff ag agc : Z) (uu lbl : bytes) : M W unit :=
  if ag =? 0 then mret tt
  else
    buf ← lift (buildSuperblockBuffer sb agc uu lbl);
    writeAt buf (i64 (partOff + agBase ag)).

(** The writes of [Format] on the truncated file. *)
Definition formatImage : M W unit :=
  for_accM (Z.to_nat (agCount sb)) 0 tt (fun ag _ => fmtWriteAG ag (uuid sb));;
  fmtWriteInodeChunk (uuid sb);;
  fmtWriteLog (agCount sb);;
  fmtWriteSuperblock (agCount sb) (uuid sb) (label sb).
End Format.

Record FormatConfig := mkFormatConfig { cfgUUID : bytes; cfgLabel : bytes; cfgReflink : bool; cfgQuota : QuotaConfig }.
(** The superblock [Format] builds; [uu] is the configured or random UUID. *)
Definition formatSB (sizeBytes : Z) (cfg : FormatConfig) (uu : bytes) : superblock :=
  let agc := u32 (Z.quot sizeBytes fmtMinSize) in
  mkSB fmtBlockSize fmtSectorSize fmtAgBlocks agc (agc * fmtAgBlocks) (fmtRootIno agc (cfgReflink cfg))
    fmtInodeSize fmtInopBlock fmtInopBLog fmtAgBlkLog 0 true true (cfgReflink cfg) 0 0 0 0 0
    uu (take 12 (cfgLabel cfg)) 0.
