(* ===== verification/FormatSpec.v ===== *)
(** * A formatted image: theorems

    What the sectors and blocks of format.go say, and that the allocation groups it lays out
    satisfy what the block allocator, the inode allocator and the reference counts assume of an
    image. *)
From S2P Require Import Prelude Bytes Crc Writers Extent Device SparseDev Superblock SafeIO Inode FileRead Dir AgBlocks Zones AllocTree Alloc AllocLeaf AllocSpec InodeAlloc InodeSpec Refcount FileWrite FileWriteSpec Quota Format.

(** ** Loops of stores *)
Lemma for_wrote (f : Z -> bytes -> outcome bytes) lo hi L k i b :
  (forall j b, i <= j < i + Z.of_nat k -> zlen b = L -> exists b', f j b = Ret b' /\ wrote b b' lo hi) -> zlen b = L ->
  exists b', for_acc k i b f = Ret b' /\ wrote b b' lo hi.
Proof.
  revert i b. induction k as [|k IH]; intros i b Hf Hl; cbn [for_acc]; [exists b; split; [done|apply wrote_refl]|].
  destruct (Hf i b) as (b1 & -> & W1); [lia|done|]. ostep. pose proof (wrote_len _ _ _ _ W1).
  destruct (IH (i + 1) b1) as (b' & -> & W'); [intros; apply Hf; lia|lia|]. exists b'. split; [done|]. by eapply wrote_trans.
Qed.
Lemma fillNull_spec b lo n :
  0 <= lo -> 0 <= n -> lo + n * 4 <= zlen b ->
  exists b', fillNull b lo n = Ret b' /\ wrote b b' lo (lo + n * 4).
Proof.
  intros Hlo Hn Hle. unfold fillNull. apply (for_wrote _ _ _ (zlen b)); [|done]. intros j b1 Hj L. wlast. eexists. split; [done|].
  eapply wrote_weaken; [exact W|lia..].
Qed.

(** ** The sectors *)
(** UUIDs are sixteen bytes. *)
Definition uuid_ok (uu : bytes) : Prop := zlen uu = 16 /\ isbytes uu.
Lemma uuid_take uu : uuid_ok uu -> take 16 uu = uu.
Proof. intros [L _]. apply firstn_all2. zl. Qed.
Lemma crc_last b o l :
  isbytes b -> zlen b = l -> 0 <= o -> o + 4 <= l -> l < 2 ^ 31 -> exists b', updateCRC b o l = Ret b' /\ verifyCRC b' o l = Ret true /\ wrote b b' o (o + 4).
Proof. intros Hb L Ho Hl Hm. apply updateCRC_spec; [done|unfold crc_layout_ok; lia]. Qed.
Ltac wcrc := match goal with |- context [updateCRC ?b ?o ?l] =>
  let b' := fresh "b" in let E := fresh "E" in let V := fresh "V" in let W := fresh "W" in
  destruct (crc_last b o l) as (b' & E & V & W); [wbytes|lia|lia|lia|lia|]; rewrite E; clear E; pose proof (wrote_len _ _ _ _ W) end.
Lemma zero_len n : 0 <= n -> zlen (make_bytes n) = n.
Proof. intros. unfold make_bytes. rewrite zlen_replicate. lia. Qed.
Lemma zero_bytes n : isbytes (make_bytes n).
Proof. apply isbytes_replicate. Qed.
#[local] Hint Resolve zero_bytes : core.

Lemma fmtAGF_spec l ag agLen free uu :
  uuid_ok uu -> 0 <= free < 2 ^ 32 -> (hasRefcount l = true -> 0 <= refcountRoot l < 2 ^ 32) ->
  exists b, fmtAGF l ag agLen free uu = Ret b /\ zlen b = 512 /\ isbytes b /\
    dec 4 b 0 = magicAGF /\ dec 4 b 16 = 1 /\ dec 4 b 20 = 2 /\ dec 4 b 28 = 1 /\ dec 4 b 32 = 1 /\
    dec 4 b agfOffFreeBlks = free /\ dec 4 b agfOffLongest = free /\
    (hasRefcount l = true -> dec 4 b 88 = refcountRoot l /\ dec 4 b 92 = 1) /\ verifyCRC b agfOffCRC 512 = Ret true.
Proof.
  intros Hu Hf Hr. pose proof (zero_len 512 ltac:(lia)) as L0. pose proof Hu as [Lu Bu]. unfold fmtAGF. rewrite (uuid_take uu Hu).
  unfold fmtSectorSize, agfOffMagic, agfOffVersion, agfOffSeqNo, agfOffLength, agfOffBnoRoot, agfOffCntRoot, agfOffBnoLevel, agfOffCntLevel, agfOffFLFirst, agfOffFLLast, agfOffFLCount,
    agfOffFreeBlks, agfOffLongest, agfOffBtreeBlks, agfOffUUID, agfOffRefcntRoot, agfOffRefcntLevel, agfOffRefcntBlks, agfOffCRC.
  assert (forall v, 0 <= v < 2 ^ 32 -> v mod 256 ^ 4 = v) as M by (intros; apply Z.mod_small; done).
  do 15 wstep. destruct (hasRefcount l).
  - specialize (Hr eq_refl). wstep. wstep. wlast. wcrc. eexists. split; [done|].
    split_and!; try lia; try wbytes; try done; try (rdec; rewrite ?M by lia; done).
  - ostep. wcrc. eexists. split; [done|].
    split_and!; try lia; try wbytes; try done; try (rdec; rewrite ?M by lia; done).
Qed.

Lemma fmtAGI_spec l ag agLen root uu :
  uuid_ok uu -> exists b, fmtAGI l ag agLen root uu = Ret b /\ zlen b = 512 /\ isbytes b /\
    dec 4 b 0 = magicAGI /\ dec 4 b 20 = fmtInobtRoot /\
    (hasInodeChunk l = true -> dec 4 b agiOffCount = fmtInodesPerChunk /\ dec 4 b agiOffFreeCount = fmtInodesPerChunk - 3) /\ verifyCRC b agiOffCRC 512 = Ret true.
Proof.
  intros Hu. pose proof (zero_len 512 ltac:(lia)) as L0. pose proof Hu as [Lu Bu]. unfold fmtAGI. rewrite (uuid_take uu Hu).
  unfold fmtSectorSize, agiOffMagic, agiOffVersion, agiOffSeqNo, agiOffLength, agiOffRoot, agiOffLevel, agiOffDirIno, agiOffCount, agiOffFreeCount, agiOffNewIno, agiOffUUID, agiOffCRC,
    fmtInodesPerChunk, fmtInobtRoot.
  do 7 wstep. match goal with |- context [fillNull ?b 40 64] => destruct (fillNull_spec b 40 64) as (bf & -> & Wf); [lia..|] end. ostep. pose proof (wrote_len _ _ _ _ Wf).
  destruct (hasInodeChunk l).
  - wstep. wstep. wlast. wstep. wcrc. eexists. split; [done|]. split_and!; try lia; try wbytes; try done; try (rdec; done).
  - wlast. wstep. wcrc. eexists. split; [done|]. split_and!; try lia; try wbytes; try done; try (rdec; done).
Qed.
Lemma fmtAGFL_spec l ag uu :
  uuid_ok uu -> length (agflBlocks l) = 4%nat -> exists b, fmtAGFL l ag uu = Ret b /\ zlen b = 512 /\ isbytes b /\ verifyCRC b aglOffCRC 512 = Ret true.
Proof.
  intros Hu Hl. pose proof (zero_len 512 ltac:(lia)) as L0. pose proof Hu as [Lu Bu]. unfold fmtAGFL. rewrite (uuid_take uu Hu).
  unfold fmtSectorSize, aglOffMagic, aglOffSeqNo, aglOffUUID, aglOffCRC, aglOffBno, fmtAGFLCount.
  do 3 wstep. match goal with |- context [fillNull ?b 36 119] => destruct (fillNull_spec b 36 119) as (bf & -> & Wf); [lia..|] end. ostep. pose proof (wrote_len _ _ _ _ Wf).
  change (Z.to_nat 4) with 4%nat.
  match goal with |- context [for_acc 4 0 bf ?f] => destruct (for_wrote f 36 512 512 4 0 bf) as (bg & Eg & Wg) end.
  { intros j b2 Hj L2. destruct (lookup_lt_is_Some_2 (agflBlocks l) (Z.to_nat j) ltac:(lia)) as [v ->]. ostep. wlast. eexists. split; [done|]. eapply wrote_weaken; [eassumption|lia..]. }
  { lia. }
  rewrite Eg. ostep. pose proof (wrote_len _ _ _ _ Wg).
  wcrc. eexists. split; [done|]. split_and!; try lia; try wbytes; done.
Qed.

(** ** The B-tree roots *)
Lemma header_spec absBase uu ag magic rel :
  uuid_ok uu -> 0 <= magic < 2 ^ 32 ->
  exists b, fmtBtreeHeader absBase uu ag magic rel = Ret b /\ zlen b = 4096 /\ isbytes b /\
    dec 4 b 0 = magic /\ dec 2 b 4 = 0 /\ dec 2 b 6 = 0 /\ dec 4 b 12 = nullAgb.
Proof.
  intros Hu Hm. pose proof (zero_len 4096 ltac:(lia)) as L0. pose proof Hu as [Lu Bu]. unfold fmtBtreeHeader, fmtBlockSize. rewrite (uuid_take uu Hu).
  do 7 wstep. wlast. eexists. split; [done|]. split_and!; try lia; try wbytes; try (rdec; done). rdec. by apply Z.mod_small.
Qed.
Section Blocks.
Context (sb : superblock) (Hbs : blockSize sb = 4096) (Hcrc : hasCRC sb = true).
Lemma hdr56 : agBTreeHdrSize sb = 56.
Proof. unfold agBTreeHdrSize. by rewrite Hcrc. Qed.

Lemma freeBtree_view absBase uu ag magic rel start count :
  uuid_ok uu -> 0 <= magic < 2 ^ 32 -> rec_ok (start, count) ->
  exists b, freeBtreeBlock absBase uu ag magic rel start count = Ret b /\ leaf_view sb b [(start, count)] /\ verifyCRC b btreeCRCOff 4096 = Ret true.
Proof.
  intros Hu Hm [Hs Hc]. cbn [fst snd] in *. destruct (header_spec absBase uu ag magic rel Hu Hm) as (b0 & E0 & L0 & B0 & _ & D4 & _ & D12).
  unfold freeBtreeBlock, btreeHdrSizeV5, btreeCRCOff, fmtBlockSize. rewrite E0. ostep. wstep. wstep. wlast. wcrc. eexists. split; [done|]. split; [|done].
  pose proof hdr56 as H56. change (zlen [(start, count)]) with 1. constructor; rewrite ?H56, ?Hbs; change (zlen [(start, count)]) with 1.
  - lia.
  - wbytes.
  - rdec. done.
  - rdec. done.
  - rdec. done.
  - lia.
  - change (8 * 1) with (4 + 4). rewrite slice_app_adj by lia. unfold flat, recBytes. cbn [map concat fst snd]. rewrite app_nil_r.
    match goal with |- slice ?bb _ _ ++ _ = _ => assert (isbytes bb) as Hbb by wbytes; rewrite <- (slice_as_encode 4 bb 56), <- (slice_as_encode 4 bb (56 + 4)) by (done || lia) end.
    rdec. rewrite !Z.mod_small by lia. done.
  - repeat constructor; cbn; lia.
Qed.
Lemma inobt_spec l absBase uu ag root :
  uuid_ok uu -> 0 <= root < 2 ^ 32 ->
  let n := if hasInodeChunk l then 1 else 0 in
  exists b, inobtBlock l absBase uu ag root = Ret b /\ inobt_leaf sb b n /\ verifyCRC b btreeCRCOff 4096 = Ret true /\
    (hasInodeChunk l = true -> chunkAt sb b 0 = mkChunk root 61 0xFFFFFFFFFFFFFFF8).
Proof.
  intros Hu Hr n. destruct (header_spec absBase uu ag magicIAB3 fmtInobtRoot Hu) as (b0 & E0 & L0 & B0 & _ & D4 & D6 & D12); [done|].
  pose proof hdr56 as H56. unfold inobtBlock, btreeHdrSizeV5, btreeCRCOff, fmtBlockSize, fmtInodesPerChunk. rewrite E0. ostep. unfold n. destruct (hasInodeChunk l).
  - wstep. wstep. wstep. wlast. wcrc. eexists. split; [done|]. split; [constructor; rewrite ?H56, ?Hbs; unfold inobtRecSize|split; [done|intros _]].
    + lia.
    + wbytes.
    + rdec. done.
    + rdec. done.
    + rdec. done.
    + lia.
    + unfold chunkAt, chunkOff. rewrite H56. change (0 * inobtRecSize) with 0. rewrite Z.add_0_r. rdec. unfold u32. change (256 ^ 4) with (2 ^ 32). rewrite Zmod_mod, Z.mod_small by lia. done.
  - ostep. wcrc. eexists. split; [done|]. split; [constructor; rewrite ?H56, ?Hbs; unfold inobtRecSize|split; [done|done]].
    + lia.
    + wbytes.
    + rdec. done.
    + rdec. done.
    + rdec. done.
    + lia.
Qed.
Lemma refcRoot_spec absBase uu ag rel :
  uuid_ok uu -> exists b, refcountRootBlock absBase uu ag rel = Ret b /\ zlen b = 4096 /\ isbytes b /\
    dec 4 b 0 = magicRefcnt /\ dec 2 b 6 = 0 /\ verifyCRC b btreeCRCOff 4096 = Ret true.
Proof.
  intros Hu. destruct (header_spec absBase uu ag magicRefcnt rel Hu) as (b0 & E0 & L0 & B0 & D0 & _ & D6 & _); [done|].
  unfold refcountRootBlock, btreeCRCOff, fmtBlockSize. rewrite E0. ostep. wcrc. eexists. split; [done|]. split_and!; [lia|wbytes|rdec; done|rdec; done|done].
Qed.
End Blocks.

(** ** Writing separate zones *)
Fixpoint writeSeq {D} `{Device D} (l : list (Z * bytes)) : M (World D) unit :=
  match l with
  | [] => mret tt
  | (o, b) :: r => writeAt b o;; writeSeq r
  end.
Lemma bindM_ext {S A B} (m : M S A) (k k' : A -> M S B) s : (forall a s', k a s' = k' a s') -> (m ≫= k) s = (m ≫= k') s.
Proof. intros H. unfold mbind, M_bind. destruct (m s) as [[a| | |] s']; [apply H|done..]. Qed.
Lemma bindM_cong {S A B} (m m' : M S A) (k k' : A -> M S B) s : m s = m' s -> (forall a s', k a s' = k' a s') -> (m ≫= k) s = (m' ≫= k') s.
Proof. intros E H. unfold mbind, M_bind. rewrite E. destruct (m' s) as [[a| | |] s']; [apply H|done..]. Qed.
Lemma bindM_mret {S} (m : M S unit) s : (m ≫= (fun _ => mret tt)) s = m s.
Proof. unfold mbind, M_bind. by destruct (m s) as [[[]| | |] s']. Qed.
Lemma bindM_assoc {S A B C} (m : M S A) (f : A -> M S B) (g : B -> M S C) s : ((m ≫= f) ≫= g) s = (m ≫= (fun a => f a ≫= g)) s.
Proof. unfold mbind, M_bind. by destruct (m s) as [[a| | |] s']. Qed.
Lemma writeSeq_spec {D} {Dev : Device D} {DL : DeviceLaws D} {DR : DeviceReliable D} l (w : World D) :
  ForallOrdPairs (fun a b => apartZ a.1 (zlen a.2) b.1 (zlen b.2)) l -> Forall (fun z => isbytes z.2) l ->
  Forall (fun z => exists old, ReadAt (dev w) z.1 (zlen z.2) = Ret old) l ->
  exists d', writeSeq l w = (Ret tt, set_dev d' w) /\ Forall (fun z => ReadAt d' z.1 (zlen z.2) = Ret z.2) l /\
    forall o n cs, 0 <= n -> Forall (fun z => apartZ o n z.1 (zlen z.2)) l -> ReadAt (dev w) o n = Ret cs -> ReadAt d' o n = Ret cs.
Proof.
  intros Ha. revert w. induction Ha as [|[o b] l Hz Ha IH]; intros w Hb Hr; cbn [writeSeq].
  { exists (dev w). split_and!; [by destruct w|constructor|done]. }
  apply Forall_cons in Hb as [Hbb Hb]. apply Forall_cons in Hr as [[old Hold] Hr]. cbn [fst snd] in *.
  destruct (write_zone w o (zlen b) old b Hold eq_refl Hbb) as (d1 & E1 & R1 & F1).
  destruct (IH (set_dev d1 w)) as (d' & E & R & F); [done| |].
  { rewrite List.Forall_forall in Hz, Hr |- *. intros z Hin. destruct (Hr z Hin) as [cs Hcs]. exists cs. cbn [dev set_dev].
    apply F1; [apply zlen_nonneg|apply apartZ_sym, (Hz z Hin)|done]. }
  exists d'. rewrite (bindM_Ret _ _ _ _ _ E1), E. split_and!; [by destruct w|constructor; [|done]|].
  - cbn [fst snd]. apply F; [apply zlen_nonneg| |done]. done.
  - intros o' n' cs Hn Hap Hcs. apply Forall_cons in Hap as [Hap1 Hap]. apply F; [done|done|]. by apply F1.
Qed.

(** ** The layout *)
Lemma layout_spec ag agc (reflink : bool) :
  0 <= ag ->
  let l := fmtAGLayoutFor ag agc reflink in
  length (agflBlocks l) = 4%nat /\ hasInodeChunk l = (ag =? 0) /\ hasRefcount l = reflink /\
  8 <= freeStart l <= 2580 /\ (reflink = true -> 8 <= refcountRoot l < freeStart l).
Proof.
  intros Hag. unfold fmtAGLayoutFor. change (fmtLogAG agc) with 0. destruct (Z.eqb_spec ag 0) as [->|Hne]; cbn [andb Z.eqb].
  - destruct reflink; vm_compute; intuition congruence.
  - unfold plainLayout. destruct reflink; vm_compute; intuition congruence.
Qed.
Lemma rootIno_range agc reflink : 0 <= fmtRootIno agc reflink < 2 ^ 32.
Proof. destruct reflink; vm_compute; intuition congruence. Qed.

(** The geometry of a formatted image. *)
Record formatted (sb : superblock) : Prop := {
  fm_width : sb_width sb;
  fm_geom : geometry_ok sb;
  fm_bs : blockSize sb = 4096;
  fm_sect : sectorSize sb = 512;
  fm_agb : agBlocks sb = 16384;
  fm_abl : agBlkLog sb = 14;
  fm_crc : hasCRC sb = true
}.
Section Layout.
Context (sb : superblock) (F : formatted sb) (ag : Z) (Hag : 0 <= ag < agCount sb).
Let base := ag * 2 ^ 26.

Lemma base_range : 0 <= base < 2 ^ 58.
Proof. pose proof (w_agc _ (fm_width _ F)). unfold base. lia. Qed.
Lemma fmt_agByteOffset : agByteOffset sb ag = base.
Proof.
  pose proof base_range as R. unfold base in *. rewrite ag_offset_exact; rewrite ?(fm_agb _ F), ?(fm_bs _ F); [lia|apply F|lia|lia|lia].
Qed.
Lemma fmt_sectors :
  agFByteOffset sb 0 ag = base + 512 /\ agIByteOffset sb 0 ag = base + 1024 /\ agFLByteOffset sb 0 ag = base + 1536 /\ agBase sb ag = base /\ sectSize sb = 512.
Proof.
  pose proof base_range as R. unfold agFByteOffset, agIByteOffset, agFLByteOffset, sectSize. rewrite fmt_agByteOffset, (fm_sect _ F). cbn [Z.eqb].
  change (0 + base) with base. rewrite (i64_small base), !i64_small by lia. split_and!; try done. exact fmt_agByteOffset.
Qed.
Lemma fmt_block rel : 0 <= rel < 16384 -> blockByteOffset 0 sb (agAbsBlock sb ag rel) = Ret (base + rel * 4096) /\ i64 (base + rel * 4096) = base + rel * 4096.
Proof.
  intros Hr. pose proof base_range as R. pose proof (w_agc _ (fm_width _ F)). split; [|apply i64_small; lia].
  rewrite (blockByteOffset_Ret 0 sb _ (fm_width _ F) (fm_geom _ F)) by lia.
  rewrite (fsbToPhysBlock_agAbsBlock sb (fm_width _ F) (fm_geom _ F)) by (rewrite ?(fm_abl _ F); change (2 ^ 14) with 16384; lia).
  rewrite (fm_agb _ F), (fm_bs _ F). unfold base in *. rewrite (proj2 (Z.ltb_lt _ _)) by lia. f_equal. lia.
Qed.
End Layout.

(** What [fmtWriteAG] writes, and where. *)
Record ag_image (sb : superblock) (ag L root : Z) (l : agLayout) (agf agi agfl bno cnt inobt refc : bytes) : Prop := {
  ai_agf : zlen agf = 512 /\ isbytes agf /\ dec 4 agf 0 = magicAGF /\ dec 4 agf 16 = 1 /\ dec 4 agf 20 = 2 /\ dec 4 agf 28 = 1 /\ dec 4 agf 32 = 1 /\
    dec 4 agf agfOffFreeBlks = L - freeStart l /\ dec 4 agf agfOffLongest = L - freeStart l /\
    (hasRefcount l = true -> dec 4 agf 88 = refcountRoot l /\ dec 4 agf 92 = 1) /\ verifyCRC agf agfOffCRC 512 = Ret true;
  ai_agi : zlen agi = 512 /\ isbytes agi /\ dec 4 agi 0 = magicAGI /\ dec 4 agi 20 = fmtInobtRoot /\
    (hasInodeChunk l = true -> dec 4 agi agiOffCount = fmtInodesPerChunk /\ dec 4 agi agiOffFreeCount = fmtInodesPerChunk - 3) /\ verifyCRC agi agiOffCRC 512 = Ret true;
  ai_agfl : zlen agfl = 512 /\ isbytes agfl /\ verifyCRC agfl aglOffCRC 512 = Ret true;
  ai_bno : leaf_view sb bno [(freeStart l, L - freeStart l)] /\ verifyCRC bno btreeCRCOff 4096 = Ret true;
  ai_cnt : leaf_view sb cnt [(freeStart l, L - freeStart l)] /\ verifyCRC cnt btreeCRCOff 4096 = Ret true;
  ai_inobt : inobt_leaf sb inobt (if hasInodeChunk l then 1 else 0) /\ verifyCRC inobt btreeCRCOff 4096 = Ret true /\
    (hasInodeChunk l = true -> chunkAt sb inobt 0 = mkChunk root 61 0xFFFFFFFFFFFFFFF8);
  ai_refc : zlen refc = 4096 /\ isbytes refc /\ dec 4 refc 0 = magicRefcnt /\ dec 2 refc 6 = 0 /\ verifyCRC refc btreeCRCOff 4096 = Ret true
}.
Definition agWrites (base : Z) (l : agLayout) (agf agi agfl bno cnt inobt refc : bytes) : list (Z * bytes) :=
  [(base + 512, agf); (base + 1024, agi); (base + 1536, agfl); (base + 4096, bno); (base + 8192, cnt); (base + 12288, inobt)]
  ++ (if hasRefcount l then [(base + refcountRoot l * 4096, refc)] else []).

Lemma fmtWriteAG_writes {D} {Dev : Device D} sb ag uu :
  formatted sb -> uuid_ok uu -> 0 <= ag < agCount sb ->
  let l := fmtAGLayoutFor ag (agCount sb) (hasReflink sb) in
  freeStart l < agLength sb ag <= 16384 ->
  exists agf agi agfl bno cnt inobt refc,
    ag_image sb ag (agLength sb ag) (fmtRootIno (agCount sb) (hasReflink sb)) l agf agi agfl bno cnt inobt refc /\
    forall w : World D, fmtWriteAG sb ag uu w = writeSeq (agWrites (ag * 2 ^ 26) l agf agi agfl bno cnt inobt refc) w.
Proof.
  intros F Hu Hag l HL. destruct (layout_spec ag (agCount sb) (hasReflink sb) ltac:(lia)) as (L4 & _ & Hrf & Hfs & Hrr). fold l in L4, Hrf, Hfs, Hrr.
  pose proof (rootIno_range (agCount sb) (hasReflink sb)) as Hroot. destruct (fmt_sectors sb F ag Hag) as (OF & OI & OL & OB & _).
  unfold fmtWriteAG, fmtWriteAGLen. fold l. set (L := agLength sb ag) in *. clearbody l L. assert (u32 (L - freeStart l) = L - freeStart l) as -> by (apply u32_small; lia).
  destruct (fmtAGF_spec l ag L (L - freeStart l) uu Hu) as (agf & Ef & Hf); [lia|rewrite Hrf; intros Hr; specialize (Hrr Hr); lia|].
  destruct (fmtAGI_spec l ag L (fmtRootIno (agCount sb) (hasReflink sb)) uu Hu) as (agi & Ei & Hi).
  destruct (fmtAGFL_spec l ag uu Hu L4) as (agfl & El & Hl).
  set (ab := u64 (ag * agBlocks sb)).
  destruct (freeBtree_view sb (fm_bs _ F) (fm_crc _ F) ab uu ag magicABTB fmtBnoRoot (freeStart l) (L - freeStart l) Hu) as (bno & Eb & Hb); [unfold magicABTB; lia|unfold rec_ok; cbn [fst snd]; lia|].
  destruct (freeBtree_view sb (fm_bs _ F) (fm_crc _ F) ab uu ag magicABTC fmtCntRoot (freeStart l) (L - freeStart l) Hu) as (cnt & Ec & Hc); [unfold magicABTC; lia|unfold rec_ok; cbn [fst snd]; lia|].
  destruct (inobt_spec sb (fm_bs _ F) (fm_crc _ F) l ab uu ag (fmtRootIno (agCount sb) (hasReflink sb)) Hu Hroot) as (inobt & Eo & Ho).
  destruct (refcRoot_spec ab uu ag (refcountRoot l) Hu) as (refc & Er & Hr).
  exists agf, agi, agfl, bno, cnt, inobt, refc. split; [by constructor|]. intros w.
  rewrite (bindM_lift _ _ _ _ Ef), OF, OI, OL, OB, (fm_bs _ F). unfold agWrites. cbn [app writeSeq]. apply bindM_ext. intros _ w1.
  rewrite (bindM_lift _ _ _ _ Ei). apply bindM_ext. intros _ w2. rewrite (bindM_lift _ _ _ _ El). apply bindM_ext. intros _ w3.
  assert (forall rel, 0 <= rel < 16384 -> i64 (ag * 2 ^ 26 + rel * 4096) = ag * 2 ^ 26 + rel * 4096) as O by (intros; by apply (fmt_block sb F ag Hag)).
  apply bindM_cong.
  { unfold fmtWriteFreeBtree. rewrite (bindM_lift _ _ _ _ Eb). unfold fmtBnoRoot, fmtBlockSize. by rewrite O by lia. }
  intros _ w4. apply bindM_cong.
  { unfold fmtWriteFreeBtree. rewrite (bindM_lift _ _ _ _ Ec). unfold fmtCntRoot, fmtBlockSize. by rewrite O by lia. }
  intros _ w5. rewrite (bindM_lift _ _ _ _ Eo). unfold fmtInobtRoot. rewrite (O 3) by lia. apply bindM_ext. intros _ w6. rewrite Hrf. destruct (hasReflink sb); [|done].
  specialize (Hrr eq_refl). rewrite (bindM_lift _ _ _ _ Er). rewrite O by lia. cbn [writeSeq]. by rewrite bindM_mret.
Qed.

Lemma agWrites_apart base l agf agi agfl bno cnt inobt refc :
  zlen agf = 512 -> zlen agi = 512 -> zlen agfl = 512 -> zlen bno = 4096 -> zlen cnt = 4096 -> zlen inobt = 4096 -> zlen refc = 4096 ->
  (hasRefcount l = true -> 8 <= refcountRoot l) ->
  ForallOrdPairs (fun a b => apartZ a.1 (zlen a.2) b.1 (zlen b.2)) (agWrites base l agf agi agfl bno cnt inobt refc).
Proof.
  intros L1 L2 L3 L4 L5 L6 L7 Hr. unfold agWrites. destruct (hasRefcount l); [specialize (Hr eq_refl)|]; cbn [app];
    repeat (constructor; [repeat constructor; cbn [fst snd]; unfold apartZ; lia|]); constructor.
Qed.
Lemma trees_single s c : run_ok (s, c) -> free_ok [(s, c)] [(s, c)].
Proof.
  intros H. constructor; [repeat constructor; apply H|repeat constructor|done|repeat constructor].
Qed.

(** What the allocators assume of allocation group [ag] of an image at offset 0: the AGF and
    the two free-space roots describe the one extent behind the group's metadata, the AGI
    and the inode B-tree root are well-formed and hold, in group 0, the one chunk with the
    three reserved inodes taken, and with reflink the reference-count tree is
    empty. *)
Definition agContract {D} {Dev : Device D} (sb : superblock) (ag : Z) (d : D) : Prop :=
  let l := fmtAGLayoutFor ag (agCount sb) (hasReflink sb) in
  let fs := freeStart l in
  let L := agLength sb ag in
  let base := ag * 2 ^ 26 in
  exists agf agi leaf,
    ag_zones sb 0 ag 1 2 (base + 4096) (base + 8192) /\
    ag_view sb 0 ag 1 2 (base + 4096) (base + 8192) d agf [(fs, L - fs)] [(fs, L - fs)] /\ free_ok [(fs, L - fs)] [(fs, L - fs)] /\
    dec 4 agf agfOffFreeBlks = L - fs /\ dec 4 agf agfOffLongest = L - fs /\
    agi_zones sb 0 ag 3 (base + 12288) /\
    inobt_view sb 0 ag 3 (base + 12288) d agi leaf (if ag =? 0 then 1 else 0) /\
    (ag = 0 -> chunkAt sb leaf 0 = mkChunk (fmtRootIno (agCount sb) (hasReflink sb)) 61 0xFFFFFFFFFFFFFFF8) /\
    (hasReflink sb = true -> refc_view sb 0 ag (refcountRoot l) (base + refcountRoot l * 4096) d []).

(** An image that holds what [fmtWriteAG] writes meets the contract. *)
Lemma ag_image_contract {D} {Dev : Device D} sb ag (d : D) agf agi agfl bno cnt inobt refc :
  formatted sb -> 0 <= ag < agCount sb ->
  let l := fmtAGLayoutFor ag (agCount sb) (hasReflink sb) in
  let L := agLength sb ag in
  freeStart l < L <= 16384 ->
  ag_image sb ag L (fmtRootIno (agCount sb) (hasReflink sb)) l agf agi agfl bno cnt inobt refc ->
  Forall (fun z => ReadAt d z.1 (zlen z.2) = Ret z.2) (agWrites (ag * 2 ^ 26) l agf agi agfl bno cnt inobt refc) ->
  agContract sb ag d.
Proof.
  intros F Hag l L HL I Hr. destruct (layout_spec ag (agCount sb) (hasReflink sb) ltac:(lia)) as (_ & Hic & Hrf & Hfs & Hrr). fold l in Hic, Hrf, Hfs, Hrr.
  set (base := ag * 2 ^ 26) in *.
  destruct (fmt_sectors sb F ag Hag) as (OF & OI & _ & _ & Ss). fold base in OF, OI. pose proof (fm_bs _ F) as Hbs.
  pose proof (fun r => fmt_block sb F ag Hag r) as Hblk. fold base in Hblk.
  destruct I as [(F1 & F2 & F3 & F4 & F5 & F6 & F7 & F8 & F9 & F10 & _) (I1 & I2 & I3 & I4 & _) (A1 & A2 & _) [B1 _] [C1 _] (N1 & _ & N2) (R1 & R2 & R3 & R4 & _)].
  pose proof (lv_len _ _ _ B1) as LB. pose proof (lv_len _ _ _ C1) as LC. pose proof (il_len _ _ _ N1) as LN. rewrite Hbs in LB, LC, LN.
  unfold agContract. fold l L base. exists agf, agi, inobt. cbn [agWrites app] in Hr. rewrite !Forall_cons in Hr.
  destruct Hr as (Rf & Ri & _ & Rb & Rc & Rn & Rr). cbn [fst snd] in *. rewrite F1 in Rf. rewrite I1 in Ri. rewrite LB in Rb. rewrite LC in Rc. rewrite LN in Rn.
  assert (ag_zones sb 0 ag 1 2 (base + 4096) (base + 8192)) as Zn.
  { constructor; rewrite ?Ss, ?OF, ?Hbs; [lia|lia|exact (proj1 (Hblk 1 ltac:(lia)))|exact (proj1 (Hblk 2 ltac:(lia)))|unfold apartZ; lia..]. }
  split_and!; [exact Zn| | |done|done| | | |].
  - constructor; [rewrite OF, Ss; exact Rf|constructor; rewrite ?Ss; done|exists bno|exists cnt]; rewrite Hbs; done.
  - apply trees_single. unfold run_ok. cbn [fst snd]. lia.
  - constructor; rewrite ?Ss, ?OI, ?Hbs; [lia|lia|exact (proj1 (Hblk 3 ltac:(lia)))|unfold apartZ; lia].
  - rewrite <- Hic. constructor; [rewrite OI, Ss; exact Ri|constructor; rewrite ?Ss; done|rewrite Hbs; exact Rn|exact N1].
  - intros ->. by apply N2.
  - intros Hr. rewrite <- Hrf in Hr. rewrite Hr in Rr. apply Forall_cons in Rr as [Rr _]. cbn [fst snd] in Rr. rewrite R1 in Rr.
    rewrite Hrf in Hr. specialize (Hrr Hr). destruct F10 as [F10 F11]; [by rewrite Hrf|].
    constructor; [exists agf; rewrite OF, Ss; done|exists refc; rewrite Hbs; split_and!; done|done|].
    unfold refcMaxRecs. rewrite Hbs, (fm_crc _ F). done.
Qed.

(** The writes of a group are apart, hold bytes and lie between its superblock sector and its
    free extent. *)
Lemma agWrites_ok sb ag root agf agi agfl bno cnt inobt refc :
  formatted sb -> 0 <= ag ->
  let l := fmtAGLayoutFor ag (agCount sb) (hasReflink sb) in
  let ws := agWrites (ag * 2 ^ 26) l agf agi agfl bno cnt inobt refc in
  ag_image sb ag (agLength sb ag) root l agf agi agfl bno cnt inobt refc ->
  ForallOrdPairs (fun a b => apartZ a.1 (zlen a.2) b.1 (zlen b.2)) ws /\ Forall (fun z => isbytes z.2) ws /\
  Forall (fun z => ag * 2 ^ 26 + 512 <= z.1 /\
    (z.1 + zlen z.2 <= ag * 2 ^ 26 + 16384 \/ (hasReflink sb = true /\ z.1 = ag * 2 ^ 26 + refcountRoot l * 4096 /\ zlen z.2 = 4096))) ws.
Proof.
  intros F Hag l ws I. destruct (layout_spec ag (agCount sb) (hasReflink sb) Hag) as (_ & _ & Hrf & _ & Hrr). fold l in Hrf, Hrr. pose proof (fm_bs _ F) as Hbs.
  destruct I as [(F1 & F2 & _) (I1 & I2 & _) (A1 & A2 & _) [B1 _] [C1 _] (N1 & _) (R1 & R2 & _)].
  pose proof (lv_len _ _ _ B1) as LB. pose proof (lv_len _ _ _ C1) as LC. pose proof (il_len _ _ _ N1) as LN. rewrite Hbs in LB, LC, LN.
  split_and!.
  - apply agWrites_apart; try done. rewrite Hrf. intros H. specialize (Hrr H). lia.
  - unfold ws, agWrites. rewrite Hrf. destruct (hasReflink sb); cbn [app]; repeat constructor; cbn [snd]; try done; [apply B1|apply C1|apply N1|apply B1|apply C1|apply N1].
  - unfold ws, agWrites. rewrite Hrf. destruct (hasReflink sb); [specialize (Hrr eq_refl)|]; cbn [app]; repeat constructor; cbn [fst snd]; lia.
Qed.

(** C17 (invariant).  Formatting an allocation group establishes everything the allocators
    assume of one: after [fmtWriteAG], [agContract] holds, that is, the AGF and the two
    free-space roots describe the one extent behind the group's metadata (the contract
    of [allocBlocks] and [freeBlocks]), the AGI and the inode B-tree root are well-formed
    (the contract of [allocInode] and [freeInode]), and with reflink the
    reference-count root is an empty tree; and nothing outside the group's metadata
    changes. *)
Theorem fmtWriteAG_establishes {D} {Dev : Device D} {DL : DeviceLaws D} {DR : DeviceReliable D}
    (sb : superblock) (ag : Z) (uu old : bytes) (w : World D) :
  formatted sb -> uuid_ok uu -> 0 <= ag < agCount sb ->
  let fs := freeStart (fmtAGLayoutFor ag (agCount sb) (hasReflink sb)) in
  let base := ag * 2 ^ 26 in
  fs < agLength sb ag <= 16384 -> ReadAt (dev w) base (fs * 4096) = Ret old ->
  exists d', fmtWriteAG sb ag uu w = (Ret tt, set_dev d' w) /\ agContract sb ag d' /\
    (forall o n cs, 0 <= n -> o + n <= base \/ base + fs * 4096 <= o -> ReadAt (dev w) o n = Ret cs -> ReadAt d' o n = Ret cs).
Proof.
  intros F Hu Hag fs base HL Hold. destruct (layout_spec ag (agCount sb) (hasReflink sb) ltac:(lia)) as (_ & _ & _ & Hfs & Hrr). fold fs in Hfs, Hrr.
  destruct (fmtWriteAG_writes (Dev := Dev) sb ag uu F Hu Hag HL) as (agf & agi & agfl & bno & cnt & inobt & refc & I & E).
  destruct (agWrites_ok sb ag _ _ _ _ _ _ _ _ F ltac:(lia) I) as (Ap & Hb & Hz). fold base in Ap, Hb, Hz, E. set (ws := agWrites _ _ _ _ _ _ _ _ _) in *.
  assert (Forall (fun z => base <= z.1 /\ z.1 + zlen z.2 <= base + fs * 4096) ws) as Hin.
  { eapply Forall_impl; [exact Hz|]. intros z [H1 [H2|(H2 & H3 & H4)]]; [|specialize (Hrr H2)]; cbv beta; lia. }
  destruct (writeSeq_spec ws w Ap Hb) as (d' & Ew & Hr & Hfr).
  { eapply Forall_impl; [exact Hin|]. intros z [Hz1 Hz2]. eexists. replace z.1 with (base + (z.1 - base)) by lia.
    apply (ReadAt_sub (dev w) base (fs * 4096) old _ _ Hold); [lia|apply zlen_nonneg|lia]. }
  exists d'. rewrite E. split_and!; [exact Ew|by eapply ag_image_contract|].
  intros o n cs Hn Ho Hcs. apply Hfr; [done| |done]. eapply Forall_impl; [exact Hin|]. intros z [Hz1 Hz2]. unfold apartZ. cbv beta. lia.
Qed.

(** Two groups on a blank 128 MiB image. *)
Definition fresh_sb : superblock := formatSB (2 ^ 27) (mkFormatConfig (replicate 16 7) [] true (mkQuotaConfig false false false false)) (replicate 16 7).
Lemma fresh_formatted : formatted fresh_sb.
Proof.
  assert (sb_width fresh_sb) as W by (constructor; vm_compute; intuition (try congruence); apply (bool_decide_unpack _); vm_compute; exact I).
  constructor; [exact W| |reflexivity..]. apply validateGeometry_iff; [exact W|vm_compute; reflexivity].
Qed.
Lemma fmtWriteAG_establishes_witness :
  exists d', fmtWriteAG fresh_sb 0 (replicate 16 7) (initWorld (blankdev (2 ^ 27))) = (Ret tt, set_dev d' (initWorld (blankdev (2 ^ 27)))) /\
    agContract fresh_sb 0 d'.
Proof.
  destruct (fmtWriteAG_establishes fresh_sb 0 (replicate 16 7) (spBytes (blankdev (2 ^ 27)) 0 (2580 * 4096)) (initWorld (blankdev (2 ^ 27))) fresh_formatted)
    as (d' & E & V & _).
  - split; [reflexivity|apply (bool_decide_unpack _); vm_compute; exact I].
  - vm_compute. split; congruence.
  - vm_compute. split; congruence.
  - apply sp_ReadAt_Ret. split_and!; [lia|vm_compute; congruence|vm_compute; congruence|reflexivity].
  - exists d'. split; [exact E|exact V].
Defined.
