(* ===== verification/SuperblockSpec.v ===== *)
(** * The superblock sector: theorems

    The sector [buildSuperblockBuffer] writes when an image is formatted, grown or gets its
    quota inodes, read back by the superblock parser. *)
From S2P Require Import Prelude Bytes Crc Writers Extent Device SparseDev Superblock SafeIO Inode FileRead Dir AgBlocks AllocTree Alloc Refcount FileWrite Quota Format FormatSpec.

Lemma drop_while_replicate (p : Z -> bool) n l : p 0 = true -> drop_while p (replicate n 0 ++ l) = drop_while p l.
Proof. intros H. induction n as [|n IH]; cbn; [done|]. by rewrite H. Qed.
Lemma trim_padded lbl n : trimRight label_pad (lbl ++ replicate n 0) = trimRight label_pad lbl.
Proof.
  unfold trimRight. f_equal. rewrite rev_app_distr.
  assert (rev (replicate n 0) = replicate n 0) as -> by (rewrite <- (reverse_replicate n 0) at 2; apply rev_alt).
  by apply drop_while_replicate.
Qed.
(** The superblock a buffer built from [sb] parses to. *)
Definition reparsed (sb : superblock) (lbl : bytes) : superblock :=
  mkSB (blockSize sb) (sectorSize sb) (agBlocks sb) (agCount sb) (dBlocks sb) (rootIno sb) (inodeSize sb) (inopBlock sb) (inopBLog sb) (agBlkLog sb) (dirBlkLog sb)
    (hasCRC sb) (hasFType sb) (hasReflink sb) xfsSBFeatures2 (quotaFlags sb) (uQuotino sb) (gQuotino sb) (pQuotino sb) (uuid sb) (trimRight label_pad lbl) 0.
Record sb_storable (sb : superblock) (lbl : bytes) : Prop := {
  ss_width : sb_width sb;
  ss_geom : geometry_ok sb;
  ss_v5 : hasCRC sb = true /\ hasFType sb = true /\ sectorSize sb = 512 /\ dirBlkLog sb = 0;
  ss_root : rootIno sb = fmtRootIno (agCount sb) (hasReflink sb);
  ss_size : dBlocks sb <> 0;
  ss_quota : 0 <= quotaFlags sb < 2 ^ 16 /\ 0 <= uQuotino sb < 2 ^ 64 /\ 0 <= gQuotino sb < 2 ^ 64 /\ 0 <= pQuotino sb < 2 ^ 64;
  ss_label : zlen lbl <= 12 /\ isbytes lbl
}.

Lemma slice_zero o k m : 0 <= o -> 0 <= k -> o + k <= m -> slice (make_bytes m) o k = replicate (Z.to_nat k) 0.
Proof. intros. unfold slice, make_bytes. rewrite drop_replicate, take_replicate. f_equal. lia. Qed.
Ltac fld := rdec; rewrite ?Z.mod_small by (change (256 ^ 1) with (2 ^ 8); change (256 ^ 2) with (2 ^ 16); change (256 ^ 4) with (2 ^ 32); change (256 ^ 8) with (2 ^ 64); lia); done.
Lemma build_stores sb lbl :
  sb_storable sb lbl ->
  exists b, buildSuperblockBuffer sb (agCount sb) (uuid sb) lbl = Ret b /\ zlen b = 512 /\ isbytes b /\ verifyCRC b sbOffCRC sbCRCLen = Ret true /\
    dec 4 b 0 = magicSB /\ dec 2 b 510 = 0 /\ decodeSB b = reparsed sb lbl.
Proof.
  intros [Wsb G (Hc & Hf & Hs & Hd) Hr Hz (Hq & Hqu & Hqg & Hqp) [Ll Bl]]. pose proof (zlen_nonneg lbl). pose proof (w_uuid _ Wsb) as Hu. pose proof Hu as [Lu Bu].
  pose proof (zero_len 512 ltac:(lia)) as L0. pose proof (zero_bytes 512) as B0. unfold buildSuperblockBuffer. rewrite (uuid_take _ Hu), (proj2 (Z.eqb_neq (dBlocks sb) 0)) by done.
  unfold sbOffMagic, sbOffBlockSize, sbOffRootIno, sbOffRbmino, sbOffRsumino, sbOffAgBlocks, sbOffAgCount, sbOffVersionNum, sbOffSectSize, sbOffInodeSize, sbOffInopBlock, sbOffSectLog, sbOffBlockLog, sbOffInodeLog,
   sbOffInopBLog, sbOffAgBlkLog, sbOffDirBlkLog, sbOffFeatIncompat, sbOffFeatures2, sbOffBadFeatures2, sbOffFeatRoCompat, sbOffInoAlignmt, sbOffImaxPct, sbOffQFlags, sbOffUQuotino, sbOffGQuotino, sbOffPQuotino,
   sbOffDBlocks, sbOffIcount, sbOffIfree, sbOffFdblocks, sbOffLogStart, sbOffLogBlocks, sbOffRExtSize, sbOffCRC, sbCRCLen.
  do 20 wstep.
  match goal with |- context [if hasReflink sb then put32 ?bb 212 _ else _] =>
    assert (exists b', (if hasReflink sb then put32 bb 212 xfsSBFeatRoReflink else Ret bb) = Ret b' /\ wrote bb b' 212 216 /\
      dec 4 b' 212 = if hasReflink sb then xfsSBFeatRoReflink else 0) as (bq & -> & Wq & Dq) end.
  { destruct (hasReflink sb); [wlast; eexists; split_and!; [done|eassumption|rdec; done]|]. eexists. split_and!; [done|apply wrote_refl|rdec; done]. }
  pose proof (wrote_len _ _ _ _ Wq). ostep. do 15 wstep. wcrc.
  match goal with |- exists b, Ret ?bb = _ /\ _ => exists bb end. split_and!; [done|lia|wbytes|done|rdec; done|rdec; done|].
  unfold decodeSB, reparsed. rewrite Hc, Hf, Hs, Hd.
  pose proof (w_bs _ Wsb). pose proof (w_agb _ Wsb). pose proof (w_agc _ Wsb). pose proof (w_db _ Wsb). pose proof (w_ri _ Wsb). pose proof (w_isz _ Wsb). pose proof (w_ipb _ Wsb). pose proof (w_ipl _ Wsb). pose proof (w_abl _ Wsb).
  match goal with |- context [dec 2 ?bb 100] => set (bz := bb) in * end.
  assert (dec 4 bz 4 = blockSize sb) as -> by (fld).
  assert ((Z.land (dec 2 bz 100) xfsSBVersionBits =? xfsSBVersion5) = true) as -> by (rdec; by destruct (quotaFlags sb =? 0)).
  assert (dec 2 bz 102 = 512) as -> by (fld). cbn [Z.eqb].
  assert (dec 4 bz 84 = agBlocks sb) as -> by (fld).
  assert (dec 4 bz 88 = agCount sb) as -> by (fld).
  assert (dec 8 bz 8 = dBlocks sb) as -> by (fld).
  assert (dec 8 bz 56 = rootIno sb) as -> by (rewrite Hr; pose proof (rootIno_range (agCount sb) (hasReflink sb)); fld).
  assert (dec 2 bz 104 = inodeSize sb) as -> by (fld).
  assert (dec 2 bz 106 = inopBlock sb) as -> by (fld).
  assert (dec 1 bz 123 = inopBLog sb) as -> by (fld).
  assert (dec 1 bz 124 = agBlkLog sb) as -> by (fld).
  assert (dec 1 bz 192 = 0) as -> by (fld).
  assert (dec 4 bz 216 = xfsSBFeatFType) as -> by (fld).
  assert (dec 4 bz 212 = if hasReflink sb then xfsSBFeatRoReflink else 0) as -> by (rdec; done).
  assert (dec 4 bz 200 = xfsSBFeatures2) as -> by (fld).
  assert (dec 2 bz 176 = quotaFlags sb) as -> by (fld).
  assert (dec 8 bz 160 = uQuotino sb) as -> by (fld).
  assert (dec 8 bz 168 = gQuotino sb) as -> by (fld).
  assert (dec 8 bz 232 = pQuotino sb) as -> by (fld).
  assert (slice bz 32 16 = uuid sb) as -> by (rewrite <- Lu; rslice; done).
  assert (slice bz 108 12 = lbl ++ replicate (Z.to_nat (12 - zlen lbl)) 0) as ->.
  { replace 12 with (zlen lbl + (12 - zlen lbl)) at 1 by lia. rewrite slice_app_adj by lia. f_equal; rslice; [done|]. apply slice_zero; lia. }
  rewrite trim_padded. by destruct (hasReflink sb).
Qed.

Lemma build_parses sb lbl buf :
  sb_storable sb lbl -> isbytes buf -> zlen buf = 512 -> dec 4 buf 0 = magicSB -> decodeSB buf = reparsed sb lbl -> parseSuperblock buf = Ret (reparsed sb lbl).
Proof.
  intros S B L M Dz. rewrite parseSuperblock_eq, M, Dz by done. change (magicSB =? magicSB) with true. cbv iota.
  assert (sb_width (reparsed sb lbl)) as Wr by (destruct (ss_width _ _ S); by constructor).
  assert (geometry_ok (reparsed sb lbl)) as Gr by (destruct (ss_geom _ _ S); by constructor).
  by rewrite (proj2 (validateGeometry_iff (reparsed sb lbl) Wr) Gr).
Qed.

(** Every superblock [Format] starts from can be stored. *)
Lemma formatSB_storable size cfg uu :
  fmtMinSize <= size < 2 ^ 58 -> uuid_ok uu -> isbytes (cfgLabel cfg) -> sb_storable (formatSB size cfg uu) (label (formatSB size cfg uu)).
Proof.
  intros Hs Hu Hl. unfold formatSB. set (agc := u32 (Z.quot size fmtMinSize)). change fmtMinSize with (2 ^ 26) in *.
  assert (1 <= agc < 2 ^ 32) as Ha.
  { unfold agc. rewrite Z.quot_div_nonneg by lia. assert (1 <= size / 2 ^ 26) by (apply Z.div_le_lower_bound; lia).
    assert (size / 2 ^ 26 < 2 ^ 32) by (apply Z.div_lt_upper_bound; lia). rewrite u32_small by lia. lia. }
  unfold fmtBlockSize, fmtSectorSize, fmtAgBlocks, fmtInodeSize, fmtInopBlock, fmtInopBLog, fmtAgBlkLog. clearbody agc. pose proof (rootIno_range agc (cfgReflink cfg)).
  constructor; cbn [hasCRC hasFType sectorSize dirBlkLog rootIno dBlocks quotaFlags uQuotino gQuotino pQuotino label agCount hasReflink]; [| |done|done|lia|lia|].
  - constructor; cbn [blockSize sectorSize agBlocks agCount dBlocks rootIno inodeSize inopBlock inopBLog agBlkLog dirBlkLog uuid]; try lia. exact Hu.
  - constructor; cbn [blockSize sectorSize agBlocks agCount dBlocks rootIno inodeSize inopBlock inopBLog agBlkLog dirBlkLog]; try lia; [by exists 12|by exists 9].
  - split; [unfold zlen; rewrite length_take; lia|by apply Forall_take].
Qed.

(** C19 (round trip).  The superblock sector: the buffer that formatting, growing and quota
    set-up write parses, its CRC verifying, to the very superblock it was built from, the
    geometry accepted, the label up to its trailing padding and the feature word
    the constant the format uses. *)
Theorem superblock_roundtrip (sb : superblock) (lbl : bytes) :
  sb_storable sb lbl ->
  exists buf, buildSuperblockBuffer sb (agCount sb) (uuid sb) lbl = Ret buf /\ zlen buf = 512 /\
    verifyCRC buf sbOffCRC sbCRCLen = Ret true /\ parseSuperblock buf = Ret (reparsed sb lbl).
Proof.
  intros S. destruct (build_stores sb lbl S) as (buf & E & L & B & V & M & _ & Dz). exists buf. split_and!; [done..|].
  by apply build_parses.
Qed.
Lemma superblock_roundtrip_witness :
  exists buf, buildSuperblockBuffer fresh_sb 2 (replicate 16 7) [] = Ret buf /\ zlen buf = 512 /\
    verifyCRC buf sbOffCRC sbCRCLen = Ret true /\ parseSuperblock buf = Ret (reparsed fresh_sb []).
Proof.
  apply (superblock_roundtrip fresh_sb []).
  apply (formatSB_storable (2 ^ 27) (mkFormatConfig (replicate 16 7) [] true (mkQuotaConfig false false false false)) (replicate 16 7));
    [split; vm_compute; congruence|split; [reflexivity|apply (bool_decide_unpack _); vm_compute; exact I]|constructor].
Defined.
