(* ===== verification/FreshInode.v ===== *)
(** * Fresh inodes: theorems

    What [initInodeV3] stores, and the slots of the first inode chunk of an image. *)
From S2P Require Import Prelude Bytes Crc Writers Extent Device SparseDev Superblock SafeIO Inode FileRead Dir AgBlocks Refcount FileWrite Quota Format FormatSpec SuperblockSpec.

Lemma stamp_writes clk b o :
  0 <= o -> o + 8 <= zlen b -> exists b', stampLegacy clk b o = Ret b' /\ wrote b b' o (o + 8).
Proof. intros Ho Hl. unfold stampLegacy. wstep. wlast. eexists. split; [done|]. wchain. Qed.
(** What [initInodeV3] stores. *)
Record fresh_raw (b : bytes) (len mode : Z) : Prop := {
  fr_len : zlen b = len;
  fr_bytes : isbytes b;
  fr_magic : dec 2 b 0 = magicInode;
  fr_mode : dec 2 b 2 = mode;
  fr_version : dec 1 b 4 = 3;
  fr_format : dec 1 b 5 = 1;
  fr_flags2 : dec 8 b 120 = 0;
  fr_forkoff : dec 1 b 82 = 0;
  fr_zero o n : (o, n) ∈ [(56, 8); (64, 8); (76, 4); (24, 8)] -> dec n b o = 0;
  fr_fork : slice b 176 (len - 176) = make_bytes (len - 176)
}.
Ltac sstep := match goal with |- context [stampLegacy ?clk ?b ?o] =>
  let b' := fresh "b" in let E := fresh "E" in let W := fresh "W" in
  destruct (stamp_writes clk b o) as (b' & E & W); [lia|lia|]; rewrite E; clear E; ostep; pose proof (wrote_len _ _ _ _ W) end.
Lemma dec_zeros n o m : 0 <= n -> 0 <= o -> o + n <= m -> dec n (make_bytes m) o = 0.
Proof. intros. unfold dec. rewrite slice_zero by lia. induction (Z.to_nat n); [done|]. by rewrite replicate_S, be_decode_cons, IHn0, Z.mul_0_l. Qed.
Lemma initInodeV3_spec clk buf ino mode nlink uu :
  isbytes buf -> 176 <= zlen buf -> 0 <= mode < 2 ^ 16 -> uuid_ok uu ->
  exists b, initInodeV3 clk buf ino mode nlink uu = Ret b /\ fresh_raw b (zlen buf) mode.
Proof.
  intros Hb Hl Hm Hu. pose proof Hu as [Lu Bu]. unfold initInodeV3. rewrite (uuid_take uu Hu).
  unfold inoOffMagic, inoOffMode, inoOffVersion, inoOffFormat, inoOffNLink, inoOffATime, inoOffMTime, inoOffCTime, inoOffCRTime, inoOffIno, inoOffNextUnlinked, inoOffAFormat, inoOffUUID.
  wstep. match goal with V : slice ?b0 0 _ = _ |- _ => assert (b0 = make_bytes (zlen buf)) as E0 by (rewrite <- (slice_all b0); match goal with H : zlen b0 = _ |- _ => rewrite H end; rewrite <- (Z.sub_0_r (zlen buf)); exact V) end.
  do 5 wstep. do 4 sstep. do 4 wstep. wlast. eexists. split; [done|]. subst.
  pose proof (zero_bytes (zlen buf)) as B0. pose proof (fun n o => dec_zeros n o (zlen buf)) as Dz.
  constructor; [lia|wbytes|rdec; done|rdec; by apply Z.mod_small|rdec; done|rdec; done|rdec; apply Dz; lia|rdec; apply Dz; lia| |].
  - intros o n. rewrite !elem_of_cons. intros [[= -> ->]|[[= -> ->]|[[= -> ->]|[[= -> ->]|Hx]]]]; [rdec; apply Dz; lia..|by apply elem_of_nil in Hx].
  - rslice. rewrite slice_zero by lia. done.
Qed.

(** The root inode of a fresh image: an empty short-form directory. *)
Definition empty_root (i : inode) : Prop :=
  isDir i = true /\ iformat i = inodeFmtLocal /\ isize i = 6 /\ iforkOff i = 0 /\
  exists fork, dataFork i = Ret fork /\ 6 <= zlen fork /\ dec 1 fork 0 = 0 /\ dec 1 fork 1 = 0.
Lemma chunkSlot_spec clk root slot uu :
  uuid_ok uu -> 0 <= slot ->
  exists b, chunkSlot clk root slot uu = Ret b /\ zlen b = 512 /\ isbytes b /\
    (slot = 0 -> exists i, parseInode root b = Ret i /\ empty_root i).
Proof.
  intros Hu Hs. pose proof (zero_len 512 ltac:(lia)) as L0. pose proof (zero_bytes 512) as B0. unfold chunkSlot, fmtInodeSize, inoOffCRC.
  destruct (Z.eqb_spec slot 0) as [->|Hn].
  - unfold fmtBuildRootInode, inoOffFormat, inodeCoreSize, inoOffSize. destruct (initInodeV3_spec (clk 0) (make_bytes 512) (root + 0) 0x41ED 2 uu B0) as (b0 & E0 & F); [lia|lia|done|].
    rewrite E0. ostep. clear E0. rewrite L0 in F. pose proof (fr_len _ _ _ F) as Lb. do 4 wstep. wlast. pose proof (fr_bytes _ _ _ F) as Bb. wcrc.
    match goal with |- exists b, Ret ?bb = _ /\ _ => rename bb into b6 end. exists b6. split_and!; [done|lia|wbytes|]. intros _.
    rewrite parseInode_eq by (unfold inodeCoreSize; lia). assert (dec 2 b6 0 = magicInode) as -> by (rdec; apply F).
    rewrite Z.eqb_refl. eexists. split; [done|]. unfold empty_root, isDir, decodeInode. cbn [imode iformat isize iforkOff].
    assert (dec 2 b6 2 = 0x41ED) as -> by (rdec; apply F). assert (dec 1 b6 5 = 1) as -> by (rdec; done). assert (dec 8 b6 56 = 6) as -> by (rdec; done). assert (dec 1 b6 82 = 0) as -> by (rdec; apply F).
    split_and!; [done..|]. exists (slice b6 176 336). unfold dataFork, from. cbn [iraw]. unfold inodeCoreSize.
    rewrite (sub_ok b6 176 (zlen b6)) by lia. replace (zlen b6 - 176) with 336 by lia.
    pose proof (zlen_slice b6 176 336 ltac:(lia) ltac:(lia) ltac:(lia)). split_and!; [done|lia| |].
    + unfold dec. rewrite slice_slice by lia. change (dec 1 b6 176 = 0). rdec. done.
    + unfold dec. rewrite slice_slice by lia. change (dec 1 b6 177 = 0). rdec. done.
  - destruct ((slot =? 1) || (slot =? 2)).
    + unfold fmtBuildEmptyReg, inoOffFormat, inoOffSize. destruct (initInodeV3_spec (clk slot) (make_bytes 512) (root + slot) 0x8000 1 uu B0) as (b0 & E0 & F); [lia|lia|done|].
      rewrite E0. ostep. rewrite L0 in F. pose proof (fr_len _ _ _ F). pose proof (fr_bytes _ _ _ F). wstep. wlast. wcrc. eexists. split_and!; [done|lia|wbytes|done].
    + unfold inoOffFormat. destruct (initInodeV3_spec (clk slot) (make_bytes 512) (root + slot) 0 0 uu B0) as (b0 & E0 & F); [lia|lia|done|].
      rewrite E0. ostep. rewrite L0 in F. pose proof (fr_len _ _ _ F). pose proof (fr_bytes _ _ _ F). wlast. wcrc. eexists. split_and!; [done|lia|wbytes|done].
Qed.
