(* ===== verification/QuotaSpec.v ===== *)
(** * Quota accounting: theorems

    The scan of [quotaRecompute] against the plain sums over all inodes, and the dquots on the
    image. *)
From stdpp Require Import gmap.
From S2P Require Import Prelude Bytes Crc Writers Extent Device SparseDev Superblock SafeIO Inode FileRead Dir Lookup AgBlocks Zones AllocTree Alloc AllocLeaf InodeAlloc Refcount FileWrite FileWriteSpec LeafDir DirUpdate Namespace Attr AttrSpec Quota Format FormatSpec.

(** ** The reference: sums over a list of inodes *)
Definition uidOf (i : inode) : Z := dec 4 (iraw i) inoOffUID.
Definition gidOf (i : inode) : Z := dec 4 (iraw i) inoOffGID.
Definition pidOf (i : inode) : Z := dec 2 (iraw i) inoOffProjidHi * 2 ^ 16 + dec 2 (iraw i) inoOffProjidLo.
Definition inUse (i : inode) : bool := negb (imode i =? 0).
(** Blocks and inodes charged to [id]. *)
Definition tally (key : inode -> Z) (l : list inode) (id : Z) : Z * Z :=
  let mine := List.filter (fun i => inUse i && (key i =? id)) l in
  (u64 (fold_right (fun i s => inBlocks i + s) 0 mine), u64 (zlen mine)).

Lemma usage_add m id b id' :
  usage (addUsage m id b) id' = if id =? id' then (u64 ((usage m id').1 + b), u64 ((usage m id').2 + 1)) else usage m id'.
Proof.
  unfold addUsage. destruct (usage m id) as [x y] eqn:E. unfold usage in *. destruct (Z.eqb_spec id id') as [->|Hn].
  - setoid_rewrite lookup_insert_eq. cbn [default]. rewrite E. done.
  - by setoid_rewrite lookup_insert_ne.
Qed.
(** [usage m] accounts for the inodes [l]. *)
Definition accountsFor (key : inode -> Z) (m : acctMap) (l : list inode) : Prop :=
  (forall id, usage m id = tally key l id) /\ forall id, is_Some ((m : gmap Z (Z * Z)) !! id) <-> exists i, i ∈ l /\ inUse i = true /\ key i = id.
Lemma accounts_nil key : accountsFor key ∅ [].
Proof. split; [done|]. intros id. split; [intros [x Hx]; discriminate Hx|]. intros (i & Hi & _). by apply elem_of_nil in Hi. Qed.
Lemma u64_add_l x y : u64 (u64 x + y) = u64 (x + y).
Proof. unfold u64. by rewrite Zplus_mod_idemp_l. Qed.
Lemma fold_sum_app (l : list inode) i : fold_right (fun i s => inBlocks i + s) 0 (l ++ [i]) = fold_right (fun i s => inBlocks i + s) 0 l + inBlocks i.
Proof. induction l as [|x l IH]; cbn; [lia|]. rewrite IH. lia. Qed.
Lemma accounts_snoc key m l i :
  accountsFor key m l -> accountsFor key (if inUse i then addUsage m (key i) (inBlocks i) else m) (l ++ [i]).
Proof.
  intros [H Hk]. split.
  2: { intros id. transitivity (is_Some ((m : gmap Z (Z * Z)) !! id) \/ (inUse i = true /\ key i = id)).
    - destruct (inUse i); [|by intuition]. unfold addUsage. destruct (usage m (key i)). destruct (decide (key i = id)) as [<-|Hn].
      + setoid_rewrite lookup_insert_eq. split; [auto|eauto].
      + setoid_rewrite lookup_insert_ne; [|done]. intuition.
    - rewrite Hk. split.
      + intros [(j & Hj & ?)|?]; [exists j|exists i]; (split; [apply elem_of_app|done]); [by left|right; by apply list_elem_of_singleton].
      + intros (j & Hj & ?). apply elem_of_app in Hj as [Hj|Hj]; [left; eauto|]. apply list_elem_of_singleton in Hj as ->. by right. }
  intros id. specialize (H id). unfold tally in *. rewrite List.filter_app. cbn [List.filter].
  destruct (inUse i); cbn [andb]; [|by rewrite app_nil_r, H]. rewrite usage_add, H. destruct (key i =? id); [|by rewrite app_nil_r].
  cbn [fst snd]. rewrite !u64_add_l, fold_sum_app. do 2 f_equal. unfold zlen. rewrite length_app. cbn. lia.
Qed.
Definition accounted (a : accounts) (l : list inode) : Prop :=
  let '(u, g, p) := a in accountsFor uidOf u l /\ accountsFor gidOf g l /\ accountsFor pidOf p l.
Lemma charge_accounted i a l :
  176 <= zlen (iraw i) -> isbytes (iraw i) -> accounted a l -> exists a', chargeInode i a = Ret a' /\ accounted a' (l ++ [i]).
Proof.
  intros L B. destruct a as [[u g] p]. intros (Hu & Hg & Hp). apply (accounts_snoc _ _ _ i) in Hu, Hg, Hp. unfold chargeInode, inUse in *.
  destruct (imode i =? 0); cbn [negb] in *; [eexists; split; [done|exact (conj Hu (conj Hg Hp))]|].
  unfold uidOf, gidOf, pidOf, inoOffUID, inoOffGID, inodeProjid, inoOffProjidHi, inoOffProjidLo in *. rewrite !be_get_ok by lia. ostep.
  pose proof (dec_range 2 (iraw i) 24 B ltac:(lia) ltac:(lia) ltac:(lia)). pose proof (dec_range 2 (iraw i) 20 B ltac:(lia) ltac:(lia) ltac:(lia)). change (256 ^ 2) with (2 ^ 16) in *.
  assert (Z.lor (u32 (Z.shiftl (dec 2 (iraw i) 24) 16)) (dec 2 (iraw i) 20) = dec 2 (iraw i) 24 * 2 ^ 16 + dec 2 (iraw i) 20) as E.
  { rewrite (u32_small (Z.shiftl _ _)) by (rewrite Z.shiftl_mul_pow2; lia). apply lor_shiftl_add; lia. }
  eexists. split; [done|]. rewrite E. exact (conj Hu (conj Hg Hp)).
Qed.

(** ** The inodes of an image, listed *)
Section Scan.
Context {D : Type} {Dev : Device D} {DL : DeviceLaws D}.
Context (partOff : Z) (sb : superblock) (Hsz : inodeCoreSize <= inodeSize sb).

(** *** The inode B-tree, as the format defines it

    A leaf block at level 0 lists chunk records (first inode, bitmap of free inodes); a block
    at a higher level lists child blocks, all one level down; the leaves, in key
    order, are chained by their right-sibling fields.  [leaves] are the leaf blocks below
    [rel], left to right, with their records. *)
Definition leaf_records (blk : bytes) (recs : list (Z * Z)) : Prop :=
  dec 2 blk 6 = zlen recs /\ agBTreeHdrSize sb + zlen recs * inobtRecSize <= zlen blk /\
  forall i s f, recs !! i = Some (s, f) ->
    dec 4 blk (agBTreeHdrSize sb + Z.of_nat i * inobtRecSize) = s /\ dec 8 blk (agBTreeHdrSize sb + Z.of_nat i * inobtRecSize + 8) = f.
Definition node_children (blk : bytes) (ptrs : list Z) : Prop :=
  let base := agBTreeHdrSize sb + inobtMaxInternal (zlen blk) (agBTreeHdrSize sb) * inobtKeySize in
  ptrs <> [] /\ dec 2 blk 6 = zlen ptrs /\ agBTreeHdrSize sb <= zlen blk /\ base + zlen ptrs * inobtPtrSize <= zlen blk /\
  forall i p, ptrs !! i = Some p -> dec 4 blk (base + Z.of_nat i * inobtPtrSize) = p.
Fixpoint inobt_at (r : D) (ag : Z) (lvl : nat) (rel : Z) (leaves : list (Z * list (Z * Z))) : Prop :=
  exists blk, readAGBlock partOff sb r ag rel = Ret blk /\ dec 2 blk 4 = Z.of_nat lvl /\ rel <> nullAgb /\
    match lvl with
    | O => exists recs, leaf_records blk recs /\ leaves = [(rel, recs)]
    | S lvl' => exists ptrs subs, node_children blk ptrs /\ Forall2 (inobt_at r ag lvl') ptrs subs /\ leaves = concat subs
    end.
Fixpoint chained (r : D) (ag : Z) (leaves : list (Z * list (Z * Z))) : Prop :=
  match leaves with
  | [] => True
  | (rel, recs) :: rest =>
      (exists blk, readAGBlock partOff sb r ag rel = Ret blk /\ leaf_records blk recs /\ rel <> nullAgb /\
         dec 4 blk 12 = match rest with [] => nullAgb | (next, _) :: _ => next end) /\
      chained r ag rest
  end.
(** The chunk records of group [ag] are [recs]. *)
Definition group_records (r : D) (ag : Z) (recs : list (Z * Z)) : Prop :=
  exists agi lvl leaves, agiBlock partOff sb r ag = Ret agi /\ agiOffRoot + 4 <= zlen agi /\ inobt_at r ag lvl (dec 4 agi agiOffRoot) leaves /\ chained r ag leaves /\
    zlen leaves <= allocBTreeMaxSteps /\ recs = flat_map snd leaves.
(** The inode numbers a record marks as allocated, quota inodes left out. *)
Definition recInos (ar : Z * (Z * Z)) : list Z :=
  let '(ag, (start, free)) := ar in
  List.filter (fun ino => negb (exemptIno sb ino))
    (map (fun bit => inoFromAGRel sb ag (u32 (start + bit))) (List.filter (fun bit => negb (Z.testbit free bit)) (seqZ 0 64))).
(** The records of the groups from [ag] on, tagged with their group. *)
Fixpoint tagged (ag : Z) (groups : list (list (Z * Z))) : list (Z * (Z * Z)) :=
  match groups with [] => [] | recs :: rest => map (pair ag) recs ++ tagged (ag + 1) rest end.
(** [ins] are the inodes quota accounting has to look at: those of every group's inode B-tree. *)
Definition chargeableInodes (r : D) (ins : list inode) : Prop :=
  exists groups, zlen groups = agCount sb /\ (forall ag recs, groups !! ag = Some recs -> group_records r (Z.of_nat ag) recs) /\
    Forall2 (fun ino i => readInode r partOff sb ino = Ret i) (flat_map recInos (tagged 0 groups)) ins.

Lemma range_acc_split {X A} (f : X -> A -> outcome A) l k a : range_acc (l ++ k) a f = (a' ← range_acc l a f; range_acc k a' f).
Proof. revert a. induction l as [|x l IH]; intros a; cbn [app range_acc]; [done|]. destruct (f x a); ostep; [apply IH|done..]. Qed.
Lemma block_bytes r ag rel blk : readAGBlock partOff sb r ag rel = Ret blk -> isbytes blk.
Proof. unfold readAGBlock, readRawBlock, readBytes. destruct (blockByteOffset _ _ _) as [o| | |]; ostep; try done. apply ReadAt_isbytes. Qed.
(** A level is a 16-bit number. *)
Lemma level_small r ag lvl rel leaves : inobt_at r ag lvl rel leaves -> Z.of_nat lvl < 65536.
Proof.
  intros H. pose proof (hdr_pos sb). assert (exists blk, isbytes blk /\ 16 <= zlen blk /\ dec 2 blk 4 = Z.of_nat lvl) as (blk & B & L & E).
  { destruct lvl; destruct H as (blk & Hb & Hl & _ & H); exists blk; (split; [by eapply block_bytes|]); (split; [|done]).
    - destruct H as (recs & (_ & Hfit & _) & _). pose proof (zlen_nonneg recs). unfold inobtRecSize in *. lia.
    - destruct H as (ptrs & subs & (_ & _ & Hfit & _) & _). lia. }
  pose proof (dec_range 2 blk 4 B ltac:(lia) ltac:(lia) ltac:(lia)). lia.
Qed.
(** The records of a leaf, visited in order. *)
Lemma visit_records {A} blk recs (fn : Z * Z -> A -> outcome A) i k a :
  0 <= i -> agBTreeHdrSize sb + (i + zlen recs) * inobtRecSize <= zlen blk -> k = length recs ->
  (forall j s f, recs !! j = Some (s, f) -> dec 4 blk (agBTreeHdrSize sb + (i + Z.of_nat j) * inobtRecSize) = s /\ dec 8 blk (agBTreeHdrSize sb + (i + Z.of_nat j) * inobtRecSize + 8) = f) ->
  for_acc k i a (fun i a => s ← be32 blk (agBTreeHdrSize sb + i * inobtRecSize); f ← be64 blk (agBTreeHdrSize sb + i * inobtRecSize + 8); fn (s, f) a) = range_acc recs a fn.
Proof.
  intros Hi Hl -> Hr. pose proof (hdr_pos sb) as Hh. revert i a Hi Hl Hr. induction recs as [|[s f] recs IH]; intros i a Hi Hl Hr; [done|]. cbn [length for_acc range_acc].
  rewrite zlen_cons in Hl. pose proof (zlen_nonneg recs). destruct (Hr 0%nat s f eq_refl) as [E1 E2]. rewrite Z.add_0_r in E1, E2. unfold inobtRecSize in *.
  rewrite !be_get_ok by lia. ostep. rewrite E1, E2. destruct (fn (s, f) a); ostep; [|done..]. apply IH; [lia|lia|].
  intros j s' f' Hj. replace (i + 1 + Z.of_nat j) with (i + Z.of_nat (S j)) by lia. by apply Hr.
Qed.
(** The descent ends in the leftmost leaf. *)
Lemma descend_leftmost r ag n lvl rel leaves :
  inobt_at r ag lvl rel leaves -> (lvl < n)%nat -> exists first recs rest, leaves = (first, recs) :: rest /\ enumDescend partOff sb n r ag rel = Ret first.
Proof.
  revert n rel leaves. induction lvl as [|lvl IH]; intros [|n] rel leaves H Hn; try lia; cbn [inobt_at] in H; destruct H as (blk & Hb & Hl & _ & H); cbn [enumDescend]; rewrite Hb; ostep.
  all: pose proof (hdr_pos sb) as Hh.
  - destruct H as (recs & (_ & Hfit & _) & ->). pose proof (zlen_nonneg recs). unfold inobtRecSize in *. exists rel, recs, []. split; [done|]. rewrite (be_get_ok 2) by lia. ostep. by rewrite Hl.
  - destruct H as (ptrs & subs & (Hne & Hnum & Hhdr & Hfit & Hp) & H2 & ->). destruct H2 as [|p sub ptrs subs Hsub H2]; [done|].
    pose proof (zlen_nonneg ptrs). rewrite zlen_cons in Hfit. specialize (Hp 0%nat p eq_refl). rewrite Z.add_0_r in Hp. unfold inobtPtrSize, inobtKeySize in *.
    assert (0 <= inobtMaxInternal (zlen blk) (agBTreeHdrSize sb)) by (unfold inobtMaxInternal, inobtKeySize, inobtPtrSize; apply Z.quot_pos; lia).
    destruct (IH n p sub Hsub ltac:(lia)) as (first & recs & rest & -> & E). exists first, recs, (rest ++ concat subs). split; [done|].
    rewrite (be_get_ok 2) by lia. ostep. rewrite Hl, (proj2 (Z.eqb_neq _ _)) by lia. rewrite be_get_ok by lia. ostep. by rewrite Hp.
Qed.
(** The walk visits the records of the chain in order. *)
Lemma walk_leaves {A} r ag n leaves (fn : Z * Z -> A -> outcome A) a :
  chained r ag leaves -> zlen leaves <= Z.of_nat n ->
  enumLeaves partOff sb n r ag (match leaves with [] => nullAgb | (rel, _) :: _ => rel end) fn a = range_acc (flat_map snd leaves) a fn.
Proof.
  revert n a. induction leaves as [|[rel recs] leaves IH]; intros n a Hc Hn; [by destruct n|]. cbn [chained] in Hc. destruct Hc as ((blk & Hb & (Hnum & Hfit & Hr) & Hrel & Hnext) & Hc).
  rewrite zlen_cons in Hn. pose proof (zlen_nonneg leaves). destruct n as [|n]; [lia|]. cbn [enumLeaves]. rewrite (proj2 (Z.eqb_neq _ _) Hrel), Hb. ostep.
  pose proof (hdr_pos sb) as Hh. pose proof (zlen_nonneg recs). unfold inobtRecSize in Hfit. rewrite (be_get_ok 2 blk 6) by lia. ostep. rewrite Hnum.
  rewrite (proj2 (Z.ltb_ge _ _)) by (unfold inobtRecSize; lia). ostep. rewrite (visit_records blk recs fn 0); [|lia|unfold inobtRecSize; lia|apply Z_to_nat_zlen|intros j s f Hj; rewrite Z.add_0_l; by apply Hr].
  cbn [flat_map snd]. rewrite range_acc_split. destruct (range_acc recs a fn); ostep; [|done..]. rewrite be_get_ok by lia. ostep. rewrite Hnext. apply IH; [done|lia].
Qed.
Lemma enumerate_group {A} r ag recs (fn : Z * Z -> A -> outcome A) a : group_records r ag recs -> inobtEnumerate partOff sb r ag fn a = range_acc recs a fn.
Proof.
  intros (agi & lvl & leaves & Ha & La & Ht & Hc & Hn & ->). unfold inobtEnumerate. rewrite Ha. ostep. unfold agiOffRoot in *. rewrite be_get_ok by lia. ostep.
  pose proof (level_small _ _ _ _ _ Ht). assert (allocBTreeMaxSteps = 1048576) as Hm by done.
  destruct (descend_leftmost r ag (Z.to_nat (allocBTreeMaxSteps + 1)) lvl _ _ Ht ltac:(lia)) as (first & recs & rest & -> & ->). ostep.
  apply (walk_leaves r ag _ _ fn a Hc). lia.
Qed.

Definition chargeIno (r : D) (ino : Z) (a : accounts) : outcome accounts := i ← readInode r partOff sb ino; chargeInode i a.
Lemma chunk_inos r ag start free n i a :
  for_acc n i a (fun bit a => if Z.testbit free bit then Ret a else let ino := inoFromAGRel sb ag (u32 (start + bit)) in if exemptIno sb ino then Ret a else chargeIno r ino a) =
  range_acc (List.filter (fun ino => negb (exemptIno sb ino))
    (map (fun bit => inoFromAGRel sb ag (u32 (start + bit))) (List.filter (fun bit => negb (Z.testbit free bit)) (seqZ i (Z.of_nat n))))) a (chargeIno r).
Proof.
  revert i a. induction n as [|n IH]; intros i a; [done|]. cbn [for_acc]. rewrite seqZ_cons, Nat2Z.inj_succ, Z.pred_succ, <- Z.add_1_r by lia. cbn [List.filter].
  destruct (Z.testbit free i); cbn [negb map List.filter]; ostep; [apply IH|]. destruct (exemptIno _ _); cbn [negb]; ostep; [apply IH|]. cbn [range_acc].
  destruct (chargeIno r _ a); ostep; [apply IH|done..].
Qed.
Lemma chargeChunk_inos r ag rec a : chargeChunk partOff sb r ag rec a = range_acc (recInos (ag, rec)) a (chargeIno r).
Proof. destruct rec as [start free]. exact (chunk_inos r ag start free 64 0 a). Qed.
Lemma charge_records r ag recs a :
  range_acc recs a (chargeChunk partOff sb r ag) = range_acc (flat_map recInos (map (pair ag) recs)) a (chargeIno r).
Proof.
  revert a. induction recs as [|rec recs IH]; intros a; [done|]. cbn [range_acc map flat_map]. rewrite range_acc_split, chargeChunk_inos.
  destruct (range_acc _ a (chargeIno r)); ostep; [apply IH|done..].
Qed.
Lemma scan_groups r ag a groups :
  (forall k recs, groups !! k = Some recs -> group_records r (ag + Z.of_nat k) recs) ->
  for_acc (length groups) ag a (fun ag a => inobtEnumerate partOff sb r ag (chargeChunk partOff sb r ag) a) = range_acc (flat_map recInos (tagged ag groups)) a (chargeIno r).
Proof.
  revert ag a. induction groups as [|recs groups IH]; intros ag a H; cbn [length for_acc tagged]; [done|].
  pose proof (H 0%nat recs eq_refl) as H0. rewrite Z.add_0_r in H0. rewrite (enumerate_group r ag recs _ a H0), charge_records, flat_map_app, range_acc_split.
  destruct (range_acc _ a (chargeIno r)); ostep; [|done..]. apply IH. intros k rs Hk. replace (ag + 1 + Z.of_nat k) with (ag + Z.of_nat (S k)) by lia. by apply H.
Qed.
Lemma charge_all r inos l a ins :
  Forall2 (fun ino i => readInode r partOff sb ino = Ret i) inos ins -> accounted a l -> exists a', range_acc inos a (chargeIno r) = Ret a' /\ accounted a' (l ++ ins).
Proof.
  intros H. revert l a. induction H as [|ino i inos ins Hi _ IH]; intros l a Ha; cbn [range_acc]; [rewrite app_nil_r; eauto|].
  destruct (readInode_sync partOff sb Hsz r ino i Hi) as (_ & _ & _ & B & L). unfold inodeCoreSize in Hsz.
  destruct (charge_accounted i a l ltac:(lia) B Ha) as (a1 & E1 & Ha1). destruct (IH _ _ Ha1) as (a' & E & Ha'). exists a'.
  assert (chargeIno r ino a = Ret a1) as -> by (unfold chargeIno; rewrite Hi; exact E1). ostep. by rewrite <- app_assoc in Ha'.
Qed.
Lemma quotaScan_accounts r ins : chargeableInodes r ins -> exists a, quotaScan partOff sb r = Ret a /\ accounted a ins.
Proof.
  intros (groups & Hn & Hg & Hi). unfold quotaScan. rewrite <- Hn, Z_to_nat_zlen, (scan_groups r 0) by done.
  apply (charge_all r _ [] (∅, ∅, ∅) ins Hi). repeat split; apply accounts_nil.
Qed.
End Scan.

(** ** Dquots on the image *)
Record dquot_ok (sb : superblock) (t id bc ic : Z) (rec : bytes) : Prop := {
  dq_magic : dec 2 rec dqOffMagic = dqMagic;
  dq_version : dec 1 rec dqOffVersion = dqVersion;
  dq_type : dec 1 rec dqOffType = t;
  dq_id : dec 4 rec dqOffID = id;
  dq_blocks : dec 8 rec dqOffBCount = bc;
  dq_inodes : dec 8 rec dqOffICount = ic;
  dq_crc : hasCRC sb = true -> verifyCRC rec dqOffCRC dqBlkSize = Ret true
}.
Lemma dec_of_slice n b off k len : 0 <= off -> 0 <= k -> 0 <= n -> k + n <= len -> dec n (slice b off len) k = dec n b (off + k).
Proof. intros. unfold dec. by rewrite slice_slice by lia. Qed.
Lemma buildDquot_spec sb t id bc ic b off :
  uuid_ok (uuid sb) -> isbytes b -> 0 <= off -> off + 136 <= zlen b -> 0 <= t < 2 ^ 8 -> 0 <= id < 2 ^ 32 -> 0 <= bc < 2 ^ 64 -> 0 <= ic < 2 ^ 64 ->
  exists b', buildDquot b off sb t id bc ic = Ret b' /\ wrote b b' off (off + 136) /\ dquot_ok sb t id bc ic (slice b' off 136).
Proof.
  intros Hu Hb Ho Hl Ht Hid Hbc Hic. pose proof Hu as [Lu Bu]. unfold buildDquot, dqBlkSize, dqOffMagic, dqOffVersion, dqOffType, dqOffID, dqOffBCount, dqOffICount, dqOffUUID, dqOffCRC. rewrite (uuid_take _ Hu).
  assert (forall v k, 0 <= v < 256 ^ k -> v mod 256 ^ k = v) as M by (intros; by apply Z.mod_small).
  do 6 wstep. wstep. destruct (hasCRC sb) eqn:Hc.
  - wstep. rewrite sub_ok by lia. ostep. replace (off + 136 - off) with 136 by lia.
    match goal with |- context [slice ?bb off 136] => rename bb into bz; set (rec := slice bz off 136) end.
    assert (zlen rec = 136) as Lr by (apply zlen_slice; lia). assert (isbytes bz) as Bz by wbytes. assert (isbytes rec) as Br by by apply isbytes_slice.
    destruct (crc_last rec (104 + 4) 136 Br Lr) as (rec' & Ec & Vc & W'); [lia..|]. rewrite Ec. ostep. pose proof (wrote_len _ _ _ _ W') as Lr'.
    assert (isbytes rec') as Br' by (apply W'; done). exists (splice bz off rec'). split; [done|].
    pose proof (splice_wrote bz off rec' ltac:(lia) ltac:(lia) Br') as Ws. replace (off + zlen rec') with (off + 136) in Ws by lia.
    split; [wchain|]. replace 136 with (zlen rec') at 1 by lia. rewrite slice_splice_same by lia.
    constructor; unfold dqOffMagic, dqOffVersion, dqOffType, dqOffID, dqOffBCount, dqOffICount, dqOffCRC, dqBlkSize; [..|done];
      rewrite (wrote_dec _ _ _ _ _ _ W') by lia; unfold rec; rewrite dec_of_slice by lia; rdec; first [done | by apply M | by apply (M _ 1)].
  - ostep. eexists. split; [done|]. split; [wchain|].
    constructor; unfold dqOffMagic, dqOffVersion, dqOffType, dqOffID, dqOffBCount, dqOffICount, dqOffCRC, dqBlkSize; [..|congruence];
      rewrite dec_of_slice by lia; rdec; first [done | by apply M | by apply (M _ 1)].
Qed.
Lemma dquotBlock_loop sb t m n i b :
  uuid_ok (uuid sb) -> isbytes b -> 0 <= t < 2 ^ 8 -> 0 <= i -> i + Z.of_nat n < 2 ^ 32 -> (i + Z.of_nat n) * 136 <= zlen b ->
  (forall id, 0 <= (usage m id).1 < 2 ^ 64 /\ 0 <= (usage m id).2 < 2 ^ 64) ->
  exists b', for_acc n i b (fun i block => buildDquot block (i * dqBlkSize) sb t (u32 i) (usage m i).1 (usage m i).2) = Ret b' /\
    wrote b b' (i * 136) ((i + Z.of_nat n) * 136) /\
    forall j, i <= j < i + Z.of_nat n -> dquot_ok sb t j (usage m j).1 (usage m j).2 (slice b' (j * 136) 136).
Proof.
  intros Hu Hb Ht Hi Hn Hl Hm. unfold dqBlkSize. revert i b Hb Hi Hn Hl. induction n as [|n IH]; intros i b Hb Hi Hn Hl; cbn [for_acc].
  { exists b. split_and!; [done|apply wrote_refl|intros; lia]. }
  destruct (Hm i) as [M1 M2]. rewrite (u32_small i) by lia.
  destruct (buildDquot_spec sb t i (usage m i).1 (usage m i).2 b (i * 136) Hu Hb) as (b1 & -> & W1 & Q1); [lia..|]. ostep. pose proof (wrote_len _ _ _ _ W1).
  destruct (IH (i + 1) b1) as (b' & -> & W' & Q'); [by apply W1|lia|lia|lia|]. exists b'. split_and!; [done|wchain|].
  intros j Hj. destruct (decide (j = i)) as [->|Hne]; [|apply Q'; lia]. rewrite (wrote_slice _ _ _ _ W') by lia. done.
Qed.
Lemma accounts_range key m l id : accountsFor key m l -> 0 <= (usage m id).1 < 2 ^ 64 /\ 0 <= (usage m id).2 < 2 ^ 64.
Proof. intros [H _]. rewrite (H id). split; apply u64_range. Qed.

(** The ids of one quota type and its account. *)
Definition keyOf (t : Z) : inode -> Z := if t =? dqTypeUser then uidOf else if t =? dqTypeGroup then gidOf else pidOf.
Definition acctOf (t : Z) (a : accounts) : acctMap := if t =? dqTypeUser then a.1.1 else if t =? dqTypeGroup then a.1.2 else a.2.
Lemma accounted_of t a l : accounted a l -> accountsFor (keyOf t) (acctOf t a) l.
Proof. destruct a as [[u g] p]. intros (Hu & Hg & Hp). unfold keyOf, acctOf. destruct (t =? dqTypeUser); [done|]. by destruct (t =? dqTypeGroup). Qed.
(** The range check of [quotaWriteDquots]. *)
Lemma range_check m p : existsb (fun kv : Z * (Z * Z) => p <=? kv.1) (map_to_list (m : gmap Z (Z * Z))) = true <-> exists id, p <= id /\ is_Some ((m : gmap Z (Z * Z)) !! id).
Proof.
  rewrite existsb_exists. split.
  - intros ([k v] & Hin & Hk%Z.leb_le). exists k. split; [done|]. exists v. by apply elem_of_map_to_list, list_elem_of_In.
  - intros (k & Hk & v & Hv). exists (k, v). split; [by apply list_elem_of_In, elem_of_map_to_list|by apply Z.leb_le].
Qed.

Section Recompute.
Context {D : Type} {Dev : Device D} {DL : DeviceLaws D} {DR : DeviceReliable D}.
Context (partOff : Z) (sb : superblock) (W : sb_width sb) (G : geometry_ok sb) (Hp : 0 <= partOff < 2 ^ 63).

(** C20 (equivalence).  A quota recomputation charges exactly what the image holds.  Let
    [ins] be the inodes that the inode B-trees mark as allocated, quota inodes left out
    ([chargeableInodes]: trees of any height as the format defines them, read top down through all
    children, with the leaves of a level chained by their sibling fields).  Then the scan gives, for
    each quota type, the sums of blocks and the numbers of inodes over those of [ins] in
    use, and the dquot block that is then written holds, for every id it has room for, a
    valid dquot with these counts and its CRC stamped.  If some inode's id does not fit
    the block, nothing is written and an error is reported. *)
Theorem quota_charges_usage (w : World D) (t qino : Z) (ins : list inode) (qi : inode) (e : extent) (es : list extent) (base : Z) :
  In t [dqTypeUser; dqTypeGroup; dqTypeProj] ->
  chargeableInodes partOff sb (dev w) ins ->
  readInode (dev w) partOff sb qino = Ret qi -> inlineExtents qi = Ret (e :: es) ->
  blockByteOffset partOff sb (startBlock e) = Ret base -> base + blockSize sb < 2 ^ 63 -> (exists old, ReadAt (dev w) base (blockSize sb) = Ret old) ->
  exists a, quotaScan partOff sb (dev w) = Ret a /\
    ((exists i, i ∈ ins /\ inUse i = true /\ dquotsPerBlock sb <= keyOf t i) -> exists err, quotaWriteDquots partOff sb qino t (acctOf t a) w = (Fail err, w)) /\
    ((forall i, i ∈ ins -> inUse i = true -> keyOf t i < dquotsPerBlock sb) ->
     exists d' block, quotaWriteDquots partOff sb qino t (acctOf t a) w = (Ret tt, set_dev d' w) /\ ReadAt d' base (blockSize sb) = Ret block /\
       forall id, 0 <= id < dquotsPerBlock sb -> dquot_ok sb t id (tally (keyOf t) ins id).1 (tally (keyOf t) ins id).2 (slice block (id * dqBlkSize) dqBlkSize)).
Proof.
  intros Ht Hch Hq He Hbase Hend Hold. pose proof (bs_range sb G) as Hbs.
  assert (inodeCoreSize <= inodeSize sb) as Hsz by (unfold inodeCoreSize; destruct (g_isz _ G) as (k & Hk & ->); pose proof (Z.pow_le_mono_r 2 8 k ltac:(lia) ltac:(lia)); lia).
  destruct (quotaScan_accounts partOff sb Hsz (dev w) ins Hch) as (a & Ea & Ha). apply (accounted_of t) in Ha. pose proof Ha as [Hu Hk]. exists a. split; [done|]. unfold quotaWriteDquots.
  set (m := acctOf t a) in *. split.
  - intros (i & Hi & Hin & Hle). match goal with |- context [existsb ?f ?l] => assert (existsb f l = true) as -> end; [|by eexists].
    apply (range_check m). exists (keyOf t i). split; [done|]. apply Hk. eauto.
  - intros Hall. match goal with |- context [existsb ?f ?l] => assert (existsb f l = false) as -> end.
    { apply not_true_iff_false. intros (id & Hid & Hs)%(range_check m). apply Hk in Hs as (i & Hi & Hin & <-). specialize (Hall i Hi Hin). lia. }
    assert (0 <= dquotsPerBlock sb < 2 ^ 32 /\ dquotsPerBlock sb * 136 <= blockSize sb) as [Hpb Hpl].
    { unfold dquotsPerBlock, dqBlkSize. rewrite Z.quot_div_nonneg by lia. pose proof (Z.mul_div_le (blockSize sb) 136 ltac:(lia)). pose proof (w_bs _ W). split; [split; [apply Z.div_pos; lia|apply Z.div_lt_upper_bound; lia]|lia]. }
    pose proof (zero_len (blockSize sb) ltac:(lia)) as L0.
    destruct (dquotBlock_loop sb t m (Z.to_nat (dquotsPerBlock sb)) 0 (make_bytes (blockSize sb)) (w_uuid _ W) (zero_bytes _)) as (b & Eb & Wb & Qb).
    { destruct Ht as [<-|[<-|[<-|[]]]]; vm_compute; split; congruence. }
    { lia. } { lia. } { lia. } { intros id. by apply (accounts_range (keyOf t) m ins). }
    pose proof (wrote_len _ _ _ _ Wb) as Lb. pose proof (wrote_bytes _ _ _ _ Wb (zero_bytes _)) as Bb.
    destruct (writeBlocksData_spec partOff sb W G Hp (startBlock e) 1 base b) with (w := w) as (d' & Ew & Er & _); [lia|done|lia|done|lia|by rewrite Z.mul_1_l|].
    exists d', b. unfold readD at 1. unfold mbind at 1, M_bind at 1. rewrite Hq. rewrite (bindM_lift _ _ _ _ He), (bindM_lift _ _ _ _ (Eb : dquotBlock sb t m _ = _)). split; [exact Ew|]. split.
    + rewrite Z.mul_1_l in Er. rewrite Er. unfold padded. rewrite Z.mul_1_l, Lb, L0, Z.sub_diag. unfold make_bytes. by rewrite app_nil_r.
    + intros id Hid. rewrite <- (Hu id). unfold dqBlkSize. apply Qb. lia.
Qed.
End Recompute.

(** One group of 16 blocks: the AGI in block 2, the inode B-tree in block 3, inode 8 (uid 2,
    seven blocks) and the quota inode 9 (dquots in block 10) in block 4. *)
Definition quota_sb : superblock :=
  {| blockSize := 512; sectorSize := 512; agBlocks := 16; agCount := 1; dBlocks := 16; rootIno := 8; inodeSize := 256; inopBlock := 2; inopBLog := 1; agBlkLog := 4;
     dirBlkLog := 0; hasCRC := true; hasFType := true; hasReflink := false; features2 := 0; quotaFlags := 1; uQuotino := 9; gQuotino := 0; pQuotino := 0;
     uuid := replicate 16 7; label := []; maxRead := 0 |}.
Definition quota_file : bytes := Eval vm_compute in bytesOf (
  b ← initInodeV3 (0, 0) (make_bytes 256) 8 0x81A4 1 (replicate 16 7); b ← put32 b inoOffUID 2; put64 b inoOffNBlocks 7).
Definition quota_inode : bytes := Eval vm_compute in bytesOf (
  b ← initInodeV3 (0, 0) (make_bytes 256) 9 0x8000 1 (replicate 16 7);
  i ← setInodeFormat (freshInode 9 0x8000 b) inodeFmtExtents;
  i ← setInodeNExtents i 1;
  i ← writeExtentList i [mkExtent 0 10 1 false];
  Ret (iraw i)).
Definition quota_image : memdev := Eval vm_compute in
  make_bytes 1024 ++ bytesOf (b ← put32 (make_bytes 512) agiOffMagic magicAGI; put32 b agiOffRoot 3) ++
  bytesOf (b ← put32 (make_bytes 512) 12 nullAgb; b ← put16 b 6 1; b ← put32 b 56 8; put64 b 64 0xFFFFFFFFFFFFFFFC) ++
  quota_file ++ quota_inode ++ make_bytes 5632.
Lemma quota_width : sb_width quota_sb.
Proof. constructor; cbn; try lia. split; [done|by apply (bool_decide_unpack _)]. Qed.
Lemma quota_geometry : geometry_ok quota_sb.
Proof. apply validateGeometry_iff; [exact quota_width|vm_compute; reflexivity]. Qed.
Definition quota_leaf : bytes := Eval vm_compute in slice quota_image 1536 512.
Lemma quota_leaf_records : leaf_records quota_sb quota_leaf [(8, 0xFFFFFFFFFFFFFFFC)].
Proof.
  split; [vm_compute; reflexivity|]. split; [vm_compute; congruence|]. intros [|[|i]] s f H; try discriminate H. injection H as <- <-. split; vm_compute; reflexivity.
Qed.
Lemma quota_chargeable : chargeableInodes 0 quota_sb quota_image [decodeInode 8 quota_file].
Proof.
  exists [[(8, 0xFFFFFFFFFFFFFFFC)]]. split; [reflexivity|]. split.
  - intros [|[|ag]] recs H; try discriminate H. injection H as <-. pose proof quota_leaf_records as R.
    assert (readAGBlock 0 quota_sb quota_image 0 3 = Ret quota_leaf) as E by (vm_compute; reflexivity).
    exists (slice quota_image 1024 512), 0%nat, [(3, [(8, 0xFFFFFFFFFFFFFFFC)])]. split; [vm_compute; reflexivity|]. split; [vm_compute; congruence|].
    change (dec 4 (slice quota_image 1024 512) agiOffRoot) with 3. split; [|split; [|split; [vm_compute; congruence|reflexivity]]].
    + exists quota_leaf. split; [exact E|]. split; [vm_compute; reflexivity|]. split; [discriminate|]. exists [(8, 0xFFFFFFFFFFFFFFFC)]. by split.
    + split; [|exact I]. exists quota_leaf. split; [exact E|]. split; [exact R|]. split; [discriminate|vm_compute; reflexivity].
  - assert (flat_map (recInos quota_sb) (tagged 0 [[(8, 0xFFFFFFFFFFFFFFFC)]]) = [8]) as -> by (vm_compute; reflexivity). constructor; [vm_compute; reflexivity|constructor].
Qed.
Lemma quota_charges_usage_witness :
  exists d' block, quotaWriteDquots 0 quota_sb 9 dqTypeUser {[2 := (7, 1)]} (initWorld quota_image) = (Ret tt, initWorld d') /\
    ReadAt d' 5120 512 = Ret block /\ dec 8 (slice block (2 * dqBlkSize) dqBlkSize) dqOffBCount = 7.
Proof.
  destruct (quota_charges_usage 0 quota_sb quota_width quota_geometry ltac:(lia) (initWorld quota_image) dqTypeUser 9
    [decodeInode 8 quota_file] (decodeInode 9 quota_inode) (mkExtent 0 10 1 false) [] 5120) as (a & Ea & _ & H).
  - left. reflexivity.
  - exact quota_chargeable.
  - vm_compute. reflexivity.
  - vm_compute. reflexivity.
  - vm_compute. reflexivity.
  - vm_compute. reflexivity.
  - eexists. vm_compute. reflexivity.
  - destruct H as (d' & block & E & R & Q).
    { intros i Hi _. revert i Hi. apply Forall_forall. apply (bool_decide_unpack _). vm_compute. exact I. }
    assert (quotaScan 0 quota_sb quota_image = Ret ({[2 := (7, 1)]}, {[0 := (7, 1)]}, {[0 := (7, 1)]})) as Es by (vm_compute; reflexivity).
    cbn [dev initWorld] in Ea. rewrite Es in Ea. injection Ea as <-. exists d', block. split_and!; [exact E|exact R|].
    rewrite (dq_blocks _ _ _ _ _ _ (Q 2 ltac:(vm_compute; split; congruence))). vm_compute. reflexivity.
Defined.
