(* ===== verification/Fs.v ===== *)
(** * The filesystem object (fs.go, label.go, partition.go, quota_setup.go, format.go)

    Opening an image, the public operations and what they do after a change, labels, growth,
    quota setup and [Format] as a whole.  The state is the world together with the partition
    offset and the superblock an open [xfsFS] holds; the read-write lock serialises the
    operations and is not modelled.  The capacity methods of [blockBackend] and the
    package go-volumes/gpt are interfaces. *)
From S2P Require Import Prelude Bytes Crc Extent Device Superblock SafeIO Inode FileRead Dir Lookup OpenFile AgBlocks AllocTree Alloc InodeAlloc Refcount FileWrite LeafDir DirUpdate Namespace Attr Quota Format.

(** [Sync], [Truncate] and [Size] of [blockBackend]. *)
Class Backend (D : Type) : Type := {
  bSync : D -> outcome unit * D;
  bTruncate : D -> Z -> outcome unit * D;
  bSize : D -> outcome Z
}.
(** What they promise: after a truncation the image has the new size, keeps what it had below
    it and can be read up to it; a write inside the image keeps its size; [Sync] changes
    nothing a read sees. *)
Class BackendLaws (D : Type) `{Device D} `{Backend D} : Prop := {
  bSize_truncate d n d' : bTruncate d n = (Ret tt, d') -> bSize d' = Ret n;
  bTruncate_keeps d n d' o k bs :
    bTruncate d n = (Ret tt, d') -> 0 <= k -> o + k <= n -> ReadAt d o k = Ret bs -> ReadAt d' o k = Ret bs;
  bTruncate_readable d n d' o k :
    bTruncate d n = (Ret tt, d') -> 0 <= o -> 0 <= k -> o + k <= n -> exists bs, ReadAt d' o k = Ret bs;
  bSize_write d off bs d' n :
    WriteAt d off bs = (Ret tt, d') -> bSize d = Ret n -> 0 <= off -> off + zlen bs <= n -> bSize d' = Ret n;
  bSync_keeps d o d' off n : bSync d = (o, d') -> ReadAt d' off n = ReadAt d off n
}.

(** ** Partitions: the shared parser is a parameter *)
Record gptPartition := mkPart { pStartOffset : Z; pIsMBR : bool; pMBRType : Z }.
Definition gptErrNotFound : xerr := Errorf "gpt: not found".
Definition gptErrNoTable : xerr := Errorf "gpt: no partition table".
Class GptParser (D : Type) : Type := {
  gptByIndex : D -> Z -> Z -> outcome gptPartition;
  gptByLinuxType : D -> Z -> outcome gptPartition;     (* ByType(..., LinuxFilesystemGUID) *)
  gptList : D -> Z -> outcome (list gptPartition)
}.
(** The parser reports the absence of a table on an image with neither a boot signature at
    byte 510 nor the "EFI " of a GPT header at byte 512. *)
Class GptLaws (D : Type) `{Device D} `{GptParser D} : Prop :=
  gpt_no_table d size b :
    ReadAt d 0 1024 = Ret b -> dec 2 b 510 <> 0x55AA -> dec 4 b 512 <> 0x45464920 -> gptByLinuxType d size = Fail gptErrNoTable.
Definition isMBRLinux (p : gptPartition) : bool := pIsMBR p && (pMBRType p =? 0x83).
Definition gptFirstLinux {D} `{GptParser D} (r : D) (deviceSize : Z) : outcome gptPartition :=
  parts ← gptList r deviceSize;
  match List.find isMBRLinux parts with
  | Some p => Ret p
  | None => match parts with p :: _ => Ret p | [] => Fail gptErrNotFound end
  end.
Definition partitionOffset {D} `{GptParser D} (r : D) (deviceSize partIndex : Z) : outcome Z :=
  if deviceSize <=? 0 then Ret 0
  else
    let p := if 0 <=? partIndex then gptByIndex r deviceSize partIndex
             else match gptByLinuxType r deviceSize with
                  | Fail e => if bool_decide (e = gptErrNotFound) then gptFirstLinux r deviceSize else Fail e
                  | o => o
                  end in
    match p with
    | Ret p => Ret (pStartOffset p)
    | Fail e => if bool_decide (e = gptErrNoTable) then Ret 0 else Fail e
    | Panic => Panic
    | NoFuel => NoFuel
    end.

(** ** The open filesystem *)
Record xfsFS (D : Type) := mkFS { fworld : World D; partOffset : Z; fsb : superblock }.
Arguments mkFS {D}.
Arguments fworld {D}.
Arguments partOffset {D}.
Arguments fsb {D}.

(** Superblock fields the object changes in place. *)
Definition set_geometry (sb : superblock) (db agc : Z) : superblock :=
  mkSB (blockSize sb) (sectorSize sb) (agBlocks sb) agc db (rootIno sb) (inodeSize sb) (inopBlock sb) (inopBLog sb)
    (agBlkLog sb) (dirBlkLog sb) (hasCRC sb) (hasFType sb) (hasReflink sb) (features2 sb) (quotaFlags sb)
    (uQuotino sb) (gQuotino sb) (pQuotino sb) (uuid sb) (label sb) (maxRead sb).
Definition set_label (sb : superblock) (l : bytes) : superblock :=
  mkSB (blockSize sb) (sectorSize sb) (agBlocks sb) (agCount sb) (dBlocks sb) (rootIno sb) (inodeSize sb) (inopBlock sb) (inopBLog sb)
    (agBlkLog sb) (dirBlkLog sb) (hasCRC sb) (hasFType sb) (hasReflink sb) (features2 sb) (quotaFlags sb)
    (uQuotino sb) (gQuotino sb) (pQuotino sb) (uuid sb) l (maxRead sb).
Definition set_quota (sb : superblock) (f u g p : Z) : superblock :=
  mkSB (blockSize sb) (sectorSize sb) (agBlocks sb) (agCount sb) (dBlocks sb) (rootIno sb) (inodeSize sb) (inopBlock sb) (inopBLog sb)
    (agBlkLog sb) (dirBlkLog sb) (hasCRC sb) (hasFType sb) (hasReflink sb) (features2 sb) f u g p (uuid sb) (label sb) (maxRead sb).
Definition setUQuotino (sb : superblock) (ino : Z) : superblock := set_quota sb (quotaFlags sb) ino (gQuotino sb) (pQuotino sb).
Definition setGQuotino (sb : superblock) (ino : Z) : superblock := set_quota sb (quotaFlags sb) (uQuotino sb) ino (pQuotino sb).
Definition setPQuotino (sb : superblock) (ino : Z) : superblock := set_quota sb (quotaFlags sb) (uQuotino sb) (gQuotino sb) ino.

Definition MaxLabelLen := 12.
Definition labelFieldOffset := 108.
(** One superblock sector with the label replaced. *)
Definition labelSector (sb : superblock) (b : bytes) (buf : bytes) : outcome bytes :=
  magic ← be32 buf sbOffMagic;
  failif (negb (magic =? magicSB)) (Errorf "SetLabel: bad magic");;
  buf ← clear_range buf labelFieldOffset (labelFieldOffset + MaxLabelLen);
  buf ← copy_to buf labelFieldOffset b;
  if hasCRC sb then updateCRC buf sbOffCRC sbCRCLen else Ret buf.

Definition growMinAGBlocks := 256.
(** The block counts of a [Grow]: [None] is "nothing to do". *)
Definition growPlan (sb : superblock) (newSizeBytes : Z) : outcome (option (Z * Z)) :=
  let bs := blockSize sb in
  guardP (negb (bs =? 0));;
  if negb (Z.rem newSizeBytes bs =? 0) then Fail (Errorf "grow: not a multiple of the block size")
  else
    let cur := if i64 (dBlocks sb) =? 0 then i64 (agCount sb * agBlocks sb) else i64 (dBlocks sb) in
    let new := Z.quot newSizeBytes bs in
    if new =? cur then Ret None
    else if new <? cur then Fail (Errorf "grow: shrink not supported")
    else
      guardP (negb (agBlocks sb =? 0));;
      if negb (Z.rem cur (agBlocks sb) =? 0) then Fail (Errorf "grow: current filesystem ends in a partial AG")
      else
        let agc := u32 (Z.quot (i64 (new + agBlocks sb - 1)) (agBlocks sb)) in
        let lastLen := i64 (new - i64 (u32 (agc - 1) * agBlocks sb)) in
        if lastLen <? growMinAGBlocks then Fail (Errorf "grow: final partial AG too small")
        else Ret (Some (new, agc)).

Section Fs.
Context {SIO : SafeIO} {D : Type} {Dev : Device D} {Bk : Backend D} {Gp : GptParser D}.
Variables (tfuel ofuel dfuel : nat) (now : Z -> Z * Z) (clk : Z * Z).
Let W := World D.
Let FS := xfsFS D.

(** A method body that leaves the superblock alone. *)
Definition onWorld {A} (f : Z -> superblock -> M W A) : M FS A := fun s =>
  let '(o, w') := f (partOffset s) (fsb s) (fworld s) in (o, mkFS w' (partOffset s) (fsb s)).
Definition onDevice {A} (f : D -> outcome A * D) : M W A := fun w =>
  let '(o, d') := f (dev w) in (o, set_dev d' w).
Definition getSB : M FS superblock := fun s => (Ret (fsb s), s).
Definition putSB (sb : superblock) : M FS unit := fun s => (Ret tt, mkFS (fworld s) (partOffset s) sb).

Definition OpenFromDevice (w : W) (partIndex : Z) : outcome FS :=
  let devSize := match bSize (dev w) with Ret n => n | _ => 0 end in
  off ← partitionOffset (dev w) devSize partIndex;
  sb ← readSuperblock (dev w) off;
  checkGeometryFitsDevice sb (i64 (devSize - off));;
  Ret (mkFS w off sb).

(** ** Reading *)
Definition ReadFile (p : bytes) : M FS bytes := onWorld (fun partOff sb => readD (fun r =>
  i ← pathLookup r partOff sb p;
  failif (negb (isRegular i)) (Errorf "not a regular file");;
  readFileData r partOff sb i)).
Definition ListDir (p : bytes) : M FS (list DirEntry) := onWorld (fun partOff sb => readD (fun r =>
  i ← pathLookup r partOff sb p;
  failif (negb (isDir i)) (Errorf "not a directory");;
  readDir r partOff sb i)).
Definition Stat (p : bytes) : M FS (Z * Z * Z) := onWorld (fun partOff sb => readD (fun r =>
  i ← pathLookup r partOff sb p;
  Ret (imode i, isize i, inum i))).
(** The last slash splits the path as given; without one both parts are empty. *)
Definition readLinkSplit (p : bytes) : bytes * bytes :=
  match pathSplit p with
  | ([], _) => ([], [])
  | (d, f) => (removelast d, f)
  end.
Definition ReadLink (p : bytes) : M FS bytes := onWorld (fun partOff sb => readD (fun r =>
  if bool_decide (p = [slash]) then Fail (Errorf "not a symbolic link")
  else
    let '(parentPath, name) := readLinkSplit p in
    let parentPath := if bool_decide (parentPath = []) then [slash] else parentPath in
    parentIn ← pathLookup r partOff sb parentPath;
    inoNum ← lookupInDir r partOff sb parentIn name;
    i ← readInode r partOff sb inoNum;
    failif (negb (isSymlink i)) (Errorf "not a symbolic link");;
    readSymlinkTarget r partOff sb i)).
Definition HasReflink : M FS bool := sb ← getSB; mret (hasReflink sb).
Definition Label : M FS bytes := sb ← getSB; mret (label sb).

(** ** Changing *)
Definition afterMutation (partOff : Z) (sb : superblock) (m : M W unit) : M W unit :=
  m;;
  syncSuperblockCounts partOff sb;;
  quotaRecompute partOff sb.
Definition mutate (f : Z -> superblock -> M W unit) : M FS unit :=
  onWorld (fun partOff sb => afterMutation partOff sb (f partOff sb)).
Definition WriteFile (p data : bytes) (perm : Z) : M FS unit :=
  mutate (fun partOff sb => writeFile partOff sb tfuel ofuel now clk p data perm).
Definition DeleteFile (p : bytes) : M FS unit := mutate (fun partOff sb => deleteFile partOff sb tfuel ofuel p).
Definition Reflink (src dst : bytes) : M FS unit :=
  mutate (fun partOff sb => reflinkFile partOff sb tfuel ofuel now clk src dst).
Definition Link (old new : bytes) : M FS unit := mutate (fun partOff sb => linkInode partOff sb tfuel ofuel clk old new).
Definition Truncate (p : bytes) (newSize : Z) : M FS unit :=
  if newSize <? 0 then failM (Errorf "truncate: negative size")
  else mutate (fun partOff sb => truncateInode partOff sb tfuel ofuel clk p newSize).
Definition Symlink (target link : bytes) : M FS unit :=
  mutate (fun partOff sb => symlinkInode partOff sb tfuel ofuel now clk target link).
Definition MkDir (p : bytes) (perm : Z) : M FS unit :=
  mutate (fun partOff sb => makeDir partOff sb tfuel ofuel now clk p perm).
Definition DeleteDir (p : bytes) : M FS unit := mutate (fun partOff sb => deleteDir partOff sb tfuel ofuel dfuel p).
Definition Rename (old new : bytes) : M FS unit :=
  mutate (fun partOff sb => renameEntry partOff sb tfuel ofuel dfuel old new).
Definition Chown (p : bytes) (uid gid : Z) : M FS unit := mutate (fun partOff sb => chownInode partOff sb clk p uid gid).
Definition Chmod (p : bytes) (perm : Z) : M FS unit := onWorld (fun partOff sb => chmodInode partOff sb clk p perm).
Definition Chtimes (p : bytes) (atime mtime : Z * Z) : M FS unit :=
  onWorld (fun partOff sb => chtimesInode partOff sb clk p atime mtime).

(** ** Labels *)
Definition SetLabel (l : bytes) : M FS unit :=
  if MaxLabelLen <? zlen l then failM (Errorf "label exceeds maximum")
  else
    onWorld (fun partOff sb =>
      for_accM (Z.to_nat (agCount sb)) 0 tt (fun ag _ =>
        let sbOff := i64 (partOff + agByteOffset sb ag) in
        buf ← readD (fun r => ReadAt r sbOff 512);
        buf ← lift (labelSector sb l buf);
        writeAt buf sbOff);;
      onDevice bSync);;
    sb ← getSB;
    putSB (set_label sb (trimRight label_pad l)).

(** ** Growth *)
Definition Grow (newSizeBytes : Z) : M FS unit :=
  sb ← getSB;
  pl ← lift (growPlan sb newSizeBytes);
  match pl with
  | None => mret tt
  | Some (newDBlocks, newAgCount) =>
      let cur := if i64 (dBlocks sb) =? 0 then i64 (agCount sb * agBlocks sb) else i64 (dBlocks sb) in
      onWorld (fun partOff _ => onDevice (fun d => bTruncate d (i64 (partOff + newSizeBytes))));;
      putSB (set_geometry sb (u64 newDBlocks) newAgCount);;
      onWorld (fun partOff sb =>
        for_accM (Z.to_nat newAgCount) 0 tt (fun ag _ =>
          if i64 (ag * agBlocks sb) <? cur then mret tt
          else
            fmtWriteAG sb ag (uuid sb);;
            fmtWriteSecondarySB sb partOff ag newAgCount (uuid sb) (label sb));;
        fmtWriteSuperblock sb newAgCount (uuid sb) (label sb);;
        onDevice bSync)
  end.
Definition GrowTo (newSizeBytes : Z) : M FS unit := Grow newSizeBytes.
Definition ErrShrinkUnsupported : xerr := Errorf "filesystem: shrink unsupported".
Definition Resize (newSizeBytes : Z) : M FS unit :=
  sb ← getSB;
  let cur := if i64 (dBlocks sb) =? 0 then i64 (agCount sb * agBlocks sb) else i64 (dBlocks sb) in
  if newSizeBytes <? i64 (cur * blockSize sb) then failM ErrShrinkUnsupported else Grow newSizeBytes.

(** ** Quota setup and formatting *)
Definition quotaInodeIf (on : bool) (dqType : Z) (set : superblock -> Z -> superblock) : M FS unit :=
  if on then
    ino ← onWorld (fun partOff sb => mkQuotaInode partOff sb tfuel ofuel now clk dqType);
    sb ← getSB;
    putSB (set sb ino)
  else mret tt.
Definition setupQuota (cfg : QuotaConfig) : M FS unit :=
  quotaInodeIf (qUser cfg) dqTypeUser setUQuotino;;
  quotaInodeIf (qGroup cfg) dqTypeGroup setGQuotino;;
  quotaInodeIf (qProject cfg) dqTypeProj setPQuotino;;
  sb ← getSB;
  putSB (set_quota sb (qflags cfg) (uQuotino sb) (gQuotino sb) (pQuotino sb));;
  onWorld (fun partOff sb =>
    buf ← lift (buildSuperblockBuffer sb (agCount sb) (uuid sb) (label sb));
    writeAt buf partOff;;
    syncSuperblockCounts partOff sb;;
    quotaRecompute partOff sb).

(** [Format] on the freshly created file [w]; [rnd] is what crypto/rand returns. *)
Definition Format (cfg : FormatConfig) (sizeBytes : Z) (rnd : outcome bytes) (w : W) : outcome FS * W :=
  if negb (Z.rem sizeBytes fmtBlockSize =? 0) then (Fail (Errorf "format: not a multiple of 4096"), w)
  else if sizeBytes <? fmtMinSize then (Fail (Errorf "format: too small"), w)
  else
    match (if bool_decide (cfgUUID cfg = replicate 16 0) then rnd else Ret (cfgUUID cfg)) with
    | Ret uu =>
        let sb := formatSB sizeBytes cfg uu in
        match (onDevice (fun d => bTruncate d sizeBytes);; formatImage sb now) w with
        | (Ret _, w') =>
            match OpenFromDevice w' (-1) with
            | Ret fs =>
                if isZero (cfgQuota cfg) then (Ret fs, fworld fs)
                else match setupQuota (cfgQuota cfg) fs with
                     | (Ret _, fs') => (Ret fs', fworld fs')
                     | (Fail e, fs') => (Fail e, fworld fs')
                     | (Panic, fs') => (Panic, fworld fs')
                     | (NoFuel, fs') => (NoFuel, fworld fs')
                     end
            | Fail e => (Fail e, w')
            | Panic => (Panic, w')
            | NoFuel => (NoFuel, w')
            end
        | (Fail e, w') => (Fail e, w')
        | (Panic, w') => (Panic, w')
        | (NoFuel, w') => (NoFuel, w')
        end
    | Fail e => (Fail e, w)
    | Panic => (Panic, w)
    | NoFuel => (NoFuel, w)
    end.
End Fs.
