(* ===== verification/ImageSpec.v ===== *)
(** * A formatted image as a whole: theorems

    Everything [formatImage] writes, as one list of separate zones; what the zones hold; and
    that [Format] hands out an open, empty filesystem whose allocation groups meet the
    contracts of the allocators. *)
From S2P Require Import Prelude Bytes Crc Writers Extent Device SparseDev Superblock SafeIO Inode FileRead Dir Lookup OpenFile AgBlocks Zones AllocTree Alloc AllocLeaf AllocSpec InodeAlloc InodeSpec Refcount FileWrite FileWriteSpec LeafDir DirUpdate Namespace Attr Quota Format FormatSpec SuperblockSpec FreshInode Fs.

(** ** Loops that write *)
Lemma writeSeq_app {D} {Dev : Device D} a b (w : World D) : writeSeq (a ++ b) w = (writeSeq a ≫= (fun _ => writeSeq b)) w.
Proof.
  revert w. induction a as [|[o x] a IH]; intros w; [done|]. cbn [app writeSeq]. rewrite bindM_assoc. apply bindM_ext. intros _ w'. apply IH.
Qed.
Lemma for_writes {D} {Dev : Device D} (P : Z -> list (Z * bytes) -> Prop) (f : Z -> M (World D) unit) n i :
  (forall k, i <= k < i + Z.of_nat n -> exists ws, P k ws /\ forall w, f k w = writeSeq ws w) ->
  exists wss, Forall2 P (seqZ i (Z.of_nat n)) wss /\ forall w, for_accM n i tt (fun k _ => f k) w = writeSeq (concat wss) w.
Proof.
  revert i. induction n as [|n IH]; intros i Hf.
  { exists []. split; [constructor|done]. }
  destruct (Hf i ltac:(lia)) as (ws & Hp & Ew). destruct (IH (i + 1)) as (wss & H2 & Ef); [intros k Hk; apply Hf; lia|].
  exists (ws :: wss). split; [rewrite seqZ_cons, Nat2Z.inj_succ, Z.pred_succ by lia; constructor; [done|by rewrite <- Z.add_1_r]|].
  intros w. cbn [for_accM concat]. rewrite writeSeq_app. apply bindM_cong; [apply Ew|]. intros [] w'. apply Ef.
Qed.
Definition zapart (a b : Z * bytes) : Prop := apartZ a.1 (zlen a.2) b.1 (zlen b.2).
Lemma FOP_app {A} (R : A -> A -> Prop) l k :
  ForallOrdPairs R l -> ForallOrdPairs R k -> (forall x y, x ∈ l -> y ∈ k -> R x y) -> ForallOrdPairs R (l ++ k).
Proof.
  intros Hl Hk. induction Hl as [|x l Hx Hl IH]; intros Hc; [done|]. cbn. constructor.
  - apply Forall_app. split; [done|]. apply Forall_forall. intros y Hy. apply Hc; [left|done].
  - apply IH. intros y z Hy Hz. apply Hc; [by right|done].
Qed.
(** Groups of zones in increasing order, each inside the region of its index. *)
Lemma concat_apart (inR : Z -> Z * bytes -> Prop) (Q : Z -> list (Z * bytes) -> Prop) (i n : Z) wss :
  (forall k k' z z', i <= k -> k < k' -> inR k z -> inR k' z' -> zapart z z') ->
  (forall k ws, i <= k -> Q k ws -> ForallOrdPairs zapart ws /\ Forall (inR k) ws) ->
  Forall2 Q (seqZ i n) wss -> ForallOrdPairs zapart (concat wss).
Proof.
  intros Hc HQ. destruct (decide (n <= 0)) as [Hn|Hn]; [rewrite (seqZ_nil i n) by lia; intros ->%Forall2_nil_inv_l; constructor|].
  replace n with (Z.of_nat (Z.to_nat n)) by lia. clear Hn. revert i wss Hc HQ. generalize (Z.to_nat n) as m. clear n.
  induction m as [|m IH]; intros i wss Hc HQ; [intros ->%Forall2_nil_inv_l; constructor|].
  rewrite seqZ_cons, Nat2Z.inj_succ, Z.pred_succ, <- Z.add_1_r by lia. intros (ws & wss' & Hq & H2 & ->)%Forall2_cons_inv_l. cbn [concat].
  destruct (HQ i ws ltac:(lia) Hq) as [Hf Hr].
  apply FOP_app; [done|apply (IH (i + 1)); [intros k k' z z' Hk; apply Hc; lia|intros k ws' Hk; apply HQ; lia|done]|].
  intros x y Hx (ws' & Hy & Hin)%list_elem_of_In%in_concat.
  apply list_elem_of_In, list_elem_of_lookup in Hy as [j Hj]. destruct (Forall2_lookup_r _ _ _ _ _ H2 Hj) as (k & Hk & Hq').
  apply lookup_seqZ in Hk as [-> Hk]. destruct (HQ (i + 1 + Z.of_nat j) ws' ltac:(lia) Hq') as [_ Hr']. rewrite Forall_forall in Hr, Hr'.
  eapply (Hc i); [lia| |by apply Hr|apply Hr'; by apply list_elem_of_In]. lia.
Qed.
Lemma concat_in {P : Z * bytes -> Prop} (inR : Z -> Z * bytes -> Prop) (Q : Z -> list (Z * bytes) -> Prop) i n wss :
  (forall k ws, i <= k < i + n -> Q k ws -> Forall (inR k) ws) -> (forall k z, i <= k < i + n -> inR k z -> P z) ->
  Forall2 Q (seqZ i n) wss -> Forall P (concat wss).
Proof.
  intros HQ HP H2. apply Forall_concat. rewrite Forall_forall. intros ws [j Hj]%list_elem_of_lookup. destruct (Forall2_lookup_r _ _ _ _ _ H2 Hj) as (k & Hk & Hq).
  apply lookup_seqZ in Hk as [-> Hk]. eapply Forall_impl; [apply (HQ (i + Z.of_nat j)); [lia|done]|]. intros z. apply HP. lia.
Qed.

(** ** The zones of an image *)
Record formattedFS (sb : superblock) : Prop := {
  ff_fmt : formatted sb;
  ff_isz : inodeSize sb = 512;
  ff_ipb : inopBlock sb = 8 /\ inopBLog sb = 3;
  ff_root : rootIno sb = fmtRootIno (agCount sb) (hasReflink sb);
  ff_full : dBlocks sb = agCount sb * 16384;
  ff_store : sb_storable sb (label sb)
}.
Lemma reparsed_readInode {D} {Dev : Device D} (d : D) p sb lbl ino : readInode d p (reparsed sb lbl) ino = readInode d p sb ino.
Proof. unfold readInode, inodeByteOff, inoShift, reparsed. cbn [agBlkLog inopBLog agBlocks blockSize inodeSize]. reflexivity. Qed.
Section Image.
Context (sb : superblock) (F : formattedFS sb).
Let F0 : formatted sb := ff_fmt _ F.
Let Hagc : 0 < agCount sb < 2 ^ 32.
Proof. pose proof (w_agc _ (fm_width _ F0)). pose proof (g_agc _ (fm_geom _ F0)). lia. Qed.

Lemma img_uuid : uuid_ok (uuid sb).
Proof. exact (w_uuid _ (fm_width _ F0)). Qed.
Lemma img_agLength ag : 0 <= ag < agCount sb -> agLength sb ag = 16384.
Proof.
  intros Ha. unfold agLength. rewrite (ff_full _ F), (fm_agb _ F0), Z.div_mul by lia.
  rewrite (proj2 (Z.eqb_neq _ _)) by lia. by rewrite (proj2 (Z.ltb_lt _ _)) by lia.
Qed.
(** Where the inode chunk and, before it, the reference-count root of group 0 are. *)
Lemma img_chunk : exists c, rootIno sb = c * 8 /\ 2568 <= c <= 2572 /\ (hasReflink sb = true -> refcountRoot (fmtAGLayoutFor 0 (agCount sb) true) = c - 1).
Proof. rewrite (ff_root _ F). destruct (hasReflink sb); eexists; (split; [unfold fmtRootIno, fmtInopBlock; reflexivity|split; [vm_compute; split; congruence|done]]). Qed.
Lemma img_slot slot : 0 <= slot < 64 -> inodeByteOff sb 0 (u64 (rootIno sb + slot)) = (rootIno sb + slot) * 512.
Proof.
  intros Hs. destruct img_chunk as (c & Er & Hc & _). destruct (ff_ipb _ F) as [Ei El]. pose proof (fm_width _ F0) as W. pose proof (fm_geom _ F0) as G.
  assert (inoShift sb = 17) as E17 by (unfold inoShift; rewrite (fm_abl _ F0), El; done).
  rewrite u64_small by lia. pose proof (Z.div_mod (rootIno sb + slot) 8 ltac:(lia)) as Dm. pose proof (Z.mod_pos_bound (rootIno sb + slot) 8 ltac:(lia)).
  set (q := (rootIno sb + slot) / 8) in *. set (m := (rootIno sb + slot) mod 8) in *. clearbody q m.
  assert (inoFromAGRel sb 0 (q * inopBlock sb + m) = rootIno sb + slot) as En by (rewrite inoFromAGRel_eq by (try done; rewrite ?E17, ?Ei; lia); rewrite Ei; lia).
  rewrite <- En at 1. rewrite (inodeByteOff_eq sb W G) by (rewrite ?E17, ?(fm_abl _ F0), ?Ei, ?(fm_agb _ F0), ?(fm_bs _ F0), ?(ff_isz _ F); lia).
  rewrite (fm_agb _ F0), (fm_bs _ F0), (ff_isz _ F). lia.
Qed.
Lemma img_logStart : fmtLogStartAbs (agCount sb) (hasReflink sb) = 8.
Proof. by destruct (hasReflink sb). Qed.

(** The four kinds of zones. *)
Definition agZone (k : Z) (z : Z * bytes) : Prop :=
  k * 2 ^ 26 + 512 <= z.1 /\
  (z.1 + zlen z.2 <= k * 2 ^ 26 + 16384 \/
   hasReflink sb = true /\ z.1 = k * 2 ^ 26 + refcountRoot (fmtAGLayoutFor k (agCount sb) (hasReflink sb)) * 4096 /\ zlen z.2 = 4096).
Definition slotZone (k : Z) (z : Z * bytes) : Prop := z.1 = (rootIno sb + k) * 512 /\ zlen z.2 = 512.
Definition sbZone (k : Z) (z : Z * bytes) : Prop := z.1 = k * 2 ^ 26 /\ zlen z.2 = 512.
Definition agPart (k : Z) (ws : list (Z * bytes)) : Prop :=
  let l := fmtAGLayoutFor k (agCount sb) (hasReflink sb) in
  exists agf agi agfl bno cnt inobt refc,
    ag_image sb k (agLength sb k) (fmtRootIno (agCount sb) (hasReflink sb)) l agf agi agfl bno cnt inobt refc /\
    ws = agWrites (k * 2 ^ 26) l agf agi agfl bno cnt inobt refc.
Definition slotPart (k : Z) (ws : list (Z * bytes)) : Prop :=
  exists b, ws = [((rootIno sb + k) * 512, b)] /\ zlen b = 512 /\ isbytes b /\ (k = 0 -> exists i, parseInode (rootIno sb) b = Ret i /\ empty_root i).
Definition sbPart (buf : bytes) (k : Z) (ws : list (Z * bytes)) : Prop := ws = [(k * 2 ^ 26, buf)].

Lemma agZone_end k z : 0 <= k -> agZone k z -> k * 2 ^ 26 + 512 <= z.1 /\ z.1 + zlen z.2 <= k * 2 ^ 26 + 2 ^ 26.
Proof.
  intros Hk [H1 [H2|(Hr & H2 & H3)]]; [lia|].
  destruct (layout_spec k (agCount sb) (hasReflink sb) Hk) as (_ & _ & _ & Hfs & Hrr). specialize (Hrr Hr). lia.
Qed.
Lemma agPart_ok k ws : 0 <= k -> agPart k ws -> ForallOrdPairs zapart ws /\ Forall (fun z => isbytes z.2) ws /\ Forall (agZone k) ws.
Proof. intros Hk (agf & agi & agfl & bno & cnt & inobt & refc & I & ->). exact (agWrites_ok sb k _ _ _ _ _ _ _ _ F0 Hk I). Qed.
(** The log's two sectors. *)
Lemma log_writes {D} {Dev : Device D} :
  exists h u, zlen h = 512 /\ zlen u = 512 /\ isbytes h /\ isbytes u /\
    forall w : World D, fmtWriteLog sb (agCount sb) w = writeSeq [(32768, h); (33280, u)] w.
Proof.
  assert (exists h, logHeader = Ret h /\ zlen h = 512 /\ isbytes h) as (h & Eh & Lh & Bh) by (eexists; split; [vm_compute; reflexivity|split; [reflexivity|apply (bool_decide_unpack _); vm_compute; exact I]]).
  assert (exists u, logUnmount = Ret u /\ zlen u = 512 /\ isbytes u) as (u & Eu & Lu & Bu) by (eexists; split; [vm_compute; reflexivity|split; [reflexivity|apply (bool_decide_unpack _); vm_compute; exact I]]).
  exists h, u. split_and!; [done..|]. intros w. unfold fmtWriteLog. rewrite img_logStart, (fm_bs _ F0), (bindM_lift _ _ _ _ Eh).
  change (i64 (8 * 4096)) with 32768. change (i64 (32768 + fmtSectorSize)) with 33280. cbn [writeSeq]. apply bindM_ext. intros _ w1. rewrite (bindM_lift _ _ _ _ Eu).
  by rewrite bindM_mret.
Qed.
Lemma formatImage_writes {D} {Dev : Device D} clk :
  exists wsA wsC h u buf wsS,
    Forall2 agPart (seqZ 0 (agCount sb)) wsA /\ Forall2 slotPart (seqZ 0 64) wsC /\ Forall2 (sbPart buf) (seqZ 0 (agCount sb)) wsS /\
    (zlen h = 512 /\ zlen u = 512 /\ isbytes h /\ isbytes u) /\
    (zlen buf = 512 /\ isbytes buf /\ dec 2 buf 510 = 0 /\ parseSuperblock buf = Ret (reparsed sb (label sb))) /\
    forall w : World D, formatImage sb clk w = writeSeq (concat wsA ++ concat wsC ++ [(32768, h); (33280, u)] ++ concat wsS) w.
Proof.
  pose proof img_uuid as Hu.
  destruct (for_writes (Dev := Dev) agPart (fun ag => fmtWriteAG sb ag (uuid sb)) (Z.to_nat (agCount sb)) 0) as (wsA & HA & EA).
  { intros k Hk. destruct (fmtWriteAG_writes (Dev := Dev) sb k (uuid sb) F0 Hu) as (agf & agi & agfl & bno & cnt & inobt & refc & I & E); [lia| |].
    { destruct (layout_spec k (agCount sb) (hasReflink sb) ltac:(lia)) as (_ & _ & _ & Hfs & _). rewrite img_agLength by lia. lia. }
    eexists. split; [|exact E]. unfold agPart. eauto 10. }
  destruct (for_writes (Dev := Dev) slotPart (fun slot => b ← lift (chunkSlot clk (rootIno sb) slot (uuid sb)); writeAt b (inodeByteOff sb 0 (u64 (rootIno sb + slot)))) 64 0) as (wsC & HC & EC).
  { intros k Hk. destruct (chunkSlot_spec clk (rootIno sb) k (uuid sb) Hu ltac:(lia)) as (b & Eb & Lb & Bb & Hroot). eexists. split; [exists b; split_and!; done|].
    intros w. rewrite (bindM_lift _ _ _ _ Eb), img_slot by lia. cbn [writeSeq]. by rewrite bindM_mret. }
  destruct (log_writes (Dev := Dev)) as (h & u & Lh & Lu & Bh & Bu & EL).
  destruct (build_stores sb (label sb) (ff_store _ F)) as (buf & Eb & Lb & Bb & V & Mb & M5 & Dz).
  destruct (for_writes (Dev := Dev) (sbPart buf) (fun ag => writeAt buf (agBase sb ag)) (Z.to_nat (agCount sb)) 0) as (wsS & HS & ES).
  { intros k Hk. eexists. split; [reflexivity|]. intros w. destruct (fmt_sectors sb F0 k ltac:(lia)) as (_ & _ & _ & -> & _). cbn [writeSeq]. by rewrite bindM_mret. }
  rewrite Z2Nat.id in HA, HS by lia. exists wsA, wsC, h, u, buf, wsS.
  split; [exact HA|]. split; [exact HC|]. split; [exact HS|]. split; [exact (conj Lh (conj Lu (conj Bh Bu)))|]. split.
  { exact (conj Lb (conj Bb (conj M5 (build_parses sb (label sb) buf (ff_store _ F) Bb Lb Mb Dz)))). }
  intros w. unfold formatImage. rewrite !writeSeq_app. apply bindM_cong; [apply EA|]. intros _ w1. rewrite writeSeq_app.
  apply bindM_cong; [apply EC|]. intros _ w2. rewrite writeSeq_app. apply bindM_cong; [apply EL|]. intros _ w3.
  unfold fmtWriteSuperblock. by rewrite (bindM_lift _ _ _ _ Eb).
Qed.

(** The zones are apart and inside the image. *)
Definition logZone (z : Z * bytes) : Prop := 32768 <= z.1 /\ z.1 + zlen z.2 <= 33792.
Lemma zones_apart x y :
  (exists k, 0 <= k < agCount sb /\ agZone k x) ->
  (exists k, 0 <= k < 64 /\ slotZone k y) \/ logZone y \/ (exists k, 0 <= k < agCount sb /\ sbZone k y) -> zapart x y.
Proof.
  intros (k & Hk & Zx) Hy. pose proof (agZone_end k x ltac:(lia) Zx) as E. destruct img_chunk as (c & Er & Hc & Hrc). unfold zapart, apartZ.
  destruct (decide (k = 0)) as [->|Hn].
  - destruct Zx as [Z1 [Z2|(Hr & Z2 & Z3)]]; [|specialize (Hrc Hr); rewrite Hr in Z2];
    destruct Hy as [(k' & Hk' & Y1 & Y2)|[[Y1 Y2]|(k' & Hk' & Y1 & Y2)]]; rewrite ?Er in *; lia.
  - destruct Hy as [(k' & Hk' & Y1 & Y2)|[[Y1 Y2]|(k' & Hk' & Y1 & Y2)]]; rewrite ?Er in *; lia.
Qed.
Lemma slots_apart x y :
  (exists k, 0 <= k < 64 /\ slotZone k x) -> logZone y \/ (exists k, 0 <= k < agCount sb /\ sbZone k y) -> zapart x y.
Proof.
  intros (k & Hk & X1 & X2) Hy. destruct img_chunk as (c & Er & Hc & _). unfold zapart, apartZ.
  destruct Hy as [[Y1 Y2]|(k' & Hk' & Y1 & Y2)]; rewrite ?Er in *; lia.
Qed.
Lemma log_apart x y : logZone x -> (exists k, 0 <= k < agCount sb /\ sbZone k y) -> zapart x y.
Proof. intros [X1 X2] (k & Hk & Y1 & Y2). unfold zapart, apartZ. lia. Qed.

Section Zones.
Context (wsA wsC wsS : list (list (Z * bytes))) (h u buf : bytes).
Context (HA : Forall2 agPart (seqZ 0 (agCount sb)) wsA) (HC : Forall2 slotPart (seqZ 0 64) wsC) (HS : Forall2 (sbPart buf) (seqZ 0 (agCount sb)) wsS).
Context (Hlog : zlen h = 512 /\ zlen u = 512 /\ isbytes h /\ isbytes u) (Hbuf : zlen buf = 512 /\ isbytes buf).
Let all := concat wsA ++ concat wsC ++ [(32768, h); (33280, u)] ++ concat wsS.

Lemma slotPart_in k ws : slotPart k ws -> Forall (slotZone k) ws.
Proof. intros (b & -> & Lb & _). repeat constructor. done. Qed.
Lemma sbPart_in k ws : sbPart buf k ws -> Forall (sbZone k) ws.
Proof. intros ->. repeat constructor. apply Hbuf. Qed.
Lemma inA : Forall (fun z => exists k, 0 <= k < agCount sb /\ agZone k z) (concat wsA).
Proof. apply (concat_in agZone agPart 0 (agCount sb)); [intros k ws Hk P; apply (agPart_ok k ws); [lia|done]|intros k z Hk Hz; exists k; split; [lia|done]|done]. Qed.
Lemma inC : Forall (fun z => exists k, 0 <= k < 64 /\ slotZone k z) (concat wsC).
Proof. apply (concat_in slotZone slotPart 0 64); [intros k ws Hk P; by apply slotPart_in|intros k z Hk Hz; exists k; split; [lia|done]|done]. Qed.
Lemma inS : Forall (fun z => exists k, 0 <= k < agCount sb /\ sbZone k z) (concat wsS).
Proof. apply (concat_in sbZone (sbPart buf) 0 (agCount sb)); [intros k ws Hk P; by apply sbPart_in|intros k z Hk Hz; exists k; split; [lia|done]|done]. Qed.
Lemma inL : Forall logZone [(32768, h); (33280, u)].
Proof. destruct Hlog as (L1 & L2 & _). repeat constructor; cbn [fst snd]; lia. Qed.

Lemma all_apart : ForallOrdPairs zapart all.
Proof.
  pose proof inA as IA. pose proof inC as IC. pose proof inS as IS. pose proof inL as IL. rewrite Forall_forall in IA, IC, IS, IL.
  apply FOP_app; [|apply FOP_app; [|apply FOP_app|]|].
  - apply (concat_apart agZone agPart 0 (agCount sb)); [|intros k ws Hk P; destruct (agPart_ok k ws Hk P) as (? & _ & ?); done|done].
    intros k k' z z' Hi Hk Z1 Z2. apply agZone_end in Z1, Z2; [|lia..]. unfold zapart, apartZ. lia.
  - apply (concat_apart slotZone slotPart 0 64); [|intros k ws Hk P; split; [destruct P as (b & -> & _); repeat constructor|by apply slotPart_in]|done].
    intros k k' z z' Hi Hk [Z1 Z2] [Z3 Z4]. unfold zapart, apartZ. lia.
  - destruct Hlog as (L1 & _). repeat constructor. unfold zapart, apartZ. cbn [fst snd]. lia.
  - apply (concat_apart sbZone (sbPart buf) 0 (agCount sb)); [|intros k ws Hk P; split; [rewrite P; repeat constructor|by apply sbPart_in]|done].
    intros k k' z z' Hi Hk [Z1 Z2] [Z3 Z4]. unfold zapart, apartZ. lia.
  - intros x y Hx Hy. apply log_apart; auto.
  - intros x y Hx Hy. apply slots_apart; [auto|]. apply elem_of_app in Hy as [Hy|Hy]; auto.
  - intros x y Hx Hy. apply zones_apart; [auto|]. rewrite !elem_of_app in Hy. destruct Hy as [Hy|[Hy|Hy]]; auto.
Qed.
Lemma all_bytes : Forall (fun z => isbytes z.2) all.
Proof.
  destruct Hlog as (_ & _ & B1 & B2). destruct Hbuf as [_ B3]. unfold all. rewrite !Forall_app. split_and!; [| |repeat constructor; done|].
  - apply (concat_in (fun _ z => isbytes z.2) agPart 0 (agCount sb)); [intros k ws Hk P; apply (agPart_ok k ws); [lia|done]|done|done].
  - apply (concat_in (fun _ z => isbytes z.2) slotPart 0 64); [intros k ws Hk (b & -> & _ & Hb & _); by repeat constructor|done|done].
  - apply (concat_in (fun _ z => isbytes z.2) (sbPart buf) 0 (agCount sb)); [intros k ws Hk ->; by repeat constructor|done|done].
Qed.
Lemma all_inside : Forall (fun z => 0 <= z.1 /\ z.1 + zlen z.2 <= agCount sb * 2 ^ 26) all.
Proof.
  destruct img_chunk as (c & Er & Hc & _). unfold all. rewrite !Forall_app. split_and!.
  - eapply Forall_impl; [exact inA|]. intros z (k & Hk & Hz). apply agZone_end in Hz; [|lia]. cbv beta. lia.
  - eapply Forall_impl; [exact inC|]. intros z (k & Hk & Z1 & Z2). cbv beta. lia.
  - eapply Forall_impl; [exact inL|]. intros z [Z1 Z2]. cbv beta. lia.
  - eapply Forall_impl; [exact inS|]. intros z (k & Hk & Z1 & Z2). cbv beta. lia.
Qed.
End Zones.

(** What the whole of [formatImage] leaves on the image, as the superblock [sb'] that is read
    back from it sees it. *)
Let sb' := reparsed sb (label sb).
Lemma reparsed_formatted : formatted sb'.
Proof. destruct F0 as [W G ? ? ? ? ?]. constructor; try done; [destruct W|destruct G]; by constructor. Qed.
Lemma reparsed_image ag L root l agf agi agfl bno cnt inobt refc :
  ag_image sb ag L root l agf agi agfl bno cnt inobt refc -> ag_image sb' ag L root l agf agi agfl bno cnt inobt refc.
Proof.
  assert (forall b recs, leaf_view sb b recs -> leaf_view sb' b recs) as V by (intros b recs []; by constructor).
  intros [? ? ? [B1 B2] [C1 C2] (N1 & N2 & N3) ?]. constructor; try done; [split; [by apply V|done]..|]. split_and!; [|done|done]. by destruct N1.
Qed.
Record image_view {D} {Dev : Device D} (d : D) : Prop := {
  iv_ag ag : 0 <= ag < agCount sb -> agContract sb' ag d;
  iv_sb : exists buf, parseSuperblock buf = Ret sb' /\ forall ag, 0 <= ag < agCount sb -> ReadAt d (ag * 2 ^ 26) 512 = Ret buf;
  iv_root : exists root, readInode d 0 sb' (rootIno sb) = Ret root /\ empty_root root;
  iv_bare : exists b, ReadAt d 0 1024 = Ret b /\ dec 2 b 510 = 0 /\ dec 4 b 512 = magicAGF
}.
Lemma concat_zone {Q : Z -> list (Z * bytes) -> Prop} {P : Z * bytes -> Prop} n wss k ws : Forall2 Q (seqZ 0 n) wss -> Forall P (concat wss) -> 0 <= k < n ->
  wss !! Z.to_nat k = Some ws -> Q k ws /\ Forall P ws.
Proof.
  intros H2 Hf Hk Hw. destruct (Forall2_lookup_r _ _ _ _ _ H2 Hw) as (k' & Hk' & Hq). apply lookup_seqZ in Hk' as [-> _].
  rewrite Z2Nat.id, Z.add_0_l in Hq by lia. split; [done|]. apply Forall_concat in Hf. rewrite Forall_forall in Hf. apply Hf. by apply list_elem_of_lookup_2 in Hw.
Qed.
Lemma zone_of {Q : Z -> list (Z * bytes) -> Prop} n wss k : Forall2 Q (seqZ 0 n) wss -> 0 <= k < n -> exists ws, wss !! Z.to_nat k = Some ws.
Proof. intros H2 Hk. apply lookup_lt_is_Some_2. rewrite <- (Forall2_length _ _ _ H2), length_seqZ. lia. Qed.

(** Writing inside a readable range leaves it readable. *)
Lemma write_within {D} {Dev : Device D} {DL : DeviceLaws D} (d d' : D) a n old o b :
  ReadAt d a n = Ret old -> isbytes b -> WriteAt d o b = (Ret tt, d') -> a <= o -> o + zlen b <= a + n -> exists new, ReadAt d' a n = Ret new.
Proof.
  intros Hr Hb Hw Ho Hn. pose proof (zlen_nonneg b). pose proof (ReadAt_write _ _ _ _ Hb Hw) as R2.
  pose proof (ReadAt_sub d a n old 0 (o - a) Hr ltac:(lia) ltac:(lia) ltac:(lia)) as R1. rewrite Z.add_0_r in R1.
  pose proof (ReadAt_sub d a n old (o + zlen b - a) (a + n - (o + zlen b)) Hr ltac:(lia) ltac:(lia) ltac:(lia)) as R3.
  replace (a + (o + zlen b - a)) with (o + zlen b) in R3 by lia.
  apply (ReadAt_write_other _ _ _ _ _ _ _ Hw) in R1; [|lia..]. apply (ReadAt_write_other _ _ _ _ _ _ _ Hw) in R3; [|lia..].
  replace o with (a + (o - a)) in R2 by lia. pose proof (ReadAt_join d' a (o - a) (zlen b) _ _ ltac:(lia) ltac:(lia) R1 R2) as R12.
  set (m := a + n - (o + zlen b)) in *. replace (o + zlen b) with (a + (o - a + zlen b)) in R3 by lia.
  pose proof (ReadAt_join d' a (o - a + zlen b) m _ _ ltac:(lia) ltac:(lia) R12 R3) as R. replace (o - a + zlen b + m) with n in R by (unfold m; lia). by eexists.
Qed.
Lemma writeSeq_readable {D} {Dev : Device D} {DL : DeviceLaws D} n ws (w w' : World D) :
  Forall (fun z => isbytes z.2) ws -> Forall (fun z => 0 <= z.1 /\ z.1 + zlen z.2 <= n) ws -> writeSeq ws w = (Ret tt, w') ->
  (exists old, ReadAt (dev w) 0 n = Ret old) -> exists new, ReadAt (dev w') 0 n = Ret new.
Proof.
  revert w. induction ws as [|[o b] ws IH]; intros w Hb Hz; [intros [= <-]; done|]. apply Forall_cons in Hz as [[H1 H2] Hz], Hb as [B1 Hb]. cbn [fst snd writeSeq] in *.
  unfold mbind, M_bind, writeAt. destruct (WriteAt (dev w) o b) as [[[]| | |] d1] eqn:E; try done. intros Hw [old Ho].
  apply (IH _ Hb Hz Hw). eapply (write_within (dev w) d1 0 n old o b Ho B1 E); lia.
Qed.
Lemma formatImage_spec {D} {Dev : Device D} {DL : DeviceLaws D} {DR : DeviceReliable D} clk (w : World D) old :
  ReadAt (dev w) 0 (agCount sb * 2 ^ 26) = Ret old ->
  exists d' ws, formatImage sb clk w = (Ret tt, set_dev d' w) /\ image_view d' /\
    writeSeq ws w = (Ret tt, set_dev d' w) /\ Forall (fun z => 0 <= z.1 /\ z.1 + zlen z.2 <= agCount sb * 2 ^ 26) ws /\
    exists all, ReadAt d' 0 (agCount sb * 2 ^ 26) = Ret all.
Proof.
  intros Hold. destruct (formatImage_writes (Dev := Dev) clk) as (wsA & wsC & h & u & buf & wsS & HA & HC & HS & Hlog & (Lb & Bb & M5 & Hp) & E).
  pose proof (all_apart wsA wsC wsS h u buf HA HC HS Hlog (conj Lb Bb)) as Ap. pose proof (all_bytes wsA wsC wsS h u buf HA HC HS Hlog (conj Lb Bb)) as Bs.
  pose proof (all_inside wsA wsC wsS h u buf HA HC HS Hlog (conj Lb Bb)) as Is.
  destruct (writeSeq_spec _ w Ap Bs) as (d' & Ew & Hr & _).
  { eapply Forall_impl; [exact Is|]. intros z [Z1 Z2]. eexists. rewrite <- (Z.add_0_l z.1). apply (ReadAt_sub (dev w) 0 _ old _ _ Hold); [lia|apply zlen_nonneg|lia]. }
  exists d', (concat wsA ++ concat wsC ++ [(32768, h); (33280, u)] ++ concat wsS). rewrite E. split; [exact Ew|]. split; [|split; [exact Ew|split; [exact Is|eapply (writeSeq_readable _ _ w (set_dev d' w) Bs Is Ew); by eexists]]].
  apply Forall_app in Hr as [RA Hr]. apply Forall_app in Hr as [RC Hr]. apply Forall_app in Hr as [_ RS].
  assert (forall ag, 0 <= ag < agCount sb -> ReadAt d' (ag * 2 ^ 26) 512 = Ret buf) as Rsb.
  { intros ag Hag. destruct (zone_of _ _ ag HS Hag) as [ws Hw]. destruct (concat_zone _ _ ag ws HS RS Hag Hw) as [-> Hz]. apply Forall_cons in Hz as [Hz _]. cbn [fst snd] in Hz. by rewrite Lb in Hz. }
  constructor.
  - intros ag Hag. destruct (zone_of _ _ ag HA Hag) as [ws Hw]. destruct (concat_zone _ _ ag ws HA RA Hag Hw) as [(agf & agi & agfl & bno & cnt & inobt & refc & I & ->) Hz].
    eapply (ag_image_contract sb'); [exact reparsed_formatted|exact Hag| |exact (reparsed_image _ _ _ _ _ _ _ _ _ _ _ I)|exact Hz].
    change (agLength sb' ag) with (agLength sb ag). change (agCount sb') with (agCount sb). change (hasReflink sb') with (hasReflink sb).
    destruct (layout_spec ag (agCount sb) (hasReflink sb) ltac:(lia)) as (_ & _ & _ & Hfs & _). rewrite img_agLength by lia. lia.
  - exists buf. split; [exact Hp|exact Rsb].
  - destruct (zone_of _ _ 0 HC ltac:(lia)) as [ws Hw]. destruct (concat_zone _ _ 0 ws HC RC ltac:(lia) Hw) as [(b & -> & L & _ & Hi) Hz].
    destruct (Hi eq_refl) as (i & Ei & Hroot). apply Forall_cons in Hz as [Hz _]. cbn [fst snd] in Hz. rewrite L in Hz. exists i. split; [|exact Hroot].
    pose proof (w_ri _ (fm_width _ F0)). pose proof (img_slot 0 ltac:(lia)) as Eo. rewrite Z.add_0_r, u64_small in Eo by lia. rewrite Z.add_0_r in Hz.
    unfold sb'. rewrite reparsed_readInode. unfold readInode, readBytes. rewrite Eo, (ff_isz _ F), Hz. exact Ei.
  - destruct (zone_of _ _ 0 HA ltac:(lia)) as [ws Hw]. destruct (concat_zone _ _ 0 ws HA RA ltac:(lia) Hw) as [(agf & agi & agfl & bno & cnt & inobt & refc & I & ->) Hz].
    destruct (ai_agf _ _ _ _ _ _ _ _ _ _ _ _ I) as (Lf & _ & Mf & _). apply Forall_cons in Hz as [Hz _]. cbn [fst snd] in Hz. rewrite Lf in Hz.
    specialize (Rsb 0 ltac:(lia)). exists (buf ++ agf). change (0 * 2 ^ 26) with 0 in *. split; [exact (ReadAt_join d' 0 512 512 buf agf ltac:(lia) ltac:(lia) Rsb Hz)|].
    split; [rewrite <- M5|rewrite <- Mf]; unfold dec; f_equal; unfold slice.
    + rewrite drop_app_le, take_app_le by (rewrite ?length_drop; zl). done.
    + rewrite drop_app_ge by zl. do 2 f_equal. zl.
Qed.
End Image.

(** ** Opening what was formatted *)
Lemma formatSB_fs size cfg uu :
  fmtMinSize <= size < 2 ^ 58 -> uuid_ok uu -> isbytes (cfgLabel cfg) ->
  let sb := formatSB size cfg uu in formattedFS sb /\ agCount sb = size / 2 ^ 26.
Proof.
  intros Hs Hu Hl sb. pose proof (formatSB_storable size cfg uu Hs Hu Hl) as S. fold sb in S.
  split; [constructor; [constructor|..]; try done; apply S|].
  unfold sb, formatSB. cbn [agCount]. change fmtMinSize with (2 ^ 26) in *. rewrite Z.quot_div_nonneg by lia.
  apply u32_small. split; [apply Z.div_pos; lia|apply Z.div_lt_upper_bound; lia].
Qed.
Lemma writeSeq_size {D} {Dev : Device D} {Bk : Backend D} {BL : BackendLaws D} n ws (w w' : World D) :
  Forall (fun z => 0 <= z.1 /\ z.1 + zlen z.2 <= n) ws -> bSize (dev w) = Ret n -> writeSeq ws w = (Ret tt, w') -> bSize (dev w') = Ret n.
Proof.
  revert w. induction ws as [|[o b] ws IH]; intros w Hz Hn; [by intros [= <-]|]. apply Forall_cons in Hz as [[H1 H2] Hz]. cbn [fst snd writeSeq] in *.
  unfold mbind, M_bind, writeAt. destruct (WriteAt (dev w) o b) as [[[]| | |] d1] eqn:E; try done. intros Hw.
  apply (IH _ Hz) in Hw; [done|]. by eapply bSize_write.
Qed.
Section Open.
Context {SIO : SafeIO} {D : Type} {Dev : Device D} {DL : DeviceLaws D} {DR : DeviceReliable D} {Bk : Backend D} {BL : BackendLaws D} {Gp : GptParser D} {GL : GptLaws D}.

Lemma open_bare (w : World D) size b sb :
  0 < size < 2 ^ 63 -> bSize (dev w) = Ret size -> ReadAt (dev w) 0 1024 = Ret b -> dec 2 b 510 <> 0x55AA -> dec 4 b 512 <> 0x45464920 ->
  readSuperblock (dev w) 0 = Ret sb -> checkGeometryFitsDevice sb size = Ret tt ->
  OpenFromDevice w (-1) = Ret (mkFS w 0 sb).
Proof.
  intros Hs Hz Hb H1 H2 Hsb Hc. unfold OpenFromDevice. rewrite Hz. unfold partitionOffset.
  rewrite (proj2 (Z.leb_gt size 0)) by lia. cbn [Z.leb]. rewrite (gpt_no_table _ size b Hb H1 H2). change (0 <=? -1) with false. cbv iota.
  rewrite (bool_decide_eq_false_2 (gptErrNoTable = gptErrNotFound)), (bool_decide_eq_true_2 (gptErrNoTable = gptErrNoTable)) by done. ostep.
  rewrite Hsb, Z.sub_0_r, i64_small by lia. ostep. rewrite Hc. done.
Qed.
(** The root directory of a fresh image is empty. *)
Lemma lists_empty (w : World D) sb root :
  readInode (dev w) 0 sb (rootIno sb) = Ret root -> empty_root root -> ListDir [slash] (mkFS w 0 sb) = (Ret [], mkFS w 0 sb).
Proof.
  intros Hr (Hd & Hf & _ & _ & fork & Ef & Lf & D0 & D1). unfold ListDir, onWorld, readD. cbn [partOffset fsb fworld].
  assert (pathLookup (dev w) 0 sb [slash] = Ret root) as -> by (unfold pathLookup; change (Z.to_nat (maxSymlinkDepth + 1)) with (S (Z.to_nat maxSymlinkDepth)); cbn [pathLookupResolve]; rewrite Hr; reflexivity).
  ostep. rewrite Hd. ostep. unfold readDir. rewrite Hf. cbn [Z.eqb inodeFmtLocal]. change (inodeFmtLocal =? inodeFmtLocal) with true. cbv iota. rewrite Ef. ostep.
  unfold sfReadDir. rewrite (proj2 (Z.ltb_ge (zlen fork) 6)), !byte_at_ok, D0, D1 by lia. ostep. done.
Qed.

(** What [Format] leaves on the image and hands out. *)
Lemma format_image (tfuel ofuel : nat) (now : Z -> Z * Z) (clk : Z * Z) (cfg : FormatConfig) (size : Z) (rnd : outcome bytes) (uu : bytes) (w : World D) (d0 : D) :
  size mod 4096 = 0 -> fmtMinSize <= size < 2 ^ 58 ->
  (if bool_decide (cfgUUID cfg = replicate 16 0) then rnd else Ret (cfgUUID cfg)) = Ret uu -> uuid_ok uu -> isbytes (cfgLabel cfg) ->
  isZero (cfgQuota cfg) = true -> bTruncate (dev w) size = (Ret tt, d0) ->
  let sb0 := formatSB size cfg uu in let sb := reparsed sb0 (label sb0) in
  exists d', Format tfuel ofuel now clk cfg size rnd w = (Ret (mkFS (set_dev d' w) 0 sb), set_dev d' w) /\
    formattedFS sb0 /\ agCount sb0 = size / 2 ^ 26 /\ image_view sb0 d' /\ exists all, ReadAt d' 0 (agCount sb0 * 2 ^ 26) = Ret all.
Proof.
  intros Hm Hs Hu Huu Hl Hq Ht. destruct (formatSB_fs size cfg uu Hs Huu Hl) as [FF Ea]. cbv zeta in FF, Ea |- *. set (sb0 := formatSB size cfg uu) in *.
  assert (0 < agCount sb0 * 2 ^ 26 <= size) as Hfit.
  { change fmtMinSize with (2 ^ 26) in Hs. rewrite Ea. pose proof (Z.mul_div_le size (2 ^ 26) ltac:(lia)). pose proof (Z.div_le_lower_bound size (2 ^ 26) 1 ltac:(lia) ltac:(lia)). lia. }
  destruct (bTruncate_readable (dev w) size d0 0 (agCount sb0 * 2 ^ 26) Ht) as [old Hold]; [lia..|].
  destruct (formatImage_spec sb0 FF now (set_dev d0 w) old Hold) as (d' & ws & Ef & Iv & Ew & Hws & Hall).
  pose proof Iv as [_ (buf & Hp & Rb) _ (b & Hb & B1 & B2)].
  exists d'. set (sb := reparsed sb0 (label sb0)) in *.
  pose proof (bSize_truncate _ _ _ Ht) as Hsz.
  assert (bSize d' = Ret size) as Hsz'.
  { apply (writeSeq_size size ws (set_dev d0 w) _) in Ew; [done| |done]. eapply Forall_impl; [exact Hws|]. intros z [Z1 Z2]. cbv beta. lia. }
  assert (readSuperblock d' 0 = Ret sb) as Hsb by (unfold readSuperblock, readBytes; rewrite (Rb 0 ltac:(lia) : ReadAt d' 0 512 = _); exact Hp).
  assert (OpenFromDevice (set_dev d' w) (-1) = Ret (mkFS (set_dev d' w) 0 sb)) as Eo.
  { apply (open_bare _ size b); try done; [lia|rewrite B1; done|rewrite B2; done|]. unfold checkGeometryFitsDevice.
    change (agCount sb) with (agCount sb0). change (agBlocks sb) with 16384. change (blockSize sb) with 4096.
    assert (agCount sb0 < 2 ^ 32) by (rewrite Ea; apply Z.div_lt_upper_bound; lia).
    rewrite (proj2 (Z.leb_gt size 0)), (proj2 (Z.eqb_neq _ 0)) by lia. ostep.
    rewrite u32_small, u64_small by lia. rewrite (proj2 (Z.ltb_ge _ _)); [done|]. apply Z.div_le_lower_bound; lia. }
  split_and!; [|exact FF|exact Ea|exact Iv|exact Hall].
  unfold Format. rewrite Z.rem_mod_nonneg by (unfold fmtBlockSize; lia). change fmtBlockSize with 4096. rewrite Hm. cbn [Z.eqb negb]. rewrite (proj2 (Z.ltb_ge _ _)) by lia. rewrite Hu.
  fold sb0. assert ((onDevice (fun d => bTruncate d size);; formatImage sb0 now) w = (Ret tt, set_dev d' w)) as ->.
  { unfold mbind, M_bind, onDevice. rewrite Ht. exact Ef. }
  rewrite Eo, Hq. done.
Qed.

(** C4 (functional).  [Format] delivers a usable filesystem.  For every size of whole blocks
    from one allocation group up, on every backend, it succeeds; the filesystem it
    returns, opened from the image it wrote, has the formatted geometry, UUID and label;
    every allocation group meets what the block, inode and reference-count
    routines assume; every group carries the same superblock sector; and the root
    directory lists as empty. *)
Theorem format_opens (tfuel ofuel : nat) (now : Z -> Z * Z) (clk : Z * Z) (cfg : FormatConfig) (size : Z) (rnd : outcome bytes) (uu : bytes) (w : World D) (d0 : D) :
  size mod 4096 = 0 -> fmtMinSize <= size < 2 ^ 58 ->
  (if bool_decide (cfgUUID cfg = replicate 16 0) then rnd else Ret (cfgUUID cfg)) = Ret uu -> uuid_ok uu -> isbytes (cfgLabel cfg) ->
  isZero (cfgQuota cfg) = true -> bTruncate (dev w) size = (Ret tt, d0) ->
  exists d', let sb := reparsed (formatSB size cfg uu) (take 12 (cfgLabel cfg)) in let fs := mkFS (set_dev d' w) 0 sb in
    Format tfuel ofuel now clk cfg size rnd w = (Ret fs, set_dev d' w) /\
    agCount sb = size / 2 ^ 26 /\ uuid sb = uu /\ label sb = trimRight label_pad (take 12 (cfgLabel cfg)) /\
    (forall ag, 0 <= ag < agCount sb -> agContract sb ag d') /\
    (exists buf, parseSuperblock buf = Ret sb /\ forall ag, 0 <= ag < agCount sb -> ReadAt d' (ag * 2 ^ 26) 512 = Ret buf) /\
    ListDir [slash] fs = (Ret [], fs).
Proof.
  intros Hm Hs Hu Huu Hl Hq Ht. destruct (format_image tfuel ofuel now clk cfg size rnd uu w d0 Hm Hs Hu Huu Hl Hq Ht) as (d' & Ef & _ & Ea & [Iag (buf & Hp & Rb) (root & Hr & He) _] & _).
  exists d'. cbv zeta. change (take 12 (cfgLabel cfg)) with (label (formatSB size cfg uu)).
  split_and!; [exact Ef|exact Ea|reflexivity|reflexivity|exact Iag|exists buf; split; [exact Hp|exact Rb]|exact (lists_empty (set_dev d' w) _ root Hr He)].
Qed.
End Open.

(** ** Sparse images as backends *)
#[export] Instance sparsedev_backend : Backend sparsedev := {|
  bSync := fun d => (Ret tt, d);
  bTruncate := fun d n => if n <? 0 then (Fail ErrIO, d) else (Ret tt, mkSparse n (fun x => if x <? spsize d then spbyte d x else 0));
  bSize := fun d => Ret (spsize d)
|}.
#[export] Instance sparsedev_backend_laws : BackendLaws sparsedev.
Proof.
  split; cbn [bSync bTruncate bSize sparsedev_backend ReadAt WriteAt sparsedev_device].
  - intros d n d'. destruct (n <? 0); [done|]. by intros [= <-].
  - intros d n d' o k bs. destruct (Z.ltb_spec n 0); [done|]. intros [= <-] Hk Hle (H1 & H2 & H3 & ->)%sp_ReadAt_Ret. apply sp_ReadAt_Ret.
    cbn [spsize]. split_and!; [lia..|]. apply spBytes_ext. intros j Hj. cbn [spbyte]. by rewrite (proj2 (Z.ltb_lt _ _)) by lia.
  - intros d n d' o k. destruct (Z.ltb_spec n 0); [done|]. intros [= <-] Ho Hk Hle. eexists. apply sp_ReadAt_Ret. cbn [spsize]. split_and!; [lia..|reflexivity].
  - intros d off bs d' n. unfold sp_WriteAt. destruct (spRange d off (zlen bs)); [|done]. by intros [= <-].
  - intros d o d' off n. by intros [= _ <-].
Qed.
(** A parser that finds no Linux partition. *)
#[export] Instance sparsedev_gpt : GptParser sparsedev := {|
  gptByIndex := fun _ _ _ => Fail gptErrNoTable;
  gptByLinuxType := fun d _ =>
    match sp_ReadAt d 0 1024 with
    | Ret b => if (dec 2 b 510 =? 0x55AA) || (dec 4 b 512 =? 0x45464920) then Fail gptErrNotFound else Fail gptErrNoTable
    | _ => Fail gptErrNoTable
    end;
  gptList := fun _ _ => Ret []
|}.
#[export] Instance sparsedev_gpt_laws : GptLaws sparsedev.
Proof.
  intros d size b Hb H1 H2. cbn [gptByLinuxType sparsedev_gpt ReadAt sparsedev_device] in *. rewrite Hb.
  by rewrite (proj2 (Z.eqb_neq _ _) H1), (proj2 (Z.eqb_neq _ _) H2).
Qed.
Lemma format_opens_witness :
  let cfg := mkFormatConfig (replicate 16 7) [65; 66] true (mkQuotaConfig false false false false) in
  exists d', let sb := reparsed (formatSB (2 ^ 27) cfg (replicate 16 7)) [65; 66] in let fs := mkFS (initWorld d') 0 sb in
    Format 0 0 (fun _ => (5, 0)) (5, 0) cfg (2 ^ 27) (Fail ErrIO) (initWorld (blankdev 0)) = (Ret fs, initWorld d') /\
    agContract sb 0 d' /\ agContract sb 1 d' /\ label sb = [65; 66] /\ ListDir [slash] fs = (Ret [], fs).
Proof.
  destruct (format_opens 0 0 (fun _ => (5, 0)) (5, 0) (mkFormatConfig (replicate 16 7) [65; 66] true (mkQuotaConfig false false false false)) (2 ^ 27) (Fail ErrIO)
    (replicate 16 7) (initWorld (blankdev 0)) (snd (bTruncate (blankdev 0) (2 ^ 27)))) as (d' & E & _ & _ & El & Ha & _ & L).
  - reflexivity.
  - vm_compute. split; congruence.
  - reflexivity.
  - split; [reflexivity|apply (bool_decide_unpack _); vm_compute; exact I].
  - apply (bool_decide_unpack _). vm_compute. exact I.
  - reflexivity.
  - reflexivity.
  - exists d'. cbv zeta. split_and!; [exact E|apply Ha; vm_compute; split; congruence|apply Ha; vm_compute; split; congruence|exact El|exact L].
Defined.
