(* ===== verification/FsSpec.v ===== *)
(** * The filesystem object: theorems

    Labels and growth, on the image and on the open object. *)
From S2P Require Import Prelude Bytes Crc Writers Extent Device SparseDev Superblock SafeIO Inode FileRead Dir Lookup OpenFile AgBlocks Zones AllocTree Alloc AllocLeaf AllocSpec InodeAlloc InodeSpec Refcount FileWrite FileWriteSpec LeafDir DirUpdate Namespace Attr Quota Format FormatSpec SuperblockSpec FreshInode Fs ImageSpec.

(** ** Labels *)
Lemma labelSector_spec sb l buf s0 :
  zlen buf = 512 -> isbytes buf -> zlen l <= 12 -> isbytes l -> parseSuperblock buf = Ret s0 ->
  exists b, labelSector sb l buf = Ret b /\ zlen b = 512 /\ isbytes b /\
    (hasCRC sb = true -> verifyCRC b sbOffCRC sbCRCLen = Ret true) /\
    parseSuperblock b = Ret (set_label s0 (trimRight label_pad l)).
Proof.
  intros L B Ll Bl Hp. pose proof (zlen_nonneg l). rewrite parseSuperblock_eq in Hp by done.
  destruct (Z.eqb_spec (dec 4 buf 0) magicSB) as [Em|]; [|done]. destruct (validateGeometry (decodeSB buf)) as [[]| | |] eqn:Ev; try done. injection Hp as <-.
  unfold labelSector, sbOffMagic, labelFieldOffset, MaxLabelLen, sbOffCRC, sbCRCLen. rewrite (be_get_ok 4 buf 0), Em by lia. ostep.
  change (magicSB =? magicSB) with true. cbn [negb]. ostep. wstep. wstep.
  match goal with |- context [if hasCRC sb then updateCRC ?bb _ _ else _] =>
    assert (exists b, (if hasCRC sb then updateCRC bb 224 512 else Ret bb) = Ret b /\ wrote bb b 224 228 /\ isbytes b /\ (hasCRC sb = true -> verifyCRC b 224 512 = Ret true)) as (bq & -> & Wb & Bb & Vb) end.
  { destruct (hasCRC sb); [wcrc; eexists; split_and!; [done|done|wbytes|done]|]. eexists. split_and!; [done|apply wrote_refl|wbytes|done]. }
  pose proof (wrote_len _ _ _ _ Wb). exists bq. split_and!; [done|lia|done|done|].
  rewrite parseSuperblock_eq by lia. assert (dec 4 bq 0 = magicSB) as -> by (rdec; done). change (magicSB =? magicSB) with true. cbv iota.
  assert (decodeSB bq = set_label (decodeSB buf) (trimRight label_pad l)) as ->.
  { assert (slice bq 108 12 = l ++ replicate (Z.to_nat (12 - zlen l)) 0) as Es.
    { replace 12 with (zlen l + (12 - zlen l)) at 1 by lia. rewrite slice_app_adj by lia. f_equal; rslice; [done|].
      match goal with V : slice ?b0 108 ?n = make_bytes _ |- slice ?b0 _ _ = _ => transitivity (slice (slice b0 108 n) (zlen l) (12 - zlen l)); [by rewrite slice_slice by lia|rewrite V; apply slice_zero; lia] end. }
    unfold decodeSB, set_label. cbn [blockSize sectorSize agBlocks agCount dBlocks rootIno inodeSize inopBlock inopBLog agBlkLog dirBlkLog hasCRC hasFType hasReflink features2 quotaFlags uQuotino gQuotino pQuotino uuid label maxRead].
    rewrite Es, trim_padded. rslice. rdec. done. }
  change (validateGeometry (set_label (decodeSB buf) (trimRight label_pad l))) with (validateGeometry (decodeSB buf)). by rewrite Ev.
Qed.

Section Label.
Context {D : Type} {Dev : Device D} {DL : DeviceLaws D} {DR : DeviceReliable D} {Bk : Backend D} {BL : BackendLaws D}.
Context (sb : superblock) (W : sb_width sb) (G : geometry_ok sb) (partOff : Z) (Hp : 0 <= partOff) (Hfit : partOff + agCount sb * agBlocks sb * blockSize sb < 2 ^ 63).
(** The superblock sector of group [ag]. *)
Definition sbOffset (ag : Z) : Z := partOff + ag * agBlocks sb * blockSize sb.
Let Hpos : 0 < agBlocks sb /\ 512 <= blockSize sb.
Proof. split; [apply G|]. destruct (g_bs _ G) as (k & Hk & ->). change 512 with (2 ^ 9). apply Z.pow_le_mono_r; lia. Qed.
Lemma sbOffset_exact ag : 0 <= ag < agCount sb -> i64 (partOff + agByteOffset sb ag) = sbOffset ag.
Proof.
  intros Ha. destruct Hpos. assert (ag * agBlocks sb * blockSize sb <= agCount sb * agBlocks sb * blockSize sb) by (apply Z.mul_le_mono_nonneg_r; [lia|]; apply Z.mul_le_mono_nonneg_r; lia).
  assert (0 <= ag * agBlocks sb * blockSize sb) by (apply Z.mul_nonneg_nonneg; [apply Z.mul_nonneg_nonneg|]; lia).
  unfold sbOffset. rewrite (ag_offset_exact sb ag W); [apply i64_small; lia|lia|lia|lia].
Qed.
Lemma sbOffset_apart a b : 0 <= a -> a < b -> sbOffset a + 512 <= sbOffset b.
Proof.
  intros. destruct Hpos. unfold sbOffset. assert ((a + 1) * (agBlocks sb * blockSize sb) <= b * (agBlocks sb * blockSize sb)) by (apply Z.mul_le_mono_nonneg_r; nia). nia.
Qed.

(** Every group has a superblock sector that parses. *)
Definition has_sectors (lo hi : Z) (d : D) : Prop :=
  forall ag, lo <= ag < hi -> exists buf s0, ReadAt d (sbOffset ag) 512 = Ret buf /\ parseSuperblock buf = Ret s0.
Let body (l : bytes) (ag : Z) (_ : unit) : M (World D) unit :=
  let sbOff := i64 (partOff + agByteOffset sb ag) in
  buf ← readD (fun r => ReadAt r sbOff 512);
  buf ← lift (labelSector sb l buf);
  writeAt buf sbOff.
Lemma label_loop l n i (w : World D) :
  zlen l <= 12 -> isbytes l -> 0 <= i -> i + Z.of_nat n <= agCount sb -> has_sectors i (i + Z.of_nat n) (dev w) ->
  exists d', for_accM n i tt (body l) w = (Ret tt, set_dev d' w) /\
    (forall ag buf s0, i <= ag < i + Z.of_nat n -> ReadAt (dev w) (sbOffset ag) 512 = Ret buf -> parseSuperblock buf = Ret s0 ->
       exists b, ReadAt d' (sbOffset ag) 512 = Ret b /\ (hasCRC sb = true -> verifyCRC b sbOffCRC sbCRCLen = Ret true) /\
         parseSuperblock b = Ret (set_label s0 (trimRight label_pad l))) /\
    (forall o m cs, 0 <= m -> (forall ag, i <= ag < i + Z.of_nat n -> apartZ o m (sbOffset ag) 512) -> ReadAt (dev w) o m = Ret cs -> ReadAt d' o m = Ret cs).
Proof.
  intros Ll Bl. revert i w. induction n as [|n IH]; intros i w Hi Hn Hs; cbn [for_accM].
  { exists (dev w). split; [by destruct w|]. split; [intros; lia|done]. }
  destruct (Hs i ltac:(lia)) as (buf & s0 & Hr & Hps). pose proof (ReadAt_len (dev w) (sbOffset i) 512 buf ltac:(lia) Hr) as Lb. pose proof (ReadAt_isbytes _ _ _ _ Hr) as Bb.
  destruct (labelSector_spec sb l buf s0 Lb Bb Ll Bl Hps) as (b & El & Lb' & Bb' & Vb & Pb).
  destruct (write_zone w (sbOffset i) 512 buf b Hr Lb' Bb') as (d1 & Ew & Rw & Fw).
  assert (body l i tt w = (Ret tt, set_dev d1 w)) as Eb.
  { unfold body. rewrite (sbOffset_exact i) by lia. unfold readD at 1. unfold mbind at 1, M_bind at 1. rewrite Hr. by rewrite (bindM_lift _ _ _ _ El). }
  assert (forall ag, i < ag -> apartZ (sbOffset ag) 512 (sbOffset i) 512) as Hap by (intros ag Ha; right; apply sbOffset_apart; lia).
  destruct (IH (i + 1) (set_dev d1 w)) as (d' & E & R & Fr); [lia|lia| |].
  { intros ag Ha. destruct (Hs ag ltac:(lia)) as (c & s1 & Hc & Hpc). exists c, s1. split; [|done]. apply Fw; [lia|apply Hap; lia|done]. }
  exists d'. rewrite (bindM_Ret _ _ _ _ _ Eb), E. split_and!; [by destruct w| |].
  - intros ag c s1 Ha Hc Hpc. destruct (decide (ag = i)) as [->|Hne].
    + rewrite Hr in Hc. injection Hc as <-. rewrite Hps in Hpc. injection Hpc as <-. exists b. split_and!; [|done|done].
      apply Fr; [lia| |exact Rw]. intros a Ha'. apply apartZ_sym, Hap. lia.
    + apply (R ag c s1); [lia| |done]. apply Fw; [lia|apply Hap; lia|done].
  - intros o m cs Hm Ha Hcs. apply Fr; [done|intros a Ha'; apply Ha; lia|]. apply Fw; [done|apply Ha; lia|done].
Qed.

(** C23 (round trip).  [SetLabel]: a label of at most twelve bytes is stored in the superblock
    of every allocation group; each of them still parses, with the new label and
    every other field as before, its CRC stamped; nothing else on the image changes; and
    [Label] returns what a later open of the image would read.  A longer label
    is refused and changes nothing. *)
Theorem setLabel_roundtrip (l : bytes) (w : World D) :
  isbytes l -> has_sectors 0 (agCount sb) (dev w) -> (forall d : D, exists d', bSync d = (Ret tt, d')) ->
  let fs := mkFS w partOff sb in
  (12 < zlen l -> exists e, SetLabel l fs = (Fail e, fs)) /\
  (zlen l <= 12 -> exists d', let fs' := mkFS (set_dev d' w) partOff (set_label sb (trimRight label_pad l)) in
    SetLabel l fs = (Ret tt, fs') /\ Label fs' = (Ret (trimRight label_pad l), fs') /\
    (forall ag buf s0, 0 <= ag < agCount sb -> ReadAt (dev w) (sbOffset ag) 512 = Ret buf -> parseSuperblock buf = Ret s0 ->
       exists b, ReadAt d' (sbOffset ag) 512 = Ret b /\ (hasCRC sb = true -> verifyCRC b sbOffCRC sbCRCLen = Ret true) /\
         parseSuperblock b = Ret (set_label s0 (trimRight label_pad l))) /\
    (forall o m cs, 0 <= m -> (forall ag, 0 <= ag < agCount sb -> apartZ o m (sbOffset ag) 512) -> ReadAt (dev w) o m = Ret cs -> ReadAt d' o m = Ret cs)).
Proof.
  intros Bl Hs Hsync fs. unfold SetLabel, MaxLabelLen. split; intros Ll.
  { rewrite (proj2 (Z.ltb_lt 12 (zlen l))) by lia. by eexists. }
  rewrite (proj2 (Z.ltb_ge 12 (zlen l))) by lia. pose proof (w_agc _ W).
  destruct (label_loop l (Z.to_nat (agCount sb)) 0 w Ll Bl) as (d1 & E & R & Fr); [lia|lia|rewrite Z2Nat.id by lia; exact Hs|].
  destruct (Hsync d1) as [d' Ey]. rewrite Z2Nat.id in R, Fr by lia. exists d'. split_and!.
  - unfold onWorld, getSB, putSB, mbind, M_bind, fs. cbn [partOffset fsb fworld]. unfold M_bind in E. fold (body l). unfold body in E |- *.
    unfold mbind, M_bind in E. rewrite E. unfold onDevice. cbn [dev set_dev]. rewrite Ey. done.
  - done.
  - intros ag buf s0 Ha Hb Hps. destruct (R ag buf s0 Ha Hb Hps) as (b & Hr & V & P). exists b. by rewrite (bSync_keeps _ _ _ _ _ Ey).
  - intros o m cs Hm Ha Hcs. rewrite (bSync_keeps _ _ _ _ _ Ey). by apply Fr.
Qed.
End Label.

(** A two-group image of 512-byte blocks. *)
Definition mini_sb : superblock :=
  {| blockSize := 512; sectorSize := 512; agBlocks := 2; agCount := 2; dBlocks := 4; rootIno := 20544; inodeSize := 256; inopBlock := 2; inopBLog := 1; agBlkLog := 1;
     dirBlkLog := 0; hasCRC := true; hasFType := true; hasReflink := false; features2 := 0; quotaFlags := 0; uQuotino := 0; gQuotino := 0; pQuotino := 0;
     uuid := replicate 16 7; label := [65]; maxRead := 0 |}.
Definition mini_sector : bytes := Eval vm_compute in bytesOf (buildSuperblockBuffer mini_sb 2 (replicate 16 7) [65]).
Definition mini_image : sparsedev := mkSparse 2048 (fun x => List.nth (Z.to_nat (x mod 1024)) mini_sector 0).
Lemma mini_width : sb_width mini_sb.
Proof. constructor; cbn; try lia. split; [done|by apply (bool_decide_unpack _)]. Qed.
Lemma mini_geometry : geometry_ok mini_sb.
Proof. apply validateGeometry_iff; [exact mini_width|vm_compute; reflexivity]. Qed.
Lemma setLabel_roundtrip_witness :
  exists d', SetLabel [66; 32] (mkFS (initWorld mini_image) 0 mini_sb) = (Ret tt, mkFS (initWorld d') 0 (set_label mini_sb [66])) /\
    exists b, ReadAt d' 1024 512 = Ret b /\ (s ← parseSuperblock b; Ret (label s)) = Ret [66].
Proof.
  destruct (setLabel_roundtrip mini_sb mini_width mini_geometry 0 ltac:(lia) ltac:(vm_compute; reflexivity) [66; 32] (initWorld mini_image)) as [_ H].
  - apply (bool_decide_unpack _). vm_compute. exact I.
  - intros ag Ha. cbn [agCount mini_sb] in Ha. assert (ag = 0 \/ ag = 1) as [-> | ->] by lia; exists mini_sector, (reparsed mini_sb [65]); (split; [|vm_compute; reflexivity]); vm_compute; reflexivity.
  - intros d. exists d. reflexivity.
  - destruct H as (d' & E & _ & R & _); [vm_compute; congruence|]. exists d'. split; [exact E|].
    destruct (R 1 mini_sector (reparsed mini_sb [65])) as (b & Hr & _ & P); [cbn; lia|vm_compute; reflexivity|vm_compute; reflexivity|].
    exists b. split; [exact Hr|]. rewrite P. reflexivity.
Defined.

(** ** Growth *)
(** The block counts of [Grow], with the machine arithmetic resolved. *)
Lemma growPlan_cases sb size :
  let bs := blockSize sb in let A := agBlocks sb in let cur := dBlocks sb in let n := size / bs in let c := (n + A - 1) / A in
  sb_width sb -> geometry_ok sb -> 0 < cur < 2 ^ 63 -> 0 <= size < 2 ^ 63 -> c < 2 ^ 32 ->
  (size mod bs = 0 /\ n = cur -> growPlan sb size = Ret None) /\
  (size mod bs <> 0 \/ n < cur \/ (cur < n /\ (cur mod A <> 0 \/ n - (c - 1) * A < 256)) -> exists e, growPlan sb size = Fail e) /\
  (size mod bs = 0 /\ cur < n /\ cur mod A = 0 /\ 256 <= n - (c - 1) * A -> growPlan sb size = Ret (Some (n, c))).
Proof.
  intros bs A cur n c W G Hcur Hs Hc. pose proof (g_agb _ G) as HA. fold A in HA. pose proof (w_agb _ W) as HA32. fold A in HA32.
  assert (512 <= bs) as Hbs by (unfold bs; destruct (g_bs _ G) as (k & Hk & ->); change 512 with (2 ^ 9); apply Z.pow_le_mono_r; lia).
  assert (0 <= n <= 2 ^ 54) as Hn by (unfold n; split; [apply Z.div_pos; lia|apply Z.div_le_upper_bound; nia]).
  assert (cur < n -> 1 <= c) as Hc1 by (intros; unfold c; apply Z.div_le_lower_bound; lia).
  assert (0 <= c) as Hc0 by (unfold c; apply Z.div_pos; lia).
  assert (1 <= c -> 0 <= (c - 1) * A <= 2 ^ 54 + 2 ^ 32) as Hca.
  { intros. split; [apply Z.mul_nonneg_nonneg; lia|]. pose proof (Z.mul_div_le (n + A - 1) A ltac:(lia)). fold c in H0. nia. }
  assert (forall k : outcome (option (Z * Z)), size mod bs = 0 -> cur < n ->
    (if cur mod A =? 0 then if n - (c - 1) * A <? 256 then Fail (Errorf "grow: final partial AG too small") else Ret (Some (n, c))
     else Fail (Errorf "grow: current filesystem ends in a partial AG")) = k -> growPlan sb size = k) as Hrest.
  { intros k Hm Hlt <-. specialize (Hc1 Hlt). specialize (Hca Hc1).
    unfold growPlan. fold bs A cur. rewrite (proj2 (Z.eqb_neq bs 0)), (i64_small cur), (proj2 (Z.eqb_neq cur 0)), Z.rem_mod_nonneg, Z.quot_div_nonneg, Hm by lia. cbn [negb Z.eqb]. ostep. fold n.
    rewrite (proj2 (Z.eqb_neq n cur)), (proj2 (Z.ltb_ge n cur)), (proj2 (Z.eqb_neq A 0)), Z.rem_mod_nonneg by lia. ostep.
    destruct (cur mod A =? 0); [|done]. cbn [negb]. rewrite (i64_small (n + A - 1)), Z.quot_div_nonneg by lia. fold c.
    rewrite (u32_small c), (u32_small (c - 1)), (i64_small ((c - 1) * A)), (i64_small (n - (c - 1) * A)) by lia. done. }
  assert (growPlan sb size = growPlan sb size) as Hg by done. unfold growPlan in Hg at 2. fold bs A cur in Hg.
  rewrite (proj2 (Z.eqb_neq bs 0)), (i64_small cur), (proj2 (Z.eqb_neq cur 0)), Z.rem_mod_nonneg, Z.quot_div_nonneg in Hg by lia. cbn [negb] in Hg. fold n in Hg.
  split_and!.
  - intros [Hm Hn0]. rewrite Hg, Hm. ostep. cbn [Z.eqb negb]. by rewrite (proj2 (Z.eqb_eq _ _) Hn0).
  - intros H. destruct (Z.eqb_spec (size mod bs) 0) as [Hm|]; cbn [negb] in Hg; [|rewrite Hg; by eexists]. destruct (Z.eqb_spec n cur); [lia|]. destruct (Z.ltb_spec n cur); [rewrite Hg; by eexists|].
    destruct (Z.eqb_spec (cur mod A) 0) as [E0|E0], (Z.ltb_spec (n - (c - 1) * A) 256) as [E1|E1]; try lia; eexists; (apply Hrest; [done|lia|]);
      rewrite ?(proj2 (Z.eqb_neq _ _) E0), ?(proj2 (Z.eqb_eq _ _) E0), ?(proj2 (Z.ltb_lt _ _) E1); reflexivity.
  - intros (Hm & Hlt & Hm' & Hl). apply Hrest; [done|done|]. rewrite Hm'. cbn [Z.eqb]. by rewrite (proj2 (Z.ltb_ge _ _)) by lia.
Qed.

Section Grow.
Context {D : Type} {Dev : Device D} {DL : DeviceLaws D} {DR : DeviceReliable D} {Bk : Backend D} {BL : BackendLaws D}.
Context (sb : superblock) (F : formattedFS sb) (size : Z) (Hsize : size mod 4096 = 0 /\ 0 <= size < 2 ^ 57).
Let n := size / 4096.
Let c := (n + 16384 - 1) / 16384.
Let sb' := set_geometry sb n c.
Context (Hgrow : dBlocks sb < n) (Hlast : 256 <= n - (c - 1) * 16384).
Let F0 : formatted sb := ff_fmt _ F.
Let Hsz : size = n * 4096.
Proof. unfold n. destruct Hsize. pose proof (Z.div_mod size 4096 ltac:(lia)). lia. Qed.
Let Hagc : 0 < agCount sb < c.
Proof. pose proof (g_agc _ (fm_geom _ F0)). rewrite (ff_full _ F) in Hgrow. split; [done|]. unfold c in *. Z.div_mod_to_equations. lia. Qed.
Let Hc : c < 2 ^ 32.
Proof. unfold c, n in *. destruct Hsize. Z.div_mod_to_equations. lia. Qed.

Lemma grown_formatted : formatted sb'.
Proof.
  destruct F0 as [W G ? ? ? ? ?]. constructor; try done.
  - destruct W. constructor; try done; [change (agCount sb') with c; lia|]. change (dBlocks sb') with n. lia.
  - destruct G. constructor; try done. change (agCount sb') with c. lia.
Qed.
Lemma grown_storable : sb_storable sb' (label sb).
Proof.
  destruct (ff_store _ F) as [_ _ ? Hr ? ? ?]. constructor; try done; [apply grown_formatted..|]. change (dBlocks sb') with n. pose proof (w_db _ (fm_width _ F0)). lia.
Qed.
Lemma grown_length ag : 0 <= ag < c -> 256 <= agLength sb' ag <= 16384 /\ ag * 16384 + agLength sb' ag <= n.
Proof.
  intros Ha. unfold agLength. change (dBlocks sb') with n. change (agBlocks sb') with (agBlocks sb). rewrite (fm_agb _ F0).
  pose proof (w_db _ (fm_width _ F0)). rewrite (proj2 (Z.eqb_neq n 0)) by lia. pose proof (Z.div_mod n 16384 ltac:(lia)) as Dm. pose proof (Z.mod_pos_bound n 16384 ltac:(lia)).
  assert (n / 16384 <= c <= n / 16384 + 1 /\ (n mod 16384 = 0 -> c = n / 16384)) as [? ?] by (unfold c in *; Z.div_mod_to_equations; lia).
  destruct (Z.ltb_spec ag (n / 16384)) as [Hl|Hl]; [lia|]. rewrite u64_small by lia. rewrite u32_small by lia.
  assert (ag = c - 1 /\ c - 1 = n / 16384) as [-> E] by lia. lia.
Qed.
(** The writes for one new group. *)
Definition growPart (buf : bytes) (k : Z) (ws : list (Z * bytes)) : Prop :=
  let l := fmtAGLayoutFor k c (hasReflink sb) in
  if k <? agCount sb then ws = []
  else exists agf agi agfl bno cnt inobt refc,
    ag_image sb' k (agLength sb' k) (fmtRootIno c (hasReflink sb)) l agf agi agfl bno cnt inobt refc /\
    ws = agWrites (k * 2 ^ 26) l agf agi agfl bno cnt inobt refc ++ [(k * 2 ^ 26, buf)].

Context (buf : bytes) (Eb : buildSuperblockBuffer sb' c (uuid sb) (label sb) = Ret buf) (Lb : zlen buf = 512) (Bb : isbytes buf).
Definition growZone (k : Z) (z : Z * bytes) : Prop := agCount sb <= k /\ k * 2 ^ 26 <= z.1 /\ z.1 + zlen z.2 <= k * 2 ^ 26 + 2 ^ 20.
Lemma layout_plain k agc r : 0 < k -> freeStart (fmtAGLayoutFor k agc r) <= 9 /\ (r = true -> refcountRoot (fmtAGLayoutFor k agc r) = 8).
Proof. intros Hk. unfold fmtAGLayoutFor. change (fmtLogAG agc) with 0. rewrite (proj2 (Z.eqb_neq k 0)) by lia. cbn [andb]. destruct r; vm_compute; intuition congruence. Qed.
Lemma growPart_ok k ws : 0 <= k -> growPart buf k ws -> ForallOrdPairs zapart ws /\ Forall (fun z => isbytes z.2) ws /\ Forall (growZone k) ws.
Proof.
  intros Hk. unfold growPart. destruct (Z.ltb_spec k (agCount sb)) as [Hlt|Hge]; [intros ->; repeat constructor|].
  intros (agf & agi & agfl & bno & cnt & inobt & refc & I & ->).
  destruct (agWrites_ok sb' k _ _ _ _ _ _ _ _ grown_formatted Hk I) as (Ap & Bs & Zs). destruct (layout_plain k c (hasReflink sb) ltac:(lia)) as [_ Hrr].
  change (agCount sb') with c in *. change (hasReflink sb') with (hasReflink sb) in *. split_and!.
  - apply FOP_app; [exact Ap|repeat constructor|]. intros x y Hx ->%list_elem_of_singleton. rewrite Forall_forall in Zs. specialize (Zs x Hx). unfold zapart, apartZ. cbn [fst snd]. lia.
  - apply Forall_app. split; [done|by repeat constructor].
  - apply Forall_app. split; [|repeat constructor; cbn [fst snd]; lia]. eapply Forall_impl; [exact Zs|]. intros z [Z1 [Z2|(Z2 & Z3 & Z4)]]; [|specialize (Hrr Z2)]; unfold growZone; lia.
Qed.
Lemma grow_writes k : 0 <= k < c -> exists ws, growPart buf k ws /\ forall w : World D,
  (if i64 (k * agBlocks sb') <? dBlocks sb then mret tt else fmtWriteAG sb' k (uuid sb') ;; fmtWriteSecondarySB sb' 0 k c (uuid sb') (label sb')) w = writeSeq ws w.
Proof.
  intros Hk. pose proof grown_formatted as F'. change (agBlocks sb') with (agBlocks sb). rewrite (fm_agb _ F0), (i64_small (k * 16384)), (ff_full _ F) by lia.
  unfold growPart. destruct (Z.ltb_spec k (agCount sb)) as [Hlt|Hge].
  { rewrite (proj2 (Z.ltb_lt _ _)) by lia. exists []. split; [reflexivity|]. intros w. reflexivity. }
  rewrite (proj2 (Z.ltb_ge _ _)) by lia. destruct (layout_plain k c (hasReflink sb) ltac:(lia)) as [Hfs _]. destruct (grown_length k Hk) as [HL _].
  destruct (fmtWriteAG_writes (Dev := Dev) sb' k (uuid sb) F' (img_uuid sb F) Hk) as (agf & agi & agfl & bno & cnt & inobt & refc & I & E).
  { change (agCount sb') with c. change (hasReflink sb') with (hasReflink sb). lia. }
  eexists. split; [do 7 eexists; split; [exact I|reflexivity]|]. intros w. rewrite writeSeq_app. apply bindM_cong; [apply E|]. intros _ w1.
  unfold fmtWriteSecondarySB. rewrite (proj2 (Z.eqb_neq k 0)) by lia. rewrite (bindM_lift _ _ _ _ (Eb : buildSuperblockBuffer sb' c (uuid sb') (label sb') = Ret buf)).
  destruct (fmt_sectors sb' F' k Hk) as (_ & _ & _ & -> & _). rewrite Z.add_0_l, i64_small by lia. cbn [writeSeq]. by rewrite bindM_mret.
Qed.

Let growBody (ag : Z) : M (World D) unit :=
  if i64 (ag * agBlocks sb') <? dBlocks sb then mret tt else fmtWriteAG sb' ag (uuid sb');; fmtWriteSecondarySB sb' 0 ag c (uuid sb') (label sb').
Lemma grow_image (w : World D) :
  (forall o k, 0 <= o -> 0 <= k -> o + k <= size -> exists bs, ReadAt (dev w) o k = Ret bs) ->
  exists d1, (for_accM (Z.to_nat c) 0 tt (fun ag _ => growBody ag);; fmtWriteSuperblock sb' c (uuid sb') (label sb')) w = (Ret tt, set_dev d1 w) /\
    forall d', (forall o k, ReadAt d' o k = ReadAt d1 o k) ->
    (forall ag, agCount sb <= ag < c -> agContract sb' ag d') /\ (forall ag, 0 <= ag < c -> ReadAt d' (ag * 2 ^ 26) 512 = Ret buf) /\
    (forall o m cs, 0 <= m -> o + m <= agCount sb * 2 ^ 26 -> (forall ag, 0 <= ag < agCount sb -> apartZ o m (ag * 2 ^ 26) 512) -> ReadAt (dev w) o m = Ret cs -> ReadAt d' o m = Ret cs).
Proof.
  intros Hrd. pose proof grown_formatted as F'.
  destruct (for_writes (Dev := Dev) (growPart buf) growBody (Z.to_nat c) 0) as (wss & H2 & E1); [intros k Hk; apply grow_writes; lia|]. rewrite Z2Nat.id in H2 by lia.
  destruct (for_writes (Dev := Dev) (sbPart buf) (fun ag => writeAt buf (agBase sb' ag)) (Z.to_nat c) 0) as (wsS & HS & ES).
  { intros k Hk. eexists. split; [reflexivity|]. intros w1. destruct (fmt_sectors sb' F' k) as (_ & _ & _ & -> & _); [change (agCount sb') with c; lia|]. cbn [writeSeq]. by rewrite bindM_mret. }
  rewrite Z2Nat.id in HS by lia.
  assert (forall k, 0 <= k < c -> k * 2 ^ 26 + 2 ^ 20 <= size) as Hin by (intros k Hk; pose proof (grown_length k Hk); lia).
  assert (Forall (fun z => exists k, 0 <= k < c /\ growZone k z) (concat wss)) as Iz.
  { apply (concat_in growZone (growPart buf) 0 c); [intros k ws Hk P; apply (growPart_ok k ws); [lia|done]|intros k z Hk Hz; exists k; split; [lia|done]|done]. }
  assert (Forall (fun z => exists k, 0 <= k < c /\ sbZone k z) (concat wsS)) as Is.
  { apply (concat_in sbZone (sbPart buf) 0 c); [intros k ws Hk ->; by repeat constructor|intros k z Hk Hz; exists k; split; [lia|done]|done]. }
  destruct (writeSeq_spec (concat wss) w) as (d1 & Ew1 & R1 & F1).
  { apply (concat_apart growZone (growPart buf) 0 c); [|intros k ws Hk P; destruct (growPart_ok k ws Hk P) as (? & _ & ?); split; assumption|exact H2].
    intros k k' z z' Hi Hk (_ & Z1 & Z2) (_ & Z3 & Z4). unfold zapart, apartZ. lia. }
  { apply (concat_in (fun _ z => isbytes z.2) (growPart buf) 0 c); [intros k ws Hk P; apply (growPart_ok k ws); [lia|done]|done|done]. }
  { eapply Forall_impl; [exact Iz|]. intros z (k & Hk & _ & Z1 & Z2). specialize (Hin k Hk). apply Hrd; [lia|apply zlen_nonneg|lia]. }
  assert (forall k, agCount sb <= k < c -> exists ws, growPart buf k ws /\ Forall (fun z => ReadAt d1 z.1 (zlen z.2) = Ret z.2) ws) as Hnew.
  { intros k Hk. destruct (zone_of _ _ k H2 ltac:(lia)) as [ws Hw]. exists ws. exact (concat_zone _ _ k ws H2 R1 ltac:(lia) Hw). }
  destruct (writeSeq_spec (concat wsS) (set_dev d1 w)) as (d2 & Ew2 & R2 & F2).
  { apply (concat_apart sbZone (sbPart buf) 0 c); [|intros k ws Hk ->; split; repeat constructor; done|done].
    intros k k' z z' Hi Hk [Z1 Z2] [Z3 Z4]. unfold zapart, apartZ. lia. }
  { apply (concat_in (fun _ z => isbytes z.2) (sbPart buf) 0 c); [intros k ws Hk ->; by repeat constructor|done|done]. }
  { eapply Forall_impl; [exact Is|]. intros z (k & Hk & Z1 & Z2). rewrite Z1, Z2. cbn [dev set_dev]. destruct (decide (k < agCount sb)) as [Hlt|Hge].
    - destruct (Hrd (k * 2 ^ 26) 512) as [bs Hbs]; [lia|lia|specialize (Hin k Hk); lia|]. exists bs. apply F1; [lia| |done].
      eapply Forall_impl; [exact Iz|]. intros y (k' & Hk' & Y0 & Y1 & Y2). unfold apartZ. lia.
    - destruct (Hnew k ltac:(lia)) as (ws & P & Hz). unfold growPart in P. rewrite (proj2 (Z.ltb_ge _ _)) in P by lia. destruct P as (? & ? & ? & ? & ? & ? & ? & _ & ->).
      apply Forall_app in Hz as [_ Hz]. apply Forall_cons in Hz as [Hz _]. cbn [fst snd] in Hz. rewrite Lb in Hz. by eexists. }
  exists d2. split; [|intros d' Hd'; split; [|split]].
  - rewrite (bindM_Ret _ _ w tt (set_dev d1 w)) by (rewrite E1; exact Ew1). unfold fmtWriteSuperblock.
    rewrite (bindM_lift _ _ _ _ (Eb : buildSuperblockBuffer sb' c (uuid sb') (label sb') = Ret buf)), ES, Ew2. by destruct w.
  - intros ag Hag. destruct (Hnew ag Hag) as (ws & P & Hz). unfold growPart in P. rewrite (proj2 (Z.ltb_ge _ _)) in P by lia. destruct P as (agf & agi & agfl & bno & cnt & inobt & refc & I & ->).
    apply Forall_app in Hz as [Hz _]. destruct (agWrites_ok sb' ag _ _ _ _ _ _ _ _ F' ltac:(lia) I) as (_ & _ & Zs).
    destruct (layout_plain ag c (hasReflink sb) ltac:(lia)) as [Hfs Hrr]. destruct (grown_length ag ltac:(lia)) as [HL _].
    eapply (ag_image_contract sb'); [exact F'|change (agCount sb') with c; lia|change (agCount sb') with c; change (hasReflink sb') with (hasReflink sb); lia|exact I|].
    rewrite Forall_forall in Hz, Zs |- *. intros z Hin'. specialize (Hz z Hin'). specialize (Zs z Hin'). rewrite Hd'. apply F2; [apply zlen_nonneg| |exact Hz].
    eapply Forall_impl; [exact Is|]. intros y (k' & Hk' & Y1 & Y2). destruct Zs as [Z1 [Z2|(Z2 & Z3 & Z4)]]; [|change (hasReflink sb') with (hasReflink sb) in *; change (agCount sb') with c in *; specialize (Hrr Z2)]; unfold apartZ; lia.
  - intros ag Hag. destruct (zone_of _ _ ag HS Hag) as [ws Hw]. destruct (concat_zone _ _ ag ws HS R2 Hag Hw) as [-> Hz]. apply Forall_cons in Hz as [Hz _]. cbn [fst snd] in Hz. rewrite Hd'. by rewrite Lb in Hz.
  - intros o m cs Hm Ho Ha Hcs. rewrite Hd'. apply F2; [done| |apply F1; [done| |done]].
    + eapply Forall_impl; [exact Is|]. intros y (k' & Hk' & Y1 & Y2). rewrite Y1, Y2. destruct (decide (k' < agCount sb)); [apply Ha; lia|unfold apartZ; lia].
    + eapply Forall_impl; [exact Iz|]. intros y (k' & Hk' & Y0 & Y1 & Y2). unfold apartZ. lia.
Qed.
End Grow.

(** C18 (functional).  [Grow] on a filesystem of the geometry [Format] makes, at partition
    offset 0 (elsewhere [Grow] writes to the wrong place), to sizes below 2^57 on a backend that
    extends and syncs without a fault: the current size is a no-op; a size
    that is no multiple of the block size, smaller, or that leaves a last group of under 256
    blocks is refused without touching the image; any other size succeeds, whole groups or
    not (the comment of [Grow] says partial growth is rejected; the code accepts it): the
    object and every superblock sector carry the new geometry, every new allocation
    group, a partial last one included, meets the contract of the allocators, and of the old
    image nothing but the superblock sectors changes. *)
Theorem grow_extends {D} {Dev : Device D} {DL : DeviceLaws D} {DR : DeviceReliable D} {Bk : Backend D} {BL : BackendLaws D}
    (sb : superblock) (size : Z) (w : World D) :
  formattedFS sb -> 0 <= size < 2 ^ 57 ->
  let fs := mkFS w 0 sb in
  let n := size / 4096 in
  let c := (n + 16384 - 1) / 16384 in
  (size = dBlocks sb * 4096 -> Grow size fs = (Ret tt, fs)) /\
  (size mod 4096 <> 0 \/ n < dBlocks sb \/ (dBlocks sb < n /\ n - (c - 1) * 16384 < 256) -> exists e, Grow size fs = (Fail e, fs)) /\
  (size mod 4096 = 0 -> dBlocks sb < n -> 256 <= n - (c - 1) * 16384 ->
   forall d0, bTruncate (dev w) size = (Ret tt, d0) -> (forall d : D, exists d', bSync d = (Ret tt, d')) ->
   exists d', let sb' := set_geometry sb n c in
     Grow size fs = (Ret tt, mkFS (set_dev d' w) 0 sb') /\
     (forall ag, agCount sb <= ag < c -> agContract sb' ag d' /\ 256 <= agLength sb' ag <= 16384) /\
     (exists buf, parseSuperblock buf = Ret (reparsed sb' (label sb)) /\ forall ag, 0 <= ag < c -> ReadAt d' (ag * 2 ^ 26) 512 = Ret buf) /\
     (forall o m cs, 0 <= m -> o + m <= agCount sb * 2 ^ 26 -> (forall ag, 0 <= ag < agCount sb -> apartZ o m (ag * 2 ^ 26) 512) ->
        ReadAt (dev w) o m = Ret cs -> ReadAt d' o m = Ret cs)).
Proof.
  intros F Hs fs n c. pose proof (ff_fmt _ F) as F0. pose proof (fm_width _ F0) as W. pose proof (fm_geom _ F0) as G. pose proof (w_agc _ W). pose proof (g_agc _ G). pose proof (ff_full _ F) as Ef.
  destruct (growPlan_cases sb size W G) as (P1 & P2 & P3); rewrite ?(fm_bs _ F0), ?(fm_agb _ F0) in *; [lia|lia|assert (size / 4096 < 2 ^ 45) by (apply Z.div_lt_upper_bound; lia); apply Z.div_lt_upper_bound; lia|]. fold n c in P1, P2, P3.
  split; [|split].
  - intros E. unfold Grow, getSB, fs. unfold mbind, M_bind, lift. cbn [fsb]. rewrite P1; [done|]. unfold n. rewrite E, Z.div_mul, Z.mod_mul by lia. done.
  - intros Hbad. destruct P2 as [e Ee]; [destruct Hbad as [?|[?|[? ?]]]; auto|]. exists e. unfold Grow, getSB, fs. unfold mbind, M_bind, lift. cbn [fsb]. by rewrite Ee.
  - intros Hm Hn Hl d0 Ht Hsync.
    destruct (build_stores (set_geometry sb n c) (label sb)) as (buf & Eb & Lb & Bb & _ & Mb & _ & Dz); [by apply grown_storable|].
    pose proof (build_parses (set_geometry sb n c) (label sb) buf) as Hparse.
    assert (0 < n) as Hn0 by lia. assert (n * 4096 = size) as En by (unfold n; pose proof (Z.div_mod size 4096); lia).
    destruct (grow_image sb F size (conj Hm Hs) Hn Hl buf Eb Lb Bb (set_dev d0 w)) as (d1 & E1 & Hall).
    { intros o k Ho Hk Hle. by apply (bTruncate_readable (dev w) size d0). }
    destruct (Hsync d1) as [d' Ey]. destruct (Hall d' (fun o k => bSync_keeps _ _ _ o k Ey)) as (Hag & Hsb & Hfr). exists d'. cbv zeta. split; [|split; [|split]].
    + unfold Grow, getSB, fs. unfold mbind at 1, M_bind at 1. cbn [fsb]. assert (dBlocks sb mod 16384 = 0) as Hd by (rewrite Ef; apply Z.mod_mul; lia). rewrite (bindM_lift _ _ _ _ (P3 (conj Hm (conj Hn (conj Hd Hl))))).
      rewrite (i64_small (dBlocks sb)), (proj2 (Z.eqb_neq (dBlocks sb) 0)), (u64_small n) by lia.
      unfold onWorld, onDevice, putSB, mbind, M_bind. cbn [partOffset fsb fworld]. rewrite Z.add_0_l, i64_small, Ht by lia. cbn [partOffset fsb fworld].
      unfold mbind, M_bind in E1. fold n c in E1. destruct (for_accM _ _ _ _ _) as [[[]| | |] s1]; [|discriminate E1..].
      rewrite E1. cbn [dev set_dev]. rewrite Ey. by destruct w.
    + intros ag Ha. split; [by apply Hag|]. apply (grown_length sb F size (conj Hm Hs) Hn Hl). fold n c. lia.
    + exists buf. split; [exact (Hparse (grown_storable sb F size (conj Hm Hs) Hn Hl) Bb Lb Mb Dz)|exact Hsb].
    + intros o m cs Hm' Ho Ha Hcs. apply Hfr; [done..|]. cbn [dev set_dev]. apply (bTruncate_keeps _ _ _ _ _ _ Ht); [done|lia|done].
Qed.
Lemma grow_extends_witness :
  exists d', let sb' := set_geometry fresh_sb 49664 4 in
    Grow (49664 * 4096) (mkFS (initWorld (blankdev (2 ^ 27))) 0 fresh_sb) = (Ret tt, mkFS (initWorld d') 0 sb') /\ agContract sb' 3 d' /\ agLength sb' 3 = 512.
Proof.
  assert (formattedFS fresh_sb) as F.
  { apply (formatSB_fs (2 ^ 27) (mkFormatConfig (replicate 16 7) [] true (mkQuotaConfig false false false false)) (replicate 16 7));
      [split; vm_compute; congruence|split; [reflexivity|apply (bool_decide_unpack _); vm_compute; exact I]|constructor]. }
  destruct (grow_extends fresh_sb (49664 * 4096) (initWorld (blankdev (2 ^ 27))) F) as (_ & _ & H); [lia|].
  destruct (H eq_refl ltac:(vm_compute; reflexivity) ltac:(vm_compute; congruence) (snd (bTruncate (blankdev (2 ^ 27)) (49664 * 4096)))) as (d' & E & Ha & _); [reflexivity|intros d; exists d; reflexivity|].
  exists d'. cbv zeta. split_and!; [exact E|apply (Ha 3); vm_compute; split; congruence|vm_compute; reflexivity].
Defined.
