(* ===== verification/FilesSpec.v ===== *)
(** * Files in the root directory: theorems

    A filesystem as [Format] leaves it and as it is once files have been written to its root
    directory: what the image holds then ([holds]), that [Format] and [WriteFile]
    establish it, and what [ReadFile] and [ListDir] return from it. *)
From S2P Require Import Prelude Bytes Crc Writers Extent Device SparseDev Superblock SafeIO Inode FileRead Dir SfDir Lookup AgBlocks Zones AllocTree Alloc AllocLeaf AllocSpec InodeAlloc InodeSpec Refcount FileWrite FileWriteSpec LeafDir DirUpdate Namespace Attr Quota Format FormatSpec SuperblockSpec FreshInode Fs ImageSpec.

(** ** Paths of one component *)
Definition name_ok (s : bytes) : Prop := isbytes s /\ 1 <= zlen s <= 255 /\ s <> dot /\ s <> dotdot /\ ~ In slash s.
Lemma split_word s : ~ In slash s -> splitSlash s = [s].
Proof.
  induction s as [|c s IH]; intros Hs; [done|]. cbn [splitSlash]. rewrite (proj2 (Z.eqb_neq c slash)) by (intros ->; apply Hs, in_eq).
  by rewrite IH by (intros H; apply Hs; by apply in_cons).
Qed.
Lemma pathSplit_word s : ~ In slash s -> pathSplit s = ([], s).
Proof.
  induction s as [|c s IH]; intros Hs; [done|]. cbn [pathSplit]. rewrite IH by (intros H; apply Hs; by apply in_cons).
  by rewrite (proj2 (Z.eqb_neq c slash)) by (intros ->; apply Hs, in_eq).
Qed.
Section Name.
Context (s : bytes) (Hs : name_ok s).
Lemma name_nonempty : s <> [].
Proof. destruct Hs as (_ & L & _). intros E. rewrite E in L. unfold zlen in L. cbn in L. lia. Qed.
Lemma clean_name : pathClean (slash :: s) = slash :: s.
Proof.
  destruct Hs as (_ & _ & Hd & Hdd & Hn). unfold pathClean, cleanParts. cbn [rooted]. rewrite Z.eqb_refl. f_equal.
  cbn [splitSlash]. rewrite Z.eqb_refl, (split_word s Hn). cbn [fold_left]. unfold cleanStep.
  rewrite (bool_decide_eq_true_2 ([] = [])), (bool_decide_eq_false_2 (s = [])), (bool_decide_eq_false_2 (s = dot)), (bool_decide_eq_false_2 (s = dotdot)) by (done || apply name_nonempty). done.
Qed.
Lemma parent_of_name : parentAndName (slash :: s) = ([slash], s).
Proof. destruct Hs as (_ & _ & _ & _ & Hn). unfold parentAndName. cbn [pathSplit]. rewrite (pathSplit_word s Hn), Z.eqb_refl. done. Qed.
Lemma lookup_name {SIO : SafeIO} {D} {Dev : Device D} (d : D) partOff sb root :
  readInode d partOff sb (rootIno sb) = Ret root ->
  (forall e, lookupInDir d partOff sb root s = Fail e -> pathLookup d partOff sb (slash :: s) = Fail e) /\
  (forall ino i, lookupInDir d partOff sb root s = Ret ino -> readInode d partOff sb ino = Ret i -> isSymlink i = false ->
    pathLookup d partOff sb (slash :: s) = Ret i).
Proof.
  intros Hr. destruct Hs as (_ & _ & Hd & Hdd & Hn).
  unfold pathLookup. change (Z.to_nat (maxSymlinkDepth + 1)) with (S (Z.to_nat maxSymlinkDepth)). cbn [pathLookupResolve].
  change (maxSymlinkDepth <=? 0) with false. cbv iota. rewrite clean_name, Hr. ostep.
  rewrite (bool_decide_eq_false_2 (slash :: s = [slash])) by (intros [= E]; by apply name_nonempty). rewrite (bool_decide_eq_false_2 (slash :: s = dot)) by done. cbn [orb].
  cbn [trimSlash]. rewrite Z.eqb_refl, (split_word s Hn). cbn [walkParts].
  split; [intros e ->; done|]. intros ino i -> Hi Hl. ostep. rewrite Hi. ostep. by rewrite Hl.
Qed.
End Name.

Lemma lookup_root {SIO : SafeIO} {D} {Dev : Device D} (d : D) partOff sb root :
  readInode d partOff sb (rootIno sb) = Ret root -> pathLookup d partOff sb [slash] = Ret root.
Proof. intros Hr. unfold pathLookup. change (Z.to_nat (maxSymlinkDepth + 1)) with (S (Z.to_nat maxSymlinkDepth)). cbn [pathLookupResolve]. by rewrite Hr. Qed.

(** ** The bitmap of a chunk filled from below *)
Lemma map_bit m j : 0 <= m <= 64 -> 0 <= j -> Z.testbit (2 ^ 64 - 2 ^ m) j = (m <=? j) && (j <? 64).
Proof.
  intros Hm Hj. replace (2 ^ 64 - 2 ^ m) with (Z.shiftl (Z.ones (64 - m)) m).
  2:{ rewrite Z.shiftl_mul_pow2, Z.ones_equiv by lia. rewrite <- Z.sub_1_r, Z.mul_sub_distr_r, <- Z.pow_add_r by lia. f_equal; [f_equal|]; lia. }
  rewrite Z.shiftl_spec by done. destruct (Z.leb_spec m j); cbn [andb].
  - destruct (Z.ltb_spec j 64); [apply Z.ones_spec_low|apply Z.ones_spec_high]; lia.
  - apply Z.testbit_neg_r. lia.
Qed.
Lemma map_take m : 0 <= m < 64 -> Z.ldiff (2 ^ 64 - 2 ^ m) (2 ^ m) = 2 ^ 64 - 2 ^ (m + 1).
Proof.
  intros Hm. apply Z.bits_inj'. intros j Hj. rewrite Z.ldiff_spec, !map_bit, Z.pow2_bits_eqb by lia.
  destruct (Z.leb_spec m j), (Z.eqb_spec m j), (Z.leb_spec (m + 1) j), (Z.ltb_spec j 64); cbn; lia || done.
Qed.

(** ** Taking inodes and blocks of group 0 *)
Section Image.
Context {SIO : SafeIO} {SL : SafeIOLaws SIO} {D : Type} {Dev : Device D} {DL : DeviceLaws D} {DR : DeviceReliable D}.
Context (sb : superblock) (F : formattedFS sb).
Let F0 : formatted sb := ff_fmt _ F.
Let root := rootIno sb.
(** The first block behind the metadata of group 0. *)
Definition dataStart : Z := freeStart (fmtAGLayoutFor 0 (agCount sb) (hasReflink sb)).
Lemma image_facts :
  0 < agCount sb < 2 ^ 32 /\ blockSize sb = 4096 /\ sectSize sb = 512 /\ inodeSize sb = 512 /\
  agFByteOffset sb 0 0 = 512 /\ agIByteOffset sb 0 0 = 1024 /\
  exists c, root = c * 8 /\ 2568 <= c <= 2572 /\ dataStart = c + 8.
Proof.
  pose proof (w_agc _ (fm_width _ F0)). pose proof (g_agc _ (fm_geom _ F0)). destruct (fmt_sectors sb F0 0 ltac:(lia)) as (E1 & E2 & _ & _ & E3).
  split_and!; [lia|lia|apply F0|exact E3|apply F|exact E1|exact E2|]. unfold root, dataStart. rewrite (ff_root _ F). unfold fmtRootIno, fmtInopBlock.
  destruct (hasReflink sb); eexists; (split; [reflexivity|]); vm_compute; intuition congruence.
Qed.
Lemma abs_block s : 0 <= s < 16384 -> agAbsBlock sb 0 s = s /\ blockByteOffset 0 sb s = Ret (s * 4096).
Proof.
  intros Hs. destruct image_facts as (Ha & _). assert (agAbsBlock sb 0 s = s) as E.
  { unfold agAbsBlock. rewrite (fm_abl _ F0). reflexivity. }
  split; [done|]. pose proof (proj1 (fmt_block sb F0 0 ltac:(lia) s Hs)) as B. rewrite E in B. exact B.
Qed.

Lemma take_inode t ofuel now d agi leaf k :
  0 <= k < 61 -> inobt_view sb 0 0 3 12288 d agi leaf 1 -> chunkAt sb leaf 0 = mkChunk root (61 - k) (2 ^ 64 - 2 ^ (3 + k)) ->
  exists d' agi' leaf', allocInode 0 sb (S t) ofuel now 0 (initWorld d) = (Ret (root + (3 + k)), initWorld d') /\
    inobt_view sb 0 0 3 12288 d' agi' leaf' 1 /\ chunkAt sb leaf' 0 = mkChunk root (61 - (k + 1)) (2 ^ 64 - 2 ^ (3 + (k + 1))) /\
    keeps [(1024, 512); (12288, 4096)] d d'.
Proof.
  intros Hk V Hc. destruct image_facts as (Ha & Hbs & Hss & His & OF & OI & c & Hroot & Hcr & _).
  assert (agi_zones sb 0 0 3 12288) as Zn.
  { constructor; rewrite ?Hss, ?OI, ?Hbs; [lia|lia| |unfold apartZ; lia]. rewrite (proj1 (abs_block 3 ltac:(lia))). exact (proj2 (abs_block 3 ltac:(lia))). }
  assert (2 ^ (3 + k) < 2 ^ 64) as Hp by (apply Z.pow_lt_mono_r; lia).
  assert (0 < 2 ^ (3 + k)) as Hp0 by (apply Z.pow_pos_nonneg; lia).
  destruct (allocInode_view sb 0 0 3 12288 Zn 1 t ofuel now (initWorld d) agi leaf 0 V) as (d' & agi' & leaf' & E & V' & U & _ & Kp).
  { split; [lia|]. rewrite Hc. cbn [cfree]. split; [lia|intros; lia]. }
  { rewrite Hc. cbn [cmap]. lia. }
  { rewrite Hc. cbn [cstart]. lia. }
  specialize (U 0 ltac:(lia)). rewrite Z.eqb_refl in U. rewrite Hc in E, U. cbn [cmap cstart cfree] in E, U.
  destruct (first_free (2 ^ 64 - 2 ^ (3 + k))) as (Hb & Ht & Hl); [lia|lia|]. set (b := firstBit 64 (2 ^ 64 - 2 ^ (3 + k)) 0) in *. clearbody b.
  assert (b = 3 + k) as Eb.
  { rewrite map_bit in Ht by lia. destruct (Z.leb_spec (3 + k) b); [|done]. destruct (Z.eq_dec b (3 + k)) as [|Hne]; [done|].
    specialize (Hl (3 + k) ltac:(lia)). rewrite map_bit, Z.leb_refl, (proj2 (Z.ltb_lt (3 + k) 64)) in Hl by lia. done. }
  clear Ht Hl Hb. subst b. rewrite map_take in U by lia. exists d', agi', leaf'. rewrite OI, Hss, Hbs in Kp. split_and!; [|done| |exact Kp].
  - rewrite E. f_equal. f_equal. pose proof (fm_width _ F0) as W. pose proof (fm_geom _ F0) as G.
    assert (inoShift sb = 17) as E17 by (unfold inoShift; rewrite (fm_abl _ F0), (proj2 (ff_ipb _ F)); done).
    rewrite (inoFromAGRel_eq sb W G) by (rewrite ?E17; lia). rewrite E17. lia.
  - rewrite U, u32_small by lia. f_equal; [lia|]. do 2 f_equal. lia.
Qed.

Definition freeRun (s : Z) : list arec := if s =? 16384 then [] else [(s, 16384 - s)].
Lemma take_blocks t ofuel d agf s n :
  0 < n -> dataStart <= s -> s + n <= 16384 -> ag_view sb 0 0 1 2 4096 8192 d agf (freeRun s) (freeRun s) ->
  exists d' agf', allocBlocks 0 sb (S t) (S ofuel) 0 n (initWorld d) = (Ret s, initWorld d') /\
    ag_view sb 0 0 1 2 4096 8192 d' agf' (freeRun (s + n)) (freeRun (s + n)) /\ keeps [(512, 512); (4096, 4096); (8192, 4096)] d d'.
Proof.
  intros Hn Hs Hfit V. destruct image_facts as (Ha & Hbs & Hss & His & OF & OI & c & Hroot & Hcr & Hds).
  assert (ag_zones sb 0 0 1 2 4096 8192) as Zn.
  { constructor; rewrite ?Hss, ?OF, ?Hbs; [lia|lia| | |unfold apartZ; lia..];
      [rewrite (proj1 (abs_block 1 ltac:(lia))); exact (proj2 (abs_block 1 ltac:(lia)))|rewrite (proj1 (abs_block 2 ltac:(lia))); exact (proj2 (abs_block 2 ltac:(lia)))]. }
  unfold freeRun in V. rewrite (proj2 (Z.eqb_neq s 16384)) in V by lia.
  assert (free_ok [(s, 16384 - s)] [(s, 16384 - s)]) as Fo by (apply trees_single; unfold run_ok; cbn [fst snd]; lia).
  set (w1 := set_opDepth 1 (initWorld d)).
  destruct (allocBody_view sb 0 0 1 2 4096 8192 Zn t w1 agf [] [] [] [] [] s (16384 - s) n V Fo) as (agf' & C' & (d' & E & V' & Fr) & F' & _ & _); [|done|].
  { assert ((n <=? 16384 - s) = true) as E by lia. cbn [cut app]. cbv beta. cbn [snd]. by rewrite E. }
  assert (C' = freeRun (s + n)) as ->.
  { pose proof (fo_perm _ _ _ F') as P. cbn [app] in P. rewrite app_nil_r in P. symmetry in P. unfold takeFront, freeRun in *. cbn [fst snd] in *.
    destruct (Z.eqb_spec (16384 - s - n) 0), (Z.eqb_spec (s + n) 16384); try lia; [by apply Permutation_nil_r in P|].
    apply Permutation_singleton_r in P. rewrite P. do 2 f_equal. lia. }
  assert (takeFront n (s, 16384 - s) = freeRun (s + n)) as EB.
  { unfold takeFront, freeRun. cbn [fst snd]. destruct (Z.eqb_spec (16384 - s - n) 0), (Z.eqb_spec (s + n) 16384); try lia; [done|]. do 2 f_equal. lia. }
  cbn [app] in V'. rewrite app_nil_r, EB in V'. exists d', agf'. split_and!; [|exact V'|].
  - cbn [allocBlocks allocOps opAlloc]. rewrite (proj1 (abs_block s ltac:(lia))) in E. eapply withOp_quiet. exact E.
  - intros o m cs Hm Hz. rewrite !Forall_cons in Hz. cbn [fst snd] in Hz. destruct Hz as (Z1 & Z2 & Z3 & _). apply Fr; [done|..]; rewrite ?OF, ?Hss, ?Hbs; done.
Qed.

(** ** The counters of the superblock *)
Lemma for_total {A} (f : Z -> A -> outcome A) k i a : (forall j a, i <= j < i + Z.of_nat k -> exists a', f j a = Ret a') -> exists a', for_acc k i a f = Ret a'.
Proof.
  revert i a. induction k as [|k IH]; intros i a Hf; cbn [for_acc]; [by eexists|].
  destruct (Hf i a) as (a' & ->); [lia|]. ostep. apply IH. intros. apply Hf. lia.
Qed.
Definition headers_ok (d : D) (ag : Z) : Prop := exists agf agi,
  ReadAt d (ag * 2 ^ 26 + 512) 512 = Ret agf /\ dec 4 agf 0 = magicAGF /\ ReadAt d (ag * 2 ^ 26 + 1024) 512 = Ret agi /\ dec 4 agi 0 = magicAGI.
Definition sector_ok (d : D) : Prop := exists buf, ReadAt d 0 512 = Ret buf /\ parseSuperblock buf = Ret sb.
Lemma counts_ok d ag acc : 0 <= ag < agCount sb -> headers_ok d ag -> exists acc', addCounts 0 sb d ag acc = Ret acc'.
Proof.
  intros Hag (agf & agi & Rf & Mf & Ri & Mi). destruct (fmt_sectors sb F0 ag Hag) as (OF & OI & _ & _ & Ss). destruct acc as [[x y] z].
  pose proof (ReadAt_len _ _ 512 _ ltac:(lia) Rf). pose proof (ReadAt_len _ _ 512 _ ltac:(lia) Ri).
  assert (agfBlock 0 sb d ag = Ret agf) as Ef.
  { unfold agfBlock, readBytes, agfOffMagic. rewrite OF, Ss, Rf. ostep. rewrite be_get_ok by lia. ostep. by rewrite Mf. }
  assert (agiBlock 0 sb d ag = Ret agi) as Ei.
  { unfold agiBlock, readBytes, agiOffMagic. rewrite OI, Ss, Ri. ostep. rewrite be_get_ok by lia. ostep. by rewrite Mi. }
  unfold addCounts. rewrite Ef, Ei. ostep. unfold agfOffFreeBlks, agfOffFLCount, agfOffBtreeBlks, agiOffCount, agiOffFreeCount.
  rewrite !be_get_ok by lia. ostep. by eexists.
Qed.
Lemma sync_counts d :
  (forall ag, 0 <= ag < agCount sb -> headers_ok d ag) -> sector_ok d ->
  exists d', syncSuperblockCounts 0 sb (initWorld d) = (Ret tt, initWorld d') /\ sector_ok d' /\ keeps [(0, 512)] d d'.
Proof.
  intros Hh (buf & Rb & Hp). pose proof (ReadAt_len _ _ 512 _ ltac:(lia) Rb) as Lb. pose proof (ReadAt_isbytes _ _ _ _ Rb) as Bb.
  destruct (for_total (addCounts 0 sb d) (Z.to_nat (agCount sb)) 0 (0, 0, 0)) as ([[x y] z] & Ec).
  { intros j acc Hj. apply counts_ok; [lia|]. apply Hh. lia. }
  pose proof Hp as Hq. rewrite parseSuperblock_eq in Hq by done. destruct (Z.eqb_spec (dec 4 buf 0) magicSB) as [Em|]; [|done]. destruct (validateGeometry (decodeSB buf)) as [[]| | |] eqn:Ev; try done. injection Hq as Eq.
  assert (exists b, (b ← put64 buf sbOffIcount x; b ← put64 b sbOffIfree y; b ← put64 b sbOffFdblocks z; if hasCRC sb then updateCRC b sbOffCRC sbCRCLen else Ret b) = Ret b /\
    zlen b = 512 /\ isbytes b /\ parseSuperblock b = Ret sb) as (b & Eb & L & B & Hb).
  { rewrite (fm_crc _ F0). unfold sbOffIcount, sbOffIfree, sbOffFdblocks, sbOffCRC, sbCRCLen. wstep. wstep. wstep. wcrc. eexists. split_and!; [done|lia|wbytes|].
    rewrite parseSuperblock_eq by lia. match goal with |- context [decodeSB ?bq] => assert (dec 4 bq 0 = magicSB) as -> by (rdec; done); assert (decodeSB bq = decodeSB buf) as -> end.
    { unfold decodeSB. rslice. rdec. done. }
    change (magicSB =? magicSB) with true. cbv iota. by rewrite Ev, Eq. }
  destruct (write_zone (initWorld d) 0 512 buf b Rb L B) as (d' & Ew & Er & Fr). exists d'. split_and!; [|by exists b|].
  - unfold syncSuperblockCounts. rewrite (bindM_Ret _ _ _ (x, y, z) (initWorld d)) by (unfold readD; cbn [dev initWorld]; by rewrite Ec).
    rewrite (bindM_Ret _ _ _ buf (initWorld d)) by (unfold readD, readBytes; cbn [dev initWorld]; by rewrite Rb).
    destruct (put64 buf sbOffIcount x) as [b1| | |] eqn:E1; try done. cbn in Eb. rewrite (bindM_lift _ _ _ b1) by done.
    destruct (put64 b1 sbOffIfree y) as [b2| | |] eqn:E2; try done. cbn in Eb. rewrite (bindM_lift _ _ _ b2) by done.
    destruct (put64 b2 sbOffFdblocks z) as [b3| | |] eqn:E3; try done. cbn in Eb. rewrite (bindM_lift _ _ _ b3) by done.
    rewrite (bindM_lift _ _ _ b Eb). exact Ew.
  - intros o n cs Hn [Hz _]%Forall_cons. by apply Fr.
Qed.

(** ** Inodes *)
Lemma fresh_decode ino b len mode : fresh_raw b len mode -> decodeInode ino b = mkInode ino mode 1 0 0 0 0 b.
Proof.
  intros Fr. unfold decodeInode, nrext64. rewrite (fr_mode _ _ _ Fr), (fr_format _ _ _ Fr), (fr_version _ _ _ Fr), (fr_flags2 _ _ _ Fr), (fr_forkoff _ _ _ Fr).
  rewrite !(fr_zero _ _ _ Fr) by (rewrite !elem_of_cons; tauto). done.
Qed.
(** What a written inode reads back as: the CRC may differ. *)
Definition stamped (i i' : inode) : Prop := exists raw', i' = set_raw i raw' /\ zlen raw' = zlen (iraw i) /\
  forall o n, 176 <= o -> 0 <= n -> slice raw' o n = slice (iraw i) o n.
Lemma stamped_fork i i' : stamped i i' -> 176 <= zlen (iraw i) -> dataFork i' = dataFork i.
Proof.
  intros (raw' & -> & L & Hs) Hl. unfold dataFork, from, inodeCoreSize. cbn [iraw set_raw]. rewrite !sub_ok by lia. by rewrite L, Hs by lia.
Qed.
Definition slotOff (j : Z) : Z := (root + j) * 512.
Lemma slot_offset j : 0 <= j < 64 -> inodeByteOff sb 0 (root + j) = slotOff j.
Proof.
  intros Hj. destruct image_facts as (_ & _ & _ & _ & _ & _ & c & Hroot & Hcr & _). pose proof (img_slot sb F j Hj) as E. fold root in E. rewrite u64_small in E by lia. exact E.
Qed.
Lemma readInode_at d j i : 0 <= j < 64 -> readInode d 0 sb (root + j) = Ret i ->
  inode_wf sb i /\ ReadAt d (slotOff j) 512 = Ret (iraw i) /\ parseInode (root + j) (iraw i) = Ret i.
Proof.
  intros Hj Hr. destruct image_facts as (_ & _ & _ & His & _). pose proof (fm_geom _ F0) as G. unfold readInode, readBytes in Hr. rewrite (slot_offset j Hj), His in Hr.
  destruct (ReadAt d (slotOff j) 512) as [raw| | |] eqn:Er; try done. cbn in Hr.
  pose proof (ReadAt_len _ _ 512 _ ltac:(lia) Er) as Lr. pose proof (ReadAt_isbytes _ _ _ _ Er).
  pose proof Hr as Hq. rewrite parseInode_eq in Hq by (unfold inodeCoreSize; lia). destruct (_ =? _); [|done]. injection Hq as <-.
  cbn [iraw decodeInode]. split_and!; [|done|exact Hr]. split_and!; cbn [iraw decodeInode]; [done|lia|]. split; [unfold inodeCoreSize; cbn [iraw decodeInode]; lia|exact Hr].
Qed.
Lemma readInode_keeps d d' j i zs : 0 <= j < 64 -> keeps zs d d' -> Forall (fun z => apartZ (slotOff j) 512 z.1 z.2) zs ->
  readInode d 0 sb (root + j) = Ret i -> readInode d' 0 sb (root + j) = Ret i.
Proof.
  intros Hj Kp Hz Hr. destruct (readInode_at d j i Hj Hr) as (_ & Er & Ep). apply Kp in Er; [|lia|done].
  destruct image_facts as (_ & _ & _ & His & _). unfold readInode, readBytes. by rewrite (slot_offset j Hj), His, Er.
Qed.
Lemma put_inode d i j :
  0 <= j < 64 -> inode_wf sb i -> inum i = root + j -> (exists old, ReadAt d (slotOff j) 512 = Ret old) ->
  exists d' i', writeInode 0 sb i (initWorld d) = (Ret tt, initWorld d') /\ readInode d' 0 sb (root + j) = Ret i' /\ stamped i i' /\ keeps [(slotOff j, 512)] d d'.
Proof.
  intros Hj (Bi & Li & Hs) En (old & Ho). destruct image_facts as (_ & _ & _ & His & _).
  destruct (writeInode_read 0 sb i (initWorld d) old (fm_crc _ F0)) as (d' & raw' & Ew & Er & _ & Hraw & Fr);
    [rewrite His; done|done|done|apply Hs|rewrite En, (slot_offset j Hj), His; exact Ho|].
  rewrite En in Er, Fr. rewrite (slot_offset j Hj), His in Fr. exists d', (set_raw i raw'). split_and!; [exact Ew|exact Er| |].
  - destruct (readInode_at d' j _ Hj Er) as ((_ & L & _) & _). cbn [iraw set_raw] in L. exists raw'. split_and!; [done|lia|].
    intros o n H1 H2. apply Hraw; unfold inoOffCRC; lia.
  - intros o n cs Hn [Hz _]%Forall_cons. by apply Fr.
Qed.

(** The inode of a new file: empty, or with one extent. *)
Section New.
Context (ino mode : Z) (b : bytes) (Fr : fresh_raw b 512 mode).
Lemma new_empty : exists i1 i2,
  setInodeFormat (freshInode ino mode b) inodeFmtLocal = Ret i1 /\ setInodeSize i1 0 = Ret i2 /\
  inode_wf sb i2 /\ inum i2 = ino /\ imode i2 = mode /\ iformat i2 = inodeFmtLocal /\ isize i2 = 0.
Proof.
  destruct image_facts as (_ & _ & _ & His & _). pose proof (fr_len _ _ _ Fr) as L. pose proof (fr_bytes _ _ _ Fr) as B. unfold setInodeFormat, setInodeSize, freshInode, inoOffFormat, inoOffSize, inodeFmtLocal. cbn [iraw].
  destruct (set_byte_spec b 5 1) as (b1 & E1 & W1 & V1); [lia|]. pose proof (wrote_len _ _ _ _ W1).
  destruct (put_spec 8 b1 56 0) as (b2 & E2 & W2 & V2); [lia..|]. pose proof (wrote_len _ _ _ _ W2).
  exists (mkInode ino mode 1 0 0 0 0 b1), (mkInode ino mode 1 0 0 0 0 b2). cbn [inum imode iformat isize inBlocks inExts iforkOff iraw]. rewrite E1, E2. ostep. clear E1 E2. split_and!; try done.
  split_and!; cbn [iraw]; [wbytes|lia|]. pose proof (fresh_decode ino b _ _ Fr) as Ed. unfold decodeInode, nrext64 in Ed. injection Ed as E1 E2 E3 E4 E5 E6.
  apply sync_intro; unfold inodeCoreSize; cbn [iraw inum]; [lia|rdec; apply Fr|]. unfold decodeInode, nrext64. rdec. rewrite (fr_version _ _ _ Fr), (fr_flags2 _ _ _ Fr), (fr_zero _ _ _ Fr 76 4) by (rewrite !elem_of_cons; tauto). done.
Qed.
Lemma new_mapped abs n size : 0 <= n < 2 ^ 21 -> 0 <= abs < 2 ^ 52 -> 0 <= size < 2 ^ 64 -> exists i1 i2 i3 i4 i5,
  setInodeFormat (freshInode ino mode b) inodeFmtExtents = Ret i1 /\ setInodeSize i1 size = Ret i2 /\ setInodeNBlocks i2 n = Ret i3 /\
  setInodeNExtents i3 1 = Ret i4 /\ writeExtentList i4 [mkExtent 0 abs n false] = Ret i5 /\
  inode_wf sb i5 /\ inum i5 = ino /\ imode i5 = mode /\ iformat i5 = inodeFmtExtents /\ isize i5 = size /\ inBlocks i5 = n /\
  inlineExtents i5 = Ret [mkExtent 0 abs n false].
Proof.
  intros Hn Ha Hs. destruct image_facts as (_ & _ & _ & His & _). pose proof (fr_len _ _ _ Fr) as L. pose proof (fr_bytes _ _ _ Fr) as B.
  unfold setInodeFormat, setInodeSize, setInodeNBlocks, setInodeNExtents, freshInode, inoOffFormat, inoOffSize, inoOffNBlocks, inoOffNExtents, inodeFmtExtents. cbn [iraw].
  destruct (set_byte_spec b 5 2) as (b1 & E1 & W1 & V1); [lia|]. pose proof (wrote_len _ _ _ _ W1).
  destruct (put_spec 8 b1 56 size) as (b2 & E2 & W2 & V2); [lia..|]. pose proof (wrote_len _ _ _ _ W2).
  destruct (put_spec 8 b2 64 n) as (b3 & E3 & W3 & V3); [lia..|]. pose proof (wrote_len _ _ _ _ W3).
  destruct (put_spec 4 b3 76 1) as (b4 & E4 & W4 & V4); [lia..|]. pose proof (wrote_len _ _ _ _ W4).
  set (i4 := mkInode ino mode 2 size n 1 0 b4).
  destruct (writeExtentList_spec i4 [mkExtent 0 abs n false]) as (b5 & E5 & W5 & H5); cbn [iraw i4] in *; [wbytes|zl|]. change (zlen [mkExtent 0 abs n false]) with 1 in W5. pose proof (wrote_len _ _ _ _ W5).
  exists (mkInode ino mode 2 0 0 0 0 b1), (mkInode ino mode 2 size 0 0 0 b2), (mkInode ino mode 2 size n 0 0 b3), i4, (set_raw i4 b5).
  cbn [inum imode iformat isize inBlocks inExts iforkOff iraw set_raw i4]. rewrite E1, E2, E3, E4. ostep. clear E1 E2 E3 E4. split_and!; try done.
  - split_and!; cbn [iraw set_raw]; [wbytes|lia|]. pose proof (fresh_decode ino b _ _ Fr) as Ed. unfold decodeInode, nrext64 in Ed. injection Ed as E1 E2 E3 E4 E5' E6.
    apply sync_intro; unfold inodeCoreSize; cbn [iraw inum set_raw]; [lia|rdec; apply Fr|].
    unfold decodeInode, nrext64. rdec. rewrite (fr_version _ _ _ Fr), (fr_flags2 _ _ _ Fr). rewrite !Z.mod_small by lia. done.
  - apply inlineExtents_of; cbn [iraw inExts set_raw]; [done|change (zlen [mkExtent 0 abs n false]) with 1; lia|done|apply Forall_singleton; unfold extent_wf; cbn; lia|apply validate_one].
Qed.
End New.

(** ** What the image holds *)
Fixpoint used (fl : list (bytes * bytes)) : Z :=
  match fl with [] => 0 | f :: rest => blocksFor sb (zlen f.2) + used rest end.
Lemma used_app l k : used (l ++ k) = used l + used k.
Proof. induction l; cbn [app used]; lia. Qed.
Lemma blocks_cover n : 0 <= n <= 2 ^ 26 -> 0 <= blocksFor sb n <= 16384 /\ n <= blocksFor sb n * 4096 /\ (n = 0 -> blocksFor sb n = 0) /\ (0 < n -> 0 < blocksFor sb n).
Proof.
  intros Hn. destruct image_facts as (_ & Hbs & _). unfold blocksFor. rewrite Hbs, u64_small by lia.
  pose proof (Z.div_mod (n + 4096 - 1) 4096 ltac:(lia)). pose proof (Z.mod_pos_bound (n + 4096 - 1) 4096 ltac:(lia)). rewrite u32_small by lia. lia.
Qed.
Lemma used_range fl : Forall (fun f => zlen f.2 <= 2 ^ 26) fl -> 0 <= used fl.
Proof.
  induction 1 as [|f fl Hf _ IH]; cbn [used]; [lia|]. pose proof (zlen_nonneg f.2). destruct (blocks_cover (zlen f.2)); lia.
Qed.
Definition entries (fl : list (bytes * bytes)) : list dirEnt := imap (fun j f => mkDirEnt f.1 (root + (3 + Z.of_nat j)) 1) fl.
Lemma entries_snoc fl f : entries (fl ++ [f]) = entries fl ++ [mkDirEnt f.1 (root + (3 + zlen fl)) 1].
Proof. unfold entries. rewrite imap_app. cbn. by rewrite Nat.add_0_r. Qed.

(** The contents [data] of the file with inode [i], in blocks from [s] on. *)
Definition body_at (d : D) (i : inode) (s : Z) (data : bytes) : Prop :=
  let n := blocksFor sb (zlen data) in
  if zlen data =? 0 then iformat i = inodeFmtLocal /\ isize i = 0
  else iformat i = inodeFmtExtents /\ isize i = zlen data /\ inBlocks i = n /\ inlineExtents i = Ret [mkExtent 0 s n false] /\
       ReadAt d (s * 4096) (n * 4096) = Ret (padded sb n data).
Definition file_at (d : D) (j s : Z) (data : bytes) : Prop :=
  exists i, readInode d 0 sb (root + j) = Ret i /\ isRegular i = true /\ body_at d i s data.
Record holds (d : D) (fl : list (bytes * bytes)) : Prop := {
  ho_sector : sector_ok d;
  ho_heads ag : 0 < ag < agCount sb -> headers_ok d ag;
  ho_free : exists agf, ag_view sb 0 0 1 2 4096 8192 d agf (freeRun (dataStart + used fl)) (freeRun (dataStart + used fl));
  ho_inodes : exists agi leaf, inobt_view sb 0 0 3 12288 d agi leaf 1 /\ chunkAt sb leaf 0 = mkChunk root (61 - zlen fl) (2 ^ 64 - 2 ^ (3 + zlen fl));
  ho_slots j : 0 <= j < 64 -> exists b, ReadAt d (slotOff j) 512 = Ret b;
  ho_rest : exists b, ReadAt d ((dataStart + used fl) * 4096) ((16384 - (dataStart + used fl)) * 4096) = Ret b;
  ho_root : exists r ts, readInode d 0 sb (root + 0) = Ret r /\ isDir r = true /\ iformat r = inodeFmtLocal /\ iforkOff r = 0 /\ sf_dir sb (iraw r) inodeCoreSize ts (entries fl);
  ho_files pre f post : fl = pre ++ f :: post -> file_at d (3 + zlen pre) (dataStart + used pre) f.2
}.
(** The names and sizes that group 0 and the root inode have room for. *)
Record fits (fl : list (bytes * bytes)) : Prop := {
  ft_names : Forall (fun f => name_ok f.1) fl;
  ft_distinct : NoDup (map fst fl);
  ft_data : Forall (fun f => isbytes f.2 /\ zlen f.2 <= 2 ^ 26) fl;
  ft_inodes : zlen fl <= 61;
  ft_dir : 6 + sfBytes (hasFType sb) (entries fl) <= 336;
  ft_blocks : dataStart + used fl <= 16384
}.
Lemma fits_prefix fl k : fits (fl ++ k) -> fits fl.
Proof.
  intros [N U A I Di B]. rewrite map_app in U. apply NoDup_app in U as [U _]. apply Forall_app in N as [N _], A as [A A']. rewrite zlen_app in I. rewrite used_app in B. pose proof (zlen_nonneg k).
  assert (0 <= used k) by (apply used_range; eapply Forall_impl; [exact A'|]; cbv beta; tauto).
  constructor; [done|done|done|lia| |lia]. unfold entries in *. rewrite imap_app, sfBytes_app in Di.
  match type of Di with 6 + (_ + sfBytes _ ?l) <= _ => assert (0 <= sfBytes (hasFType sb) l) end; [|lia].
  match goal with |- 0 <= sfBytes ?h ?l => generalize l; intros l0; induction l0 as [|e l0 IH]; cbn [sfBytes]; [lia|]; unfold sfSize; pose proof (zlen_nonneg (ename e)); destruct h; cbn [Z.b2z]; lia end.
Qed.

(** ** Reading *)
Context (Hmax : 2 ^ 26 <= maxReadLimit sb).
Lemma body_reads d i s data : inode_wf sb i -> body_at d i s data -> isbytes data -> zlen data <= 2 ^ 26 -> dataStart <= s -> s + blocksFor sb (zlen data) <= 16384 ->
  readFileData d 0 sb i = Ret data.
Proof.
  intros (_ & Li & _) Hb Bd Ld Hs Hfit. destruct image_facts as (Ha & Hbs & _ & His & _ & _ & c & Hroot & Hcr & Hds). pose proof (zlen_nonneg data).
  destruct (blocks_cover (zlen data)) as (Hn & Hcov & _ & Hpos); [lia|]. unfold body_at in Hb. destruct (Z.eqb_spec (zlen data) 0) as [E0|Hne].
  - destruct Hb as [Ef Es]. unfold readFileData. rewrite Ef. change (inodeFmtLocal =? inodeFmtLocal) with true. cbv iota. unfold inlineData, dataFork, from, inodeCoreSize.
    rewrite sub_ok by lia. ostep. rewrite Es, zlen_slice, (proj2 (Z.ltb_ge _ _)) by lia. destruct data; [done|]. rewrite zlen_cons in E0. pose proof (zlen_nonneg data). lia.
  - destruct Hb as (Ef & Es & En & Ei & Er). destruct (abs_block s ltac:(specialize (Hpos ltac:(lia)); lia)) as [_ Hoff].
    eapply (readOne d 0 sb i s (blocksFor sb (zlen data)) (s * 4096) data (fm_geom _ F0)); try done; rewrite ?Hbs; try lia; [|exact Er].
    intros dd. unfold declaredBytes. rewrite Hbs, (ff_full _ F). rewrite (proj2 (Z.eqb_neq (agCount sb * 16384) 0)) by lia. cbn [orb]. change (4096 =? 0) with false. cbv iota.
    destruct (Z.ltb_spec ((2 ^ 63 - 1) / 4096) (agCount sb * 16384)) as [|Hlt]; intros [= <-]; [lia|]. change ((2 ^ 63 - 1) / 4096) with 2251799813685247 in Hlt. rewrite (i64_small (agCount sb * 16384)) by lia. rewrite i64_small by lia. lia.
Qed.
Lemma regular_not_symlink i : isRegular i = true -> isSymlink i = false.
Proof. unfold isRegular, isSymlink. intros ->%Z.eqb_eq. done. Qed.
Lemma match_imap (name : bytes) (g : nat -> Z) (fl : list (bytes * bytes)) :
  (name ∉ map fst fl -> firstMatch name (imap (fun j f => mkDirEnt f.1 (g j) 1) fl) = None) /\
  (forall pre data post, fl = pre ++ (name, data) :: post -> name ∉ map fst pre -> firstMatch name (imap (fun j f => mkDirEnt f.1 (g j) 1) fl) = Some (g (length pre))).
Proof.
  revert g. induction fl as [|f fl IH]; intros g; [split; [done|]; intros [|] ? ? ?; discriminate|]. cbn [imap map firstMatch ename eino].
  destruct (IH (fun j => g (S j))) as [I1 I2]. split.
  - intros [H1 H2]%not_elem_of_cons. rewrite (bool_decide_eq_false_2 _) by congruence. by apply I1.
  - intros [|p pre] data post; cbn [app map length]; intros [= -> ->] Hn; [by rewrite (bool_decide_eq_true_2 _)|].
    apply not_elem_of_cons in Hn as [H1 H2]. rewrite (bool_decide_eq_false_2 _) by congruence. by eapply I2.
Qed.
Lemma names_imap h (g : nat -> Z) (fl : list (bytes * bytes)) : map deName (map (toDirEntry h) (imap (fun j f => mkDirEnt f.1 (g j) 1) fl)) = map fst fl.
Proof. revert g. induction fl as [|f fl IH]; intros g; [done|]. cbn [imap map]. f_equal. exact (IH (fun j => g (S j))). Qed.
Lemma split_names (fl pre : list (bytes * bytes)) name data post : NoDup (map fst fl) -> fl = pre ++ (name, data) :: post -> name ∉ map fst pre.
Proof. intros Hn ->. rewrite map_app in Hn. apply NoDup_app in Hn as (_ & Hn & _). intros Hi. apply (Hn name Hi). cbn. apply elem_of_cons. by left. Qed.
Section Held.
Context (d : D) (fl : list (bytes * bytes)) (Hd : holds d fl) (Ft : fits fl).
Lemma root_dir : exists r, readInode d 0 sb (rootIno sb) = Ret r /\ isDir r = true /\
  (forall name, lookupInDir d 0 sb r name = match firstMatch name (entries fl) with Some ino => Ret ino | None => Fail ErrNotFound end) /\
  readDir d 0 sb r = Ret (map (toDirEntry (hasFType sb)) (entries fl)).
Proof.
  destruct (ho_root _ _ Hd) as (r & ts & Hr & Hdir & Hf & _ & Sd). rewrite Z.add_0_r in Hr. exists r. split_and!; [exact Hr|done|..].
  all: destruct (readInode_at d 0 r ltac:(lia)) as (Wf & _); [by rewrite Z.add_0_r|].
  all: destruct (dataFork_ok sb (fm_geom _ F0) r Wf) as (fork & Ef & _).
  - intros name. unfold lookupInDir. rewrite Hf. change (inodeFmtLocal =? inodeFmtLocal) with true. cbv iota. rewrite Ef. ostep. by eapply (sfLookup_at sb r).
  - unfold readDir. rewrite Hf. change (inodeFmtLocal =? inodeFmtLocal) with true. cbv iota. rewrite Ef. ostep. by eapply (sfReadDir_at sb r).
Qed.
Lemma held_lookup : forall name data, In (name, data) fl -> exists i, pathLookup d 0 sb (slash :: name) = Ret i /\ isRegular i = true /\ readFileData d 0 sb i = Ret data.
Proof.
  intros name data (pre & post & Efl)%in_split. destruct root_dir as (r & Hr & _ & Hl & _).
  destruct (ho_files _ _ Hd pre (name, data) post Efl) as (i & Hi & Hreg & Hb). cbn [snd] in Hb. destruct Ft as [N U A I _ B].
  pose proof (split_names fl pre name data post U Efl) as Hn. rewrite Efl in N, A, I, B. apply Forall_app in N as [_ [N _]%Forall_cons]. apply Forall_app in A as [A' [A _]%Forall_cons]. cbn [fst snd] in N, A.
  pose proof (proj2 (match_imap name (fun j => root + (3 + Z.of_nat j)) fl) pre data post Efl Hn) as Em. change (imap _ fl) with (entries fl) in Em.
  rewrite used_app in B. cbn [used snd] in B. rewrite zlen_app, zlen_cons in I. pose proof (zlen_nonneg pre).
  assert (Forall (fun f => zlen f.2 <= 2 ^ 26) pre) as A1 by (eapply Forall_impl; [exact A'|]; cbv beta; tauto). apply used_range in A1.
  assert (Forall (fun f => zlen f.2 <= 2 ^ 26) post) as A2 by (destruct Ft as [_ _ A0 _ _ _]; rewrite Efl in A0; apply Forall_app in A0 as [_ [_ A0]%Forall_cons]; eapply Forall_impl; [exact A0|]; cbv beta; tauto). apply used_range in A2.
  pose proof (zlen_nonneg post). assert (0 <= 3 + zlen pre < 64) as Hj by lia. destruct (readInode_at d _ i Hj Hi) as (Wf & _).
  exists i. split_and!; [|done|].
  - apply (proj2 (lookup_name name N d 0 sb r Hr)) with (ino := root + (3 + zlen pre)); [by rewrite Hl, Em|exact Hi|by apply regular_not_symlink].
  - destruct A as [A3 A4]. eapply body_reads; [exact Wf|exact Hb|done|done|lia|lia].
Qed.
Lemma held_absent name : name_ok name -> name ∉ map fst fl -> pathLookup d 0 sb (slash :: name) = Fail ErrNotFound.
Proof.
  intros N Hn. destruct root_dir as (r & Hr & _ & Hl & _). apply (proj1 (lookup_name name N d 0 sb r Hr)). rewrite Hl.
  pose proof (proj1 (match_imap name (fun j => root + (3 + Z.of_nat j)) fl) Hn) as Em. change (imap _ fl) with (entries fl) in Em. by rewrite Em.
Qed.
End Held.

(** ** Creating a file *)
Definition apartAll (o n : Z) (zs : list (Z * Z)) : Prop := Forall (fun z => apartZ o n z.1 z.2) zs.
Lemma free_keeps zs d d' agf B C : keeps zs d d' -> apartAll 512 512 zs -> apartAll 4096 4096 zs -> apartAll 8192 4096 zs ->
  ag_view sb 0 0 1 2 4096 8192 d agf B C -> ag_view sb 0 0 1 2 4096 8192 d' agf B C.
Proof.
  intros Kp Z1 Z2 Z3 [V1 V2 (bb & Vb & Vb') (cb & Vc & Vc')]. destruct image_facts as (_ & Hbs & Hss & _ & OF & _). rewrite OF, Hss, Hbs in *.
  constructor; rewrite ?OF, ?Hss, ?Hbs; [apply Kp; [lia|exact Z1|exact V1]|exact V2|exists bb|exists cb]; (split; [|assumption]); apply Kp; (assumption || lia).
Qed.
Lemma inobt_keeps zs d d' agi leaf n : keeps zs d d' -> apartAll 1024 512 zs -> apartAll 12288 4096 zs ->
  inobt_view sb 0 0 3 12288 d agi leaf n -> inobt_view sb 0 0 3 12288 d' agi leaf n.
Proof.
  intros Kp Z1 Z2 [V1 V2 V3 V4]. destruct image_facts as (_ & Hbs & Hss & _ & _ & OI & _). rewrite OI, Hss, Hbs in *.
  constructor; rewrite ?OI, ?Hss, ?Hbs; [apply Kp; (assumption || lia)|assumption|apply Kp; (assumption || lia)|assumption].
Qed.
Lemma headers_keep zs d d' ag : keeps zs d d' -> apartAll (ag * 2 ^ 26 + 512) 512 zs -> apartAll (ag * 2 ^ 26 + 1024) 512 zs -> headers_ok d ag -> headers_ok d' ag.
Proof. intros Kp Z1 Z2 (agf & agi & H1 & H2 & H3 & H4). exists agf, agi. split_and!; [apply Kp; (assumption || lia)|assumption|apply Kp; (assumption || lia)|assumption]. Qed.
Lemma body_keeps zs d d' i s data : keeps zs d d' -> Forall (fun z => apartZ (s * 4096) (blocksFor sb (zlen data) * 4096) z.1 z.2) zs -> zlen data <= 2 ^ 26 ->
  body_at d i s data -> body_at d' i s data.
Proof.
  intros Kp Hz Hl. pose proof (zlen_nonneg data). destruct (blocks_cover (zlen data)) as (Hn & _); [lia|]. unfold body_at. destruct (_ =? _); [done|].
  intros (H1 & H2 & H3 & H4 & H5). split_and!; try done. apply Kp; [lia|done|done].
Qed.
Lemma body_stamped d i i' s data : stamped i i' -> inode_wf sb i -> body_at d i s data -> body_at d i' s data.
Proof.
  intros St (_ & L & _). destruct image_facts as (_ & _ & _ & His & _). pose proof (stamped_fork i i' St ltac:(lia)) as Ef. destruct St as (raw' & -> & _).
  unfold body_at. cbn [iformat isize inBlocks set_raw]. destruct (_ =? _); [done|]. unfold inlineExtents at 2. rewrite Ef. cbn [inExts set_raw]. done.
Qed.
(** The body of a new file, from the inode buffer to the data blocks. *)
Lemma new_body t ofuel ino mode b d agf s data :
  fresh_raw b 512 mode -> isbytes data -> zlen data <= 2 ^ 26 -> dataStart <= s -> let n := blocksFor sb (zlen data) in s + n <= 16384 ->
  ag_view sb 0 0 1 2 4096 8192 d agf (freeRun s) (freeRun s) -> (exists old, ReadAt d (s * 4096) ((16384 - s) * 4096) = Ret old) ->
  exists d' i agf',
    (if zlen data =? 0 then
       newIn ← lift (setInodeFormat (freshInode ino mode b) inodeFmtLocal);
       lift (setInodeSize newIn 0)
     else
       absBlock ← allocAnyAG sb 0 (fun a => allocBlocks 0 sb (S t) (S ofuel) a n);
       newIn ← lift (setInodeFormat (freshInode ino mode b) inodeFmtExtents);
       newIn ← lift (setInodeSize newIn (zlen data));
       newIn ← lift (setInodeNBlocks newIn n);
       newIn ← lift (setInodeNExtents newIn 1);
       newIn ← lift (writeExtentList newIn [mkExtent 0 absBlock n false]);
       writeBlocksData 0 sb absBlock n data;;
       mret newIn) (initWorld d) = (Ret i, initWorld d') /\
    inode_wf sb i /\ inum i = ino /\ imode i = mode /\ body_at d' i s data /\
    ag_view sb 0 0 1 2 4096 8192 d' agf' (freeRun (s + n)) (freeRun (s + n)) /\
    keeps [(512, 512); (4096, 4096); (8192, 4096); (s * 4096, n * 4096)] d d'.
Proof.
  intros Fr Bd Ld Hs n Hfit V (old & Ho). destruct image_facts as (Ha & Hbs & Hss & His & OF & OI & c & Hroot & Hcr & Hds). pose proof (zlen_nonneg data).
  destruct (blocks_cover (zlen data)) as (Hn & Hcov & H0 & Hpos); [lia|]. fold n in Hn, Hcov, H0, Hpos. destruct (Z.eqb_spec (zlen data) 0) as [E0|Hne].
  - destruct (new_empty ino mode b Fr) as (i1 & i2 & E1 & E2 & Wf & En & Em & Ef & Es). exists d, i2, agf. rewrite (bindM_lift _ _ _ _ E1). split_and!; try assumption.
    + unfold lift. by rewrite E2.
    + unfold body_at. by rewrite E0.
    + rewrite (H0 E0), Z.add_0_r. exact V.
    + apply keeps_refl.
  - specialize (Hpos ltac:(lia)). destruct (take_blocks t ofuel d agf s n ltac:(lia) Hs Hfit V) as (d1 & agf' & Ea & V1 & K1).
    destruct (new_mapped ino mode b Fr s n (zlen data)) as (i1 & i2 & i3 & i4 & i5 & E1 & E2 & E3 & E4 & E5 & Wf & En & Em & Ef & Es & Eb & Ei); [lia..|].
    destruct (abs_block s ltac:(lia)) as [_ Hoff].
    destruct (writeBlocksData_spec 0 sb (fm_width _ F0) (fm_geom _ F0) ltac:(lia) s n (s * 4096) data) with (w := initWorld d1) as (d2 & Ew & Er & K2); rewrite ?Hbs; try done; try lia.
    { eexists. apply K1; [lia|repeat constructor; cbn [fst snd]; unfold apartZ; lia|]. rewrite <- (Z.add_0_r (s * 4096)). apply (ReadAt_sub d _ _ old 0 (n * 4096) Ho); lia. }
    rewrite Hbs in Er, K2. exists d2, i5, agf'. rewrite (bindM_Ret _ _ _ s (initWorld d1)) by (unfold allocAnyAG, catchM; by rewrite Ea).
    rewrite (bindM_lift _ _ _ _ E1), (bindM_lift _ _ _ _ E2), (bindM_lift _ _ _ _ E3), (bindM_lift _ _ _ _ E4), (bindM_lift _ _ _ _ E5), (bindM_Ret _ _ _ tt (initWorld d2)) by exact Ew.
    split_and!; [reflexivity|assumption..| | |].
    + unfold body_at. rewrite (proj2 (Z.eqb_neq _ _)) by lia. split_and!; assumption.
    + apply (free_keeps _ _ _ _ _ _ K2); [repeat constructor; cbn [fst snd]; unfold apartZ; lia..|exact V1].
    + exact (keeps_trans _ _ _ _ _ K1 K2).
Qed.

Lemma sfAdd_fields i ino name ft i' : addEntryToSFDir i ino name ft sb = Ret (Some i') ->
  inum i' = inum i /\ imode i' = imode i /\ iformat i' = iformat i /\ iforkOff i' = iforkOff i.
Proof.
  unfold addEntryToSFDir, setInodeSize. cbv zeta. intros H.
  repeat match type of H with
  | (?m ≫= _) = _ => destruct m eqn:?; cbn [mbind outcome_bind] in H; try discriminate
  | (if ?c then _ else _) = _ => destruct c; try discriminate
  | (match ?m with Some _ => _ | None => _ end) = _ => destruct m as [[? ?]|]; try discriminate
  end.
  injection H as <-. match goal with E : (put64 ?b ?o ?v ≫= _) = Ret _ |- _ => destruct (put64 b o v); cbn [mbind outcome_bind] in E; try discriminate; injection E as <- end. done.
Qed.
Lemma sf_dir_stamped r r' ts l : stamped r r' -> 176 <= zlen (iraw r) -> sf_dir sb (iraw r) inodeCoreSize ts l -> sf_dir sb (iraw r') inodeCoreSize ts l.
Proof.
  intros (raw' & -> & L & Hs) Hl [C I8 En R A]. cbn [iraw set_raw]. unfold inodeCoreSize, dec in *. constructor; unfold dec.
  - by rewrite Hs by lia.
  - by rewrite Hs by lia.
  - done.
  - by rewrite L.
  - apply (sf_at_shift 0 (iraw r)); [done|lia| |exact A]. intros. apply Hs; lia.
Qed.
(** The new entry in the root directory. *)
Lemma root_insert r ts l e :
  inode_wf sb r -> iforkOff r = 0 -> sf_dir sb (iraw r) inodeCoreSize ts l -> sf_ent e -> 6 + sfBytes (hasFType sb) (l ++ [e]) <= 336 ->
  exists r' ts', addEntryToSFDir r (eino e) (ename e) (eftype e) sb = Ret (Some r') /\ inode_wf sb r' /\ sf_dir sb (iraw r') inodeCoreSize ts' (l ++ [e]) /\
    inum r' = inum r /\ imode r' = imode r /\ iformat r' = iformat r /\ iforkOff r' = 0.
Proof.
  intros Wf Hf Sd He Hfit. destruct image_facts as (_ & _ & _ & His & _). assert (sfCap sb r = 336) as Hc by (unfold sfCap; rewrite Hf, His; done).
  rewrite sfBytes_app in Hfit. cbn [sfBytes] in Hfit.
  destruct (insert_spec sb (fm_geom _ F0) r Wf ts l e Sd He) as [_ Hi]; [rewrite Hc, His; unfold inodeCoreSize; lia|].
  destruct Hi as (r' & E & Wf' & _ & Sd'); [lia|]. destruct (sfAdd_fields _ _ _ _ _ E) as (E1 & E2 & E3 & E4). exists r'. eexists. split_and!; [exact E|exact Wf'|exact Sd'|done..|congruence].
Qed.
Lemma perm_mode perm : let m := fileMode perm 0x8000 in 0 <= m < 2 ^ 16 /\ Z.land m 0xF000 = 0x8000.
Proof.
  cbv zeta. unfold fileMode. change 0x1FF with (Z.ones 9). rewrite Z.land_ones by lia. pose proof (Z.mod_pos_bound perm (2 ^ 9) ltac:(lia)) as R. set (x := perm mod 2 ^ 9) in *. clearbody x.
  rewrite u16_small by lia. assert (Z.land x 0xF000 = 0) as E0.
  { apply Z.bits_inj'. intros j Hj. rewrite Z.land_spec, Z.bits_0. destruct (Z.ltb_spec j 9).
    - assert (j = 0 \/ j = 1 \/ j = 2 \/ j = 3 \/ j = 4 \/ j = 5 \/ j = 6 \/ j = 7 \/ j = 8) as Hc by lia. repeat destruct Hc as [->|Hc]; try subst j; apply andb_false_r.
    - rewrite (Z.bits_above_log2 x j); [done|lia|]. destruct (Z.eq_dec x 0) as [->|]; [cbn; lia|]. apply Z.log2_lt_pow2; [lia|]. apply Z.lt_le_trans with (2 ^ 9); [lia|]. apply Z.pow_le_mono_r; lia. }
  split; [|by rewrite Z.land_lor_distr_l, E0].
  assert (Z.land x 0x8000 = 0) as E8 by (rewrite <- (Z.land_diag 0x8000) at 1; change 0x8000 with (Z.land 0xF000 0x8000) at 1; rewrite !Z.land_assoc, E0; done).
  rewrite <- Z.lxor_lor, <- Z.add_nocarry_lxor by done. lia.
Qed.
Ltac zapart := unfold apartAll; repeat (apply List.Forall_cons; [cbn [fst snd]; unfold apartZ, slotOff; lia|]); apply List.Forall_nil.
(** Files stay when neither their slots nor their blocks are written. *)
Lemma files_keep zs d d' fl :
  keeps zs d d' -> fits fl -> (forall j, 3 <= j < 3 + zlen fl -> apartAll (slotOff j) 512 zs) ->
  (forall a n, dataStart <= a -> 0 <= n -> a + n <= dataStart + used fl -> apartAll (a * 4096) (n * 4096) zs) ->
  forall pre f post, fl = pre ++ f :: post -> file_at d (3 + zlen pre) (dataStart + used pre) f.2 -> file_at d' (3 + zlen pre) (dataStart + used pre) f.2.
Proof.
  intros Kp Ft Hsl Hbl pre f post Efl (i & H1 & H2 & H3). destruct Ft as [_ _ A I _ _]. rewrite Efl in A. apply Forall_app in A as [A1 [[_ A2] A3]%Forall_cons].
  assert (0 <= used pre) by (apply used_range; eapply Forall_impl; [exact A1|]; cbv beta; tauto). assert (0 <= used post) by (apply used_range; eapply Forall_impl; [exact A3|]; cbv beta; tauto).
  assert (used fl = used pre + (blocksFor sb (zlen f.2) + used post)) as Eu by (rewrite Efl, used_app; reflexivity). assert (zlen fl = zlen pre + (zlen post + 1)) as Ek by (rewrite Efl, zlen_app, zlen_cons; lia).
  pose proof (zlen_nonneg f.2). destruct (blocks_cover (zlen f.2)) as (Hnf & _); [lia|]. pose proof (zlen_nonneg pre). pose proof (zlen_nonneg post).
  exists i. split_and!; [|exact H2|].
  - apply (readInode_keeps d d' (3 + zlen pre) i zs ltac:(lia) Kp); [apply Hsl; lia|exact H1].
  - apply (body_keeps _ _ _ _ _ _ Kp); [apply Hbl; lia|exact A2|exact H3].
Qed.
Lemma root_ag : inoAG sb (root + 0) = 0.
Proof.
  destruct image_facts as (_ & _ & _ & _ & _ & _ & c & Hroot & Hcr & _). pose proof (fm_width _ F0) as W. pose proof (fm_geom _ F0) as G.
  assert (inoShift sb = 17) as E17 by (unfold inoShift; rewrite (fm_abl _ F0), (proj2 (ff_ipb _ F)); done).
  pose proof (proj1 (ino_decode sb W G ltac:(rewrite E17; lia) 0 root ltac:(lia) ltac:(rewrite E17; lia))) as E. rewrite (inoFromAGRel_eq sb W G) in E by (rewrite ?E17; lia). by rewrite Z.mul_0_l, Z.add_0_l in E; rewrite Z.add_0_r.
Qed.
Lemma createFile_holds t ofuel now clk perm d fl name data r :
  holds d fl -> fits (fl ++ [(name, data)]) -> readInode d 0 sb (root + 0) = Ret r ->
  exists d', createFile 0 sb (S t) (S ofuel) now clk r name data perm (initWorld d) = (Ret tt, initWorld d') /\ holds d' (fl ++ [(name, data)]).
Proof.
  intros Hd Ft Hr. pose proof (fits_prefix _ _ Ft) as Ft0. destruct image_facts as (Ha & Hbs & Hss & His & OF & OI & c & Hroot & Hcr & Hds).
  destruct Hd as [Hsec Hhd (agf & V) (agi & leaf & Vi & Hc) Hsl (rest & Hrest) (r0 & ts & Hr0 & Hdir & Hfm & Hfo & Sd) Hfl].
  rewrite Hr in Hr0. injection Hr0 as <-. destruct (readInode_at d 0 r ltac:(lia) Hr) as (Wr & _ & Ep).
  assert (inum r = root + 0) as Er by (destruct Wr as (_ & Lw & Sy); apply inode_sync_iff in Sy as (_ & _ & ->); cbn; rewrite parseInode_eq in Ep by (unfold inodeCoreSize; lia); destruct (_ =? _); [|done]; by injection Ep as <-).
  destruct Ft as [N U A I Di B]. apply Forall_app in N as [_ [N _]%Forall_cons], A as [A0 [[Bd Ld] _]%Forall_cons]. rewrite zlen_app in I. change (zlen [(name, data)]) with 1 in I. rewrite used_app in B. cbn [used fst snd] in *.
  set (k := zlen fl) in *. set (s := dataStart + used fl) in *. set (n := blocksFor sb (zlen data)) in *. pose proof (zlen_nonneg fl) as Hk. fold k in Hk. pose proof (zlen_nonneg data).
  assert (0 <= used fl) as Hu by (apply used_range; eapply Forall_impl; [exact A0|]; cbv beta; tauto). destruct (blocks_cover (zlen data)) as (Hn & _); [lia|]. fold n in Hn.
  (* the inode *)
  destruct (take_inode t (S ofuel) now d agi leaf k ltac:(lia) Vi Hc) as (d1 & agi1 & leaf1 & E1 & Vi1 & Hc1 & K1).
  destruct (perm_mode perm) as [Hm1 Hm2]. set (mode := fileMode perm 0x8000) in *.
  destruct (initInodeV3_spec clk (make_bytes 512) (root + (3 + k)) mode 1 (uuid sb) (zero_bytes 512)) as (b & E2 & Fr); [rewrite zero_len; lia|exact Hm1|exact (img_uuid sb F)|]. rewrite zero_len in Fr by lia.
  (* its contents *)
  destruct (new_body t ofuel (root + (3 + k)) mode b d1 agf s data Fr Bd Ld ltac:(lia) ltac:(lia)) as (d2 & i & agf2 & E3 & Wi & En & Em & Hb & V2 & K2).
  { apply (free_keeps _ _ _ _ _ _ K1); [zapart..|exact V]. }
  { exists rest. apply K1; [lia|zapart|exact Hrest]. }
  fold n in V2, K2.
  (* its slot and the directory *)
  destruct (put_inode d2 i (3 + k) ltac:(lia) Wi En) as (d3 & i' & E4 & Hi' & St & K3).
  { destruct (Hsl (3 + k) ltac:(lia)) as (old & Ho). exists old. apply K2; [lia|zapart|]. apply K1; [lia|zapart|exact Ho]. }
  assert (sf_ent (mkDirEnt name (root + (3 + k)) 1)) as He by (destruct N as (N1 & N2 & _); unfold sf_ent; cbn [ename eino eftype]; split_and!; (assumption || lia)).
  rewrite entries_snoc in Di. fold k in Di. cbn [fst] in Di.
  destruct (root_insert r ts (entries fl) (mkDirEnt name (root + (3 + k)) 1) Wr Hfo Sd He Di) as (r' & ts' & E5 & Wr' & Sd' & En' & Em' & Ef' & Eo'). cbn [ename eino eftype] in E5.
  destruct (put_inode d3 r' 0 ltac:(lia) Wr' ltac:(congruence)) as (d4 & r'' & E6 & Hr'' & St' & K4).
  { destruct (Hsl 0 ltac:(lia)) as (old & Ho). exists old. apply K3; [lia|zapart|]. apply K2; [lia|zapart|]. apply K1; [lia|zapart|exact Ho]. }
  exists d4. split.
  - unfold createFile, createInodeWithData. cbv zeta. fold mode. rewrite Er, root_ag, His.
    rewrite (bindM_Ret _ _ _ (root + (3 + k)) (initWorld d1)) by (unfold allocAnyAG, catchM; by rewrite E1).
    rewrite (bindM_lift _ _ _ _ E2), (bindM_Ret _ _ _ _ _ E3), (bindM_Ret _ _ _ _ _ E4).
    rewrite (bindM_Ret _ _ _ r' (initWorld d4)); [done|]. unfold addDirEntry. rewrite Hfm. change (inodeFmtLocal =? inodeFmtLocal) with true. cbv iota.
    rewrite (bindM_lift _ _ _ _ E5), (bindM_Ret _ _ _ _ _ E6). done.
  - pose proof (keeps_trans _ _ _ _ _ K3 K4) as K34. pose proof (keeps_trans _ _ _ _ _ K2 K34) as K24. pose proof (keeps_trans _ _ _ _ _ K1 K24) as KK. cbn [app] in K34, K24, KK.
    assert (used (fl ++ [(name, data)]) = used fl + n) as Eu by (rewrite used_app; cbn [used snd]; fold n; lia).
    assert (zlen (fl ++ [(name, data)]) = k + 1) as Ek by (rewrite zlen_app; reflexivity).
    constructor; rewrite ?Eu, ?Ek, ?Z.add_assoc; fold s.
    + destruct Hsec as (buf & H1 & H2). exists buf. split; [apply KK; [lia|zapart|exact H1]|exact H2].
    + intros ag Hag. apply (headers_keep _ _ _ _ KK); [zapart|zapart|by apply Hhd].
    + exists agf2. apply (free_keeps _ _ _ _ _ _ K34); [zapart..|exact V2].
    + exists agi1, leaf1. split; [apply (inobt_keeps _ _ _ _ _ _ K24); [zapart..|exact Vi1]|]. rewrite Hc1. f_equal. do 2 f_equal. lia.
    + intros j Hj. destruct (Z.eq_dec j 0) as [->|]; [eexists; by eapply readInode_at|]. destruct (Z.eq_dec j (3 + k)) as [->|].
      * eexists. apply K4; [lia|zapart|]. by eapply readInode_at.
      * destruct (Hsl j Hj) as (bj & Hbj). exists bj. apply KK; [lia|zapart|exact Hbj].
    + eexists. apply KK; [lia|zapart|]. replace ((s + n) * 4096) with (s * 4096 + n * 4096) by lia. apply (ReadAt_sub d _ _ rest _ _ Hrest); lia.
    + exists r'', ts'. destruct Wr' as (_ & Lr' & _). pose proof (sf_dir_stamped _ _ _ _ St' ltac:(lia) Sd') as Sd''. destruct St' as (raw' & -> & _).
      unfold isDir in *. cbn [imode iformat iforkOff set_raw] in *. rewrite Em', Ef'. rewrite entries_snoc. split_and!; assumption.
    + intros pre f post Efl. destruct post as [|y post _] using rev_ind.
      * apply app_inj_tail in Efl as [<- <-]. exists i'. split; [|split].
        -- apply (readInode_keeps d3 d4 (3 + k) i' _ ltac:(lia) K4); [zapart|exact Hi'].
        -- destruct St as (raw' & -> & _). unfold isRegular. cbn [imode set_raw]. rewrite Em, Hm2. reflexivity.
        -- apply (body_stamped _ _ _ _ _ St Wi). apply (body_keeps _ _ _ _ _ _ K34); [zapart|assumption|exact Hb].
      * rewrite app_comm_cons, app_assoc in Efl. apply app_inj_tail in Efl as [Efl <-].
        apply (files_keep _ _ _ fl KK Ft0) with (post := post); [intros; zapart|intros a m H1 H2 H3; fold s in H3; zapart|exact Efl|exact (Hfl pre f post Efl)].
Qed.

(** ** [WriteFile] *)
Lemma sync_holds d fl : holds d fl -> fits fl -> exists d', syncSuperblockCounts 0 sb (initWorld d) = (Ret tt, initWorld d') /\ holds d' fl.
Proof.
  intros [Hsec Hhd (agf & V) (agi & leaf & Vi & Hc) Hsl (rest & Hrest) (r & ts & Hr & Hroot) Hfl] Ft. destruct image_facts as (Ha & Hbs & Hss & His & OF & OI & c & Ec & Hcr & Hds).
  pose proof (ft_blocks _ Ft) as B. pose proof (ft_data _ Ft) as A. assert (0 <= used fl) as Hu by (apply used_range; eapply Forall_impl; [exact A|]; cbv beta; tauto).
  destruct (sync_counts d) as (d' & E & Hsec' & Kp); [|exact Hsec|].
  { intros ag Hag. destruct (Z.eq_dec ag 0) as [->|]; [|apply Hhd; lia]. exists agf, agi. change (0 * 2 ^ 26) with 0. rewrite !Z.add_0_l.
    destruct V as [V1 V2 _ _], Vi as [N1 N2 _ _]. rewrite OF, Hss in V1. rewrite OI, Hss in N1. split_and!; [exact V1|apply V2|exact N1|apply N2]. }
  exists d'. split; [exact E|]. constructor.
  - exact Hsec'.
  - intros ag Hag. apply (headers_keep _ _ _ _ Kp); [zapart|zapart|by apply Hhd].
  - exists agf. apply (free_keeps _ _ _ _ _ _ Kp); [zapart..|exact V].
  - exists agi, leaf. split; [apply (inobt_keeps _ _ _ _ _ _ Kp); [zapart..|exact Vi]|exact Hc].
  - intros j Hj. destruct (Hsl j Hj) as (b & Hb). exists b. apply Kp; [lia|zapart|exact Hb].
  - exists rest. apply Kp; [lia|zapart|exact Hrest].
  - exists r, ts. split; [|exact Hroot]. apply (readInode_keeps d d' 0 r _ ltac:(lia) Kp); [zapart|exact Hr].
  - intros pre f post Efl. apply (files_keep _ _ _ fl Kp Ft) with (post := post); [intros; zapart|intros; zapart|exact Efl|exact (Hfl pre f post Efl)].
Qed.
Context (Hquota : quotaFlags sb = 0).
Let fsOf (d : D) : xfsFS D := mkFS (initWorld d) 0 sb.
Lemma write_holds t ofuel now clk perm d fl name data :
  holds d fl -> fits (fl ++ [(name, data)]) ->
  exists d', WriteFile (S t) (S ofuel) now clk (slash :: name) data perm (fsOf d) = (Ret tt, fsOf d') /\ holds d' (fl ++ [(name, data)]).
Proof.
  intros Hd Ft. pose proof (fits_prefix _ _ Ft) as Ft0. pose proof (ft_names _ Ft) as N. apply Forall_app in N as [_ [N _]%Forall_cons]. cbn [fst] in N.
  pose proof (ft_distinct _ Ft) as U. rewrite map_app in U. apply NoDup_app in U as (_ & U & _).
  assert (name ∉ map fst fl) as Hn by (intros Hi; apply (U name Hi); cbn; apply elem_of_cons; by left).
  destruct (root_dir d fl Hd) as (r & Hr & Hdir & Hl & _).
  destruct (createFile_holds t ofuel now clk perm d fl name data r Hd Ft) as (d1 & E1 & H1); [by rewrite Z.add_0_r|].
  destruct (sync_holds d1 _ H1 Ft) as (d2 & E2 & H2). exists d2. split; [|exact H2].
  unfold WriteFile, mutate, onWorld, fsOf. cbn [partOffset fsb fworld].
  assert (afterMutation 0 sb (writeFile 0 sb (S t) (S ofuel) now clk (slash :: name) data perm) (initWorld d) = (Ret tt, initWorld d2)) as ->; [|done].
  unfold afterMutation. rewrite (bindM_Ret _ _ _ tt (initWorld d1)); [rewrite (bindM_Ret _ _ _ _ _ E2); unfold quotaRecompute; by rewrite Hquota|].
  unfold writeFile. rewrite (clean_name name N), (parent_of_name name N), (bool_decide_eq_false_2 (name = [])) by (by apply name_nonempty).
  rewrite (bindM_lift _ _ _ tt) by done. rewrite (bindM_Ret _ _ _ r (initWorld d)).
  2:{ unfold parentDir. rewrite (bindM_Ret _ _ _ r (initWorld d)) by (unfold readD; cbn [dev initWorld]; by rewrite (lookup_root d 0 sb r Hr)). rewrite Hdir. rewrite (bindM_lift _ _ _ tt) by done. done. }
  rewrite (bindM_Ret _ _ _ 0 (initWorld d)); [exact E1|].
  unfold catchM, readD. cbn [dev initWorld]. rewrite Hl. pose proof (proj1 (match_imap name (fun j => root + (3 + Z.of_nat j)) fl) Hn) as Em. change (imap _ fl) with (entries fl) in Em. rewrite Em.
  by rewrite (bool_decide_eq_true_2 (ErrNotFound = ErrNotFound)).
Qed.
(** All the files of a list, one after the other. *)
Fixpoint writeFiles (t ofuel : nat) (now : Z -> Z * Z) (clk : Z * Z) (perm : Z) (fl : list (bytes * bytes)) : M (xfsFS D) unit :=
  match fl with
  | [] => mret tt
  | f :: rest => WriteFile t ofuel now clk (slash :: f.1) f.2 perm;; writeFiles t ofuel now clk perm rest
  end.
Lemma writeFiles_holds t ofuel now clk perm d fl k :
  holds d fl -> fits (fl ++ k) -> exists d', writeFiles (S t) (S ofuel) now clk perm k (fsOf d) = (Ret tt, fsOf d') /\ holds d' (fl ++ k).
Proof.
  revert d fl. induction k as [|[name data] k IH]; intros d fl Hd Ft; cbn [writeFiles]; [exists d; rewrite app_nil_r; done|].
  replace (fl ++ (name, data) :: k) with ((fl ++ [(name, data)]) ++ k) in * by (rewrite <- app_assoc; done).
  destruct (write_holds t ofuel now clk perm d fl name data Hd (fits_prefix _ _ Ft)) as (d1 & E1 & H1). destruct (IH d1 _ H1 Ft) as (d2 & E2 & H2).
  exists d2. split; [|exact H2]. cbn [fst snd]. by rewrite (bindM_Ret _ _ _ _ _ E1).
Qed.
(** What the public reads return. *)
Lemma held_reads d fl : holds d fl -> fits fl ->
  (forall name data, In (name, data) fl -> ReadFile (slash :: name) (fsOf d) = (Ret data, fsOf d)) /\
  (forall name, name_ok name -> name ∉ map fst fl -> ReadFile (slash :: name) (fsOf d) = (Fail ErrNotFound, fsOf d)) /\
  ListDir [slash] (fsOf d) = (Ret (map (toDirEntry (hasFType sb)) (entries fl)), fsOf d).
Proof.
  intros Hd Ft. unfold ReadFile, ListDir, onWorld, readD, fsOf. cbn [partOffset fsb fworld dev initWorld]. split_and!.
  - intros name data Hin. destruct (held_lookup d fl Hd Ft name data Hin) as (i & -> & Hreg & Hrd). ostep. rewrite Hreg. ostep. by rewrite Hrd.
  - intros name N Hn. by rewrite (held_absent d fl Hd name N Hn).
  - destruct (root_dir d fl Hd) as (r & Hr & Hdir & _ & Hrd). rewrite (lookup_root d 0 sb r Hr). ostep. rewrite Hdir. ostep. by rewrite Hrd.
Qed.
End Image.

(** ** From [Format] on *)
Lemma drop_while_sub (p : Z -> bool) l : zlen (drop_while p l) <= zlen l /\ (isbytes l -> isbytes (drop_while p l)).
Proof.
  induction l as [|x l [IH1 IH2]]; cbn [drop_while]; [done|]. destruct (p x); [|done]. rewrite zlen_cons. split; [lia|]. intros [_ H]%Forall_cons. by apply IH2.
Qed.
Lemma reparsed_fs sb : formattedFS sb -> formattedFS (reparsed sb (label sb)).
Proof.
  intros F. pose proof (reparsed_formatted sb F) as F'. destruct F as [F0 I P R Fu [W G V Ro Sz Q [L B]]]. constructor; [exact F'|exact I|exact P|exact R|exact Fu|].
  constructor; [apply F'|apply F'|exact V|exact Ro|exact Sz|exact Q|].
  destruct (drop_while_sub label_pad (rev (label sb))) as [H1 H2]. cbn [label reparsed]. unfold trimRight, isbytes, zlen in *. rewrite length_rev in *. split; [lia|]. apply Forall_rev, H2, Forall_rev, B.
Qed.
Lemma fresh_holds {D} {Dev : Device D} {DL : DeviceLaws D} (sb0 : superblock) (d : D) all :
  let sb := reparsed sb0 (label sb0) in
  formattedFS sb0 -> image_view sb0 d -> ReadAt d 0 (agCount sb0 * 2 ^ 26) = Ret all -> holds sb d [].
Proof.
  intros sb FF [Iag (buf & Hp & Rb) (r & Hr & He) _] Hall. fold sb in Iag, Hr, Hp. pose proof (reparsed_fs sb0 FF) as F. fold sb in F.
  destruct (image_facts sb F) as (Ha & Hbs & Hss & His & OF & OI & c & Hroot & Hcr & Hds). change (agCount sb) with (agCount sb0) in Ha.
  assert (forall o n, 0 <= o -> 0 <= n -> o + n <= 2 ^ 26 -> exists b, ReadAt d o n = Ret b) as Hread.
  { intros o n Ho Hn Hle. exists (slice all o n). rewrite <- (Z.add_0_l o) at 1. apply (ReadAt_sub d 0 _ all o n Hall); lia. }
  destruct (Iag 0 ltac:(lia)) as (agf & agi & leaf & _ & V & _ & _ & _ & _ & Vi & Hc & _).
  rewrite (img_agLength sb F 0 (conj (Z.le_refl 0) (proj1 Ha))) in V. change (freeStart (fmtAGLayoutFor 0 (agCount sb) (hasReflink sb))) with (dataStart sb) in V.
  change (0 * 2 ^ 26 + 4096) with 4096 in V. change (0 * 2 ^ 26 + 8192) with 8192 in V. change (0 * 2 ^ 26 + 12288) with 12288 in Vi. change (0 =? 0) with true in Vi. cbv iota in Vi.
  constructor; cbn [used]; rewrite ?Z.add_0_r.
  - exists buf. split; [exact (Rb 0 ltac:(lia))|exact Hp].
  - intros ag Hag. change (agCount sb) with (agCount sb0) in Hag. destruct (Iag ag ltac:(lia)) as (agf' & agi' & leaf' & _ & [V1 V2 _ _] & _ & _ & _ & _ & [N1 N2 _ _] & _).
    destruct (fmt_sectors sb (ff_fmt _ F) ag) as (OF' & OI' & _); [change (agCount sb) with (agCount sb0); lia|]. rewrite OF', Hss in V1. rewrite OI', Hss in N1.
    exists agf', agi'. split_and!; [exact V1|apply V2|exact N1|apply N2].
  - exists agf. unfold freeRun. rewrite (proj2 (Z.eqb_neq _ _)) by lia. exact V.
  - exists agi, leaf. split; [exact Vi|]. rewrite (Hc eq_refl). rewrite (ff_root _ F). reflexivity.
  - intros j Hj. apply Hread; unfold slotOff; lia.
  - apply Hread; lia.
  - destruct He as (Hd & Hf & _ & Hfo & fork & Ef & Lf & D0 & D1). exists r, []. split; [exact Hr|]. split_and!; try assumption.
    destruct (readInode_at sb F d 0 r ltac:(lia)) as ((_ & Lr & _) & _); [rewrite Z.add_0_r; exact Hr|].
    unfold dataFork, from, inodeCoreSize in Ef. rewrite sub_ok in Ef by lia. injection Ef as <-. unfold dec in D0, D1. rewrite slice_slice in D0, D1 by lia.
    constructor; [exact D0|exact D1|constructor|cbn; unfold inodeCoreSize; lia|done].
  - intros [|] ? ? ?; discriminate.
Qed.

(** C1 (round trip).  The filesystem as a whole.  [Format] an image of any size, then
    [WriteFile] any list of files into its root directory, with distinct names and
    together no larger than what one allocation group and the root inode hold: every call succeeds, and
    afterwards [ReadFile] of each path returns exactly the bytes written to it, any
    other name is reported as not found, [ListDir] gives the names in the order of
    writing, and the superblock on the image still reads back. *)
Theorem files_roundtrip {SIO : SafeIO} {SL : SafeIOLaws SIO} {D} {Dev : Device D} {DL : DeviceLaws D} {DR : DeviceReliable D} {Bk : Backend D} {BL : BackendLaws D} {Gp : GptParser D} {GL : GptLaws D}
    (tfuel ofuel : nat) (now : Z -> Z * Z) (clk : Z * Z) (cfg : FormatConfig) (size : Z) (rnd : outcome bytes) (uu : bytes) (d d0 : D) (perm : Z) (fl : list (bytes * bytes)) :
  size mod 4096 = 0 -> fmtMinSize <= size < 2 ^ 58 ->
  (if bool_decide (cfgUUID cfg = replicate 16 0) then rnd else Ret (cfgUUID cfg)) = Ret uu -> uuid_ok uu -> isbytes (cfgLabel cfg) ->
  isZero (cfgQuota cfg) = true -> bTruncate d size = (Ret tt, d0) ->
  let sb := reparsed (formatSB size cfg uu) (take 12 (cfgLabel cfg)) in
  fits sb fl ->
  exists fs0 fs, Format (S tfuel) (S ofuel) now clk cfg size rnd (initWorld d) = (Ret fs0, fworld fs0) /\
    writeFiles (S tfuel) (S ofuel) now clk perm fl fs0 = (Ret tt, fs) /\
    (forall name data, In (name, data) fl -> ReadFile (slash :: name) fs = (Ret data, fs)) /\
    (forall name, name_ok name -> name ∉ map fst fl -> ReadFile (slash :: name) fs = (Fail ErrNotFound, fs)) /\
    (exists l, ListDir [slash] fs = (Ret l, fs) /\ map deName l = map fst fl) /\
    readSuperblock (dev (fworld fs)) 0 = Ret sb.
Proof.
  intros Hm Hs Hu Huu Hl Hq Ht sb Ft.
  destruct (format_image (S tfuel) (S ofuel) now clk cfg size rnd uu (initWorld d) d0 Hm Hs Hu Huu Hl Hq Ht) as (d1 & Ef & FF & _ & Iv & all & Hall).
  change (reparsed (formatSB size cfg uu) (label (formatSB size cfg uu))) with sb in Ef. pose proof (reparsed_fs _ FF) as F. change (reparsed (formatSB size cfg uu) (label (formatSB size cfg uu))) with sb in F.
  pose proof (fresh_holds _ d1 all FF Iv Hall : holds sb d1 []) as H0.
  destruct (writeFiles_holds sb F eq_refl tfuel ofuel now clk perm d1 [] fl H0 Ft) as (d2 & Ew & H2).
  destruct (held_reads sb F ltac:(by vm_compute) d2 fl H2 Ft) as (R1 & R2 & R3).
  exists (mkFS (initWorld d1) 0 sb), (mkFS (initWorld d2) 0 sb). split_and!; [exact Ef|exact Ew|exact R1|exact R2| |].
  - eexists. split; [exact R3|]. apply (names_imap _ (fun j => rootIno sb + (3 + Z.of_nat j))).
  - destruct (ho_sector _ _ _ H2) as (buf & Hb & Hp). unfold readSuperblock, readBytes. cbn [fworld dev initWorld]. rewrite Hb. exact Hp.
Qed.
Lemma files_roundtrip_witness :
  let cfg := mkFormatConfig (replicate 16 7) [65; 66] true (mkQuotaConfig false false false false) in
  let fl := [([97], replicate 5000 1); ([98; 99], []); ([100], [1; 2; 3])] in
  exists fs0 fs : xfsFS sparsedev, Format 1 1 (fun _ => (5, 0)) (5, 0) cfg (2 ^ 27) (Fail ErrIO) (initWorld (blankdev 0)) = (Ret fs0, fworld fs0) /\
    writeFiles 1 1 (fun _ => (5, 0)) (5, 0) 0x1A4 fl fs0 = (Ret tt, fs) /\
    ReadFile [slash; 97] fs = (Ret (replicate 5000 1), fs) /\ ReadFile [slash; 98; 99] fs = (Ret [], fs) /\ ReadFile [slash; 100] fs = (Ret [1; 2; 3], fs) /\
    ReadFile [slash; 98] fs = (Fail ErrNotFound, fs).
Proof.
  set (fl := [([97], replicate 5000 1); ([98; 99], []); ([100], [1; 2; 3])]).
  destruct (files_roundtrip 0 0 (fun _ => (5, 0)) (5, 0) (mkFormatConfig (replicate 16 7) [65; 66] true (mkQuotaConfig false false false false)) (2 ^ 27) (Fail ErrIO)
    (replicate 16 7) (blankdev 0) (snd (bTruncate (blankdev 0) (2 ^ 27))) 0x1A4 fl) as (fs0 & fs & E & Ew & R & Rn & _).
  - reflexivity.
  - vm_compute. split; congruence.
  - reflexivity.
  - split; [reflexivity|apply (bool_decide_unpack _); vm_compute; exact I].
  - apply (bool_decide_unpack _). vm_compute. exact I.
  - reflexivity.
  - reflexivity.
  - constructor.
    + repeat constructor; try (vm_compute; congruence); try (intros H; repeat (destruct H as [H|H]; [discriminate|]); exact H).
    + apply (bool_decide_unpack _). vm_compute. exact I.
    + apply (bool_decide_unpack _). vm_compute. exact I.
    + vm_compute. congruence.
    + vm_compute. congruence.
    + vm_compute. congruence.
  - exists fs0, fs. split_and!; [exact E|exact Ew|apply R; by left|apply R; right; by left|apply R; right; right; by left|].
    apply Rn; [|apply (bool_decide_unpack _); vm_compute; exact I].
    split_and!; try (vm_compute; congruence); [repeat constructor; vm_compute; congruence|intros [H|H]; [discriminate|exact H]].
Defined.
